(* ===== verification/_CoqProject ===== *)
-Q . S2P
Prelude.v
Machine.v
KString.v
Mp.v
Kernel.v
Locks.v
Kalloc.v
Proc.v
ProcSpec.v
Console.v
Vm.v
VmSpec.v
VmCopy.v
Random.v
Sched.v
SchedSpec.v
SchedLive.v
Sleeplock.v
Bio.v
BioSpec.v
Ide.v
IdeSpec.v
Log.v
LogSpec.v
TxnSpec.v
Fs.v
FsSpec.v
Pipe.v
PipeSpec.v
Kbd.v
ConsoleDev.v
File.v
FileSpec.v
Life.v
LifeSpec.v
Arg.v
Sysfile.v
Exec.v
Syscall.v
Apic.v
Spinlock.v
Main.v
Safe.v
Keeps.v
Threads.v
System.v
Boot.v
Ulib.v
Prog.v
Find.v
FindSpec.v
Umalloc.v
Grep.v
Text.v
Sh.v
ShRun.v
Mkfs.v
MkfsSpec.v
MkfsImage.v
NameSpec.v
BootFs.v
RootHole.v
