(* ===== verification/Prelude.v ===== *)
(** * A verification of a teaching kernel, its programs and its image builder

    The program is a small Unix for the 32-bit PC: a kernel with a lottery and
    a default scheduler that keeps performance metrics of its processes, the
    programs that run on it, and [mkfs], which builds its disk image. This
    library models it function by function and proves what its parts promise
    to each other. Paths below are under src/.

    ** How the program is modelled

    The kernel's functions are computations of the monad [M] (this file), called
    [K] over the record [kernel] ([Kernel.v]) of every static object of the C
    code. A computation returns ([Ok]), panics with its message ([Panic]),
    hands the processor over in [swtch] together with the continuation with
    which it resumes ([Swtch]), or waits for an event that a bound on its
    retries cut off ([Waiting]). Machine words are [Z] with the wrap-around of
    [u32], [i32] and [u8] written out; memory is a map from addresses to bytes;
    a pointer into a table is an index. User programs are trees of system calls
    ([Prog.v]).

    Specifications of kernel code are weakest preconditions: [wp] (this file)
    and [kwp] ([Locks.v]), which reads states up to the bookkeeping of locks
    that [acquire] and [release] restore; what may happen at a switch is a
    protocol, a parameter of both. A specification whose protocol allows no
    switch says that the code returns; one whose postcondition allows no return
    says that it gives up the processor. Panics are excluded by both.

    ** The parts and their files

    - The machine: [Machine.v] (param.h, memlayout.h, mmu.h, byte memory) and
      [KString.v] (string.c).
    - Processes: [Proc.v] and [Life.v] (proc.c), [Random.v] (random.c),
      [Sched.v] (the two schedulers of proc.c), with their specifications in
      [ProcSpec.v], [SchedSpec.v], [SchedLive.v] and [LifeSpec.v].
    - Locks: [Locks.v] is spinlock.c as the processor that runs it sees it,
      [Spinlock.v] the same code access by access on any number of processors,
      [Sleeplock.v] is sleeplock.c.
    - Memory: [Kalloc.v] (kalloc.c), [Vm.v] (vm.c), with [VmSpec.v] and
      [VmCopy.v].
    - The disk: [Bio.v] (bio.c, and memide.c as the instance of the class
      [DiskDriver]), [Ide.v] (ide.c, another instance, with the controller it
      programs), [BioSpec.v], [IdeSpec.v].
    - Files: [Log.v] (log.c), [Fs.v] (fs.c), [Pipe.v] (pipe.c), [File.v]
      (file.c), with [LogSpec.v], [TxnSpec.v], [FsSpec.v], [PipeSpec.v],
      [FileSpec.v] and [NameSpec.v].
    - Devices: [Console.v] and [ConsoleDev.v] (console.c, uart.c), [Kbd.v]
      (kbd.c, kbd.h), [Mp.v] (mp.c), [Apic.v] (lapic.c, ioapic.c, picirq.c).
    - System calls: [Arg.v] and [Syscall.v] (syscall.c, sysproc.c, trap.c),
      [Sysfile.v] (sysfile.c), [Exec.v] (exec.c), [Main.v] (main.c).
    - The running system: [Safe.v], [Keeps.v] and [Threads.v] prove that every
      kernel function keeps the invariant of the thread that runs it; [System.v]
      composes the threads and the scheduler into the step relation [step];
      [Boot.v] runs [main] from power-on to a state from which [step] may start.
    - User programs: [Ulib.v] (ulib.c, printf.c), [Umalloc.v] (umalloc.c),
      [Prog.v] (cat, echo, init, kill, ln, mkdir, rm, sleep, zombie), [Find.v]
      (find.c, ls.c) with [FindSpec.v], [Grep.v] (grep.c), [Text.v] (wc.c,
      uniq.c), [Sh.v] (the parser of sh.c) and [ShRun.v] (its [runcmd] and
      [main]).
    - The image builder: [Mkfs.v] (mkfs.c) with [MkfsSpec.v] and
      [MkfsImage.v]; [BootFs.v] joins it to the kernel, and [RootHole.v] shows
      where the two disagree.

    This file holds what all of them share: record update, the monads and their
    weakest preconditions, lemmas on lists and words, and tactics.

    ** What the theorems show

    - Whole system: in every run of [step], under either scheduler and whatever
      the processes do, pids are unique, processes have tickets, at most one
      process runs and no performance record is lost, until the 32-bit pid
      counter is used up ([System.v]). [main] brings the machine to the start of
      such a run, with the first process ready and every page of memory
      accounted for ([Boot.v]).
    - Storage: any operations through the buffer cache behave as on the bare
      disk; a commit is atomic under a power failure between any two block
      writes and recovery is idempotent; reads and writes through open files
      are those of a list of bytes; the image [mkfs] writes is a file system
      with the files given, and the kernel finds them in it by name; the
      interrupt-driven driver leaves the disk and the buffers as the driver
      that transfers at once.
    - Memory: pages are conserved; address spaces are copied, written and freed
      as a program sees them through the page table; [malloc] isolates blocks.
    - Scheduling: each ticket wins for exactly one number; a turn of the default
      scheduler serves everyone; spin locks exclude; a wakeup is not lost,
      however the locks of the sleeper and of the signaller interleave.
    - Programs: the shell's parser inverts printing, and the shell runs every
      command with the descriptors and waits it prescribes; grep's matcher
      decides its patterns; find, ls and cat print what the tree holds, for any
      options as they are written; printf and atoi agree.
    - Devices: typing a text on a US keyboard delivers it to the console; the date is not torn
      by the clock's update; interrupts are routed where they were enabled;
      [mpinit] counts the processors.
    - Where the code falls short of what it means to do, a theorem says so: a
      runnable process the lottery cannot reach, kill(0), a lock order that
      deadlocks, [wait] with the records full, a root directory whose entries
      fill its blocks, [mpinit] on an unknown entry, and the cases of grep, uniq and malloc
      in their files.

    ** Bounds

    A loop whose number of turns the data fixes (slots of a table, pages of a
    range, bytes of a count, buffers of a list) is a recursion on that number.
    The parser's recursion takes a bound on the length of the line, and
    [Sh.parse_terminates] shows it is enough for every line. Loops of user
    programs over their input take a bound that the theorems ask to exceed the
    input; the retries of [sleep] in a loop are bounded by [patience], an
    arbitrary number, and the theorems either hold for every value or end before
    it counts. The polls of a device end with the delay the device has left.

    ** What is not modelled

    - Kernel threads switch only in [swtch], on one processor; an interrupt
      arrives where [step] takes it, in user mode or in the scheduler, and not
      in the middle of a system call; its acknowledgement to the controller
      ([lapiceoi]) is left out of [trap]. Several processors appear in
      [Spinlock.v] alone, so [startothers] of main.c is not in [Main.v].
    - The FIFO form of the scheduler names fields that no file declares and
      does not compile.
    - bootasm.S, entry.S, entryother.S, initcode.S, trapasm.S, usys.S and
      swtch.S are assembly: the model begins at [main], and enters the kernel
      with a trap frame. bootmain.c runs before it, with the same controller.
    - [seginit], [tvinit] and [idtinit] fill tables that only the processor
      reads. [Main.v] leaves out the calls that program interrupt controllers;
      the functions called are in [Mp.v] and [Apic.v]. The serial line is taken
      to be present.
    - The controller of [Ide.v] is a model of the hardware behind the ports that
      ide.c uses; the other devices appear as the values they answer.
    - usertests.c, forktest.c, stressfs.c and the programs that measure the
      schedulers exercise the kernel and print; nothing depends on them.
    - Failures of [malloc], [fork] and [pipe] in the shell, and errors of the
      build machine on the image file, are taken not to happen. Devices read as
      empty in the tree that [cat], [find] and [ls] run against. *)
From stdpp Require Import base strings numbers gmap list.

Declare Scope kernel_scope.
Delimit Scope kernel_scope with kernel.
#[global] Open Scope Z_scope.
#[global] Open Scope kernel_scope.

Create HintDb kern.
Create Rewrite HintDb kmonad.

(** ** Functional record update *)

(** [eta] rebuilds a record from its projections; the update of one field is
    computed from it by abstracting over that field's projection. *)
Class Eta (R : Type) := eta : R → R.
Class Update {R T : Type} (proj : R → T) := upd : (T → T) → R → R.

Ltac solve_update :=
  lazymatch goal with
  | |- @Update ?R ?T ?proj =>
      let e := eval hnf in (@eta R _) in
      let b := eval pattern proj in e in
      lazymatch b with
      | ?body _ =>
          let u := eval cbv beta in (λ f : T → T, body (λ r : R, f (proj r))) in
          exact u
      end
  end.
#[export] Hint Extern 1 (Update _) => solve_update : typeclass_instances.

Notation "r <| f := v |>" := (upd (proj:=f) (λ _, v) r)
  (at level 1, left associativity, f at next level, v at level 200) : kernel_scope.
Notation "r <| f ::= g |>" := (upd (proj:=f) g r)
  (at level 1, left associativity, f at next level, g at level 200) : kernel_scope.

(** ** Machine integers

    A C integer is a [Z]; arithmetic whose width matters is followed by the
    conversion to the type it is stored in. *)

Definition u8 (x : Z) : Z := x mod 256.
Definition i8 (x : Z) : Z := (x + 128) mod 256 - 128.
Definition u16 (x : Z) : Z := x mod 65536.
Definition i16 (x : Z) : Z := (x + 32768) mod 65536 - 32768.
Definition u32 (x : Z) : Z := x mod 4294967296.
Definition i32 (x : Z) : Z := (x + 2147483648) mod 4294967296 - 2147483648.

Lemma u32_range x : 0 ≤ u32 x < 4294967296.
Proof. unfold u32. apply Z.mod_pos_bound. lia. Qed.

Lemma u8_range x : 0 ≤ u8 x < 256.
Proof. unfold u8. apply Z.mod_pos_bound. lia. Qed.

Lemma i32_range x : -2147483648 ≤ i32 x < 2147483648.
Proof. unfold i32. pose proof (Z.mod_pos_bound (x + 2147483648) 4294967296). lia. Qed.

Lemma u32_small x : 0 ≤ x < 4294967296 → u32 x = x.
Proof. apply Z.mod_small. Qed.

Lemma u8_small x : 0 ≤ x < 256 → u8 x = x.
Proof. apply Z.mod_small. Qed.

Lemma i32_small x : -2147483648 ≤ x < 2147483648 → i32 x = x.
Proof. intros. unfold i32. rewrite Z.mod_small; lia. Qed.

Lemma u32_idem x : u32 (u32 x) = u32 x.
Proof. unfold u32. by rewrite Z.mod_mod. Qed.

Lemma i32_u32 x : i32 (u32 x) = i32 x.
Proof. unfold i32, u32. by rewrite Zplus_mod_idemp_l. Qed.

Lemma u32_i32 x : u32 (i32 x) = u32 x.
Proof.
  unfold i32, u32. rewrite Zminus_mod_idemp_l.
  f_equal. lia.
Qed.

Lemma u32_add_l x y : u32 (u32 x + y) = u32 (x + y).
Proof. unfold u32. by rewrite Zplus_mod_idemp_l. Qed.

Lemma u32_add_r x y : u32 (x + u32 y) = u32 (x + y).
Proof. unfold u32. by rewrite Zplus_mod_idemp_r. Qed.

Lemma u32_sub_l x y : u32 (u32 x - y) = u32 (x - y).
Proof. unfold u32. by rewrite Zminus_mod_idemp_l. Qed.

Lemma u32_sub_r x y : u32 (x - u32 y) = u32 (x - y).
Proof. unfold u32. by rewrite Zminus_mod_idemp_r. Qed.

#[export] Hint Resolve u32_range i32_range u8_range : kern.

(** The truth value of a C integer. *)
Definition istrue (x : Z) : bool := negb (x =? 0).
Definition b2z (b : bool) : Z := if b then 1 else 0.

Lemma istrue_b2z b : istrue (b2z b) = b.
Proof. by destruct b. Qed.

(** ** The kernel monad

    A piece of kernel code runs from a state to one of four outcomes: it
    returns; it calls [panic], which never returns; it gives the processor away
    in [swtch], from which it resumes in whatever state the other threads have
    left; or it is in a waiting loop that has been woken up more often than the
    model follows (see [Patience] in [Proc.v]). *)

Inductive outcome (S A : Type) : Type :=
| Ok (a : A) (s : S)
| Panic (msg : string) (s : S)
| Swtch (s : S) (resume : S → outcome S A)
| Waiting (s : S).
Arguments Ok {_ _} _ _.
Arguments Panic {_ _} _ _.
Arguments Swtch {_ _} _ _.
Arguments Waiting {_ _} _.

Definition M (S A : Type) : Type := S → outcome S A.

Fixpoint obind {S A B} (f : A → M S B) (o : outcome S A) : outcome S B :=
  match o with
  | Ok a s => f a s
  | Panic e s => Panic e s
  | Swtch s r => Swtch s (λ s', obind f (r s'))
  | Waiting s => Waiting s
  end.

#[export] Instance M_ret {S} : MRet (M S) := λ A a s, Ok a s.
#[export] Instance M_bind {S} : MBind (M S) := λ A B f m s, obind f (m s).

Definition gets {S A} (f : S → A) : M S A := λ s, Ok (f s) s.
Definition modify {S} (f : S → S) : M S unit := λ s, Ok tt (f s).
Definition panic {S A} (msg : string) : M S A := λ s, Panic msg s.
Definition swtch {S} : M S unit := λ s, Swtch s (Ok tt).
Definition waiting {S A} : M S A := λ s, Waiting s.
Definition skip {S} : M S unit := λ s, Ok tt s.
Definition when {S} (b : bool) (m : M S unit) : M S unit := if b then m else skip.

Lemma bind_ok {S A B} (m : M S A) (f : A → M S B) s a s' :
  m s = Ok a s' → (m ≫= f) s = f a s'.
Proof. unfold mbind, M_bind. by intros ->. Qed.

Lemma bind_panic {S A B} (m : M S A) (f : A → M S B) s e s' :
  m s = Panic e s' → (m ≫= f) s = Panic e s'.
Proof. unfold mbind, M_bind. by intros ->. Qed.

Lemma bind_ok_inv {S A B} (m : M S A) (f : A → M S B) s b s' :
  (m ≫= f) s = Ok b s' → ∃ a s1, m s = Ok a s1 ∧ f a s1 = Ok b s'.
Proof. unfold mbind, M_bind. destruct (m s); naive_solver. Qed.

Section bind_rewrite.
Context {S B : Type}.
Implicit Types s : S.
Lemma bind_ret {A} (a : A) (f : A → M S B) s : (mret a ≫= f) s = f a s.
Proof. done. Qed.
Lemma bind_gets {A} (g : S → A) (f : A → M S B) s : (gets g ≫= f) s = f (g s) s.
Proof. done. Qed.
Lemma bind_modify g (f : unit → M S B) s : (modify g ≫= f) s = f tt (g s).
Proof. done. Qed.
Lemma bind_skip (f : unit → M S B) s : (skip ≫= f) s = f tt s.
Proof. done. Qed.
Lemma bind_panic_l {A} e (f : A → M S B) s : (panic e ≫= f) s = Panic e s.
Proof. done. Qed.
End bind_rewrite.
#[export] Hint Rewrite @bind_ret @bind_gets @bind_modify @bind_skip @bind_panic_l : kmonad.

(** Runs the state-free steps at the head of a computation. *)
Ltac mred := repeat first [progress autorewrite with kmonad | progress cbv beta iota delta [when]].

(** Takes one step of a monadic run whose head is known to return. *)
Ltac mstep H := rewrite (bind_ok _ _ _ _ _ H).
(** Inverts a successful run into its steps. *)
Ltac minv H :=
  let a := fresh "a" in let s := fresh "s" in let E := fresh "E" in
  apply bind_ok_inv in H; destruct H as (a & s & E & H).
(** Unfolds the state-free combinators of the monad. *)
Ltac munfold := unfold mbind, M_bind, mret, M_ret, gets, modify, panic, skip, when in *.

(** [f i; ...; f (i+n-1)]: the loop [for(j = i; j < i+n; j++) f(j)]. *)
Fixpoint for_up {St} (n i : nat) (f : nat → M St unit) : M St unit :=
  match n with
  | O => skip
  | S n' => f i;; for_up n' (S i) f
  end.

(** ** Table search: [for(p = tab; p < &tab[N]; p++) if(cond) goto found;] *)

Fixpoint find_idx {A} (P : A → bool) (l : list A) : option nat :=
  match l with
  | [] => None
  | x :: l' => if P x then Some 0%nat else S <$> find_idx P l'
  end.

Section find_idx.
Context {A : Type} (P : A → bool).
Implicit Types l : list A.

Lemma find_idx_Some l i :
  find_idx P l = Some i ↔
  ∃ x, l !! i = Some x ∧ P x = true ∧
       ∀ j y, (j < i)%nat → l !! j = Some y → P y = false.
Proof.
  revert i. induction l as [|x l IH]; intros i; simpl.
  - split; [done|]. intros (y & ? & _). by rewrite lookup_nil in *.
  - destruct (P x) eqn:Hx.
    + split.
      * intros [= <-]. exists x. split_and!; [done..|lia].
      * intros (y & Hy & HP & Hlt). destruct i as [|i]; [done|].
        specialize (Hlt 0%nat x ltac:(lia) eq_refl). congruence.
    + rewrite fmap_Some. split.
      * intros (j & (y & Hy & HP & Hlt)%IH & ->). exists y.
        split_and!; [done..|]. intros [|k] z Hk Hz; simpl in *; [congruence|].
        eapply Hlt; [|done]. lia.
      * intros (y & Hy & HP & Hlt). destruct i as [|i]; simpl in *; [congruence|].
        exists i. split; [|done]. apply IH. exists y. split_and!; [done..|].
        intros k z Hk Hz. apply (Hlt (S k) z); [lia|done].
Qed.

Lemma find_idx_None l :
  find_idx P l = None ↔ ∀ i x, l !! i = Some x → P x = false.
Proof.
  induction l as [|x l IH]; simpl.
  - split; [|done]. intros _ i y. by rewrite lookup_nil.
  - destruct (P x) eqn:Hx.
    + split; [done|]. intros H. specialize (H 0%nat x eq_refl). congruence.
    + rewrite fmap_None, IH. split.
      * intros H [|i] y Hy; simpl in *; [congruence|]. eauto.
      * intros H i y Hy. apply (H (S i) y Hy).
Qed.

Lemma find_idx_lt l i : find_idx P l = Some i → (i < length l)%nat.
Proof. intros (x & Hx & _)%find_idx_Some. by eapply lookup_lt_Some. Qed.
End find_idx.

(** ** Updates of one slot of a table *)

Lemma lookup_alter_list {A} (f : A → A) (l : list A) i j :
  alter f i l !! j = if decide (i = j) then f <$> l !! j else l !! j.
Proof.
  case_decide; subst.
  - apply list_lookup_alter_eq.
  - by apply list_lookup_alter_ne.
Qed.

Lemma alter_alter {A} (f g : A → A) (l : list A) i :
  alter f i (alter g i l) = alter (λ x, f (g x)) i l.
Proof. revert i. induction l as [|x l IH]; intros [|i]; cbn; f_equal; auto. Qed.

Lemma Forall_alter_iff {A} (P : A → Prop) (f : A → A) (l : list A) i :
  Forall P l → (∀ x, l !! i = Some x → P x → P (f x)) → Forall P (alter f i l).
Proof.
  rewrite !Forall_lookup. intros Hl Hf j x.
  rewrite lookup_alter_list. case_decide; subst.
  - intros (y & Hy & ->)%fmap_Some. eauto.
  - eauto.
Qed.

Lemma filter_all {A} (P : A → Prop) `{!∀ x, Decision (P x)} (l : list A) :
  Forall P l → filter P l = l.
Proof.
  induction 1 as [|x l Hx Hl IH]; [done|].
  rewrite filter_cons_True by done. by rewrite IH.
Qed.

Lemma filter_none {A} (P : A → Prop) `{!∀ x, Decision (P x)} (l : list A) :
  Forall (λ x, ¬ P x) l → filter P l = [].
Proof.
  induction 1 as [|x l Hx Hl IH]; [done|]. by rewrite filter_cons_False.
Qed.

Lemma filter_ext_in {A} (P Q : A → Prop) `{!∀ x, Decision (P x), !∀ x, Decision (Q x)} (l : list A) :
  (∀ x, x ∈ l → P x ↔ Q x) → filter P l = filter Q l.
Proof.
  induction l as [|x l IH]; intros HPQ; [done|].
  assert (P x ↔ Q x) by (apply HPQ; set_solver).
  destruct (decide (P x)); [rewrite !filter_cons_True by tauto|rewrite !filter_cons_False by tauto].
  - f_equal. apply IH. set_solver.
  - apply IH. set_solver.
Qed.

(** ** Total correctness

    [wp m Q Y s]: from [s], [m] does not panic; what it returns satisfies [Q];
    where it gives the processor away in a state [s'], [Y s' (Some P)] holds,
    [P] being what is required of the state it resumes in; and where a waiting
    loop is followed no further, [Y s' None] holds. *)
Definition protocol (S : Type) : Type := S → option (S → Prop) → Prop.
Fixpoint owp {S A} (Q : A → S → Prop) (Y : protocol S) (o : outcome S A) : Prop :=
  match o with
  | Ok a s => Q a s
  | Panic _ _ => False
  | Swtch s r => Y s (Some (λ s', owp Q Y (r s')))
  | Waiting s => Y s None
  end.
Definition wp {S A} (m : M S A) (Q : A → S → Prop) (Y : protocol S) (s : S) : Prop :=
  owp Q Y (m s).

(** What may be required of giving the processor away: that it does not
    happen; or, of the first time only, that the state satisfies [R]. *)
Definition no_switch {S} : protocol S := λ _ _, False.
Definition at_switch {S} (R : S → Prop) : protocol S :=
  λ s o, match o with Some _ => R s | None => False end.

Class Mono {S} (Y : protocol S) : Prop :=
  mono s (P P' : S → Prop) : (∀ s', P s' → P' s') → Y s (Some P) → Y s (Some P').
#[export] Instance no_switch_mono {S} : Mono (@no_switch S).
Proof. by intros ????. Qed.
#[export] Instance at_switch_mono {S} (R : S → Prop) : Mono (at_switch R).
Proof. by intros ????. Qed.

Section wp.
Context {S : Type} (Y : protocol S).
Implicit Types s : S.

Lemma wp_ret {A} (a : A) (Q : A → S → Prop) s : Q a s → wp (mret a) Q Y s.
Proof. done. Qed.

Lemma wp_bind `{!Mono Y} {A B} (m : M S A) (f : A → M S B) Q s :
  wp m (λ a, wp (f a) Q Y) Y s → wp (m ≫= f) Q Y s.
Proof.
  unfold wp, mbind, M_bind. generalize (m s). clear s m.
  fix IH 1. intros [a s|e s|s r|s]; cbn; [done..| |done].
  apply mono. intros s'. apply IH.
Qed.

Lemma wp_mono `{!Mono Y} {A} (m : M S A) (Q Q' : A → S → Prop) s :
  wp m Q Y s → (∀ a s', Q a s' → Q' a s') → wp m Q' Y s.
Proof.
  intros H HQ. revert H. unfold wp. generalize (m s).
  fix IH 1. intros [a s'|e s'|s' r|s']; cbn; [apply HQ|done| |done].
  apply mono. intros s''. apply IH.
Qed.

Lemma wp_gets {A} (f : S → A) Q s : Q (f s) s → wp (gets f) Q Y s.
Proof. done. Qed.

Lemma wp_modify f (Q : unit → S → Prop) s : Q tt (f s) → wp (modify f) Q Y s.
Proof. done. Qed.

Lemma wp_skip (Q : unit → S → Prop) s : Q tt s → wp skip Q Y s.
Proof. done. Qed.

Lemma wp_ok {A} (m : M S A) (Q : A → S → Prop) s a s' :
  m s = Ok a s' → Q a s' → wp m Q Y s.
Proof. unfold wp. by intros ->. Qed.
End wp.

(** Where no switch is allowed, the code returns. *)
Lemma wp_returns {S A} (m : M S A) Q s :
  wp m Q no_switch s → ∃ a s', m s = Ok a s' ∧ Q a s'.
Proof. unfold wp, no_switch. destruct (m s); cbn; naive_solver. Qed.

(** Where no return is allowed, the code gives the processor away. *)
Lemma wp_switches {S A} (m : M S A) R s :
  wp m (λ _ _, False) (at_switch R) s → ∃ s' r, m s = Swtch s' r ∧ R s'.
Proof. unfold wp, at_switch. destruct (m s); cbn; naive_solver. Qed.

(** A counting loop keeps an invariant [I] indexed by the loop variable. *)
Lemma wp_for_up {St} (I : nat → St → Prop) f Y `{!Mono Y} n : ∀ i s,
  I i s →
  (∀ j s, (i ≤ j < i + n)%nat → I j s → wp (f j) (λ _, I (S j)) Y s) →
  wp (for_up n i f) (λ _, I (i + n)%nat) Y s.
Proof.
  induction n as [|n IH]; intros i s HI Hf; cbn [for_up].
  - apply wp_skip. by rewrite Nat.add_0_r.
  - apply wp_bind; [done|]. eapply wp_mono; [done|apply Hf; [lia|done]|].
    intros [] s' HI'. replace (i + S n)%nat with (S i + n)%nat by lia.
    apply IH; [done|]. intros j s'' Hj. apply Hf. lia.
Qed.
