(* ===== verification/Machine.v ===== *)
(** * Constants, page arithmetic and byte memory

    The constants of [param.h], [memlayout.h] and [mmu.h], the page-rounding
    and address-splitting macros of [mmu.h], and the byte-addressed memory the
    kernel runs in, with its 32-bit little-endian words. *)
From stdpp Require Import base strings numbers gmap list.
From S2P Require Import Prelude.

(** ** param.h *)
Definition NPROC : nat := 64.
Definition KSTACKSIZE : Z := 4096.
Definition NCPU : nat := 8.
Definition NOFILE : nat := 16.
Definition NFILE : nat := 100.
Definition NINODE : nat := 50.
Definition NDEV : Z := 10.
Definition ROOTDEV : Z := 1.
Definition MAXARG : nat := 32.
Definition MAXOPBLOCKS : Z := 10.
Definition LOGSIZE : Z := MAXOPBLOCKS * 3.
Definition NBUF : nat := 30.
Definition FSSIZE : Z := 1000.
Definition DEFAULT_TICKETS : Z := 10.

(** ** memlayout.h *)
Definition EXTMEM : Z := 0x100000.
Definition PHYSTOP : Z := 0xE000000.
Definition DEVSPACE : Z := 0xFE000000.
Definition KERNBASE : Z := 0x80000000.
Definition KERNLINK : Z := KERNBASE + EXTMEM.
Definition V2P (a : Z) : Z := u32 (a - KERNBASE).
Definition P2V (a : Z) : Z := u32 (a + KERNBASE).

(** ** mmu.h *)
Definition PGSIZE : Z := 4096.
Definition NPDENTRIES : nat := 1024.
Definition FL_IF : Z := 0x200.
Definition SEG_KDATA : Z := 2.
Definition SEG_UCODE : Z := 3.
Definition SEG_UDATA : Z := 4.
Definition DPL_USER : Z := 3.
Definition PTE_P : Z := 0x1.
Definition PTE_W : Z := 0x2.
Definition PTE_U : Z := 0x4.

Definition PGROUNDUP (sz : Z) : Z := Z.land (u32 (sz + PGSIZE - 1)) (u32 (Z.lnot (PGSIZE - 1))).
Definition PGROUNDDOWN (a : Z) : Z := Z.land (u32 a) (u32 (Z.lnot (PGSIZE - 1))).
Definition PDX (va : Z) : Z := Z.land (Z.shiftr va 22) 0x3FF.
Definition PTX (va : Z) : Z := Z.land (Z.shiftr va 12) 0x3FF.
Definition PGADDR (d t o : Z) : Z :=
  u32 (Z.lor (Z.lor (Z.shiftl d 22) (Z.shiftl t 12)) o).
Definition PTE_ADDR (pte : Z) : Z := Z.land (u32 pte) (u32 (Z.lnot 0xFFF)).
Definition PTE_FLAGS (pte : Z) : Z := Z.land (u32 pte) 0xFFF.

(** ** Page arithmetic *)

Lemma land_page_mask x : 0 ≤ x < 4294967296 →
  Z.land x (u32 (Z.lnot 4095)) = x - x mod 4096.
Proof.
  intros Hx. change (u32 (Z.lnot 4095)) with (Z.shiftl (Z.ones 20) 12).
  apply Z.bits_inj'. intros n Hn.
  replace (x - x mod 4096) with (Z.shiftl (Z.shiftr x 12) 12).
  - rewrite Z.land_spec, !Z.shiftl_spec by done.
    destruct (decide (n < 12)).
    + rewrite !(Z.testbit_neg_r _ (n - 12)) by lia. by rewrite andb_false_r.
    + rewrite Z.shiftr_spec, Z.testbit_ones by lia.
      replace (n - 12 + 12) with n by lia.
      destruct (decide (n < 32)).
      * replace ((0 <=? n - 12) && (n - 12 <? 20)) with true by lia.
        apply andb_true_r.
      * replace ((0 <=? n - 12) && (n - 12 <? 20)) with false by lia.
        rewrite andb_false_r. symmetry.
        rewrite <- (Z.mod_small x (2 ^ 32)) by lia.
        apply Z.mod_pow2_bits_high. lia.
  - rewrite Z.shiftl_mul_pow2, Z.shiftr_div_pow2 by lia.
    change (2 ^ 12) with 4096. pose proof (Z.div_mod x 4096). lia.
Qed.

Lemma PGROUNDDOWN_spec a : 0 ≤ a < 4294967296 → PGROUNDDOWN a = a - a mod 4096.
Proof. intros. unfold PGROUNDDOWN. rewrite u32_small by done. by apply land_page_mask. Qed.

Lemma PGROUNDUP_spec a : 0 ≤ a ≤ 4294967296 - 4096 →
  PGROUNDUP a = (a + 4095) - (a + 4095) mod 4096.
Proof.
  intros. unfold PGROUNDUP, PGSIZE. replace (a + 4096 - 1) with (a + 4095) by lia.
  rewrite u32_small by lia. apply land_page_mask. lia.
Qed.

Lemma PTE_ADDR_spec p : 0 ≤ p < 4294967296 → PTE_ADDR p = p - p mod 4096.
Proof. intros. unfold PTE_ADDR. rewrite u32_small by done. by apply land_page_mask. Qed.

Lemma PDX_spec va : 0 ≤ va < 4294967296 → PDX va = va / 4194304.
Proof.
  intros. unfold PDX. change 0x3FF with (Z.ones 10).
  rewrite Z.land_ones, Z.shiftr_div_pow2 by lia.
  change (2 ^ 22) with 4194304. apply Z.mod_small.
  split; [apply Z.div_pos; lia|]. apply Z.div_lt_upper_bound; lia.
Qed.

Lemma PTX_spec va : 0 ≤ va < 4294967296 → PTX va = va / 4096 mod 1024.
Proof.
  intros. unfold PTX. change 0x3FF with (Z.ones 10).
  rewrite Z.land_ones, Z.shiftr_div_pow2 by lia. done.
Qed.

(** ** Byte memory *)

Abbreviation memory := (gmap Z Z).

Definition ld8 (m : memory) (a : Z) : Z := default 0 (m !! a).
Definition st8 (m : memory) (a v : Z) : memory := <[a := u8 v]> m.

Definition ld32 (m : memory) (a : Z) : Z :=
  u8 (ld8 m a) + 256 * u8 (ld8 m (a + 1)) + 65536 * u8 (ld8 m (a + 2))
  + 16777216 * u8 (ld8 m (a + 3)).
Definition st32 (m : memory) (a v : Z) : memory :=
  st8 (st8 (st8 (st8 m a v) (a + 1) (v / 256)) (a + 2) (v / 65536)) (a + 3) (v / 16777216).

Definition ld16 (m : memory) (a : Z) : Z := u8 (ld8 m a) + 256 * u8 (ld8 m (a + 1)).
Definition st16 (m : memory) (a v : Z) : memory := st8 (st8 m a v) (a + 1) (v / 256).

Lemma ld8_st8 m a v b : ld8 (st8 m a v) b = if decide (a = b) then u8 v else ld8 m b.
Proof. unfold ld8, st8. rewrite lookup_insert. by case_decide. Qed.

Lemma ld8_st8_ne m a v b : a ≠ b → ld8 (st8 m a v) b = ld8 m b.
Proof. intros. rewrite ld8_st8. by case_decide. Qed.

Lemma ld8_st32_ne m a v b : b < a ∨ a + 4 ≤ b → ld8 (st32 m a v) b = ld8 m b.
Proof. intros. unfold st32. rewrite !ld8_st8_ne by lia. done. Qed.

Lemma u8_idem x : u8 (u8 x) = u8 x.
Proof. unfold u8. by rewrite Z.mod_mod. Qed.

Lemma ld32_st32 m a v : ld32 (st32 m a v) a = u32 v.
Proof.
  unfold ld32, st32. rewrite !ld8_st8. repeat case_decide; try lia.
  rewrite !u8_idem. unfold u8, u32. Z.div_mod_to_equations. lia.
Qed.

Lemma ld32_st32_ne m a v b : b + 4 ≤ a ∨ a + 4 ≤ b → ld32 (st32 m a v) b = ld32 m b.
Proof. intros. unfold ld32. rewrite !ld8_st32_ne by lia. done. Qed.

Lemma ld32_range m a : 0 ≤ ld32 m a < 4294967296.
Proof.
  unfold ld32. pose proof (u8_range (ld8 m a)). pose proof (u8_range (ld8 m (a + 1))).
  pose proof (u8_range (ld8 m (a + 2))). pose proof (u8_range (ld8 m (a + 3))). lia.
Qed.

(** Two memories agree on [n] bytes from [a]. *)
Definition same_bytes (m m' : memory) (a n : Z) : Prop :=
  ∀ x, a ≤ x < a + n → ld8 m x = ld8 m' x.

Lemma ld32_same m m' a : same_bytes m m' a 4 → ld32 m a = ld32 m' a.
Proof. intros H. unfold ld32. rewrite !(H _) by lia. done. Qed.

(** The bytes [bs] written from address [a] on. *)
Fixpoint store_bytes (m : memory) (a : Z) (bs : list Z) : memory :=
  match bs with
  | [] => m
  | b :: bs' => store_bytes (st8 m a b) (a + 1) bs'
  end.

Lemma store_bytes_spec bs : ∀ m a x,
  ld8 (store_bytes m a bs) x =
  if decide (a ≤ x < a + Z.of_nat (length bs))
  then u8 (bs !!! Z.to_nat (x - a)) else ld8 m x.
Proof.
  induction bs as [|b bs IH]; intros m a x; cbn [store_bytes length].
  - case_decide; [lia|done].
  - rewrite IH, ld8_st8. repeat case_decide; try lia; try done.
    + replace (Z.to_nat (x - a)) with (S (Z.to_nat (x - (a + 1)))) by lia. done.
    + subst. by replace (x - x) with 0 by lia.
Qed.

(** [n] bytes from address [a] on. *)
Definition load_bytes (m : memory) (a : Z) (n : nat) : list Z :=
  (λ i, ld8 m (a + Z.of_nat i)) <$> seq 0 n.

(** ** Bytes in arrays *)

(** The bytes of a string literal. *)
Definition lit (s : string) : list Z :=
  (λ a, Z.of_N (Ascii.N_of_ascii a)) <$> String.list_ascii_of_string s.

Definition slice (l : list Z) (off n : nat) : list Z := take n (drop off l).
Definition splice (l : list Z) (off : nat) (bs : list Z) : list Z :=
  take off l ++ bs ++ drop (off + length bs) l.

Definition enc16 (v : Z) : list Z := [u8 v; u8 (v / 256)].
Definition dec16 (l : list Z) : Z := u8 (l !!! 0%nat) + 256 * u8 (l !!! 1%nat).
Definition enc32 (v : Z) : list Z := [u8 v; u8 (v / 256); u8 (v / 65536); u8 (v / 16777216)].
Definition dec32 (l : list Z) : Z :=
  u8 (l !!! 0%nat) + 256 * u8 (l !!! 1%nat) + 65536 * u8 (l !!! 2%nat) + 16777216 * u8 (l !!! 3%nat).

(** The 32-bit and 16-bit fields of a byte array. *)
Definition arr32 (l : list Z) (off : nat) : Z := dec32 (drop off l).
Definition arr16 (l : list Z) (off : nat) : Z := dec16 (drop off l).

Lemma dec32_enc32 v l : dec32 (enc32 v ++ l) = u32 v.
Proof. unfold dec32, enc32. cbn. rewrite !u8_idem. unfold u8, u32. Z.div_mod_to_equations. lia. Qed.

Lemma dec16_enc16 v l : dec16 (enc16 v ++ l) = u16 v.
Proof. unfold dec16, enc16. cbn. rewrite !u8_idem. unfold u8, u16. Z.div_mod_to_equations. lia. Qed.

Lemma dec32_range l : 0 ≤ dec32 l < 4294967296.
Proof.
  unfold dec32. pose proof (u8_range (l !!! 0%nat)). pose proof (u8_range (l !!! 1%nat)).
  pose proof (u8_range (l !!! 2%nat)). pose proof (u8_range (l !!! 3%nat)). lia.
Qed.

Lemma length_splice l off bs : (off + length bs ≤ length l)%nat →
  length (splice l off bs) = length l.
Proof. intros. unfold splice. rewrite !length_app, length_take, length_drop. lia. Qed.

Lemma drop_splice_eq l off bs : (off ≤ length l)%nat →
  drop off (splice l off bs) = bs ++ drop (off + length bs) l.
Proof.
  intros. unfold splice. rewrite drop_app_length'; [done|]. rewrite length_take. lia.
Qed.

Lemma lookup_splice_ne l off bs i : (off + length bs ≤ length l)%nat →
  (i < off ∨ off + length bs ≤ i)%nat → splice l off bs !! i = l !! i.
Proof.
  intros Hl Hi. unfold splice. destruct (decide (i < off)%nat).
  - rewrite lookup_app_l by (rewrite length_take; lia). by rewrite lookup_take_lt.
  - rewrite lookup_app_r by (rewrite length_take; lia).
    rewrite length_take, Nat.min_l by lia.
    rewrite lookup_app_r by lia. rewrite lookup_drop. f_equal. lia.
Qed.

Lemma lookup_total_drop (l : list Z) i j : drop i l !!! j = l !!! (i + j)%nat.
Proof. rewrite !list_lookup_total_alt. by rewrite lookup_drop. Qed.

Lemma arr32_same l l' off : (∀ i, (off ≤ i < off + 4)%nat → l !! i = l' !! i) →
  arr32 l off = arr32 l' off.
Proof.
  intros H. unfold arr32, dec32. rewrite !lookup_total_drop, !list_lookup_total_alt.
  rewrite !H by lia. done.
Qed.

Lemma arr32_splice_eq l off v : (off + 4 ≤ length l)%nat →
  arr32 (splice l off (enc32 v)) off = u32 v.
Proof. intros. unfold arr32. rewrite drop_splice_eq by lia. apply dec32_enc32. Qed.

Lemma arr32_splice_ne l off bs off' : (off + length bs ≤ length l)%nat →
  (off' + 4 ≤ off ∨ off + length bs ≤ off')%nat →
  arr32 (splice l off bs) off' = arr32 l off'.
Proof. intros. apply arr32_same. intros i Hi. apply lookup_splice_ne; lia. Qed.
