(* ===== verification/KString.v ===== *)
(** * Kernel string and memory routines

    [string.c] on the byte memory: every loop of the source is a recursion on
    its remaining count; [strlen], whose loop is bounded only by the string,
    takes a fuel. *)
From stdpp Require Import base numbers gmap list.
From S2P Require Import Prelude Machine.

(** ** x86.h: the string-store instructions *)
Fixpoint stosb (m : memory) (addr data : Z) (cnt : nat) : memory :=
  match cnt with
  | O => m
  | S cnt' => stosb (st8 m addr data) (addr + 1) data cnt'
  end.

Fixpoint stosl (m : memory) (addr data : Z) (cnt : nat) : memory :=
  match cnt with
  | O => m
  | S cnt' => stosl (st32 m addr data) (addr + 4) data cnt'
  end.

(** ** string.c *)
Definition memset (m : memory) (dst c n : Z) : memory :=
  if (Z.rem (i32 dst) 4 =? 0) && (n mod 4 =? 0) then
    let c := Z.land c 0xFF in
    stosl m dst
      (Z.lor (Z.lor (Z.lor (Z.shiftl c 24) (Z.shiftl c 16)) (Z.shiftl c 8)) c)
      (Z.to_nat (n / 4))
  else stosb m dst c (Z.to_nat n).

Fixpoint memcmp (m : memory) (s1 s2 : Z) (n : nat) : Z :=
  match n with
  | O => 0
  | S n' => if ld8 m s1 =? ld8 m s2 then memcmp m (s1 + 1) (s2 + 1) n'
            else u8 (ld8 m s1) - u8 (ld8 m s2)
  end.

Fixpoint copy_forward (m : memory) (d s : Z) (n : nat) : memory :=
  match n with
  | O => m
  | S n' => copy_forward (st8 m d (ld8 m s)) (d + 1) (s + 1) n'
  end.

Fixpoint copy_backward (m : memory) (d s : Z) (n : nat) : memory :=
  match n with
  | O => m
  | S n' => copy_backward (st8 m (d - 1) (ld8 m (s - 1))) (d - 1) (s - 1) n'
  end.

Definition memmove (m : memory) (dst src n : Z) : memory :=
  if (src <? dst) && (dst <? src + n)
  then copy_backward m (dst + n) (src + n) (Z.to_nat n)
  else copy_forward m dst src (Z.to_nat n).

Fixpoint strncmp (m : memory) (p q : Z) (n : nat) : Z :=
  match n with
  | O => 0
  | S n' => if istrue (ld8 m p) && (ld8 m p =? ld8 m q)
            then strncmp m (p + 1) (q + 1) n'
            else u8 (ld8 m p) - u8 (ld8 m q)
  end.

(** The padding loop of [strncpy]: [while(n-- > 0) *s++ = 0]. *)
Fixpoint strncpy_pad (m : memory) (s : Z) (n : nat) : memory :=
  match n with
  | O => m
  | S n' => strncpy_pad (st8 m s 0) (s + 1) n'
  end.

Fixpoint strncpy (m : memory) (s t : Z) (n : nat) : memory :=
  match n with
  | O => m
  | S n' => let c := ld8 m t in
            let m := st8 m s c in
            if c =? 0 then strncpy_pad m (s + 1) n' else strncpy m (s + 1) (t + 1) n'
  end.

(** [while(--n > 0 && ( *s++ = *t++) != 0) ; *s = 0]; the count is [n - 1]. *)
Fixpoint safestrcpy_loop (m : memory) (s t : Z) (n : nat) : memory :=
  match n with
  | O => st8 m s 0
  | S n' => let c := ld8 m t in
            let m := st8 m s c in
            if c =? 0 then st8 m (s + 1) 0 else safestrcpy_loop m (s + 1) (t + 1) n'
  end.

Definition safestrcpy (m : memory) (s t n : Z) : memory :=
  if n <=? 0 then m else safestrcpy_loop m s t (Z.to_nat (n - 1)).

Fixpoint strlen (fuel : nat) (m : memory) (s n : Z) : option Z :=
  match fuel with
  | O => None
  | S f => if ld8 m (s + n) =? 0 then Some n else strlen f m s (n + 1)
  end.

(** ** Lemmas *)

(** All bytes of a memory are bytes. *)
Definition bytes_ok (m : memory) : Prop := ∀ a, 0 ≤ ld8 m a < 256.

Lemma bytes_ok_st8 m a v : bytes_ok m → bytes_ok (st8 m a v).
Proof. intros H b. rewrite ld8_st8. case_decide; [apply u8_range|apply H]. Qed.
#[export] Hint Resolve bytes_ok_st8 : kern.

Lemma stosb_spec cnt : ∀ m a d b,
  ld8 (stosb m a d cnt) b =
  if decide (a ≤ b < a + Z.of_nat cnt) then u8 d else ld8 m b.
Proof.
  induction cnt as [|cnt IH]; intros m a d b; cbn [stosb].
  - case_decide; [lia|done].
  - rewrite IH, ld8_st8. repeat case_decide; done || lia.
Qed.

Lemma st32_repl m a c b : 0 ≤ c < 256 →
  ld8 (st32 m a (Z.lor (Z.lor (Z.lor (Z.shiftl c 24) (Z.shiftl c 16)) (Z.shiftl c 8)) c)) b =
  if decide (a ≤ b < a + 4) then c else ld8 m b.
Proof.
  intros Hc.
  assert (Hw : Z.lor (Z.lor (Z.lor (Z.shiftl c 24) (Z.shiftl c 16)) (Z.shiftl c 8)) c
               = c * 16843009).
  { assert (Hall : forallb (λ n, Z.lor (Z.lor (Z.lor (Z.shiftl (Z.of_nat n) 24)
        (Z.shiftl (Z.of_nat n) 16)) (Z.shiftl (Z.of_nat n) 8)) (Z.of_nat n)
        =? Z.of_nat n * 16843009) (seq 0 256) = true) by (vm_compute; reflexivity).
    rewrite forallb_forall in Hall. specialize (Hall (Z.to_nat c)).
    rewrite Z2Nat.id in Hall by lia. apply Z.eqb_eq, Hall, in_seq. lia. }
  rewrite Hw. unfold st32. rewrite !ld8_st8. unfold u8.
  repeat case_decide; done || (Z.div_mod_to_equations; lia).
Qed.

Lemma stosl_repl cnt : ∀ m a c b, 0 ≤ c < 256 →
  ld8 (stosl m a (Z.lor (Z.lor (Z.lor (Z.shiftl c 24) (Z.shiftl c 16)) (Z.shiftl c 8)) c) cnt) b =
  if decide (a ≤ b < a + 4 * Z.of_nat cnt) then c else ld8 m b.
Proof.
  induction cnt as [|cnt IH]; intros m a c b Hc; cbn [stosl].
  - case_decide; [lia|done].
  - rewrite IH, st32_repl by done. repeat case_decide; done || lia.
Qed.

(** [memset] writes the low byte of [c] to exactly the [n] bytes at [dst],
    on the word-store path and on the byte-store path alike. *)
Lemma memset_spec m dst c n b : 0 ≤ n →
  ld8 (memset m dst c n) b = if decide (dst ≤ b < dst + n) then u8 c else ld8 m b.
Proof.
  intros Hn. unfold memset. case_match eqn:E.
  - apply andb_true_iff in E as [_ E%Z.eqb_eq].
    assert (Hc : Z.land c 0xFF = u8 c) by (apply (Z.land_ones c 8); lia).
    rewrite Hc, stosl_repl by apply u8_range.
    rewrite Z2Nat.id by (apply Z.div_pos; lia).
    replace (4 * (n / 4)) with n by (pose proof (Z.div_mod n 4); lia). done.
  - rewrite stosb_spec. by rewrite Z2Nat.id.
Qed.

Lemma bytes_ok_memset m a c n : 0 ≤ n → bytes_ok m → bytes_ok (memset m a c n).
Proof. intros Hn H b. rewrite memset_spec by done. case_decide; [apply u8_range|apply H]. Qed.

Lemma ld32_memset_in m dst c n a : 0 ≤ n → dst ≤ a → a + 4 ≤ dst + n →
  ld32 (memset m dst c n) a = u8 c * 16843009.
Proof.
  intros. unfold ld32. rewrite !memset_spec by done.
  repeat case_decide; try lia. rewrite u8_idem. lia.
Qed.

Lemma ld32_memset_out m dst c n a : 0 ≤ n → a + 4 ≤ dst ∨ dst + n ≤ a →
  ld32 (memset m dst c n) a = ld32 m a.
Proof.
  intros. unfold ld32. rewrite !memset_spec by done.
  repeat case_decide; done || lia.
Qed.

Lemma copy_forward_spec n : ∀ m d s b, bytes_ok m →
  d ≤ s ∨ s + Z.of_nat n ≤ d →
  ld8 (copy_forward m d s n) b =
  if decide (d ≤ b < d + Z.of_nat n) then ld8 m (s + (b - d)) else ld8 m b.
Proof.
  induction n as [|n IH]; intros m d s b Hm Hd; cbn [copy_forward].
  - case_decide; [lia|done].
  - rewrite IH by eauto with kern lia. rewrite !ld8_st8, (u8_small (ld8 m s)) by apply Hm.
    repeat case_decide; try done; try lia; f_equal; lia.
Qed.

Lemma copy_backward_spec n : ∀ m d s b, bytes_ok m → s ≤ d →
  ld8 (copy_backward m d s n) b =
  if decide (d - Z.of_nat n ≤ b < d) then ld8 m (s + (b - d)) else ld8 m b.
Proof.
  induction n as [|n IH]; intros m d s b Hm Hd; cbn [copy_backward].
  - case_decide; [lia|done].
  - rewrite IH by eauto with kern lia. rewrite !ld8_st8, (u8_small (ld8 m (s - 1))) by apply Hm.
    repeat case_decide; try done; try lia; f_equal; lia.
Qed.

(** [memmove] copies the bytes the source held on entry, also when the two
    regions overlap. *)
Lemma memmove_spec m dst src n b : bytes_ok m → 0 ≤ n →
  ld8 (memmove m dst src n) b =
  if decide (dst ≤ b < dst + n) then ld8 m (src + (b - dst)) else ld8 m b.
Proof.
  intros Hm Hn. unfold memmove. case_match eqn:E.
  - rewrite copy_backward_spec, Z2Nat.id by (done || lia).
    repeat case_decide; try done; try lia; f_equal; lia.
  - rewrite copy_forward_spec, Z2Nat.id by (done || lia). done.
Qed.

Lemma bytes_ok_memmove m d s n : 0 ≤ n → bytes_ok m → bytes_ok (memmove m d s n).
Proof. intros Hn H b. rewrite memmove_spec by done. case_decide; apply H. Qed.
#[export] Hint Resolve bytes_ok_memset bytes_ok_memmove : kern.
