(* ===== verification/Mp.v ===== *)
(** * The multiprocessor tables

    [mp.c]: the search for the tables the firmware leaves in memory, their
    checks, and the walk over the entries in which [mpinit] counts the
    processors. Everything is read from the byte memory; structures are read
    at the offsets of [mp.h]. *)
From stdpp Require Import base strings numbers gmap list.
From S2P Require Import Prelude Machine KString.

(** ** mp.h *)

(** [struct mp] and [struct mpconf] at an address; sizes of the structures. *)
Definition MP : Z := 16.
Definition MPCONF : Z := 44.
Definition MPPROCSZ : Z := 20.
Definition MPIOAPICSZ : Z := 8.
Definition mp_physaddr (m : memory) (p : Z) : Z := ld32 m (p + 4).
Definition mp_imcrp (m : memory) (p : Z) : Z := ld8 m (p + 12).
Definition conf_length (m : memory) (c : Z) : Z := ld16 m (c + 4).
Definition conf_version (m : memory) (c : Z) : Z := ld8 m (c + 6).
Definition conf_lapicaddr (m : memory) (c : Z) : Z := ld32 m (c + 36).
Definition MPPROC : Z := 0.
Definition MPBUS : Z := 1.
Definition MPIOAPIC : Z := 2.
Definition MPIOINTR : Z := 3.
Definition MPLINTR : Z := 4.

(** ** mp.c *)
Fixpoint sum_loop (m : memory) (addr : Z) (len : nat) (s : Z) : Z :=
  match len with O => s | S len' => sum_loop m (addr + 1) len' (s + ld8 m addr) end.
Definition sum (m : memory) (addr : Z) (len : Z) : Z := u8 (sum_loop m addr (Z.to_nat len) 0).

Definition sig_at (m : memory) (p : Z) (s : string) : bool := bool_decide (load_bytes m p 4 = lit s).

Fixpoint mpsearch1_loop (n : nat) (m : memory) (p e : Z) : option Z :=
  match n with
  | O => None
  | S n' =>
      if p <? e then
        if sig_at m p "_MP_" && (sum m p MP =? 0) then Some p
        else mpsearch1_loop n' m (p + MP) e
      else None
  end.
(** The loop advances by 16 bytes, so [len / 16 + 1] turns are enough. *)
Definition mpsearch1 (m : memory) (a len : Z) : option Z :=
  let addr := P2V a in mpsearch1_loop (Z.to_nat (len / MP + 1)) m addr (addr + len).

Definition mpsearch (m : memory) : option Z :=
  let bda := P2V 0x400 in
  let p := Z.shiftl (Z.lor (Z.shiftl (ld8 m (bda + 0x0F)) 8) (ld8 m (bda + 0x0E))) 4 in
  let first :=
    if istrue p then mpsearch1 m p 1024
    else
      let p := Z.lor (Z.shiftl (ld8 m (bda + 0x14)) 8) (ld8 m (bda + 0x13)) * 1024 in
      mpsearch1 m (p - 1024) 1024 in
  match first with Some mp => Some mp | None => mpsearch1 m 0xF0000 0x10000 end.

(** The addresses of [struct mp] and of the configuration table. *)
Definition mpconfig (m : memory) : option (Z * Z) :=
  match mpsearch m with
  | None => None
  | Some mp =>
      if mp_physaddr m mp =? 0 then None
      else
        let conf := P2V (mp_physaddr m mp) in
        if negb (sig_at m conf "PCMP") then None
        else if negb (conf_version m conf =? 1) && negb (conf_version m conf =? 4) then None
        else if negb (sum m conf (conf_length m conf) =? 0) then None
        else Some (mp, conf)
  end.

(** What [mpinit] sets: the apic ids of [cpus] (of which there are [ncpu]), the
    id of the I/O APIC, the address of the local APIC and the bytes sent to
    ports. *)
Record mpst := mkMp { apicids : list Z; ioapicid : Z; lapicaddr : Z; pouts : list (Z * Z) }.
#[export] Instance eta_mpst : Eta mpst := λ r, mkMp (apicids r) (ioapicid r) (lapicaddr r) (pouts r).
Definition ncpu (s : mpst) : Z := Z.of_nat (length (apicids s)).

Inductive mpres := MpDone (s : mpst) | MpPanic (msg : string) | MpLoop.

(** The loop over the entries: the answer is [ismp], with [None] for a loop
    that has not ended after [n] turns. [break] in the [default] case leaves
    the [switch] only. *)
Fixpoint mp_entries (n : nat) (m : memory) (p e : Z) (ismp : bool) (s : mpst) : option (bool * mpst) :=
  match n with
  | O => None
  | S n' =>
      if p <? e then
        let t := ld8 m p in
        if t =? MPPROC then
          let s := if ncpu s <? Z.of_nat NCPU then s <| apicids ::= λ l, l ++ [ld8 m (p + 1)] |> else s in
          mp_entries n' m (p + MPPROCSZ) e ismp s
        else if t =? MPIOAPIC then mp_entries n' m (p + MPIOAPICSZ) e ismp (s <| ioapicid := ld8 m (p + 1) |>)
        else if (t =? MPBUS) || (t =? MPIOINTR) || (t =? MPLINTR) then mp_entries n' m (p + 8) e ismp s
        else mp_entries n' m p e false s
      else Some (ismp, s)
  end.

(** [mpinit] with [n] turns for its loop; [imcr] is what port 0x23 answers. *)
Definition mpinit (n : nat) (imcr : Z) (m : memory) (s : mpst) : mpres :=
  match mpconfig m with
  | None => MpPanic "Expect to run on an SMP"
  | Some (mp, conf) =>
      let s := s <| lapicaddr := conf_lapicaddr m conf |> in
      match mp_entries n m (conf + MPCONF) (conf + conf_length m conf) true s with
      | None => MpLoop
      | Some (ismp, s) =>
          if negb ismp then MpPanic "Didn't find a suitable machine"
          else if istrue (mp_imcrp m mp) then
            MpDone (s <| pouts ::= λ o, o ++ [(0x22, 0x70); (0x23, Z.lor imcr 1)] |>)
          else MpDone s
      end
  end.

(** ** The search *)

Definition mp_valid (m : memory) (p : Z) : bool := sig_at m p "_MP_" && (sum m p MP =? 0).

Lemma mpsearch1_loop_spec n : ∀ m p e, e - p ≤ 16 * Z.of_nat n →
  match mpsearch1_loop n m p e with
  | Some q => ∃ i, q = p + 16 * Z.of_nat i ∧ q < e ∧ mp_valid m q = true ∧
      ∀ j, (j < i)%nat → mp_valid m (p + 16 * Z.of_nat j) = false
  | None => ∀ j, p + 16 * Z.of_nat j < e → mp_valid m (p + 16 * Z.of_nat j) = false
  end.
Proof.
  induction n as [|n IH]; intros m p e Hn; cbn [mpsearch1_loop]; [intros; lia|].
  destruct (Z.ltb_spec p e) as [Hp|Hp]; [|intros; lia]. fold (mp_valid m p).
  destruct (mp_valid m p) eqn:Hv.
  - exists O. replace (p + 16 * Z.of_nat 0) with p by lia. split_and!; [done|done|done|lia].
  - specialize (IH m (p + MP) e ltac:(unfold MP; lia)). unfold MP in *.
    destruct (mpsearch1_loop n m (p + 16) e) as [q|].
    + destruct IH as (i & -> & Hlt & Hq & Hj). exists (S i). replace (p + 16 * Z.of_nat (S i)) with (p + 16 + 16 * Z.of_nat i) by lia.
      split_and!; [done..|]. intros [|j] H; [by replace (p + 16 * Z.of_nat 0) with p by lia|].
      replace (p + 16 * Z.of_nat (S j)) with (p + 16 + 16 * Z.of_nat j) by lia. apply Hj. lia.
    + intros [|j] H; [by replace (p + 16 * Z.of_nat 0) with p by lia|].
      replace (p + 16 * Z.of_nat (S j)) with (p + 16 + 16 * Z.of_nat j) in * by lia. by apply IH.
Qed.

(** [mpsearch1] answers the first structure of the region with a signature and
    a checksum of 0, and 0 only if there is none. *)
Theorem mpsearch1_first m a len : 0 ≤ len →
  match mpsearch1 m a len with
  | Some q => ∃ i, q = P2V a + 16 * Z.of_nat i ∧ q < P2V a + len ∧ mp_valid m q = true ∧
      ∀ j, (j < i)%nat → mp_valid m (P2V a + 16 * Z.of_nat j) = false
  | None => ∀ j, 16 * Z.of_nat j < len → mp_valid m (P2V a + 16 * Z.of_nat j) = false
  end.
Proof.
  intros Hl. unfold mpsearch1. cbv zeta.
  pose proof (mpsearch1_loop_spec (Z.to_nat (len / MP + 1)) m (P2V a) (P2V a + len)) as H.
  destruct (mpsearch1_loop _ _ _ _); [apply H|intros j Hj; apply H; [|lia]]; unfold MP; Z.div_mod_to_equations; lia.
Qed.

(** ** The entries *)

(** An entry of the table with the bytes the kernel does not read. *)
Inductive mpentry :=
| EProc (apicid : Z) (rest : list Z)
| EIoapic (apicno : Z) (rest : list Z)
| EOther (t : Z) (rest : list Z).
Definition enc_entry (x : mpentry) : list Z :=
  match x with EProc a r => MPPROC :: a :: r | EIoapic a r => MPIOAPIC :: a :: r | EOther t r => t :: r end.
Definition entry_wf (x : mpentry) : Prop :=
  match x with
  | EProc _ r => length r = 18%nat
  | EIoapic _ r => length r = 6%nat
  | EOther t r => length r = 7%nat ∧ (t = MPBUS ∨ t = MPIOINTR ∨ t = MPLINTR)
  end.
Definition enc_entries (l : list mpentry) : list Z := concat (map enc_entry l).
Definition proc_ids (l : list mpentry) : list Z := omap (λ x, match x with EProc a _ => Some a | _ => None end) l.
Definition ioapic_ids (l : list mpentry) : list Z := omap (λ x, match x with EIoapic a _ => Some a | _ => None end) l.

Definition bytes_at (m : memory) (a : Z) (bs : list Z) : Prop :=
  ∀ i b, bs !! i = Some b → ld8 m (a + Z.of_nat i) = b.
Lemma bytes_at_app m a b1 b2 : bytes_at m a (b1 ++ b2) → bytes_at m a b1 ∧ bytes_at m (a + Z.of_nat (length b1)) b2.
Proof.
  intros H. split; intros i b E.
  - apply H. by apply lookup_app_l_Some.
  - replace (a + Z.of_nat (length b1) + Z.of_nat i) with (a + Z.of_nat (length b1 + i)) by lia.
    apply H. rewrite lookup_app_r by lia. by replace (length b1 + i - length b1)%nat with i by lia.
Qed.
Lemma bytes_at_head m a b bs : bytes_at m a (b :: bs) → ld8 m a = b ∧ bytes_at m (a + 1) bs.
Proof.
  intros H. split; [by rewrite <- (H O b eq_refl), Z.add_0_r|].
  intros i x E. rewrite <- (H (S i) x E). f_equal. lia.
Qed.

(** What the entries add to the state. *)
Definition absorb (l : list mpentry) (s : mpst) : mpst :=
  s <| apicids := take NCPU (apicids s ++ proc_ids l) |> <| ioapicid := List.last (ioapic_ids l) (ioapicid s) |>.

Lemma absorb_nil s : (length (apicids s) ≤ NCPU)%nat → absorb [] s = s.
Proof. intros H. destruct s. unfold absorb, upd. cbn in *. by rewrite app_nil_r, take_ge. Qed.

Lemma last_cons {A} (a d : A) l : List.last (a :: l) d = List.last l a.
Proof.
  revert a d. induction l as [|b l IH]; intros a d; [done|].
  change (List.last (b :: l) d = List.last (b :: l) a). by rewrite !IH.
Qed.

Lemma absorb_proc a r l s : (length (apicids s) ≤ NCPU)%nat →
  absorb (EProc a r :: l) s =
  absorb l (if ncpu s <? Z.of_nat NCPU then s <| apicids ::= λ l, l ++ [a] |> else s).
Proof.
  intros H. unfold ncpu, absorb, upd, NCPU in *. destruct s as [ids io la po]. cbn in *.
  destruct (Z.ltb_spec (Z.of_nat (length ids)) (Z.of_nat 8)) as [Hl|Hl]; cbn; [by rewrite <- app_assoc|].
  rewrite !take_app_ge by lia. by replace (8 - length ids)%nat with O by lia.
Qed.
Lemma absorb_ioapic a r l s : absorb (EIoapic a r :: l) s = absorb l (s <| ioapicid := a |>).
Proof. unfold absorb, upd. cbn. f_equal. apply last_cons. Qed.

Lemma proc_slot s a : (length (apicids s) ≤ NCPU)%nat →
  Nat.le (length (apicids (if ncpu s <? Z.of_nat NCPU then s <| apicids ::= λ l, l ++ [a] |> else s))) NCPU.
Proof. intros H. unfold ncpu. case_match eqn:E; [|done]. cbn. rewrite length_app. cbn. lia. Qed.

Lemma mp_entries_run l : ∀ m p e s n, Forall entry_wf l → bytes_at m p (enc_entries l) →
  p + Z.of_nat (length (enc_entries l)) ≤ e → (length (apicids s) ≤ NCPU)%nat →
  mp_entries (length l + n) m p e true s = mp_entries n m (p + Z.of_nat (length (enc_entries l))) e true (absorb l s).
Proof.
  induction l as [|x l IH]; intros m p e s n Hw Hb He Hs.
  - rewrite absorb_nil by done. cbn. by rewrite Z.add_0_r.
  - apply Forall_cons in Hw as [Hx Hw]. change (enc_entries (x :: l)) with (enc_entry x ++ enc_entries l) in *.
    apply bytes_at_app in Hb as [Hh Hb]. rewrite length_app in *. cbn [length Nat.add mp_entries].
    destruct x as [a r|a r|t r]; cbn [enc_entry length] in *; apply bytes_at_head in Hh as [-> Hh].
    all: rewrite (proj2 (Z.ltb_lt p e)) by lia.
    + apply bytes_at_head in Hh as [-> _]. cbn [Z.eqb MPPROC]. rewrite absorb_proc by done. cbn in Hx.
      rewrite Hx in *. change (p + MPPROCSZ) with (p + Z.of_nat 20). rewrite IH; [f_equal; lia|done|done|lia|by apply proc_slot].
    + apply bytes_at_head in Hh as [-> _]. rewrite absorb_ioapic. cbn in Hx.
      rewrite Hx in *. change (p + MPIOAPICSZ) with (p + Z.of_nat 8).
      change (MPIOAPIC =? MPPROC) with false. change (MPIOAPIC =? MPIOAPIC) with true. cbv iota.
      rewrite IH; [f_equal; lia|done|done|lia|done].
    + destruct Hx as [Hr Ht]. rewrite Hr in *. change (p + 8) with (p + Z.of_nat 8).
      assert ((t =? MPPROC) = false ∧ (t =? MPIOAPIC) = false ∧ (t =? MPBUS) || (t =? MPIOINTR) || (t =? MPLINTR) = true)
        as (-> & -> & ->) by by destruct Ht as [->|[->| ->]].
      rewrite IH; [f_equal; lia|done|done|lia|done].
Qed.

(** An entry of a type the code does not know. *)
Definition unknown_type (t : Z) : Prop := t < 0 ∨ 4 < t.
Lemma mp_entries_stuck n : ∀ m p e b s, p < e → unknown_type (ld8 m p) → mp_entries n m p e b s = None.
Proof.
  induction n as [|n IH]; intros m p e b s He Ht; [done|]. cbn [mp_entries]. rewrite (proj2 (Z.ltb_lt p e) He).
  unfold unknown_type, MPPROC, MPIOAPIC, MPBUS, MPIOINTR, MPLINTR in *. cbv zeta.
  destruct (Z.eqb_spec (ld8 m p) 0); [lia|]. destruct (Z.eqb_spec (ld8 m p) 2); [lia|].
  destruct (Z.eqb_spec (ld8 m p) 1); [lia|]. destruct (Z.eqb_spec (ld8 m p) 3); [lia|].
  destruct (Z.eqb_spec (ld8 m p) 4); [lia|]. by apply IH.
Qed.

Lemma mp_entries_mono n : ∀ j m p e b s r, mp_entries n m p e b s = Some r → mp_entries (n + j) m p e b s = Some r.
Proof.
  induction n as [|n IH]; intros j m p e b s r H; [done|]. cbn [mp_entries Nat.add] in *.
  repeat (case_match; try done); eauto.
Qed.

(** ** mpinit *)
Definition mp0 : mpst := mkMp [] 0 0 [].

(** The configuration table of [m] is at [conf], is named by the structure at
    [mp], and begins with the entries [l]. *)
Definition mp_table (m : memory) (mp conf : Z) (l : list mpentry) : Prop :=
  mpconfig m = Some (mp, conf) ∧ Forall entry_wf l ∧ bytes_at m (conf + 44) (enc_entries l).

(** C32: on a configuration table made of entries of the known types that the
    search of [mpconfig] finds, [mpinit]
    ends, with as many turns of its loop as there are entries: it registers the
    first [NCPU] processors in the order of the table, the last I/O APIC and
    the address of the local APIC, and masks external interrupts in the IMCR
    exactly if the machine has that register. *)
Theorem mpinit_counts m mp conf l n imcr : mp_table m mp conf l →
  conf_length m conf = 44 + Z.of_nat (length (enc_entries l)) → (length l < n)%nat →
  ∃ s, mpinit n imcr m mp0 = MpDone s ∧ apicids s = take NCPU (proc_ids l) ∧
    ncpu s = Z.min (Z.of_nat NCPU) (Z.of_nat (length (proc_ids l))) ∧
    ioapicid s = List.last (ioapic_ids l) 0 ∧ lapicaddr s = conf_lapicaddr m conf ∧
    pouts s = if istrue (mp_imcrp m mp) then [(0x22, 0x70); (0x23, Z.lor imcr 1)] else [].
Proof.
  intros (Hc & Hw & Hb) Hl Hn. unfold mpinit. rewrite Hc, Hl. unfold MPCONF. cbv zeta.
  replace n with (length l + S (n - length l - 1))%nat by lia.
  rewrite mp_entries_run; [|done|done|lia|cbn; unfold NCPU; lia].
  cbn [mp_entries]. rewrite (proj2 (Z.ltb_ge _ _)) by lia. cbn [negb].
  assert (Hm : Z.of_nat (length (take NCPU (proc_ids l))) = Z.min (Z.of_nat NCPU) (Z.of_nat (length (proc_ids l))))
    by (rewrite length_take; lia).
  by case_match; eexists; split_and!.
Qed.

(** C40: an entry of an unknown type makes [mpinit] loop for ever: the [break]
    of the [default] case leaves the [switch] and not the loop, and the
    pointer stays where it is, so the panic that is meant to follow is never
    reached. No number of turns is enough. *)
Theorem mpinit_hangs m mp conf l : mp_table m mp conf l →
  unknown_type (ld8 m (conf + 44 + Z.of_nat (length (enc_entries l)))) →
  44 + Z.of_nat (length (enc_entries l)) < conf_length m conf →
  ∀ n imcr, mpinit n imcr m mp0 = MpLoop.
Proof.
  intros (Hc & Hw & Hb) Ht Hl n imcr. unfold mpinit. rewrite Hc. unfold MPCONF. cbv zeta.
  assert (H : ∀ k, mp_entries (length l + k) m (conf + 44) (conf + conf_length m conf) true
    (mp0 <| lapicaddr := conf_lapicaddr m conf |>) = None).
  { intros k. rewrite mp_entries_run; [|done|done|lia|cbn; unfold NCPU; lia]. apply mp_entries_stuck; [lia|done]. }
  destruct (mp_entries n m _ _ true _) as [r|] eqn:E; [|done].
  apply (mp_entries_mono _ (length l)) in E. rewrite Nat.add_comm, H in E. done.
Qed.

(** A machine with two processors, as its firmware describes it; [tail] are
    bytes after the entries. *)
Definition demo_entries : list mpentry :=
  [EProc 0 (replicate 18 0); EProc 5 (replicate 18 0); EOther MPBUS (replicate 7 32);
   EIoapic 2 (replicate 6 0); EOther MPIOINTR (replicate 7 0)].
Definition checksummed (l1 l2 : list Z) : list Z := l1 ++ [u8 (- foldr Z.add 0 (l1 ++ l2))] ++ l2.
Definition demo_conf (tail : list Z) : list Z :=
  let es := enc_entries demo_entries ++ tail in
  checksummed (lit "PCMP" ++ enc16 (44 + Z.of_nat (length es)) ++ [4])
    (replicate 20 32 ++ enc32 0 ++ enc16 0 ++ enc16 5 ++ enc32 0xFEE00000 ++ enc16 0 ++ [0; 0] ++ es).
Definition demo_firmware (tail : list Z) : memory :=
  store_bytes (store_bytes ∅ (P2V 0xF0000) (checksummed (lit "_MP_" ++ enc32 0xF1000 ++ [1; 4]) [0; 0x80; 0; 0; 0]))
    (P2V 0xF1000) (demo_conf tail).

Definition bytes_atb (m : memory) (a : Z) (bs : list Z) : bool := bool_decide (load_bytes m a (length bs) = bs).
Lemma bytes_at_check m a bs : bytes_atb m a bs = true → bytes_at m a bs.
Proof.
  intros H%bool_decide_eq_true_1 i b E. unfold load_bytes in H. rewrite <- H in E.
  rewrite list_lookup_fmap in E. destruct (seq _ _ !! i) eqn:Es; [|done]. apply lookup_seq in Es as [-> _].
  by injection E as <-.
Qed.
Lemma demo_table tail : mpconfig (demo_firmware tail) = Some (P2V 0xF0000, P2V 0xF1000) →
  bytes_atb (demo_firmware tail) (P2V 0xF1000 + 44) (enc_entries demo_entries) = true →
  mp_table (demo_firmware tail) (P2V 0xF0000) (P2V 0xF1000) demo_entries.
Proof.
  intros H1 H2. split_and!; [done| |by apply bytes_at_check].
  repeat (apply Forall_cons; split; [vm_compute; tauto|]). apply Forall_nil. exact I.
Qed.

Lemma mpinit_counts_witness : ∃ s, mpinit 6 0 (demo_firmware []) mp0 = MpDone s ∧ apicids s = [0; 5] ∧ ioapicid s = 2.
Proof.
  destruct (mpinit_counts (demo_firmware []) (P2V 0xF0000) (P2V 0xF1000) demo_entries 6 0) as (s & H1 & H2 & _ & H3 & _).
  - apply demo_table; by vm_compute.
  - by vm_compute.
  - cbn. lia.
  - exists s. split_and!; [exact H1|exact H2|exact H3].
Defined.

Lemma mpinit_hangs_witness : mpinit 1000 0 (demo_firmware (replicate 8 7)) mp0 = MpLoop.
Proof.
  apply (mpinit_hangs _ (P2V 0xF0000) (P2V 0xF1000) demo_entries).
  - apply demo_table; by vm_compute.
  - right. by vm_compute.
  - by vm_compute.
Defined.
