(* ===== verification/Kernel.v ===== *)
(** * The kernel's data and its state

    The structures of [proc.h], [file.h], [buf.h], [fs.h], [sleeplock.h] and
    of the static objects of [proc.c], [kalloc.c], [bio.c], [log.c], [fs.c],
    [file.c], [pipe.c], [console.c] and [ide.c], and the record that holds all
    of them as one processor sees them. A pointer into a table is the index of
    its slot; a pointer to memory is an address; a null pointer is [None] or
    address 0. *)
From stdpp Require Import base strings numbers gmap list.
From S2P Require Import Prelude Machine.

(** The spinlocks of the kernel. *)
Inductive lock :=
| Lptable | Lperf | Lticks | Lkmem | Lftable | Lpipe (p : Z) | Lbcache
| Lbufslp (b : nat) | Lislp (i : nat) | Licache | Llog | Lide | Lcons.
#[export] Instance lock_eq_dec : EqDecision lock.
Proof. solve_decision. Defined.

(** The sleep channels: the addresses handed to [sleep] and [wakeup]. *)
Inductive chan :=
| Cproc (p : nat) | Cticks | Cnread (p : Z) | Cnwrite (p : Z) | Clog
| Cbufslp (b : nat) | Cislp (i : nat) | Cbuf (b : nat) | Cinput.
#[export] Instance chan_eq_dec : EqDecision chan.
Proof. solve_decision. Defined.

(** ** proc.h *)
Inductive procstate := UNUSED | EMBRYO | SLEEPING | RUNNABLE | RUNNING | ZOMBIE.
#[export] Instance procstate_eq_dec : EqDecision procstate.
Proof. solve_decision. Defined.

Record PerfData := mkPerf {
  pf_pid : Z;
  pf_creation_time : Z;
  pf_start_time : Z;
  pf_completion_time : Z;
  pf_total_run_time : Z;
  pf_total_ready_time : Z;
  pf_valid : Z }.
#[export] Instance eta_PerfData : Eta PerfData := λ r, mkPerf (pf_pid r)
  (pf_creation_time r) (pf_start_time r) (pf_completion_time r)
  (pf_total_run_time r) (pf_total_ready_time r) (pf_valid r).
#[export] Instance PerfData_eq_dec : EqDecision PerfData.
Proof. solve_decision. Defined.

Record proc := mkProc {
  sz : Z;
  pgdir : Z;
  kstack : Z;
  state : procstate;
  pid : Z;
  parent : option nat;
  tf : Z;
  context : Z;
  pchan : option chan;
  killed : Z;
  runticks : Z;
  ofile : list (option nat);
  cwd : option nat;
  name : list Z;
  tickets : Z;
  enqueue_time : Z;
  creation_time : Z;
  start_time : Z;
  completion_time : Z;
  total_run_time : Z;
  total_ready_time : Z;
  total_sleep_time : Z;
  num_run : Z;
  priority : Z }.
#[export] Instance eta_proc : Eta proc := λ r, mkProc (sz r) (pgdir r) (kstack r) (state r)
  (pid r) (parent r) (tf r) (context r) (pchan r) (killed r) (runticks r) (ofile r) (cwd r)
  (name r) (tickets r) (enqueue_time r) (creation_time r) (start_time r)
  (completion_time r) (total_run_time r) (total_ready_time r) (total_sleep_time r)
  (num_run r) (priority r).

(** A slot of the process table as the loader leaves it: all zero. *)
Definition proc0 : proc := mkProc 0 0 0 UNUSED 0 None 0 0 None 0 0 (replicate NOFILE None)
  None (replicate 16 0) 0 0 0 0 0 0 0 0 0 0.
#[export] Instance proc_inhabited : Inhabited proc := populate proc0.
Definition perf0 : PerfData := mkPerf 0 0 0 0 0 0 0.
#[export] Instance perf_inhabited : Inhabited PerfData := populate perf0.

(** The fields of [struct cpu] the modelled code uses, for the processor that
    executes. *)
Record taskstate := mkTs { esp0 : Z; ss0 : Z; iomb : Z }.
Record cpu := mkCpu { ncli : Z; intena : bool; cproc : option nat; cts : taskstate }.
#[export] Instance eta_cpu : Eta cpu := λ r, mkCpu (ncli r) (intena r) (cproc r) (cts r).

(** ** sleeplock.h, file.h, buf.h, fs.h *)
Record sleeplock := mkSlk { slocked : Z; spid : Z }.
#[export] Instance eta_sleeplock : Eta sleeplock := λ r, mkSlk (slocked r) (spid r).

Inductive fdtype := FD_NONE | FD_PIPE | FD_INODE.
#[export] Instance fdtype_eq_dec : EqDecision fdtype.
Proof. solve_decision. Defined.

Record file := mkFile {
  ftype : fdtype;
  fref : Z;
  freadable : Z;
  fwritable : Z;
  fpipe : Z;
  fip : option nat;
  foff : Z }.
#[export] Instance eta_file : Eta file := λ r, mkFile (ftype r) (fref r) (freadable r)
  (fwritable r) (fpipe r) (fip r) (foff r).
Definition file0 : file := mkFile FD_NONE 0 0 0 0 None 0.
#[export] Instance file_inhabited : Inhabited file := populate file0.

Definition PIPESIZE : Z := 512.
Record pipe := mkPipe {
  pdata : list Z;
  nread : Z;
  nwrite : Z;
  readopen : Z;
  writeopen : Z }.
#[export] Instance eta_pipe : Eta pipe := λ r, mkPipe (pdata r) (nread r) (nwrite r)
  (readopen r) (writeopen r).

Record inode := mkInode {
  idev : Z;
  inum : Z;
  iref : Z;
  islp : sleeplock;
  ivalid : Z;
  itype : Z;
  imajor : Z;
  iminor : Z;
  inlink : Z;
  isize : Z;
  iaddrs : list Z }.
#[export] Instance eta_inode : Eta inode := λ r, mkInode (idev r) (inum r) (iref r) (islp r)
  (ivalid r) (itype r) (imajor r) (iminor r) (inlink r) (isize r) (iaddrs r).

Definition BSIZE : Z := 512.
Definition B_VALID : Z := 0x2.
Definition B_DIRTY : Z := 0x4.
Record buf := mkBuf {
  bflags : Z;
  bdev : Z;
  blockno : Z;
  bslp : sleeplock;
  refcnt : Z;
  bprev : nat;
  bnext : nat;
  qnext : option nat;
  bdata : list Z }.
#[export] Instance eta_buf : Eta buf := λ r, mkBuf (bflags r) (bdev r) (blockno r) (bslp r)
  (refcnt r) (bprev r) (bnext r) (qnext r) (bdata r).

Record superblock := mkSb {
  sb_size : Z;
  sb_nblocks : Z;
  sb_ninodes : Z;
  sb_nlog : Z;
  sb_logstart : Z;
  sb_inodestart : Z;
  sb_bmapstart : Z }.
#[export] Instance eta_superblock : Eta superblock := λ r, mkSb (sb_size r) (sb_nblocks r)
  (sb_ninodes r) (sb_nlog r) (sb_logstart r) (sb_inodestart r) (sb_bmapstart r).

(** [struct log]; [lh_n] and [lh_block] are its in-memory header. *)
Record logst := mkLog {
  lstart : Z;
  lsize : Z;
  outstanding : Z;
  committing : Z;
  ldev : Z;
  lh_n : Z;
  lh_block : list Z }.
#[export] Instance eta_logst : Eta logst := λ r, mkLog (lstart r) (lsize r) (outstanding r)
  (committing r) (ldev r) (lh_n r) (lh_block r).

(** kalloc.c: the static [kmem]. *)
Record kmemst := mkKmem { use_lock : bool; freelist : Z }.
#[export] Instance eta_kmemst : Eta kmemst := λ r, mkKmem (use_lock r) (freelist r).

(** What the linker and the build supply: the end of the kernel image, the
    start of its writable data, the entry points stored in new contexts and the
    bytes of [initcode]. *)
Record linker := mkLinker {
  l_end : Z; l_data : Z; l_trapret : Z; l_forkret : Z; l_initcode : list Z }.

(** console.c: [cons.locking], [panicked], the input ring, and the screen (its
    cells, the cursor register) and serial line the output goes to. *)
Record consst := mkCons {
  locking : bool;
  panicked : bool;
  ibuf : list Z;
  ir : Z;
  iw : Z;
  ie : Z;
  crt : list Z;
  cursor : Z;
  uart_out : list Z }.
#[export] Instance eta_consst : Eta consst := λ r, mkCons (locking r) (panicked r) (ibuf r) (ir r)
  (iw r) (ie r) (crt r) (cursor r) (uart_out r).

(** The disk controller of [ide.c] as the driver sees it: the registers of the
    task file, the number of reads of the status port that will still answer
    busy, how long each command to come will take, and the command in progress
    (whether it writes, the drive and the sector). The sectors of drive 1 are
    [disk] below; [a_disk0] are those of drive 0. *)
Record ata := mkAta {
  a_count : Z;
  a_lba0 : Z;
  a_lba1 : Z;
  a_lba2 : Z;
  a_head : Z;
  a_busy : nat;
  a_delays : list nat;
  a_cmd : option (bool * Z * Z);
  a_disk0 : list (list Z) }.
#[export] Instance eta_ata : Eta ata := λ r, mkAta (a_count r) (a_lba0 r) (a_lba1 r) (a_lba2 r) (a_head r)
  (a_busy r) (a_delays r) (a_cmd r) (a_disk0 r).
Record idest := mkIde { idequeue : option nat; havedisk1 : Z; kata : ata }.
#[export] Instance eta_idest : Eta idest := λ r, mkIde (idequeue r) (havedisk1 r) (kata r).
Definition ata0 : ata := mkAta 0 0 0 0 0 0 [] None [].

(** Lock events, most recent first. [dtrace] below is the like for the disk: the
    blocks written, with their contents. Neither is read by the program. *)
Inductive lockev := Acq (l : lock) | Rel (l : lock).

Record kernel := mkKernel {
  kcpu : cpu;
  eflags_if : bool;
  held : list lock;
  ltrace : list lockev;
  image : linker;
  ticks : Z;
  ptable : list proc;
  perf_data : list PerfData;
  last_completion_time : Z;
  initproc : option nat;
  nextpid : Z;
  first : Z;
  seed : Z;
  mem : memory;
  kmem : kmemst;
  kpgdir : Z;
  cr3 : Z;
  ftable : list file;
  pipes : gmap Z pipe;
  disk : list (list Z);
  dtrace : list (nat * list Z);
  bufs : list buf;
  sb : superblock;
  icache : list inode;
  klog : logst;
  kcons : consst;
  kide : idest }.
#[export] Instance eta_kernel : Eta kernel := λ r, mkKernel (kcpu r) (eflags_if r) (held r)
  (ltrace r) (image r) (ticks r) (ptable r) (perf_data r) (last_completion_time r)
  (initproc r) (nextpid r) (first r) (seed r) (mem r) (kmem r) (kpgdir r) (cr3 r)
  (ftable r) (pipes r) (disk r) (dtrace r) (bufs r) (sb r) (icache r) (klog r) (kcons r) (kide r).

Abbreviation K := (M kernel).

Definition buf0 : buf := mkBuf 0 0 0 (mkSlk 0 0) 0 0 0 None [].
#[export] Instance buf_inhabited : Inhabited buf := populate buf0.
Definition inode0 : inode := mkInode 0 0 0 (mkSlk 0 0) 0 0 0 0 0 0 (replicate 13 0).
#[export] Instance inode_inhabited : Inhabited inode := populate inode0.

(** The kernel as it is loaded, on a processor that runs no process and has
    interrupts off: static data is zero but for the initialised variables
    [nextpid] and [first] of [proc.c] and [seed] of [random.c]. *)
Definition boot_state (img : linker) (d : list (list Z)) : kernel :=
  mkKernel (mkCpu 0 false None (mkTs 0 0 0)) false [] [] img 0
    (replicate NPROC proc0) (replicate NPROC perf0) 0 None 1 1 1 ∅ (mkKmem false 0) 0 0
    (replicate NFILE file0) ∅ d [] (replicate (S NBUF) buf0) (mkSb 0 0 0 0 0 0 0)
    (replicate NINODE inode0) (mkLog 0 0 0 0 0 0 (replicate (Z.to_nat LOGSIZE) 0))
    (mkCons false false (replicate 128 0) 0 0 0 (replicate 2000 0) 0 []) (mkIde None 0 ata0).
