(* ===== verification/Locks.v ===== *)
(** * Spinlocks as one processor executes them

    [spinlock.c] from the point of view of the executing processor: interrupt
    nesting ([pushcli]/[popcli]), [holding], and [acquire]/[release] of a lock
    no other processor holds. [held] lists the locks whose [cpu] field is this
    processor, most recent first. Contention between processors is the subject
    of [Spinlock.v]. *)
From stdpp Require Import base strings numbers gmap list.
From S2P Require Import Prelude Machine Kernel.

Definition pushcli : K unit := λ k,
  let eflags := eflags_if k in
  let k := k <| eflags_if := false |> in
  let k := if ncli (kcpu k) =? 0 then k <| kcpu ::= λ c, c <| intena := eflags |> |> else k in
  Ok tt (k <| kcpu ::= λ c, c <| ncli := ncli c + 1 |> |>).

Definition popcli : K unit := λ k,
  if eflags_if k then Panic "popcli - interruptible" k
  else
    let k := k <| kcpu ::= λ c, c <| ncli := ncli c - 1 |> |> in
    if ncli (kcpu k) <? 0 then Panic "popcli" k
    else if (ncli (kcpu k) =? 0) && intena (kcpu k)
         then Ok tt (k <| eflags_if := true |>)
         else Ok tt k.

Definition holding (l : lock) : K bool :=
  pushcli;;
  r ← gets (λ k, bool_decide (l ∈ held k));
  popcli;;
  mret r.

Definition acquire (l : lock) : K unit :=
  pushcli;;
  h ← holding l;
  (if h : bool then panic "acquire" else skip);;
  modify (λ k, k <| held ::= cons l |> <| ltrace ::= cons (Acq l) |>).

Definition release (l : lock) : K unit :=
  h ← holding l;
  (if h : bool then skip else panic "release");;
  modify (λ k, k <| held ::= filter (λ l', l' ≠ l) |> <| ltrace ::= cons (Rel l) |>);;
  popcli.

(** ** The processor's lock state is consistent

    Outside a bare [pushcli] section, the nesting depth is the number of locks
    held, no lock is held twice, and interrupts are off while one is held. *)
Definition cpu_wf (k : kernel) : Prop :=
  ncli (kcpu k) = Z.of_nat (length (held k)) ∧ NoDup (held k) ∧
  (held k ≠ [] → eflags_if k = false).

(** The states after a successful [acquire] and [release]. *)
Definition acq (l : lock) (k : kernel) : kernel :=
  k <| eflags_if := false |>
    <| kcpu := mkCpu (ncli (kcpu k) + 1)
         (if ncli (kcpu k) =? 0 then eflags_if k else intena (kcpu k)) (cproc (kcpu k)) (cts (kcpu k)) |>
    <| held ::= cons l |> <| ltrace ::= cons (Acq l) |>.
Definition rel (l : lock) (k : kernel) : kernel :=
  k <| eflags_if := (ncli (kcpu k) =? 1) && intena (kcpu k) |>
    <| kcpu := mkCpu (ncli (kcpu k) - 1) (intena (kcpu k)) (cproc (kcpu k)) (cts (kcpu k)) |>
    <| held ::= filter (λ l', l' ≠ l) |> <| ltrace ::= cons (Rel l) |>.

Lemma cpu_wf_ncli k : cpu_wf k → 0 ≤ ncli (kcpu k).
Proof. intros (-> & _). lia. Qed.

(** [holding] answers and leaves the processor as it was, when interrupts are
    already off. *)
Lemma holding_off l k : eflags_if k = false → 0 < ncli (kcpu k) →
  holding l k = Ok (bool_decide (l ∈ held k)) k.
Proof.
  intros HIF Hn. destruct k as [[n i p ts] ? ?]; simpl in *; subst.
  unfold holding, pushcli, popcli. munfold. cbn.
  replace (n =? 0) with false by lia. cbn.
  replace (n + 1 - 1 <? 0) with false by lia. replace (n + 1 - 1 =? 0) with false by lia.
  cbn. f_equal. unfold upd. cbn. f_equal. f_equal. lia.
Qed.

(** The state after [pushcli]. *)
Definition pushed (k : kernel) : kernel :=
  k <| eflags_if := false |>
    <| kcpu := mkCpu (ncli (kcpu k) + 1)
         (if ncli (kcpu k) =? 0 then eflags_if k else intena (kcpu k)) (cproc (kcpu k)) (cts (kcpu k)) |>.

Lemma pushcli_ok k : pushcli k = Ok tt (pushed k).
Proof. unfold pushcli, pushed. cbn. by destruct (ncli (kcpu k) =? 0). Qed.

Lemma acquire_unfold l k : cpu_wf k →
  acquire l k = if bool_decide (l ∈ held k) then Panic "acquire" (pushed k) else Ok tt (acq l k).
Proof.
  intros Hwf%cpu_wf_ncli. unfold acquire. rewrite (bind_ok _ _ _ _ _ (pushcli_ok k)).
  erewrite bind_ok; [|apply holding_off; cbn; lia]. cbn.
  by case_bool_decide.
Qed.

Lemma acquire_ok l k : cpu_wf k → l ∉ held k → acquire l k = Ok tt (acq l k).
Proof. intros. rewrite acquire_unfold by done. by rewrite bool_decide_eq_false_2. Qed.

(** Acquiring a lock this processor already holds panics. *)
Lemma acquire_held l k : cpu_wf k → l ∈ held k → acquire l k = Panic "acquire" (pushed k).
Proof. intros. rewrite acquire_unfold by done. by rewrite bool_decide_eq_true_2. Qed.

Lemma cpu_wf_held k l : cpu_wf k → l ∈ held k → eflags_if k = false ∧ 0 < ncli (kcpu k).
Proof.
  intros (Hn & _ & HIF) Hl. destruct (held k) as [|x L]; [by apply not_elem_of_nil in Hl|].
  split; [by apply HIF|]. rewrite Hn. simpl. lia.
Qed.

Lemma release_ok l k : cpu_wf k → l ∈ held k → release l k = Ok tt (rel l k).
Proof.
  intros Hwf Hl. destruct (cpu_wf_held _ _ Hwf Hl) as [HIF Hn]. unfold release.
  erewrite bind_ok; [|by apply holding_off].
  rewrite bool_decide_eq_true_2 by done. destruct k as [[n i p ts] ? ?]; simpl in *; subst.
  unfold rel, popcli. munfold. cbn. replace (n - 1 <? 0) with false by lia.
  replace (n =? 1) with (n - 1 =? 0) by lia. by destruct ((n - 1 =? 0) && i).
Qed.

Lemma cpu_wf_acq l k : cpu_wf k → l ∉ held k → cpu_wf (acq l k).
Proof.
  intros (Hn & Hd & HIF) Hl. unfold cpu_wf, acq. cbn.
  split_and!; [lia|by constructor|done].
Qed.

Lemma filter_ne_length (l : lock) (L : list lock) : NoDup L → l ∈ L →
  S (length (filter (λ l', l' ≠ l) L)) = length L.
Proof.
  induction 1 as [|x L Hx Hd IH]; [by intros ?%not_elem_of_nil|].
  intros [->|Hl]%elem_of_cons.
  - rewrite filter_cons_False by naive_solver. simpl. f_equal.
    apply (f_equal length), filter_all, Forall_forall. by intros y Hy ->.
  - rewrite filter_cons_True by set_solver. simpl. f_equal. auto.
Qed.

Lemma cpu_wf_rel l k : cpu_wf k → l ∈ held k → cpu_wf (rel l k).
Proof.
  intros Hwf Hl. pose proof Hwf as (Hn & Hd & HIF).
  pose proof (filter_ne_length _ _ Hd Hl) as Hlen. unfold cpu_wf, rel. cbn.
  split_and!; [lia|by apply NoDup_filter|].
  intros Hne. destruct (filter _ _); [done|]. simpl in Hlen.
  replace (ncli (kcpu k) =? 1) with false by lia. done.
Qed.

Lemma held_rel_top (l : lock) (L : list lock) : l ∉ L → filter (λ l', l' ≠ l) (l :: L) = L.
Proof.
  intros. rewrite filter_cons_False by naive_solver.
  apply filter_all, Forall_forall. by intros y Hy ->.
Qed.

(** ** States equal up to lock bookkeeping

    [k ≃ k'] ignores the trace of lock events and, outside critical sections,
    the saved interrupt flag, which the next [pushcli] overwrites. *)
Definition kdata (k : kernel) : kernel :=
  k <| ltrace := [] |>
    <| kcpu := mkCpu (ncli (kcpu k))
         (if ncli (kcpu k) =? 0 then false else intena (kcpu k)) (cproc (kcpu k)) (cts (kcpu k)) |>.
Definition keqv (k k' : kernel) : Prop := kdata k = kdata k'.
Infix "≃" := keqv (at level 70) : kernel_scope.

#[export] Instance keqv_equiv : Equivalence keqv.
Proof. unfold keqv. split; [by intros ?|by intros ??|by intros ??? -> ->]. Qed.

Lemma keqv_intro k k' :
  held k = held k' → eflags_if k = eflags_if k' → ncli (kcpu k) = ncli (kcpu k') →
  cproc (kcpu k) = cproc (kcpu k') → cts (kcpu k) = cts (kcpu k') →
  (ncli (kcpu k) ≠ 0 → intena (kcpu k) = intena (kcpu k')) →
  k <| kcpu := kcpu k' |> <| ltrace := ltrace k' |> <| held := held k' |>
    <| eflags_if := eflags_if k' |> = k' → k ≃ k'.
Proof.
  unfold keqv, kdata. destruct k as [[] ? ?], k' as [[] ? ?]; cbn.
  intros -> -> -> -> -> Hi [= ]; subst. unfold upd; cbn.
  case_match; [done|]. do 2 f_equal. apply Hi. lia.
Qed.

(** Every field but the two ignored ones can be read through [≃]. *)
Lemma keqv_fields k k' : k ≃ k' →
  held k = held k' ∧ eflags_if k = eflags_if k' ∧ image k = image k' ∧
  ncli (kcpu k) = ncli (kcpu k') ∧ cproc (kcpu k) = cproc (kcpu k') ∧
  cts (kcpu k) = cts (kcpu k') ∧ ticks k = ticks k' ∧ ptable k = ptable k' ∧ perf_data k = perf_data k' ∧
  last_completion_time k = last_completion_time k' ∧ initproc k = initproc k' ∧
  nextpid k = nextpid k' ∧ first k = first k' ∧ seed k = seed k' ∧ mem k = mem k' ∧
  kmem k = kmem k' ∧ kpgdir k = kpgdir k' ∧ cr3 k = cr3 k' ∧ ftable k = ftable k' ∧
  pipes k = pipes k' ∧ disk k = disk k' ∧ dtrace k = dtrace k' ∧ bufs k = bufs k' ∧ sb k = sb k' ∧
  icache k = icache k' ∧ klog k = klog k' ∧ kcons k = kcons k' ∧ kide k = kide k'.
Proof. unfold keqv, kdata, upd. cbn. intros [= ]. split_and!; done. Qed.

Ltac keqv_rd H :=
  destruct (keqv_fields _ _ H) as (?Hheld & ?Hif & ?Himg & ?Hncli & ?Hcproc & ?Hcts & ?Hticks & ?Hpt
    & ?Hpf & ?Hlct & ?Hip & ?Hnp & ?Hfst & ?Hseed & ?Hmem & ?Hkmem & ?Hkpg & ?Hcr3 & ?Hft
    & ?Hpipes & ?Hdisk & ?Hdtr & ?Hbufs & ?Hsb & ?Hic & ?Hlog & ?Hcons & ?Hide).

#[export] Instance cpu_wf_proper : Proper (keqv ==> iff) cpu_wf.
Proof.
  intros k k' H. keqv_rd H. unfold cpu_wf. by rewrite Hheld, Hif, Hncli.
Qed.

Section upd_proper.
Ltac t :=
  intros k k' H;
  lazymatch goal with
  | |- keqv (@upd _ _ ?p ?u ?g _) _ =>
      change (@upd _ _ p u g (kdata k) = @upd _ _ p u g (kdata k')); by rewrite H
  end.
#[global] Instance ticks_proper g : Proper (keqv ==> keqv) (upd (proj:=ticks) g).
Proof. t. Qed.
#[global] Instance ptable_proper g : Proper (keqv ==> keqv) (upd (proj:=ptable) g).
Proof. t. Qed.
#[global] Instance perf_data_proper g : Proper (keqv ==> keqv) (upd (proj:=perf_data) g).
Proof. t. Qed.
#[global] Instance lct_proper g : Proper (keqv ==> keqv) (upd (proj:=last_completion_time) g).
Proof. t. Qed.
#[global] Instance initproc_proper g : Proper (keqv ==> keqv) (upd (proj:=initproc) g).
Proof. t. Qed.
#[global] Instance nextpid_proper g : Proper (keqv ==> keqv) (upd (proj:=nextpid) g).
Proof. t. Qed.
#[global] Instance first_proper g : Proper (keqv ==> keqv) (upd (proj:=first) g).
Proof. t. Qed.
#[global] Instance seed_proper g : Proper (keqv ==> keqv) (upd (proj:=seed) g).
Proof. t. Qed.
#[global] Instance mem_proper g : Proper (keqv ==> keqv) (upd (proj:=mem) g).
Proof. t. Qed.
#[global] Instance kmem_proper g : Proper (keqv ==> keqv) (upd (proj:=kmem) g).
Proof. t. Qed.
#[global] Instance ftable_proper g : Proper (keqv ==> keqv) (upd (proj:=ftable) g).
Proof. t. Qed.
#[global] Instance pipes_proper g : Proper (keqv ==> keqv) (upd (proj:=pipes) g).
Proof. t. Qed.
#[global] Instance disk_proper g : Proper (keqv ==> keqv) (upd (proj:=disk) g).
Proof. t. Qed.
#[global] Instance dtrace_proper g : Proper (keqv ==> keqv) (upd (proj:=dtrace) g).
Proof. t. Qed.
#[global] Instance bufs_proper g : Proper (keqv ==> keqv) (upd (proj:=bufs) g).
Proof. t. Qed.
#[global] Instance icache_proper g : Proper (keqv ==> keqv) (upd (proj:=icache) g).
Proof. t. Qed.
#[global] Instance klog_proper g : Proper (keqv ==> keqv) (upd (proj:=klog) g).
Proof. t. Qed.
#[global] Instance kide_proper g : Proper (keqv ==> keqv) (upd (proj:=kide) g).
Proof. t. Qed.
#[global] Instance kcons_proper g : Proper (keqv ==> keqv) (upd (proj:=kcons) g).
Proof. t. Qed.
#[global] Instance cr3_proper g : Proper (keqv ==> keqv) (upd (proj:=cr3) g).
Proof. t. Qed.
#[global] Instance kpgdir_proper g : Proper (keqv ==> keqv) (upd (proj:=kpgdir) g).
Proof. t. Qed.
#[global] Instance sb_proper g : Proper (keqv ==> keqv) (upd (proj:=sb) g).
Proof. t. Qed.
End upd_proper.

(** [k] with the lock state of another state; what the processor runs is kept. *)
Definition restored (n : Z) (i : bool) (h : list lock) (e : bool) (k : kernel) : kernel :=
  k <| kcpu ::= λ c, mkCpu n i (cproc c) (cts c) |> <| held := h |> <| eflags_if := e |>.
Definition restore (k0 k : kernel) : kernel :=
  restored (ncli (kcpu k0)) (intena (kcpu k0)) (held k0) (eflags_if k0) k.

(** A critical section: after [release] the processor is as before [acquire]. *)
Lemma rel_acq_eqv l k k1 : cpu_wf k → l ∉ held k →
  ncli (kcpu k1) = ncli (kcpu (acq l k)) → intena (kcpu k1) = intena (kcpu (acq l k)) →
  held k1 = l :: held k → eflags_if k1 = false → rel l k1 ≃ restore k k1.
Proof.
  intros (Hn & Hd & HIF) Hl Hc Hi Hh He. cbn in Hc, Hi.
  apply keqv_intro; cbn -[filter]; rewrite ?Hc, ?Hi, ?Hh.
  - by apply held_rel_top.
  - destruct (Z.eqb_spec (ncli (kcpu k)) 0) as [E|E].
    + rewrite E. by destruct (eflags_if k).
    + replace (ncli (kcpu k) + 1 =? 1) with false by lia. symmetry. apply HIF.
      by destruct (held k).
  - lia.
  - done.
  - done.
  - intros. by replace (ncli (kcpu k) =? 0) with false by lia.
  - done.
Qed.

(** ** Specifications up to lock bookkeeping

    [kwp m Q Y k]: from every state equivalent to [k], [m] meets [wp] for [Q]
    and [Y] read up to [≃]. *)
Definition upto {A} (Q : A → kernel → Prop) (a : A) (s : kernel) : Prop := ∃ d, s ≃ d ∧ Q a d.
Definition upto_switch (Y : protocol kernel) : protocol kernel := λ s o,
  ∃ d, s ≃ d ∧ Y d ((λ (P : kernel → Prop) d', ∀ s', s' ≃ d' → P s') <$> o).
Definition kwp {A} (m : K A) (Q : A → kernel → Prop) (Y : protocol kernel) (k : kernel) : Prop :=
  ∀ s, s ≃ k → wp m (upto Q) (upto_switch Y) s.

#[export] Instance upto_switch_mono Y : Mono Y → Mono (upto_switch Y).
Proof.
  intros HY s P P' HP (d & Hd & H). exists d. split; [done|]. revert H. apply mono. auto.
Qed.

(** A function of the state that does not look at the bookkeeping. *)
Definition reads {A} (f : kernel → A) : Prop := ∀ s k, s ≃ k → f s = f k.

Section kwp.
Context (Y : protocol kernel) `{!Mono Y} {A B : Type}.
Implicit Types (k : kernel).

Lemma kwp_conv (m : K A) Q k k' : k ≃ k' → kwp m Q Y k' → kwp m Q Y k.
Proof. intros Hk H s Hs. apply H. by rewrite Hs. Qed.

Lemma kwp_mono (m : K A) (Q Q' : A → kernel → Prop) k :
  kwp m Q Y k → (∀ a d, Q a d → Q' a d) → kwp m Q' Y k.
Proof.
  intros H HQ s Hs. eapply wp_mono; [apply _|by apply H|]. unfold upto. naive_solver.
Qed.

Lemma kwp_ret (a : A) (Q : A → kernel → Prop) k : Q a k → kwp (mret a) Q Y k.
Proof. intros H s Hs. apply wp_ret. by exists k. Qed.

Lemma kwp_bind (m : K A) (f : A → K B) Q k :
  kwp m (λ a, kwp (f a) Q Y) Y k → kwp (m ≫= f) Q Y k.
Proof.
  intros H s Hs. apply wp_bind; [apply _|]. eapply wp_mono; [apply _|by apply H|].
  intros a s' (d & Hd & Hf). by apply Hf.
Qed.

Lemma kwp_gets (f : kernel → A) v (Q : A → kernel → Prop) k :
  reads f → f k = v → Q v k → kwp (gets f) Q Y k.
Proof. intros Hf <- H s Hs. apply wp_gets. exists k. by rewrite (Hf _ _ Hs). Qed.

Lemma kwp_modify f (Q : unit → kernel → Prop) k :
  Proper (keqv ==> keqv) f → Q tt (f k) → kwp (modify f) Q Y k.
Proof. intros Hf H s Hs. apply wp_modify. exists (f k). by rewrite Hs. Qed.

Lemma kwp_skip (Q : unit → kernel → Prop) k : Q tt k → kwp skip Q Y k.
Proof. intros H s Hs. apply wp_skip. by exists k. Qed.

Lemma kwp_swtch (Q : unit → kernel → Prop) k : Y k (Some (Q tt)) → kwp swtch Q Y k.
Proof.
  intros H s Hs. exists k. split; [done|]. revert H. apply mono.
  intros d HQ s' Hs'. by exists d.
Qed.

Lemma kwp_ok (m : K A) (Q : A → kernel → Prop) k a d :
  (∀ s, s ≃ k → ∃ s', m s = Ok a s' ∧ s' ≃ d) → Q a d → kwp m Q Y k.
Proof.
  intros H HQ s Hs. destruct (H s Hs) as (s' & Heq & Hd). eapply wp_ok; [done|]. by exists d.
Qed.
End kwp.

(** A counting loop keeps an invariant [I] indexed by the loop variable. *)
Lemma kwp_for_up (I : nat → kernel → Prop) f Y `{!Mono Y} n : ∀ i k,
  I i k →
  (∀ j d, (i ≤ j < i + n)%nat → I j d → kwp (f j) (λ _, I (S j)) Y d) →
  kwp (for_up n i f) (λ _, I (i + n)%nat) Y k.
Proof.
  induction n as [|n IH]; intros i k HI Hf; cbn [for_up].
  - apply kwp_skip. by rewrite Nat.add_0_r.
  - apply kwp_bind; [done|]. eapply kwp_mono; [done|apply Hf; [lia|done]|].
    intros [] d HI'. replace (i + S n)%nat with (S i + n)%nat by lia.
    apply IH; [done|]. intros j d' Hj. apply Hf. lia.
Qed.

(** The reading of a specification that allows no switch. *)
Lemma kwp_returns {A} (m : K A) Q k : kwp m Q no_switch k →
  ∃ a k' d, m k = Ok a k' ∧ k' ≃ d ∧ Q a d.
Proof.
  intros H. assert (wp m (upto Q) no_switch k) as (a & k' & ? & d & ? & ?)%wp_returns; [|eauto 8].
  specialize (H k ltac:(done)). revert H. unfold wp. generalize (m k).
  intros [a s|e s|s r|s]; cbn; unfold upto_switch, no_switch; naive_solver.
Qed.

(** The reading of a specification that allows no return. *)
Lemma kwp_switches {A} (m : K A) R k : kwp m (λ _ _, False) (at_switch R) k →
  ∃ k' r d, m k = Swtch k' r ∧ k' ≃ d ∧ R d.
Proof.
  intros H. assert (wp m (λ _ _, False) (at_switch (upto (λ _ : unit, R) tt)) k)
    as (k' & r & ? & d & ? & ?)%wp_switches; [|eauto 8].
  specialize (H k ltac:(done)). revert H. unfold wp. generalize (m k).
  intros [a s|e s|s r|s]; cbn; unfold upto_switch, upto, at_switch; naive_solver.
Qed.

Lemma keqv_kcpu k k' : k ≃ k' → ncli (kcpu k) ≠ 0 → kcpu k = kcpu k'.
Proof.
  unfold keqv, kdata, upd. cbn. destruct k as [[] ? ?], k' as [[] ? ?]; cbn.
  intros [= -> Hi]; subst. intros. rewrite (proj2 (Z.eqb_neq _ _)) in Hi by done. congruence.
Qed.

(** [k] with another processor record, lock list and interrupt flag. *)
Definition setlock (c : cpu) (h : list lock) (e : bool) (k : kernel) : kernel :=
  k <| kcpu := c |> <| held := h |> <| eflags_if := e |>.

Definition cnorm (c : cpu) : cpu :=
  mkCpu (ncli c) (if ncli c =? 0 then false else intena c) (cproc c) (cts c).

Lemma acq_kcpu l k k' : k ≃ k' → kcpu (acq l k) = kcpu (acq l k').
Proof.
  intros H. pose proof (keqv_kcpu k k' H) as Hc. keqv_rd H. cbn.
  rewrite Hncli, Hcproc, Hcts, Hif. f_equal.
  destruct (Z.eqb_spec (ncli (kcpu k')) 0); [done|]. rewrite Hc; [done|]. lia.
Qed.

#[export] Instance acq_proper l : Proper (keqv ==> keqv) (acq l).
Proof.
  intros k k' H. pose proof (acq_kcpu l k k' H) as Hc. keqv_rd H.
  change (setlock (cnorm (kcpu (acq l k))) (l :: held k) false (kdata k)
          = setlock (cnorm (kcpu (acq l k'))) (l :: held k') false (kdata k')).
  by rewrite Hc, Hheld, H.
Qed.

Lemma kwp_acquire l Q Y k : cpu_wf k → l ∉ held k → Q tt (acq l k) → kwp (acquire l) Q Y k.
Proof.
  intros Hwf Hl H. eapply kwp_ok; [|apply H].
  intros s Hs. exists (acq l s). keqv_rd Hs. rewrite acquire_ok; [|by rewrite Hs|by rewrite Hheld].
  split; [done|]. by rewrite Hs.
Qed.

Section kcpu_proper.
Ltac t :=
  intros k k' H; pose proof (keqv_kcpu k k' H) as Hk;
  destruct (keqv_fields k k' H) as (Hh & Hi & _ & Hn & Hp & Ht & _);
  lazymatch goal with
  | |- keqv (upd (proj:=kcpu) ?g _) _ =>
      change (setlock (cnorm (g (kcpu k))) (held k) (eflags_if k) (kdata k)
            = setlock (cnorm (g (kcpu k'))) (held k') (eflags_if k') (kdata k'))
  end;
  unfold cnorm; cbn; rewrite Hn, ?Hp, ?Ht, Hh, Hi, H; rewrite Hn in Hk;
  destruct (Z.eqb_spec (ncli (kcpu k')) 0); [done|rewrite ?Hk by done; done].
#[global] Instance kcpu_cproc_proper p : Proper (keqv ==> keqv) (λ k, k <| kcpu ::= λ c, c <| cproc := p |> |>).
Proof. t. Qed.
#[global] Instance kcpu_cts_proper ts : Proper (keqv ==> keqv) (λ k, k <| kcpu ::= λ c, c <| cts := ts |> |>).
Proof. t. Qed.
#[global] Instance kcpu_intena_proper b : Proper (keqv ==> keqv) (λ k, k <| kcpu ::= λ c, c <| intena := b |> |>).
Proof. t. Qed.
End kcpu_proper.

(** A change of the kernel's data: it neither reads nor writes the lock state. *)
Class DataUpd (F : kernel → kernel) : Prop := {
  du_frame n i h e k : restored n i h e (F k) = F (restored n i h e k);
  du_proper :: Proper (keqv ==> keqv) F }.

Section data_upd.
Ltac t := intros [HF HP]; split; [intros; rewrite <- HF; reflexivity|intros ? ? E; by rewrite E].
#[global] Instance du_id : DataUpd (λ k, k).
Proof. split; [done|]. by intros ???. Qed.
#[global] Instance du_cproc p F : DataUpd F → DataUpd (λ k, (F k) <| kcpu ::= λ c, c <| cproc := p |> |>).
Proof. t. Qed.
#[global] Instance du_cts ts F : DataUpd F → DataUpd (λ k, (F k) <| kcpu ::= λ c, c <| cts := ts |> |>).
Proof. t. Qed.
#[global] Instance du_ticks g F : DataUpd F → DataUpd (λ k, (F k) <| ticks ::= g |>).
Proof. t. Qed.
#[global] Instance du_ptable g F : DataUpd F → DataUpd (λ k, (F k) <| ptable ::= g |>).
Proof. t. Qed.
#[global] Instance du_perf_data g F : DataUpd F → DataUpd (λ k, (F k) <| perf_data ::= g |>).
Proof. t. Qed.
#[global] Instance du_lct g F : DataUpd F → DataUpd (λ k, (F k) <| last_completion_time ::= g |>).
Proof. t. Qed.
#[global] Instance du_initproc g F : DataUpd F → DataUpd (λ k, (F k) <| initproc ::= g |>).
Proof. t. Qed.
#[global] Instance du_nextpid g F : DataUpd F → DataUpd (λ k, (F k) <| nextpid ::= g |>).
Proof. t. Qed.
#[global] Instance du_first g F : DataUpd F → DataUpd (λ k, (F k) <| first ::= g |>).
Proof. t. Qed.
#[global] Instance du_seed g F : DataUpd F → DataUpd (λ k, (F k) <| seed ::= g |>).
Proof. t. Qed.
#[global] Instance du_mem g F : DataUpd F → DataUpd (λ k, (F k) <| mem ::= g |>).
Proof. t. Qed.
#[global] Instance du_kmem g F : DataUpd F → DataUpd (λ k, (F k) <| kmem ::= g |>).
Proof. t. Qed.
#[global] Instance du_kpgdir g F : DataUpd F → DataUpd (λ k, (F k) <| kpgdir ::= g |>).
Proof. t. Qed.
#[global] Instance du_cr3 g F : DataUpd F → DataUpd (λ k, (F k) <| cr3 ::= g |>).
Proof. t. Qed.
#[global] Instance du_ftable g F : DataUpd F → DataUpd (λ k, (F k) <| ftable ::= g |>).
Proof. t. Qed.
#[global] Instance du_pipes g F : DataUpd F → DataUpd (λ k, (F k) <| pipes ::= g |>).
Proof. t. Qed.
#[global] Instance du_disk g F : DataUpd F → DataUpd (λ k, (F k) <| disk ::= g |>).
Proof. t. Qed.
#[global] Instance du_dtrace g F : DataUpd F → DataUpd (λ k, (F k) <| dtrace ::= g |>).
Proof. t. Qed.
#[global] Instance du_bufs g F : DataUpd F → DataUpd (λ k, (F k) <| bufs ::= g |>).
Proof. t. Qed.
#[global] Instance du_sb g F : DataUpd F → DataUpd (λ k, (F k) <| sb ::= g |>).
Proof. t. Qed.
#[global] Instance du_icache g F : DataUpd F → DataUpd (λ k, (F k) <| icache ::= g |>).
Proof. t. Qed.
#[global] Instance du_klog g F : DataUpd F → DataUpd (λ k, (F k) <| klog ::= g |>).
Proof. t. Qed.
#[global] Instance du_kide g F : DataUpd F → DataUpd (λ k, (F k) <| kide ::= g |>).
Proof. t. Qed.
#[global] Instance du_kcons g F : DataUpd F → DataUpd (λ k, (F k) <| kcons ::= g |>).
Proof. t. Qed.
End data_upd.

Lemma du_lockstate F `{!DataUpd F} k :
  ncli (kcpu (F k)) = ncli (kcpu k) ∧ intena (kcpu (F k)) = intena (kcpu k) ∧
  held (F k) = held k ∧ eflags_if (F k) = eflags_if k.
Proof.
  pose proof (du_frame (F:=F) (ncli (kcpu k)) (intena (kcpu k)) (held k) (eflags_if k) k) as H.
  replace (restored _ _ _ _ k) with k in H by (by destruct k as [[] ? ?]). rewrite <- H. done.
Qed.

Lemma cpu_wf_data F k `{!DataUpd F} : cpu_wf k → cpu_wf (F k).
Proof. destruct (du_lockstate F k) as (E1 & _ & E2 & E3). unfold cpu_wf. by rewrite E1, E2, E3. Qed.

Lemma held_data F k l `{!DataUpd F} : l ∈ held k → l ∈ held (F k).
Proof. destruct (du_lockstate F k) as (_ & _ & E & _). by rewrite E. Qed.

Lemma not_held_data F k l `{!DataUpd F} : l ∉ held k → l ∉ held (F k).
Proof. destruct (du_lockstate F k) as (_ & _ & E & _). by rewrite E. Qed.

Lemma not_held_acq l l' k : l ≠ l' → l ∉ held k → l ∉ held (acq l' k).
Proof. intros. by apply not_elem_of_cons. Qed.

Lemma restore_acq l k : restore k (acq l k) ≃ k.
Proof. done. Qed.

#[export] Instance restore_proper k0 : Proper (keqv ==> keqv) (restore k0).
Proof.
  intros k k' H. keqv_rd H.
  change (setlock (cnorm (kcpu (restore k0 k))) (held k0) (eflags_if k0) (kdata k)
        = setlock (cnorm (kcpu (restore k0 k'))) (held k0) (eflags_if k0) (kdata k')).
  cbn. by rewrite Hcproc, Hcts, H.
Qed.

(** [release] closes the critical section that [acquire l] opened in [k], in
    which the data changed by [F]. *)
Lemma kwp_release l F k Q Y `{!DataUpd F} : cpu_wf k → l ∉ held k → Q tt (F k) →
  kwp (release l) Q Y (F (acq l k)).
Proof.
  intros Hwf Hl HQ. eapply kwp_ok; [|apply HQ]. intros s Hs.
  destruct (du_lockstate F (acq l k)) as (Hc & Hi & Hh & He).
  pose proof (cpu_wf_acq _ _ Hwf Hl) as Hwf'.
  assert (cpu_wf (F (acq l k))) as Hk by by apply cpu_wf_data.
  assert (Hcs : kcpu s = kcpu (F (acq l k))).
  { apply keqv_kcpu; [done|]. keqv_rd Hs. rewrite Hncli, Hc. cbn. destruct Hwf. lia. }
  keqv_rd Hs. exists (rel l s). rewrite release_ok; [|by rewrite Hs|rewrite Hheld, Hh; set_solver].
  split; [done|]. etrans.
  { apply (rel_acq_eqv _ k); try done; by rewrite ?Hcs, ?Hc, ?Hi, ?Hheld, ?Hif, ?Hh, ?He. }
  rewrite Hs. unfold restore. rewrite du_frame. apply du_proper, (restore_acq l k).
Qed.

(** [release] of the lock acquired last, in code entered with it held. *)
Lemma kwp_release_top l L Q Y k : cpu_wf k → held k = l :: L → Q tt (rel l k) → kwp (release l) Q Y k.
Proof.
  intros Hwf Hh HQ. eapply kwp_ok; [|apply HQ]. intros s Hs.
  assert (l ∈ held k) as Hl by (rewrite Hh; set_solver).
  destruct (cpu_wf_held k l) as [_ Hn]; [done..|]. pose proof Hs as Hs2. keqv_rd Hs2.
  assert (kcpu s = kcpu k) as Hc by (apply keqv_kcpu; [done|lia]).
  exists (rel l s). rewrite release_ok; [|by rewrite Hs|by rewrite Hheld]. split; [done|].
  change (setlock (cnorm (kcpu (rel l s))) (held (rel l s)) (eflags_if (rel l s)) (kdata s) =
    setlock (cnorm (kcpu (rel l k))) (held (rel l k)) (eflags_if (rel l k)) (kdata k)).
  unfold rel at 1 2 3. cbn -[rel]. by rewrite Hc, Hheld, Hs.
Qed.

Lemma kwp_pushcli Q Y k : Q tt (pushed k) → kwp pushcli Q Y k.
Proof.
  intros HQ. eapply kwp_ok; [|apply HQ]. intros s Hs. exists (pushed s). rewrite pushcli_ok.
  split; [done|]. pose proof (acq_kcpu Lkmem s k Hs) as Hc. keqv_rd Hs.
  change (setlock (cnorm (kcpu (acq Lkmem s))) (held s) false (kdata s)
        = setlock (cnorm (kcpu (acq Lkmem k))) (held k) false (kdata k)).
  by rewrite Hc, Hheld, Hs.
Qed.

Definition popped (k : kernel) : kernel :=
  k <| eflags_if := (ncli (kcpu k) =? 1) && intena (kcpu k) |>
    <| kcpu := mkCpu (ncli (kcpu k) - 1) (intena (kcpu k)) (cproc (kcpu k)) (cts (kcpu k)) |>.

Lemma popcli_ok k : eflags_if k = false → 0 < ncli (kcpu k) → popcli k = Ok tt (popped k).
Proof.
  intros Hif Hn. destruct k as [[n i p ts] ? ?]; simpl in *; subst. unfold popcli, popped. cbn.
  replace (n - 1 <? 0) with false by lia. replace (n =? 1) with (n - 1 =? 0) by lia.
  by destruct ((n - 1 =? 0) && i).
Qed.

Lemma pop_push_eqv k k1 : cpu_wf k →
  ncli (kcpu k1) = ncli (kcpu (pushed k)) → intena (kcpu k1) = intena (kcpu (pushed k)) →
  held k1 = held k → eflags_if k1 = false → popped k1 ≃ restore k k1.
Proof.
  intros (Hn & Hd & HIF) Hc Hi Hh He. cbn in Hc, Hi.
  apply keqv_intro; cbn; rewrite ?Hc, ?Hi, ?Hh; try done.
  - destruct (Z.eqb_spec (ncli (kcpu k)) 0) as [E|E].
    + rewrite E. by destruct (eflags_if k).
    + replace (ncli (kcpu k) + 1 =? 1) with false by lia. symmetry. apply HIF.
      by destruct (held k).
  - lia.
  - intros. by replace (ncli (kcpu k) =? 0) with false by lia.
Qed.

(** [popcli] closes the section that [pushcli] opened in [k]. *)
Lemma kwp_popcli F k Q Y `{!DataUpd F} : cpu_wf k → Q tt (F k) → kwp popcli Q Y (F (pushed k)).
Proof.
  intros Hwf HQ. eapply kwp_ok; [|apply HQ]. intros s Hs.
  destruct (du_lockstate F (pushed k)) as (Hc & Hi & Hh & He).
  assert (0 < ncli (kcpu (pushed k))) as Hpos by (destruct Hwf; cbn; lia).
  assert (Hcs : kcpu s = kcpu (F (pushed k))).
  { apply keqv_kcpu; [done|]. keqv_rd Hs. lia. }
  pose proof Hs as Hs2. keqv_rd Hs2. exists (popped s).
  rewrite popcli_ok by (rewrite ?Hif, ?Hncli, ?He, ?Hc; done). split; [done|]. etrans.
  { apply (pop_push_eqv k); try done; by rewrite ?Hcs, ?Hc, ?Hi, ?Hheld, ?Hif, ?Hh, ?He. }
  rewrite Hs. unfold restore. rewrite du_frame. by apply du_proper.
Qed.

Lemma kwp_holding l Q Y k : cpu_wf k → l ∈ held k → Q true k → kwp (holding l) Q Y k.
Proof.
  intros Hwf Hl HQ. eapply kwp_ok; [|apply HQ]. intros s Hs.
  assert (l ∈ held s) as Hl' by (keqv_rd Hs; by rewrite Hheld).
  assert (cpu_wf s) as Hws by by rewrite Hs.
  destruct (cpu_wf_held s l) as [? ?]; [done..|]. exists s.
  rewrite holding_off, bool_decide_eq_true_2; done.
Qed.

(** ** Symbolic execution *)

(** Proves that a function reads no bookkeeping. *)
Ltac solve_reads :=
  let H := fresh in intros ? ? H; apply keqv_fields in H; destruct_and! H; cbv beta;
  repeat match goal with E : _ = _ |- _ => rewrite ?E; clear E end; reflexivity.

(** A state built by updates: the state below them, and the changes. *)
Ltac spine_base k := lazymatch k with @upd _ _ _ _ _ ?k' => spine_base k' | _ => k end.
Ltac spine_fun b k :=
  lazymatch k with
  | b => constr:(λ x : kernel, x)
  | @upd ?R ?T ?p ?i ?g ?k' =>
      let F := spine_fun b k' in
      lazymatch F with (λ x, ?e) => constr:(λ x : kernel, @upd R T p i g e) end
  end.

(** Side conditions on the locks held in a state built by updates. *)
Ltac kside :=
  lazymatch goal with
  | |- cpu_wf (@upd ?R ?T ?p ?i ?g ?k) =>
      let b := spine_base k in let F := spine_fun b (@upd R T p i g k) in
      refine (cpu_wf_data F b _); kside
  | |- cpu_wf (acq _ _) => apply cpu_wf_acq; kside
  | |- cpu_wf _ => assumption
  | |- ?l ∉ held (@upd ?R ?T ?p ?i ?g ?k) =>
      let b := spine_base k in let F := spine_fun b (@upd R T p i g k) in
      refine (not_held_data F b l _); kside
  | |- ?l ∉ held (acq ?l' ?k) =>
      refine (not_held_acq l l' k _ _); [congruence|kside]
  | |- ?l ∈ held (@upd ?R ?T ?p ?i ?g ?k) =>
      let b := spine_base k in let F := spine_fun b (@upd R T p i g k) in
      refine (held_data F b l _); kside
  | |- ?l ∈ held (acq ?l ?k) => refine (list_elem_of_here l (held k))
  | |- ?l ∈ held (acq ?l' ?k) => refine (list_elem_of_further l l' (held k) _); kside
  | |- _ => solve [auto]
  end.

(** [release l]: the data may have changed since the lock was acquired. *)
Ltac krelease l k :=
  let b := spine_base k in let F := spine_fun b k in
  apply (kwp_release l F); [apply _|kside|kside|].

(** Computes a projection of a state built by updates. *)
Ltac kproj v :=
  eval cbn [acq upd kcpu eflags_if held ltrace image ticks ptable perf_data
    last_completion_time initproc nextpid first seed mem kmem kpgdir cr3 ftable pipes disk dtrace bufs sb
    icache klog kcons kide ncli cproc cts] in v.

Ltac kgets f k :=
  let v := kproj (f k) in
  apply (kwp_gets _ f v); [solve_reads|reflexivity|].

Ltac kstep :=
  lazymatch goal with
  | |- kwp (_ ≫= _) _ _ _ => apply kwp_bind; [apply _|]
  | |- kwp (mret _) _ _ _ => apply kwp_ret
  | |- kwp (gets ?f) _ _ ?k => kgets f k
  | |- kwp (modify _) _ _ _ => apply kwp_modify; [apply _|]
  | |- kwp skip _ _ _ => apply kwp_skip
  | |- kwp swtch _ _ _ => apply kwp_swtch; [apply _|]
  | |- kwp (acquire _) _ _ _ => apply kwp_acquire; [kside|kside|]
  | |- kwp pushcli _ _ _ => apply kwp_pushcli
  | |- kwp popcli _ _ ?k =>
      let b := spine_base k in let F := spine_fun b k in apply (kwp_popcli F); [apply _|kside|]
  | |- kwp (holding _) _ _ _ => apply kwp_holding; [kside|kside|]
  | |- kwp (release ?l) _ _ ?k => krelease l k
  end; cbv beta.
Ltac ksteps := repeat kstep.
