(* ===== verification/Kalloc.v ===== *)
(** * The physical page allocator

    [kalloc.c]: the free pages form a list threaded through the pages
    themselves, the first word of a free page being the address of the next.
    The refinement is to a finite list of free pages. *)
From stdpp Require Import base strings numbers gmap list.
From S2P Require Import Prelude Machine KString Kernel Locks.

(** ** kalloc.c *)
Definition kfree (v : Z) : K unit :=
  e ← gets (λ k, l_end (image k));
  (if negb (v mod PGSIZE =? 0) || (v <? e) || (PHYSTOP <=? V2P v)
   then panic "kfree" else skip);;
  modify (λ k, k <| mem ::= λ m, memset m v 1 PGSIZE |>);;
  ul ← gets (λ k, use_lock (kmem k));
  when ul (acquire Lkmem);;
  fl ← gets (λ k, freelist (kmem k));
  modify (λ k, k <| mem ::= λ m, st32 m v fl |>);;
  modify (λ k, k <| kmem ::= λ km, km <| freelist := v |> |>);;
  when ul (release Lkmem).

Definition kalloc : K Z :=
  ul ← gets (λ k, use_lock (kmem k));
  when ul (acquire Lkmem);;
  r ← gets (λ k, freelist (kmem k));
  (if istrue r then
     nx ← gets (λ k, ld32 (mem k) r);
     modify (λ k, k <| kmem ::= λ km, km <| freelist := nx |> |>)
   else skip);;
  when ul (release Lkmem);;
  mret r.

(** [for(; p + PGSIZE <= vend; p += PGSIZE) kfree(p)]; the fuel bounds the
    number of pages below [vend]. *)
Fixpoint freerange_loop (fuel : nat) (p vend : Z) : K unit :=
  match fuel with
  | O => skip
  | S f => if p + PGSIZE <=? vend then kfree p;; freerange_loop f (p + PGSIZE) vend else skip
  end.

Definition freerange (vstart vend : Z) : K unit :=
  let p := PGROUNDUP vstart in
  freerange_loop (Z.to_nat ((vend - p) / PGSIZE + 1)) p vend.

Definition kinit1 (vstart vend : Z) : K unit :=
  modify (λ k, k <| kmem ::= λ km, km <| use_lock := false |> |>);;
  freerange vstart vend.

Definition kinit2 (vstart vend : Z) : K unit :=
  freerange vstart vend;;
  modify (λ k, k <| kmem ::= λ km, km <| use_lock := true |> |>).

(** ** The free list *)

(** [v] is a page the allocator may own. *)
Definition page_ok (img : linker) (v : Z) : Prop :=
  v mod 4096 = 0 ∧ l_end img ≤ v ∧ KERNBASE ≤ v < KERNBASE + PHYSTOP.

(** The words at the heads of the pages [L] link them from [h] to null. *)
Fixpoint chain (m : memory) (h : Z) (L : list Z) : Prop :=
  match L with
  | [] => h = 0
  | x :: L' => h = x ∧ chain m (ld32 m x) L'
  end.

(** The allocator's state represents the free pages [L]. *)
Definition kmem_rep (k : kernel) (L : list Z) : Prop :=
  chain (mem k) (freelist (kmem k)) L ∧ NoDup L ∧ Forall (page_ok (image k)) L.

(** The allocator may take its lock. *)
Definition kmem_free (k : kernel) : Prop :=
  cpu_wf k ∧ (use_lock (kmem k) = true → Lkmem ∉ held k).

#[export] Instance kmem_rep_proper : Proper (keqv ==> (=) ==> iff) kmem_rep.
Proof. intros k k' H L ? <-. keqv_rd H. unfold kmem_rep. by rewrite Hmem, Hkmem, Himg. Qed.

Lemma V2P_page v : 0 ≤ v < 4294967296 → (V2P v < PHYSTOP ↔ KERNBASE ≤ v < KERNBASE + PHYSTOP).
Proof.
  intros. unfold V2P, KERNBASE, PHYSTOP, u32.
  destruct (decide (0x80000000 ≤ v)).
  - rewrite Z.mod_small by lia. lia.
  - replace (v - 0x80000000) with (v + 0x80000000 + (-1) * 4294967296) by lia.
    rewrite Z.mod_add, Z.mod_small by lia. lia.
Qed.

Lemma page_nonzero img v : page_ok img v → v ≠ 0.
Proof. unfold page_ok, KERNBASE. lia. Qed.

(** Distinct pages do not overlap. *)
Lemma page_disjoint x y : x mod 4096 = 0 → y mod 4096 = 0 → x ≠ y →
  x + 4096 ≤ y ∨ y + 4096 ≤ x.
Proof. intros Hx%Z.mod_divide Hy%Z.mod_divide Hne; [|lia..]. destruct Hx, Hy. nia. Qed.

Lemma chain_ext m m' L : ∀ h,
  (∀ x, x ∈ L → ld32 m' x = ld32 m x) → chain m h L → chain m' h L.
Proof.
  induction L as [|x L IH]; intros h Hx; [done|]. cbn. intros [-> Hc]. split; [done|].
  rewrite Hx by set_solver. apply IH; [set_solver|done].
Qed.

(** ** Specifications *)

(** Bytes outside page [v] are unchanged. *)
Definition same_outside (v : Z) (m m' : memory) : Prop :=
  ∀ a, a < v ∨ v + 4096 ≤ a → ld8 m' a = ld8 m a.

Lemma kfree_mem m v f :
  same_outside v m (st32 (memset m v 1 PGSIZE) v f) ∧
  (0 ≤ f < 4294967296 → ld32 (st32 (memset m v 1 PGSIZE) v f) v = f).
Proof.
  split.
  - intros a Ha. unfold PGSIZE. rewrite ld8_st32_ne, memset_spec by lia.
    case_decide; [lia|done].
  - intros. rewrite ld32_st32. by apply u32_small.
Qed.

Lemma chain_kfree m v f L img : Forall (page_ok img) L → page_ok img v → v ∉ L →
  chain m f L → chain (st32 (memset m v 1 PGSIZE) v f) v (v :: L).
Proof.
  intros HL Hv Hnin Hc. destruct (kfree_mem m v f) as [Hout Hin]. cbn. split; [done|].
  assert (Hf : 0 ≤ f < 4294967296).
  { destruct L as [|x L]; cbn in Hc; [lia|]. destruct Hc as [-> _].
    apply Forall_cons in HL as [(_ & _ & ?) _]. unfold KERNBASE, PHYSTOP in *. lia. }
  rewrite Hin by done. eapply chain_ext; [|done].
  intros x Hx. apply ld32_same. intros a Ha. apply Hout.
  rewrite Forall_forall in HL. destruct (HL x Hx) as (? & _), Hv as (? & _).
  destruct (page_disjoint x v); [done..|set_solver|lia|lia].
Qed.

(** The state [kfree] and [kalloc] leave, up to lock bookkeeping. *)
Definition kfree_st (v : Z) (k : kernel) : kernel :=
  k <| mem ::= λ m, st32 (memset m v 1 PGSIZE) v (freelist (kmem k)) |>
    <| kmem ::= λ km, km <| freelist := v |> |>.
Definition kalloc_st (k : kernel) : kernel :=
  if istrue (freelist (kmem k))
  then k <| kmem ::= λ km, km <| freelist := ld32 (mem k) (freelist (kmem k)) |> |> else k.

#[export] Instance kfree_st_proper v : Proper (keqv ==> keqv) (kfree_st v).
Proof. intros k k' H. keqv_rd H. unfold kfree_st. by rewrite Hkmem, H. Qed.

#[export] Instance kalloc_st_proper : Proper (keqv ==> keqv) kalloc_st.
Proof.
  intros k k' H. keqv_rd H. unfold kalloc_st. rewrite Hkmem, Hmem. by case_match; rewrite H.
Qed.

Lemma kwp_kfree v Q Y k `{!Mono Y} : kmem_free k → page_ok (image k) v →
  Q tt (kfree_st v k) → kwp (kfree v) Q Y k.
Proof.
  intros [Hwf Hl] (Hal & Hend & Hv) HQ. unfold kfree. ksteps.
  replace (_ || _) with false; cycle 1.
  { symmetry. rewrite !orb_false_iff. unfold PGSIZE, KERNBASE, PHYSTOP in *.
    rewrite negb_false_iff, Z.eqb_eq, Z.ltb_ge, Z.leb_gt.
    split_and!; [done..|]. apply V2P_page; unfold KERNBASE, PHYSTOP; lia. }
  ksteps. unfold when. destruct (use_lock (kmem k)) eqn:Hul; by ksteps.
Qed.

Lemma kwp_kalloc Q Y k `{!Mono Y} : kmem_free k →
  Q (freelist (kmem k)) (kalloc_st k) → kwp kalloc Q Y k.
Proof.
  intros [Hwf Hl]. unfold kalloc, kalloc_st, when. intros HQ. ksteps.
  destruct (use_lock (kmem k)) eqn:Hul; ksteps; destruct (istrue (freelist (kmem k))); by ksteps.
Qed.

Lemma kfree_eq v k : kmem_free k → page_ok (image k) v →
  ∃ k', kfree v k = Ok tt k' ∧ k' ≃ kfree_st v k.
Proof.
  intros Hf Hv. destruct (kwp_returns (kfree v) (λ _ d, d = kfree_st v k) k)
    as ([] & k' & ? & ? & ? & ->); [|eauto]. by apply kwp_kfree; [apply _|..].
Qed.

Lemma kalloc_eq k : kmem_free k →
  ∃ k', kalloc k = Ok (freelist (kmem k)) k' ∧ k' ≃ kalloc_st k.
Proof.
  intros Hf. destruct (kwp_returns kalloc (λ a d, a = freelist (kmem k) ∧ d = kalloc_st k) k)
    as (? & k' & ? & ? & ? & -> & ->); [|eauto]. by apply kwp_kalloc; [apply _|..].
Qed.

Lemma kmem_rep_kfree v k L : kmem_rep k L → page_ok (image k) v → v ∉ L →
  kmem_rep (kfree_st v k) (v :: L).
Proof.
  intros (Hc & Hd & HF) Hv Hnin. split_and!; cbn.
  - by eapply chain_kfree in Hc.
  - by constructor.
  - by constructor.
Qed.

Lemma kmem_rep_kalloc k L : kmem_rep k L →
  freelist (kmem k) = hd 0 L ∧ kmem_rep (kalloc_st k) (tl L).
Proof.
  intros (Hc & Hd & HF). unfold kalloc_st. destruct L as [|x L]; cbn in *.
  - rewrite Hc. cbn. split; [done|]. by split_and!.
  - destruct Hc as [Hx Hc]. rewrite Hx. apply Forall_cons in HF as [Hp HF].
    apply NoDup_cons in Hd as [Hn Hd]. unfold istrue.
    replace (x =? 0) with false by (pose proof (page_nonzero _ _ Hp); lia).
    split; [done|]. by split_and!.
Qed.

Lemma kmem_free_eqv k k' : k' ≃ k → kmem_free k → kmem_free k'.
Proof. intros H [??]. split; [by rewrite H|]. keqv_rd H. by rewrite Hkmem, Hheld. Qed.

Lemma kmem_free_kfree v k : kmem_free k → kmem_free (kfree_st v k).
Proof. done. Qed.

Lemma kmem_free_kalloc k : kmem_free k → kmem_free (kalloc_st k).
Proof. unfold kalloc_st. by case_match. Qed.

(** [kfree] of a page that is not free adds it to the free pages, changes no
    byte outside it, and returns with the locks as they were. *)
Lemma kfree_spec k L v : kmem_free k → kmem_rep k L → page_ok (image k) v → v ∉ L →
  ∃ k', kfree v k = Ok tt k' ∧ k' ≃ kfree_st v k ∧ kmem_free k' ∧ kmem_rep k' (v :: L) ∧
        same_outside v (mem k) (mem k').
Proof.
  intros Hf Hrep Hv Hnin. destruct (kfree_eq v k Hf Hv) as (k' & Heq & Hk).
  exists k'. split_and!; [done..| | |].
  - by eapply kmem_free_eqv, kmem_free_kfree.
  - rewrite Hk. by apply kmem_rep_kfree.
  - keqv_rd Hk. rewrite Hmem. apply kfree_mem.
Qed.

(** [kalloc] takes the first free page, or answers 0 when there is none. *)
Lemma kalloc_spec k L : kmem_free k → kmem_rep k L →
  ∃ k', kalloc k = Ok (hd 0 L) k' ∧ k' ≃ kalloc_st k ∧ kmem_free k' ∧ kmem_rep k' (tl L) ∧
        mem k' = mem k.
Proof.
  intros Hf Hrep. destruct (kalloc_eq k Hf) as (k' & Heq & Hk).
  destruct (kmem_rep_kalloc _ _ Hrep) as [Hhd Hrep'].
  exists k'. rewrite Heq, Hhd. split_and!; [done..| | |].
  - by eapply kmem_free_eqv, kmem_free_kalloc.
  - by rewrite Hk.
  - keqv_rd Hk. rewrite Hmem. unfold kalloc_st. by case_match.
Qed.

(** The pages [freerange] frees, in the order it frees them. *)
Definition pages_from (p : Z) (n : nat) : list Z := (λ i, p + 4096 * Z.of_nat i) <$> seq 0 n.

Lemma pages_from_S p n : pages_from p (S n) = p :: pages_from (p + 4096) n.
Proof.
  unfold pages_from. cbn [seq]. rewrite <- seq_shift, fmap_cons, <- list_fmap_compose.
  f_equal; [lia|]. apply list_fmap_ext. intros. cbn. lia.
Qed.

Lemma freerange_loop_spec n : ∀ fuel k L p vend,
  (n < fuel)%nat → p + 4096 * Z.of_nat n ≤ vend < p + 4096 * Z.of_nat (S n) →
  kmem_free k → kmem_rep k L → Forall (page_ok (image k)) (pages_from p n) →
  (∀ x, x ∈ pages_from p n → x ∉ L) →
  ∃ k', freerange_loop fuel p vend k = Ok tt k' ∧ kmem_free k' ∧
        kmem_rep k' (reverse (pages_from p n) ++ L).
Proof.
  induction n as [|n IH]; intros fuel k L p vend Hfuel Hv Hf Hrep Hok Hnin;
    destruct fuel as [|fuel]; try lia; cbn [freerange_loop]; unfold PGSIZE.
  - replace (p + 4096 <=? vend) with false by lia. eexists. by split_and!.
  - replace (p + 4096 <=? vend) with true by lia.
    rewrite pages_from_S in Hok, Hnin |- *. apply Forall_cons in Hok as [Hp Hok].
    destruct (kfree_spec k L p) as (k1 & Heq & Hk1 & Hf1 & Hrep1 & _);
      [done..|set_solver|]. keqv_rd Hk1.
    mstep Heq. destruct (IH fuel k1 (p :: L) (p + 4096) vend) as (k' & ? & ? & Hr);
      [lia|lia|done|done|by rewrite Himg| |].
    { intros x Hx. apply not_elem_of_cons. split; [|set_solver].
      apply list_elem_of_fmap in Hx as (i & -> & _). lia. }
    exists k'. split_and!; [done..|]. rewrite reverse_cons, <- app_assoc. done.
Qed.

(** Writes inside a page that is not free leave the free list alone. *)
Lemma kmem_rep_page k k' L v : kmem k' = kmem k → image k' = image k →
  same_outside v (mem k) (mem k') → page_ok (image k) v → v ∉ L →
  kmem_rep k L → kmem_rep k' L.
Proof.
  intros Hkm Him Hm Hv Hnin (Hc & Hd & HF). unfold kmem_rep. rewrite Hkm, Him.
  split_and!; [|done..]. eapply chain_ext; [|done]. intros x Hx. apply ld32_same.
  intros a Ha. apply Hm. rewrite Forall_forall in HF. destruct (HF x Hx) as (? & _), Hv as (? & _).
  destruct (page_disjoint x v); [done..|set_solver|lia|lia].
Qed.

(** ** Sequences of allocations and releases *)

(** Allocate a page, or free the [i]th page allocated; [A] holds the pages
    that are out. *)
Inductive pageop := PAlloc | PFree (i : nat).
Fixpoint run_pageops (ops : list pageop) (A : list Z) : K (list Z) :=
  match ops with
  | [] => mret A
  | PAlloc :: ops' => v ← kalloc; run_pageops ops' (if v =? 0 then A else v :: A)
  | PFree i :: ops' =>
      match A !! i with
      | Some v => kfree v;; run_pageops ops' (delete i A)
      | None => run_pageops ops' A
      end
  end.

Lemma run_pageops_spec ops : ∀ A L k, kmem_free k → kmem_rep k L →
  NoDup (A ++ L) → Forall (page_ok (image k)) A →
  ∃ A' L' k', run_pageops ops A k = Ok A' k' ∧ kmem_free k' ∧ kmem_rep k' L' ∧
    A' ++ L' ≡ₚ A ++ L ∧ image k' = image k.
Proof.
  induction ops as [|[|i] ops IH]; intros A L k Hf Hrep Hnd HA; cbn [run_pageops].
  - exists A, L, k. by split_and!.
  - destruct (kalloc_spec k L Hf Hrep) as (k1 & Heq & Hk1 & Hf1 & Hrep1 & _).
    mstep Heq. keqv_rd Hk1. assert (image k1 = image k) as Him.
    { rewrite Himg. unfold kalloc_st. by case_match. }
    destruct L as [|v L]; cbn [hd tl].
    + destruct (IH A [] k1) as (A' & L' & k' & ? & ? & ? & ? & ?); [done..|by rewrite Him|].
      exists A', L', k'. split_and!; try done. congruence.
    + assert (page_ok (image k) v) as Hv by (destruct Hrep as (_ & _ & HF); by inversion HF).
      pose proof (page_nonzero _ _ Hv). replace (v =? 0) with false by lia.
      destruct (IH (v :: A) L k1) as (A' & L' & k' & ? & ? & ? & Hp & ?); [done..| | |].
      * by rewrite <- app_comm_cons, Permutation_middle.
      * rewrite Him. by constructor.
      * exists A', L', k'. split_and!; try done; [|congruence].
        by rewrite Hp, <- app_comm_cons, Permutation_middle.
  - destruct (A !! i) as [v|] eqn:Hi; [|by apply IH].
    pose proof (delete_Permutation _ _ _ Hi) as Hdel.
    assert (page_ok (image k) v) as Hv by (by eapply Forall_lookup_1 in HA).
    assert (v ∉ delete i A ++ L) as Hnin.
    { rewrite Hdel in Hnd. by apply NoDup_cons in Hnd as [? _]. }
    destruct (kfree_spec k L v Hf Hrep Hv) as (k1 & Heq & Hk1 & Hf1 & Hrep1 & _); [set_solver|].
    mstep Heq. keqv_rd Hk1. assert (image k1 = image k) as Him by done.
    destruct (IH (delete i A) (v :: L) k1) as (A' & L' & k' & ? & ? & ? & Hp & ?); [done..| | |].
    + rewrite <- Permutation_middle. rewrite Hdel in Hnd. done.
    + rewrite Him. rewrite Hdel in HA. by inversion HA.
    + exists A', L', k'. split_and!; try done; [|congruence].
      rewrite Hp, <- Permutation_middle, app_comm_cons. by rewrite <- Hdel.
Qed.

(** C19: the allocator neither loses a page nor hands one out twice. Whatever
    sequence of [kalloc] and of [kfree] of pages that are out is run, every call
    returns, and the pages out together with the free pages are the pages there
    were at the start, without repetition. *)
Theorem kalloc_conserves ops A L k : kmem_free k → kmem_rep k L →
  NoDup (A ++ L) → Forall (page_ok (image k)) A →
  ∃ A' L' k', run_pageops ops A k = Ok A' k' ∧ kmem_rep k' L' ∧
    A' ++ L' ≡ₚ A ++ L ∧ NoDup (A' ++ L').
Proof.
  intros Hf Hrep Hnd HA. destruct (run_pageops_spec ops A L k) as (A' & L' & k' & ? & _ & ? & Hp & _); [done..|].
  exists A', L', k'. split_and!; try done. by rewrite Hp.
Qed.

Definition mem_image : linker := mkLinker 0x80115000 0x80108000 0x80105000 0x80103000 [0].

(** [kinit1] of a page-aligned range puts exactly the pages of the range on
    the free list: afterwards they are free in the reverse of their order. *)
Theorem kinit1_frees n vstart k : cpu_wf k → freelist (kmem k) = 0 →
  vstart mod 4096 = 0 → l_end (image k) ≤ vstart → KERNBASE ≤ vstart →
  vstart + 4096 * Z.of_nat n ≤ KERNBASE + PHYSTOP →
  ∃ k', kinit1 vstart (vstart + 4096 * Z.of_nat n) k = Ok tt k' ∧
    kmem_rep k' (reverse (pages_from vstart n)).
Proof.
  intros Hwf Hfl Hal Hend Hlo Hhi. unfold KERNBASE, PHYSTOP in *.
  unfold kinit1, freerange. mred. rewrite PGROUNDUP_spec by lia.
  replace (vstart + 4095 - (vstart + 4095) mod 4096) with vstart.
  2:{ rewrite Z.add_mod, Hal by lia. change (4095 mod 4096) with 4095. rewrite Z.mod_small; lia. }
  destruct (freerange_loop_spec n (Z.to_nat ((vstart + 4096 * Z.of_nat n - vstart) / PGSIZE + 1))
    (k <| kmem ::= λ km, km <| use_lock := false |> |>) [] vstart (vstart + 4096 * Z.of_nat n))
    as (k' & Heq & _ & Hrep).
  - unfold PGSIZE. replace (_ - vstart) with (Z.of_nat n * 4096) by lia. rewrite Z.div_mul by lia. lia.
  - lia.
  - by split.
  - split_and!; [done|constructor|constructor].
  - apply Forall_forall. intros x (i & -> & Hi%elem_of_seq)%list_elem_of_fmap.
    split; [|cbn; unfold KERNBASE, PHYSTOP; lia].
    rewrite Z.add_mod, Hal, Z.mul_comm, Z.mod_mul by lia. done.
  - intros x _. apply not_elem_of_nil.
  - exists k'. split; [done|]. by rewrite app_nil_r in Hrep.
Qed.

Lemma kinit1_frees_witness :
  ∃ k', kinit1 0x80200000 (0x80200000 + 4096 * Z.of_nat 3) (boot_state mem_image []) = Ok tt k' ∧
    kmem_rep k' (reverse (pages_from 0x80200000 3)).
Proof.
  apply (kinit1_frees 3 0x80200000 (boot_state mem_image [])); [|done..].
  split_and!; [done|apply NoDup_nil_2|done].
Defined.

(** A kernel with two free pages. *)
Definition two_pages : kernel :=
  (boot_state mem_image []) <| kmem := mkKmem true 0x80201000 |> <| mem := st32 ∅ 0x80201000 0x80200000 |>.

Lemma two_pages_rep : kmem_free two_pages ∧ kmem_rep two_pages [0x80201000; 0x80200000].
Proof.
  split; [split; [split_and!; [done|apply NoDup_nil_2|done]|intros _; apply not_elem_of_nil]|].
  split_and!; [|apply (bool_decide_unpack _); by vm_compute|apply (bool_decide_unpack _); by vm_compute].
  by vm_compute.
Qed.

Lemma kalloc_conserves_witness :
  ∃ A' L' k', run_pageops [PAlloc; PAlloc; PFree 0] [] two_pages = Ok A' k' ∧ kmem_rep k' L' ∧
    A' ++ L' ≡ₚ [] ++ [0x80201000; 0x80200000] ∧ NoDup (A' ++ L').
Proof.
  apply (kalloc_conserves [PAlloc; PAlloc; PFree 0] [] [0x80201000; 0x80200000] two_pages).
  - apply two_pages_rep.
  - apply two_pages_rep.
  - apply (bool_decide_unpack _). by vm_compute.
  - constructor.
Defined.
