(* ===== verification/Proc.v ===== *)
(** * The process table

    The part of [proc.c] that does not touch the file system: allocation of a
    slot, [sleep]/[wakeup], [sched]/[yield], [kill], the performance records
    and the queries on them. *)
From stdpp Require Import base strings numbers gmap list.
From S2P Require Import Prelude Machine KString Kernel Locks Kalloc.

(** A loop that sleeps until a condition holds is followed through [patience]
    wake-ups; the specifications hold for every value of it. *)
Class Patience := patience : nat.

(** ** Access to a slot *)
Definition pget (i : nat) : K proc := gets (λ k, ptable k !!! i).
Definition pset (i : nat) (f : proc → proc) : K unit := modify (λ k, k <| ptable ::= alter f i |>).

(** ** proc.c *)
Definition pinit : K unit :=
  modify (λ k, k <| last_completion_time := 0 |>);;
  modify (λ k, k <| perf_data ::= fmap (λ d, d <| pf_valid := 0 |>) |>).

Definition myproc : K (option nat) :=
  pushcli;;
  p ← gets (λ k, cproc (kcpu k));
  popcli;;
  mret p.

(** A null dereference in the kernel traps, and [trap] panics. *)
Definition deref {A} (o : option A) : K A :=
  match o with Some a => mret a | None => panic "trap" end.

Definition allocproc : K (option nat) :=
  acquire Lptable;;
  o ← gets (λ k, find_idx (λ p, bool_decide (state p = UNUSED)) (ptable k));
  match o with
  | None => release Lptable;; mret None
  | Some p =>
      pset p (λ r, r <| state := EMBRYO |>);;
      n ← gets nextpid;
      pset p (λ r, r <| pid := n |>);;
      modify (λ k, k <| nextpid := i32 (n + 1) |>);;
      pset p (λ r, r <| runticks := 0 |>);;
      pset p (λ r, r <| tickets := DEFAULT_TICKETS |>);;
      acquire Lticks;;
      t ← gets ticks;
      pset p (λ r, r <| creation_time := i32 t |>);;
      pset p (λ r, r <| start_time := creation_time r |>);;
      release Lticks;;
      pset p (λ r, r <| completion_time := 0 |>);;
      pset p (λ r, r <| total_run_time := 0 |>);;
      pset p (λ r, r <| total_ready_time := 0 |>);;
      pset p (λ r, r <| enqueue_time := 0 |>);;
      release Lptable;;
      ks ← kalloc;
      pset p (λ r, r <| kstack := ks |>);;
      if ks =? 0 then pset p (λ r, r <| state := UNUSED |>);; mret None
      else
        img ← gets image;
        let sp := ks + KSTACKSIZE - 76 in
        pset p (λ r, r <| tf := sp |>);;
        let sp := sp - 4 in
        modify (λ k, k <| mem ::= λ m, st32 m sp (l_trapret img) |>);;
        let sp := sp - 20 in
        pset p (λ r, r <| context := sp |>);;
        modify (λ k, k <| mem ::= λ m, memset m sp 0 20 |>);;
        modify (λ k, k <| mem ::= λ m, st32 m (sp + 16) (l_forkret img) |>);;
        mret (Some p)
  end.

Definition sched : K unit :=
  q ← myproc;
  p ← deref q;
  h ← holding Lptable;
  (if h : bool then skip else panic "sched ptable.lock");;
  n ← gets (λ k, ncli (kcpu k));
  (if n =? 1 then skip else panic "sched locks");;
  r ← pget p;
  (if decide (state r = RUNNING) then panic "sched running" else skip);;
  e ← gets eflags_if;
  (if e : bool then panic "sched interruptible" else skip);;
  intena0 ← gets (λ k, intena (kcpu k));
  swtch;;
  modify (λ k, k <| kcpu ::= λ c, c <| intena := intena0 |> |>).

Definition yield : K unit :=
  q ← myproc;
  p ← deref q;
  acquire Lptable;;
  pset p (λ r, r <| state := RUNNABLE |>);;
  acquire Lticks;;
  t ← gets ticks;
  pset p (λ r, r <| enqueue_time := i32 t |>);;
  release Lticks;;
  sched;;
  release Lptable.

(** [p->total_ready_time += ticks - p->enqueue_time], in unsigned arithmetic. *)
Definition add_ready (t : Z) (r : proc) : proc :=
  r <| total_ready_time := i32 (total_ready_time r + (t - enqueue_time r)) |>.

Definition sleep (ch : chan) (lk : option lock) : K unit :=
  q ← myproc;
  p ← (match q with Some p => mret p | None => panic "sleep" end);
  lk ← (match lk with Some l => mret l | None => panic "sleep without lk" end);
  (if decide (lk = Lptable) then skip else acquire Lptable;; release lk);;
  r ← pget p;
  (if 0 <? enqueue_time r then
     t ← gets ticks;
     pset p (add_ready t);;
     pset p (λ r, r <| enqueue_time := 0 |>)
   else skip);;
  pset p (λ r, r <| pchan := Some ch |>);;
  pset p (λ r, r <| state := SLEEPING |>);;
  sched;;
  pset p (λ r, r <| pchan := None |>);;
  (if decide (lk = Lptable) then skip else release Lptable;; acquire lk).

(** The body of the loop of [wakeup1]. *)
Definition wake_slot (ch : option chan) (t : Z) (r : proc) : proc :=
  if decide (state r = SLEEPING ∧ pchan r = ch)
  then r <| state := RUNNABLE |> <| enqueue_time := i32 t |> else r.

Definition wakeup1 (ch : option chan) : K unit :=
  t ← gets ticks;
  modify (λ k, k <| ptable ::= fmap (wake_slot ch t) |>).

Definition wakeup (ch : chan) : K unit :=
  acquire Lptable;;
  wakeup1 (Some ch);;
  release Lptable.

Definition find_pid (x : Z) (t : list proc) : option nat := find_idx (λ r, pid r =? x) t.

Definition kill (x : Z) : K Z :=
  acquire Lptable;;
  o ← gets (λ k, find_pid x (ptable k));
  match o with
  | Some p =>
      pset p (λ r, r <| killed := 1 |>);;
      r ← pget p;
      (if decide (state r = SLEEPING) then pset p (λ r, r <| state := RUNNABLE |>) else skip);;
      release Lptable;;
      mret 0
  | None => release Lptable;; mret (-1)
  end.

(** ** Queries *)
Definition getrunticks (x : Z) : K Z :=
  acquire Lptable;;
  t ← gets ptable;
  let val := match find_pid x t with
             | Some p => if decide (state (t !!! p) ≠ ZOMBIE ∧ state (t !!! p) ≠ UNUSED)
                         then runticks (t !!! p) else -1
             | None => -1
             end in
  release Lptable;;
  mret val.

Definition gettickets (x : Z) : K Z :=
  acquire Lptable;;
  t ← gets ptable;
  let tickets_val := match find_pid x t with
                     | Some p => if decide (state (t !!! p) = RUNNABLE ∨ state (t !!! p) = RUNNING)
                                 then tickets (t !!! p) else -1
                     | None => -1
                     end in
  release Lptable;;
  mret tickets_val.

Definition job_position (x : Z) : K Z :=
  acquire Lptable;;
  t ← gets ptable;
  match find_pid x t with
  | Some p => release Lptable;; mret (pid (t !!! p))
  | None => release Lptable;; mret (-1)
  end.

(** The common text of the five time queries: [fp] reads the field of the
    process, [fd] that of the historical record. *)
Definition get_time (fp : proc → Z) (fd : PerfData → Z) (x : Z) : K Z :=
  acquire Lptable;;
  tab ← gets ptable;
  let t := match find_pid x tab with Some p => fp (tab !!! p) | None => -1 end in
  release Lptable;;
  if t =? -1 then
    acquire Lperf;;
    pd ← gets perf_data;
    let t := match find_idx (λ d, istrue (pf_valid d) && (pf_pid d =? x)) pd with
             | Some i => fd (pd !!! i) | None => t end in
    release Lperf;;
    mret t
  else mret t.

Definition get_creation_time : Z → K Z := get_time creation_time pf_creation_time.
Definition get_start_time : Z → K Z := get_time start_time pf_start_time.
Definition get_completion_time : Z → K Z := get_time completion_time pf_completion_time.
Definition get_total_run_time : Z → K Z := get_time total_run_time pf_total_run_time.
Definition get_total_ready_time : Z → K Z := get_time total_ready_time pf_total_ready_time.

(** ** Performance records *)

(** The record [exit], [wait] and the lottery scheduler write for a process. *)
Definition perf_of (r : proc) : PerfData :=
  mkPerf (pid r) (creation_time r) (start_time r) (completion_time r) (total_run_time r)
    (total_ready_time r) 1.

(** The storing loop: the first entry that is not valid takes the record. The
    answer tells whether there was one. *)
Definition perf_store (r : proc) : K bool :=
  o ← gets (λ k, find_idx (λ d, negb (istrue (pf_valid d))) (perf_data k));
  match o with
  | Some i => modify (λ k, k <| perf_data ::= <[i := perf_of r]> |>);; mret true
  | None => mret false
  end.

(** [completion_time], [total_run_time] and the ready time are finalised the
    same way by [exit] and [wait]. *)
Definition finalize (t : Z) (r : proc) : proc :=
  let r := if completion_time r <=? creation_time r then r <| completion_time := i32 t |> else r in
  let r := if total_run_time r =? 0 then r <| total_run_time := 1 |> else r in
  if 0 <? enqueue_time r then (add_ready t r) <| enqueue_time := 0 |> else r.
