(* ===== verification/ProcSpec.v ===== *)
(** * Behaviour of the process table's operations

    What [sched], [yield], [sleep], [wakeup], [kill], [allocproc] and the
    queries of [proc.c] do, on every branch, stated up to lock bookkeeping. *)
From stdpp Require Import base strings numbers gmap list.
From S2P Require Import Prelude Machine KString Kernel Locks Kalloc Proc.

(** Process context: the processor runs process [p] and holds the locks [L]. *)
Definition running (p : nat) (L : list lock) (k : kernel) : Prop :=
  cpu_wf k ∧ held k = L ∧ cproc (kcpu k) = Some p ∧ (p < length (ptable k))%nat.

(** ** myproc *)
Lemma kwp_myproc Q Y k `{!Mono Y} : cpu_wf k → Q (cproc (kcpu k)) k → kwp myproc Q Y k.
Proof. intros. unfold myproc. by ksteps. Qed.

Lemma kwp_get_intena Q Y k : ncli (kcpu k) ≠ 0 → Q (intena (kcpu k)) k →
  kwp (gets (λ k, intena (kcpu k))) Q Y k.
Proof.
  intros Hn HQ. eapply kwp_ok; [|apply HQ]. intros s Hs. exists s. split; [|done].
  unfold gets. rewrite (keqv_kcpu s k); [done..|]. keqv_rd Hs. by rewrite Hncli.
Qed.

Ltac pstep :=
  lazymatch goal with
  | |- kwp myproc _ _ _ => apply kwp_myproc; [apply _|kside|]
  | |- kwp (deref (Some _)) _ _ _ => unfold deref; kstep
  | |- kwp (pget _) _ _ _ => unfold pget; kstep
  | |- kwp (pset _ _) _ _ _ => unfold pset; kstep
  | _ => kstep
  end; cbv beta.
Ltac psteps := repeat pstep.

(** ** Giving the processor away *)

(** [sched] with only [ptable.lock] held and the state changed gets to
    [swtch], and restores the interrupt flag it saved when it resumes. *)
Lemma kwp_sched p Q Y k `{!Mono Y} : running p [Lptable] k → state (ptable k !!! p) ≠ RUNNING →
  Y k (Some (λ k', Q tt (k' <| kcpu ::= λ c, c <| intena := intena (kcpu k) |> |>))) → kwp sched Q Y k.
Proof.
  intros (Hwf & Hh & Hc & _) Hst HY.
  assert (Lptable ∈ held k) as Hin by (rewrite Hh; set_solver).
  destruct (cpu_wf_held k Lptable) as [Hif Hn]; [done..|].
  assert (ncli (kcpu k) = 1) as Hn1 by (destruct Hwf as [-> _]; by rewrite Hh).
  unfold sched. do 2 pstep. rewrite Hc. psteps. rewrite Hn1. cbn [Z.eqb Pos.eqb]. psteps.
  rewrite decide_False by done. psteps. rewrite Hif. psteps.
  apply kwp_get_intena; [lia|]. kstep. apply kwp_swtch; [done|].
  revert HY. apply mono. intros k' HQ. apply kwp_modify; [apply _|done].
Qed.

(** [k] as a thread finds it when it resumes from [sched]. *)
Definition resumed (b : bool) (k : kernel) : kernel := k <| kcpu ::= λ c, c <| intena := b |> |>.

Lemma pset_pset f g p k :
  k <| ptable ::= alter g p |> <| ptable ::= alter f p |> = k <| ptable ::= alter (λ r, f (g r)) p |>.
Proof. unfold upd. cbn. by rewrite alter_alter. Qed.

Lemma pset_nextpid f g k : k <| nextpid ::= g |> <| ptable ::= f |> = k <| ptable ::= f |> <| nextpid ::= g |>.
Proof. done. Qed.
Lemma pset_mem f g k : k <| mem ::= g |> <| ptable ::= f |> = k <| ptable ::= f |> <| mem ::= g |>.
Proof. done. Qed.
Lemma mem_mem f g k : k <| mem ::= g |> <| mem ::= f |> = k <| mem ::= λ m, f (g m) |>.
Proof. done. Qed.

Lemma alter_lookup_total (f : proc → proc) p (t : list proc) : (p < length t)%nat →
  alter f p t !!! p = f (t !!! p).
Proof.
  intros (r & Hr)%lookup_lt_is_Some. rewrite !list_lookup_total_alt, list_lookup_alter_eq, Hr. done.
Qed.

Lemma running_data F p L k `{!DataUpd F} : length (ptable (F k)) = length (ptable k) →
  cproc (kcpu (F k)) = cproc (kcpu k) → running p L k → running p L (F k).
Proof.
  intros Hlen Hc' (Hwf & Hh & Hc & Hp). destruct (du_lockstate F k) as (E1 & _ & E2 & E3).
  unfold running, cpu_wf. rewrite E1, E2, E3, Hlen, Hc'. done.
Qed.

Lemma running_pset f p i L k : running p L k → running p L (k <| ptable ::= alter f i |>).
Proof. apply (running_data (λ k, k <| ptable ::= _ |>)); [apply _| |done]. cbn. apply length_alter. Qed.

Lemma running_acq l p k : running p [] k → running p [l] (acq l k).
Proof.
  intros (Hwf & Hh & Hc & Hp). split_and!; [|cbn; by rewrite Hh|exact Hc|exact Hp].
  apply cpu_wf_acq; [done|]. rewrite Hh. apply not_elem_of_nil.
Qed.

(** What [yield] does to the slot of its process. *)
Definition yield_slot (t : Z) (r : proc) : proc :=
  r <| state := RUNNABLE |> <| enqueue_time := i32 t |>.
Definition yield_st (p : nat) (k : kernel) : kernel :=
  (acq Lptable k) <| ptable ::= alter (yield_slot (ticks k)) p |>.

Lemma kwp_yield p Q Y k `{!Mono Y} : running p [] k →
  Y (yield_st p k) (Some (λ k', kwp (release Lptable) Q Y (resumed (intena (kcpu (yield_st p k))) k'))) →
  kwp yield Q Y k.
Proof.
  intros Hr HY. pose proof Hr as (Hwf & Hh & Hc & Hp).
  assert (∀ l, l ∉ held k) as Hl by (intros; rewrite Hh; apply not_elem_of_nil).
  unfold yield. do 2 pstep. rewrite Hc. psteps.
  eapply kwp_conv with (k' := yield_st p k).
  { unfold yield_st. by rewrite pset_pset. }
  apply (kwp_sched p); [done| |cbn; by rewrite alter_lookup_total|done].
  apply running_pset. by apply running_acq.
Qed.

(** [sleep] exchanges the lock it is given for [ptable.lock]. *)
Lemma swap_lock l k : cpu_wf k → held k = [l] → l ≠ Lptable →
  rel l (acq Lptable k) ≃ k <| held := [Lptable] |>.
Proof.
  intros Hwf Hh Hl. destruct (cpu_wf_held k l) as [Hif Hn]; [done|rewrite Hh; set_solver|].
  assert (ncli (kcpu k) = 1) as Hn1 by (destruct Hwf as [-> _]; by rewrite Hh).
  apply keqv_intro; cbn -[filter]; rewrite ?Hn1, ?Hif, ?Hh; try done.
  - rewrite filter_cons_True by done. rewrite filter_cons_False by naive_solver. done.
  - destruct k; cbn in *; by subst.
Qed.

Lemma kwp_swap_lock l Q Y k `{!Mono Y} : cpu_wf k → held k = [l] → l ≠ Lptable →
  Q tt (k <| held := [Lptable] |>) → kwp (acquire Lptable;; release l) Q Y k.
Proof.
  intros Hwf Hh Hl HQ. assert (Lptable ∉ held k) as Hp by (rewrite Hh; set_solver).
  kstep. apply kwp_acquire; [done..|]. eapply kwp_ok; [|apply HQ].
  intros s Hs. exists (rel l s). pose proof (cpu_wf_acq _ _ Hwf Hp) as Hwf'.
  pose proof Hs as Hs2. keqv_rd Hs2. rewrite release_ok; cycle 1.
  { by rewrite Hs. }
  { rewrite Hheld. cbn. rewrite Hh. set_solver. }
  split; [done|]. rewrite <- (swap_lock l) by done.
  assert (kcpu s = kcpu (acq Lptable k)) as Hc.
  { apply keqv_kcpu; [done|]. rewrite Hncli. cbn. destruct Hwf. lia. }
  change (setlock (cnorm (kcpu (rel l s))) (held (rel l s)) (eflags_if (rel l s)) (kdata s) =
    setlock (cnorm (kcpu (rel l (acq Lptable k)))) (held (rel l (acq Lptable k)))
      (eflags_if (rel l (acq Lptable k))) (kdata (acq Lptable k))).
  unfold rel at 1 2 3. cbn -[acq]. by rewrite Hc, Hheld, Hs.
Qed.

(** What [sleep] does to the slot of its process. *)
Definition sleep_slot (ch : chan) (t : Z) (r : proc) : proc :=
  (if 0 <? enqueue_time r then (add_ready t r) <| enqueue_time := 0 |> else r)
    <| pchan := Some ch |> <| state := SLEEPING |>.
Definition sleep_st (p : nat) (ch : chan) (k : kernel) : kernel :=
  k <| held := [Lptable] |> <| ptable ::= alter (sleep_slot ch (ticks k)) p |>.

(** The rest of [sleep] after it resumes. *)
Definition sleep_rest (p : nat) (lk : lock) : K unit :=
  pset p (λ r, r <| pchan := None |>);;
  (if decide (lk = Lptable) then skip else release Lptable;; acquire lk).

Lemma running_swap p l k : running p [l] k → running p [Lptable] (k <| held := [Lptable] |>).
Proof.
  intros ((Hn & Hd & He) & Hh & Hc & Hp). split_and!; [|done..]. unfold cpu_wf. cbn.
  rewrite Hn, He, Hh by (by rewrite Hh). split_and!; [done|apply NoDup_singleton|done].
Qed.

Lemma alter_ext_at (f g : proc → proc) p (t : list proc) :
  f (t !!! p) = g (t !!! p) → alter f p t = alter g p t.
Proof.
  intros H. apply list_eq. intros i. rewrite !lookup_alter_list. case_decide; [subst|done].
  rewrite list_lookup_total_alt in H. destruct (t !! i); cbn in *; congruence.
Qed.

Lemma kwp_sleep p ch lk Q Y k `{!Mono Y} : running p [lk] k →
  Y (sleep_st p ch k)
    (Some (λ k', kwp (sleep_rest p lk) Q Y (resumed (intena (kcpu k)) k'))) →
  kwp (sleep ch (Some lk)) Q Y k.
Proof.
  intros Hr HY. pose proof Hr as (Hwf & Hh & Hc & Hp).
  unfold sleep. do 2 pstep. rewrite Hc. do 4 pstep. kstep.
  apply kwp_mono with (Q := λ _ d, d = k <| held := [Lptable] |>); [done| |].
  { case_decide as Hl; [|by apply kwp_swap_lock]. apply kwp_skip. subst.
    destruct k; cbn in *; by subst. }
  intros [] ? ->. do 2 pstep. apply kwp_bind; [done|].
  apply kwp_mono with (Q := λ _ d, d = k <| held := [Lptable] |> <| ptable ::=
    alter (λ r, if 0 <? enqueue_time r then (add_ready (ticks k) r) <| enqueue_time := 0 |> else r) p |>);
    [done| |].
  { cbn. destruct (0 <? _) eqn:He; psteps.
    - rewrite pset_pset. unfold upd. cbn. f_equal. apply alter_ext_at. by rewrite He.
    - unfold upd. cbn. destruct k; cbn in *; f_equal. symmetry.
      rewrite (alter_ext_at _ id) by (by rewrite He). apply list_eq. intros i.
      rewrite lookup_alter_list. case_decide; [|done]. by destruct (_ !! i). }
  intros [] ? ->. psteps. rewrite !pset_pset.
  apply (kwp_sched p); [done| |cbn; by rewrite alter_lookup_total|done].
  by apply running_pset, running_swap with lk.
Qed.

(** ** Waking and killing *)
Lemma kwp_wakeup ch Q Y k `{!Mono Y} : cpu_wf k → Lptable ∉ held k →
  Q tt (k <| ptable ::= fmap (wake_slot (Some ch) (ticks k)) |>) → kwp (wakeup ch) Q Y k.
Proof. intros. unfold wakeup, wakeup1. by psteps. Qed.

(** What [kill] does to the slot it finds. *)
Definition kill_slot (r : proc) : proc :=
  r <| killed := 1 |> <| state := if decide (state r = SLEEPING) then RUNNABLE else state r |>.

Lemma kwp_kill x Q Y k `{!Mono Y} : cpu_wf k → Lptable ∉ held k →
  match find_pid x (ptable k) with
  | Some p => Q 0 (k <| ptable ::= alter kill_slot p |>)
  | None => Q (-1) k
  end → kwp (kill x) Q Y k.
Proof.
  intros Hwf Hl HQ. unfold kill. do 4 pstep. destruct (find_pid x (ptable k)) as [p|] eqn:Hf; [|by psteps].
  apply find_idx_lt in Hf as Hp. do 5 pstep. cbn [ptable upd].
  rewrite alter_lookup_total by done.
  case_decide as Hs; psteps; [rewrite pset_pset|].
  - eapply eq_rect; [exact HQ|]. unfold upd. cbn. f_equal. apply alter_ext_at. unfold kill_slot.
    cbn in Hs. by rewrite decide_True.
  - eapply eq_rect; [exact HQ|]. unfold upd. cbn. f_equal. apply alter_ext_at. unfold kill_slot.
    cbn in Hs. rewrite decide_False by done. by destruct (_ !!! p).
Qed.

(** ** Allocation of a process *)

(** The fields [allocproc] sets in the slot it takes, before the stack. *)
Definition alloc_slot (x t : Z) (r : proc) : proc :=
  r <| state := EMBRYO |> <| pid := x |> <| runticks := 0 |> <| tickets := DEFAULT_TICKETS |>
    <| creation_time := i32 t |> <| start_time := i32 t |> <| completion_time := 0 |>
    <| total_run_time := 0 |> <| total_ready_time := 0 |> <| enqueue_time := 0 |>.
Definition alloc_st (p : nat) (k : kernel) : kernel :=
  k <| ptable ::= alter (alloc_slot (nextpid k) (ticks k)) p |> <| nextpid := i32 (nextpid k + 1) |>.

(** The initial contents of a kernel stack at [ks]. *)
Definition stack_init (img : linker) (ks : Z) (m : memory) : memory :=
  st32 (memset (st32 m (ks + 4096 - 80) (l_trapret img)) (ks + 4096 - 100) 0 20)
    (ks + 4096 - 84) (l_forkret img).
Definition stack_slot (ks : Z) (r : proc) : proc :=
  r <| kstack := ks |> <| tf := ks + 4096 - 76 |> <| context := ks + 4096 - 100 |>.

Definition first_unused (t : list proc) : option nat :=
  find_idx (λ r, bool_decide (state r = UNUSED)) t.

Lemma kwp_allocproc Q Y k `{!Mono Y} : kmem_free k → Lptable ∉ held k → Lticks ∉ held k →
  match first_unused (ptable k) with
  | None => Q None k
  | Some p =>
      let ks := freelist (kmem k) in
      let k1 := kalloc_st (alloc_st p k) in
      if ks =? 0 then Q None (k1 <| ptable ::= alter (λ r, r <| kstack := 0 |> <| state := UNUSED |>) p |>)
      else Q (Some p) (k1 <| ptable ::= alter (stack_slot ks) p |> <| mem ::= stack_init (image k) ks |>)
  end → kwp allocproc Q Y k.
Proof.
  intros Hf Hl Ht HQ. pose proof Hf as [Hwf Hk]. unfold allocproc. do 4 pstep.
  fold (first_unused (ptable k)). destruct (first_unused (ptable k)) as [p|]; [|by psteps].
  psteps.
  match goal with |- kwp kalloc _ _ ?s => replace s with (alloc_st p k) end; cycle 1.
  { rewrite !pset_nextpid, !pset_pset. reflexivity. }
  apply kwp_kalloc; [done|done|]. cbv zeta in HQ. change (freelist (kmem (alloc_st p k))) with (freelist (kmem k)).
  do 2 pstep. destruct (Z.eqb_spec (freelist (kmem k)) 0) as [->|Hne].
  - psteps. rewrite pset_pset. exact HQ.
  - assert (image (kalloc_st (alloc_st p k)) = image k) as Hi by (unfold kalloc_st; by case_match).
    psteps. rewrite Hi, !pset_mem, !mem_mem, !pset_pset. revert HQ. unfold stack_slot, stack_init, KSTACKSIZE.
    generalize (freelist (kmem k)). intros ks. replace (ks + 4096 - 76 - 4) with (ks + 4096 - 80) by lia.
    replace (ks + 4096 - 80 - 20) with (ks + 4096 - 100) by lia.
    by replace (ks + 4096 - 100 + 16) with (ks + 4096 - 84) by lia.
Qed.

(** ** Performance records *)

(** The record goes to the first entry that is not valid, if there is one. *)
Definition perf_put (d : PerfData) (pd : list PerfData) : list PerfData :=
  match find_idx (λ d, negb (istrue (pf_valid d))) pd with Some i => <[i := d]> pd | None => pd end.
Definition perf_full (pd : list PerfData) : bool :=
  forallb (λ d, istrue (pf_valid d)) pd.

Lemma find_invalid pd :
  perf_full pd = match find_idx (λ d, negb (istrue (pf_valid d))) pd with Some _ => false | None => true end.
Proof.
  unfold perf_full. induction pd as [|d pd IH]; cbn; [done|].
  destruct (istrue _); cbn; [|done]. rewrite IH. by destruct (find_idx _ pd).
Qed.

Lemma kwp_perf_store r Q Y k `{!Mono Y} :
  Q (negb (perf_full (perf_data k))) (k <| perf_data ::= perf_put (perf_of r) |>) →
  kwp (perf_store r) Q Y k.
Proof.
  intros HQ. unfold perf_store. do 2 kstep. rewrite find_invalid in HQ.
  destruct (find_idx _ (perf_data k)) as [i|] eqn:Hf; ksteps; eapply eq_rect; try exact HQ.
  - unfold upd, perf_put. cbn. by rewrite Hf.
  - unfold upd, perf_put. cbn. rewrite Hf. by destruct k.
Qed.

(** ** Queries *)

(** The answer of the five time queries: the field of the first slot with that
    pid, or, when there is none or it holds -1, of the first valid record. *)
Definition time_answer (fp : proc → Z) (fd : PerfData → Z) (x : Z) (k : kernel) : Z :=
  let t := match find_pid x (ptable k) with Some p => fp (ptable k !!! p) | None => -1 end in
  if t =? -1
  then match find_idx (λ d, istrue (pf_valid d) && (pf_pid d =? x)) (perf_data k) with
       | Some i => fd (perf_data k !!! i) | None => t end
  else t.

Lemma kwp_get_time fp fd x Q Y k `{!Mono Y} : cpu_wf k → Lptable ∉ held k → Lperf ∉ held k →
  Q (time_answer fp fd x k) k → kwp (get_time fp fd x) Q Y k.
Proof.
  intros Hwf Hl Hp. unfold get_time, time_answer. intros HQ. psteps. cbv zeta in HQ.
  destruct (_ =? -1); by psteps.
Qed.

(** ** Properties *)

(** A process context for the examples: process 1 of a table runs. *)
Definition run_proc (x : Z) : proc :=
  proc0 <| state := RUNNING |> <| pid := x |> <| tickets := 10 |> <| kstack := 0x8dffd000 |>
        <| pgdir := 0x8dffe000 |>.
Definition demo_img : linker := mkLinker 0x80115000 0x80108000 0x80105000 0x80103000 [0].
Definition demo_kernel : kernel :=
  (boot_state demo_img []) <| ptable ::= <[1%nat := run_proc 2]> |> <| ticks := 7 |>
    <| kcpu ::= λ c, c <| cproc := Some 1%nat |> |> <| nextpid := 3 |>.

Lemma demo_running : running 1 [] demo_kernel.
Proof. split_and!; [|done|done|by apply Nat.ltb_lt]. split_and!; [done|apply NoDup_nil_2|done]. Qed.

(** [yield] called by a running process that holds no lock reaches [swtch]
    with the process runnable since the current tick, and with exactly
    [ptable.lock] held and interrupts off, as [sched] demands. *)
Theorem yield_gives_up p k : running p [] k →
  ∃ k' resume, yield k = Swtch k' resume ∧
    ptable k' = alter (yield_slot (ticks k)) p (ptable k) ∧
    held k' = [Lptable] ∧ ncli (kcpu k') = 1 ∧ eflags_if k' = false.
Proof.
  intros Hr. destruct (kwp_switches yield (λ d, d = yield_st p k) k) as (k' & r & d & Heq & Hk & ->).
  { by apply (kwp_yield p); [apply _|..]. }
  exists k', r. keqv_rd Hk. rewrite Hpt, Hheld, Hncli, Hif. destruct Hr as ((Hn & _) & Hh & _).
  split_and!; [done|done|cbn; by rewrite Hh|cbn; by rewrite Hn, Hh|done].
Qed.

Lemma yield_gives_up_witness :
  ∃ k' resume, yield demo_kernel = Swtch k' resume ∧ state (ptable k' !!! 1%nat) = RUNNABLE.
Proof.
  destruct (yield_gives_up 1 demo_kernel demo_running) as (k' & r & H1 & H2 & _).
  exists k', r. refine (conj H1 _). by rewrite H2.
Defined.

Lemma fmap_lookup_total (f : proc → proc) (t : list proc) i : (i < length t)%nat →
  (f <$> t) !!! i = f (t !!! i).
Proof. intros (r & Hr)%lookup_lt_is_Some. by rewrite !list_lookup_total_alt, list_lookup_fmap, Hr. Qed.

(** [sleep] on a channel, called with one lock held, reaches [swtch] with that
    lock exchanged for [ptable.lock]; and from any later state in which the
    sleeper's slot is as it left it, [wakeup] of the channel makes it runnable
    again, at the current tick. That no wakeup falls in between is
    [sleep_wakeup] of [Spinlock.v]. *)
Lemma sleep_switches p ch lk k : running p [lk] k →
  ∃ k' resume, sleep ch (Some lk) k = Swtch k' resume ∧
    held k' = [Lptable] ∧ ncli (kcpu k') = 1 ∧ eflags_if k' = false ∧
    state (ptable k' !!! p) = SLEEPING ∧ pchan (ptable k' !!! p) = Some ch ∧
    (∀ i, i ≠ p → ptable k' !! i = ptable k !! i) ∧
    ∀ k2, cpu_wf k2 → Lptable ∉ held k2 → ptable k2 !! p = ptable k' !! p →
      ∃ k3, wakeup ch k2 = Ok tt k3 ∧ state (ptable k3 !!! p) = RUNNABLE ∧
        enqueue_time (ptable k3 !!! p) = i32 (ticks k2).
Proof.
  intros Hr. destruct (kwp_switches (sleep ch (Some lk)) (λ d, d = sleep_st p ch k) k)
    as (k' & r & d & Heq & Hk & ->). { by apply (kwp_sleep p); [apply _|..]. }
  destruct Hr as ((Hn & _ & He) & Hh & _ & Hp). exists k', r. keqv_rd Hk.
  assert (Hs : ptable k' !!! p = sleep_slot ch (ticks k) (ptable k !!! p)).
  { rewrite Hpt. cbn. by rewrite alter_lookup_total. }
  rewrite Hs, Hheld, Hncli, Hif. split_and!; [done|done|cbn; by rewrite Hn, Hh| |done|done| |].
  - cbn. apply He. by rewrite Hh.
  - intros i Hi. rewrite Hpt. cbn. by rewrite list_lookup_alter_ne.
  - intros k2 Hwf2 Hl2 Hp2.
    destruct (kwp_returns (wakeup ch) (λ _ d, d = k2 <| ptable ::= fmap (wake_slot (Some ch) (ticks k2)) |>) k2)
      as ([] & k3 & d & Heq3 & Hk3 & ->). { by apply kwp_wakeup; [apply _|..]. }
    exists k3. split; [done|]. destruct (keqv_fields _ _ Hk3) as (_ & _ & _ & _ & _ & _ & _ & E & _).
    rewrite E. cbn. assert (ptable k2 !!! p = sleep_slot ch (ticks k) (ptable k !!! p)) as E2.
    { by rewrite <- Hs, !list_lookup_total_alt, Hp2. }
    rewrite fmap_lookup_total, E2.
    { unfold wake_slot. by rewrite decide_True. }
    apply lookup_lt_is_Some. rewrite Hp2, Hpt. cbn. apply lookup_lt_is_Some. by rewrite length_alter.
Qed.

Lemma running_demo_acq l : running 1 [l] (acq l demo_kernel).
Proof. apply running_acq, demo_running. Qed.

(** [kill] of a pid in the table marks the process with it killed and makes it
    runnable if it sleeps, and touches no other slot; of a pid not in the table
    it answers -1 and changes nothing. *)
Theorem kill_spec x k : cpu_wf k → Lptable ∉ held k →
  match find_pid x (ptable k) with
  | Some p => ∃ k', kill x k = Ok 0 k' ∧ ptable k' = alter kill_slot p (ptable k) ∧
                pid (ptable k' !!! p) = x ∧ killed (ptable k' !!! p) = 1
  | None => ∃ k', kill x k = Ok (-1) k' ∧ k' ≃ k
  end.
Proof.
  intros Hwf Hl. destruct (find_pid x (ptable k)) as [p|] eqn:Hf.
  - destruct (kwp_returns (kill x) (λ a d, a = 0 ∧ d = k <| ptable ::= alter kill_slot p |>) k)
      as (? & k' & ? & Heq & Hk & -> & ->). { apply kwp_kill; [apply _|done..|]. by rewrite Hf. }
    exists k'. keqv_rd Hk. rewrite Hpt. cbn. apply find_idx_lt in Hf as Hp.
    apply find_idx_Some in Hf as (r & Hr & Hx & _).
    rewrite alter_lookup_total, list_lookup_total_alt, Hr by done. cbn. split_and!; try done. lia.
  - destruct (kwp_returns (kill x) (λ a d, a = -1 ∧ d = k) k) as (? & k' & ? & Heq & Hk & -> & ->).
    { apply kwp_kill; [apply _|done..|]. by rewrite Hf. }
    by exists k'.
Qed.

Lemma kill_spec_witness :
  (∃ k', kill 2 demo_kernel = Ok 0 k' ∧ killed (ptable k' !!! 1%nat) = 1) ∧
  (∃ k', kill 5 demo_kernel = Ok (-1) k' ∧ k' ≃ demo_kernel).
Proof.
  destruct demo_running as (Hwf & Hh & _).
  assert (Lptable ∉ held demo_kernel) as Hl by (rewrite Hh; apply not_elem_of_nil).
  split.
  - destruct (kill_spec 2 demo_kernel Hwf Hl) as (k' & H1 & _ & _ & H2). exists k'. exact (conj H1 H2).
  - exact (kill_spec 5 demo_kernel Hwf Hl).
Defined.

(** Writing a fresh stack touches only its page. *)
Lemma stack_init_mem img ks m : 0 ≤ l_trapret img < 4294967296 → 0 ≤ l_forkret img < 4294967296 →
  same_outside ks m (stack_init img ks m) ∧
  ld32 (stack_init img ks m) (ks + 4096 - 80) = l_trapret img ∧
  ld32 (stack_init img ks m) (ks + 4096 - 84) = l_forkret img ∧
  (∀ i, 0 ≤ i < 4 → ld32 (stack_init img ks m) (ks + 4096 - 100 + 4 * i) = 0).
Proof.
  intros Ht Hf. unfold stack_init. split_and!.
  - intros a Ha. rewrite ld8_st32_ne, memset_spec by lia. case_decide; [lia|]. rewrite ld8_st32_ne by lia. done.
  - rewrite ld32_st32_ne, ld32_memset_out, ld32_st32 by lia. by apply u32_small.
  - rewrite ld32_st32. by apply u32_small.
  - intros i Hi. rewrite ld32_st32_ne, ld32_memset_in by lia. done.
Qed.

(** with a free slot and a free page, [allocproc] takes the first slot in
    state UNUSED and the first free page: the process gets the next pid, the
    default tickets and fresh metrics, and a kernel stack prepared to return
    through [forkret] to [trapret]; no other slot and no other free page changes. *)
Theorem allocproc_spec k p ks L : kmem_free k → Lptable ∉ held k → Lticks ∉ held k →
  kmem_rep k (ks :: L) → first_unused (ptable k) = Some p →
  0 ≤ l_trapret (image k) < 4294967296 → 0 ≤ l_forkret (image k) < 4294967296 →
  ∃ k', allocproc k = Ok (Some p) k' ∧
    ptable k' = alter (λ r, stack_slot ks (alloc_slot (nextpid k) (ticks k) r)) p (ptable k) ∧
    nextpid k' = i32 (nextpid k + 1) ∧ kmem_rep k' L ∧ same_outside ks (mem k) (mem k') ∧
    context (ptable k' !!! p) = ks + 4096 - 100 ∧
    ld32 (mem k') (context (ptable k' !!! p) + 16) = l_forkret (image k) ∧
    ld32 (mem k') (context (ptable k' !!! p) + 20) = l_trapret (image k).
Proof.
  intros Hf Hl Ht Hrep Hp Htr Hfr. pose proof Hrep as ([Hfl _] & Hnd & HF).
  apply Forall_cons in HF as [Hks _]. apply NoDup_cons in Hnd as [Hnin _].
  pose proof (page_nonzero _ _ Hks) as Hne.
  destruct (kwp_returns allocproc (λ a d, a = Some p ∧
      d = (kalloc_st (alloc_st p k)) <| ptable ::= alter (stack_slot ks) p |> <| mem ::= stack_init (image k) ks |>) k)
    as (? & k' & ? & Heq & Hk & -> & ->).
  { apply kwp_allocproc; [apply _|done..|]. rewrite Hp, Hfl. cbv zeta. by rewrite (proj2 (Z.eqb_neq ks 0)). }
  assert (Hka : kalloc_st (alloc_st p k) = (alloc_st p k) <| kmem ::= λ km, km <| freelist := ld32 (mem k) ks |> |>).
  { unfold kalloc_st. change (kmem (alloc_st p k)) with (kmem k). rewrite Hfl. unfold istrue.
    by rewrite (proj2 (Z.eqb_neq ks 0)). }
  rewrite Hka in Hk. keqv_rd Hk. exists k'. apply find_idx_lt in Hp.
  destruct (stack_init_mem (image k) ks (mem k)) as (Hout & H1 & H2 & _); [done..|].
  assert (Hpt' : ptable k' = alter (λ r, stack_slot ks (alloc_slot (nextpid k) (ticks k) r)) p (ptable k)).
  { rewrite Hpt. cbn. by rewrite alter_alter. }
  rewrite Hpt', alter_lookup_total by done. rewrite Hmem. split_and!; [done|done| | |done|done| |].
  - by rewrite Hnp.
  - destruct (kmem_rep_kalloc k (ks :: L) Hrep) as [_ Hrep'].
    eapply (kmem_rep_page (kalloc_st k) k' L ks); [| | | |done|exact Hrep'].
    + rewrite Hkmem. unfold kalloc_st. rewrite Hfl. unfold istrue. by rewrite (proj2 (Z.eqb_neq ks 0)).
    + rewrite Himg. unfold kalloc_st. by case_match.
    + rewrite Hmem. unfold kalloc_st. case_match; exact Hout.
    + unfold kalloc_st. by case_match.
  - cbn. rewrite <- H2. f_equal. lia.
  - cbn. rewrite <- H1. f_equal. lia.
Qed.

Lemma allocproc_spec_witness :
  ∃ k', allocproc two_pages = Ok (Some 0%nat) k' ∧ kmem_rep k' [0x80200000].
Proof.
  destruct two_pages_rep as [Hf Hrep].
  destruct (allocproc_spec two_pages 0 0x80201000 [0x80200000]) as (k' & H1 & _ & _ & H2 & _);
    [exact Hf|apply not_elem_of_nil..|exact Hrep|done|done|done|].
  exists k'. exact (conj H1 H2).
Defined.

(** C36: [kill] of pid 0 finds an unused slot and marks it; [allocproc] does not
    clear the mark, so the next process in that slot is born killed. *)
Theorem kill_zero_kills_newborn k p ks L : kmem_free k → Lptable ∉ held k → Lticks ∉ held k →
  kmem_rep k (ks :: L) → first_unused (ptable k) = Some p → find_pid 0 (ptable k) = Some p →
  ∃ k1 k2, kill 0 k = Ok 0 k1 ∧ allocproc k1 = Ok (Some p) k2 ∧ killed (ptable k2 !!! p) = 1.
Proof.
  intros Hf Hl Ht Hrep Hp Hz.
  destruct (kwp_returns (kill 0) (λ a d, a = 0 ∧ d = k <| ptable ::= alter kill_slot p |>) k)
    as (? & k1 & ? & Heq1 & Hk1 & -> & ->).
  { apply kwp_kill; [apply _|apply Hf|done|]. by rewrite Hz. }
  assert (Hfl : freelist (kmem k) = ks) by (destruct Hrep as ([? _] & _); done).
  assert (Hne : ks ≠ 0) by (eapply page_nonzero; destruct Hrep as (_ & _ & HF); by inversion HF).
  assert (Hpl : (p < length (ptable k))%nat) by by eapply find_idx_lt.
  assert (Hp1 : first_unused (alter kill_slot p (ptable k)) = Some p).
  { unfold first_unused in *. apply find_idx_Some in Hp as (r & Hr & Hs & Hlt). apply find_idx_Some.
    apply bool_decide_eq_true in Hs. exists (kill_slot r). rewrite list_lookup_alter_eq, Hr.
    split_and!; [done|unfold kill_slot; cbn; by rewrite Hs|].
    intros j y Hj. rewrite list_lookup_alter_ne by lia. by apply Hlt. }
  keqv_rd Hk1.
  destruct (kwp_returns allocproc (λ a d, a = Some p ∧ killed (ptable d !!! p) = 1) k1)
    as (? & k2 & d & Heq2 & Hk2 & -> & Hd).
  { eapply kwp_conv; [exact Hk1|]. apply kwp_allocproc; [apply _|exact Hf|exact Hl|exact Ht|].
    cbn [ptable upd]. rewrite Hp1. cbv zeta. cbn [kmem upd]. rewrite Hfl, (proj2 (Z.eqb_neq ks 0)) by done.
    split; [done|]. unfold kalloc_st. cbn. rewrite Hfl. unfold istrue. rewrite (proj2 (Z.eqb_neq ks 0)) by done.
    cbn. by rewrite !alter_alter, alter_lookup_total. }
  exists k1, k2. keqv_rd Hk2. by rewrite Hpt0.
Qed.

Lemma kill_zero_kills_newborn_witness :
  ∃ k1 k2, kill 0 two_pages = Ok 0 k1 ∧ allocproc k1 = Ok (Some 0%nat) k2 ∧ killed (ptable k2 !!! 0%nat) = 1.
Proof.
  destruct two_pages_rep as [Hf Hrep].
  exact (kill_zero_kills_newborn two_pages 0 0x80201000 [0x80200000] Hf
    (not_elem_of_nil _) (not_elem_of_nil _) Hrep eq_refl eq_refl).
Defined.
