(* ===== verification/Console.v ===== *)
(** * The console

    Output of [console.c]: [printint], [cprintf], the screen and the serial
    line; its input ring as [consoleintr] edits it; and [procdump] of
    [proc.c], which prints to it. *)
From stdpp Require Import base strings numbers gmap list.
From S2P Require Import Prelude Machine KString Kernel Locks Kalloc Proc.

Definition BACKSPACE : Z := 0x100.
Definition INPUT_BUF : Z := 128.
Definition NL : Z := 10.
Definition cset (f : consst → consst) : K unit := modify (λ k, k <| kcons ::= f |>).

(** ** Screen and serial line *)

(** uart.c: the byte goes out on the serial line, taken to be present; the polls
    for the transmitter, 128 at most, only delay it. *)
Definition uartputc (c : Z) : K unit := cset (λ s, s <| uart_out ::= λ o, o ++ [u8 c] |>).

(** Lines 1 to 23 move up; the cells from [pos] to the end of line 24 are
    cleared. *)
Definition scroll (pos : Z) (cells : list Z) : list Z :=
  let moved := slice cells 80 (23 * 80) ++ drop (23 * 80) cells in
  take (Z.to_nat pos) moved ++ replicate (24 * 80 - Z.to_nat pos) 0 ++ drop (24 * 80) moved.

Definition cgaputc (c : Z) : K unit :=
  s ← gets kcons;
  let pos := cursor s in
  pos ← (if c =? NL then mret (pos + (80 - Z.rem pos 80))
         else if c =? BACKSPACE then mret (if 0 <? pos then pos - 1 else pos)
         else
           cset (λ s, s <| crt ::= <[Z.to_nat pos := Z.lor (Z.land c 0xff) 0x0700]> |>);;
           mret (pos + 1));
  (if (pos <? 0) || (25 * 80 <? pos) then panic "pos under/overflow" else skip);;
  pos ← (if 24 <=? pos / 80 then
           cset (λ s, s <| crt ::= scroll (pos - 80) |>);; mret (pos - 80)
         else mret pos);
  cset (λ s, s <| cursor := pos |>);;
  cset (λ s, s <| crt ::= <[Z.to_nat pos := Z.lor 32 0x0700]> |>).

(** Another processor has panicked: this one stops for good. *)
Definition consputc (c : Z) : K unit :=
  s ← gets kcons;
  (if panicked s then panic "frozen" else skip);;
  (if c =? BACKSPACE then uartputc 8;; uartputc 32;; uartputc 8 else uartputc c);;
  cgaputc c.

(** ** Formatted output *)

(** The digits of [x] in base [b], least significant first. *)
Fixpoint digits_loop (fuel : nat) (digs : list Z) (x b : Z) : list Z :=
  match fuel with
  | O => []
  | S f => (digs !!! Z.to_nat (x mod b)) :: (if x / b =? 0 then [] else digits_loop f digs (x / b) b)
  end.

(** [buf] of [printint], from the last character printed to the first. A
    32-bit number has at most 32 digits in any base. *)
Definition int_chars (digs : list Z) (xx b : Z) (sign : bool) : list Z :=
  let neg := sign && (xx <? 0) in
  let x := if neg then u32 (- xx) else u32 xx in
  digits_loop 32 digs x b ++ (if neg then [45] else []).

Definition putchars (cs : list Z) : K unit := foldr (λ c m, consputc c;; m) skip cs.

Definition printint (xx b : Z) (sign : bool) : K unit :=
  putchars (reverse (int_chars (lit "0123456789abcdef") xx b sign)).

(** An argument of [cprintf]: a word, or a string that may be null. *)
Inductive carg := AInt (x : Z) | AStr (s : option (list Z)).
Definition arg_int (l : list carg) : Z := match l with AInt x :: _ => x | _ => 0 end.
Definition arg_str (l : list carg) : option (list Z) :=
  match l with AStr s :: _ => s | _ => None end.

(** The loop of [cprintf] over the format. *)
Fixpoint cprintf_loop (fmt : list Z) (args : list carg) : K unit :=
  match fmt with
  | [] => skip
  | c :: fmt' =>
      if negb (c =? 37) then consputc c;; cprintf_loop fmt' args
      else match fmt' with
      | [] => skip
      | c :: fmt'' =>
          if c =? 100 then printint (i32 (arg_int args)) 10 true;; cprintf_loop fmt'' (tl args)
          else if (c =? 120) || (c =? 112) then
            printint (i32 (arg_int args)) 16 false;; cprintf_loop fmt'' (tl args)
          else if c =? 115 then
            putchars (default (lit "(null)") (arg_str args));; cprintf_loop fmt'' (tl args)
          else if c =? 37 then consputc 37;; cprintf_loop fmt'' args
          else consputc 37;; consputc c;; cprintf_loop fmt'' args
      end
  end.

Definition nl : string := String (Ascii.ascii_of_nat 10) EmptyString.

Definition cprintf (fmt : string) (args : list carg) : K unit :=
  s ← gets kcons;
  when (locking s) (acquire Lcons);;
  cprintf_loop (lit fmt) args;;
  when (locking s) (release Lcons).

(** spinlock.c: the saved program counters on the frame-pointer chain. *)
Fixpoint getcallerpcs (n : nat) (m : memory) (ebp : Z) : list Z :=
  match n with
  | O => []
  | S n' =>
      if (ebp =? 0) || (ebp <? KERNBASE) || (ebp =? 0xffffffff) then replicate n 0
      else ld32 m (ebp + 4) :: getcallerpcs n' m (ld32 m ebp)
  end.

(** ** proc.c: procdump *)
Definition state_name (s : procstate) : list Z :=
  lit (match s with
       | UNUSED => "unused" | EMBRYO => "embryo" | SLEEPING => "sleep " | RUNNABLE => "runble"
       | RUNNING => "run   " | ZOMBIE => "zombie" end).

(** A byte array as a C string. *)
Fixpoint cstr (l : list Z) : list Z :=
  match l with
  | [] => []
  | c :: l' => if c =? 0 then [] else c :: cstr l'
  end.

Fixpoint procdump_pcs (pcs : list Z) : K unit :=
  match pcs with
  | [] => skip
  | x :: pcs' => if x =? 0 then skip else cprintf " %p" [AInt x];; procdump_pcs pcs'
  end.

Definition procdump_one (i : nat) : K unit :=
  r ← pget i;
  if decide (state r = UNUSED) then skip
  else
    cprintf "%d %s %s" [AInt (pid r); AStr (Some (state_name (state r))); AStr (Some (cstr (name r)))];;
    (if decide (state r = SLEEPING) then
       m ← gets mem;
       procdump_pcs (getcallerpcs 10 m (ld32 m (context r + 12)))
     else skip);;
    cprintf nl [].

Definition procdump : K unit := for_up NPROC 0 procdump_one.

(** ** Input *)
Definition ctrl (c : Z) : Z := c - 64.

(** The kill-line loop: characters are erased back to the last newline. *)
Fixpoint kill_line (fuel : nat) : K unit :=
  match fuel with
  | O => skip
  | S f =>
      s ← gets kcons;
      if negb (ie s =? iw s) && negb (ibuf s !!! Z.to_nat (u32 (ie s - 1) mod INPUT_BUF) =? NL) then
        cset (λ s, s <| ie := u32 (ie s - 1) |>);;
        consputc BACKSPACE;;
        kill_line f
      else skip
  end.

(** One character of the loop of [consoleintr]; the answer tells whether it
    asks for a process listing. *)
Definition console_char (c : Z) : K bool :=
  s ← gets kcons;
  if c =? ctrl 80 then mret true
  else if c =? ctrl 85 then kill_line (Z.to_nat INPUT_BUF);; mret false
  else if (c =? ctrl 72) || (c =? 0x7f) then
    (if negb (ie s =? iw s) then
       cset (λ s, s <| ie := u32 (ie s - 1) |>);; consputc BACKSPACE
     else skip);; mret false
  else
    (if negb (c =? 0) && (u32 (ie s - ir s) <? INPUT_BUF) then
       let c := if c =? 13 then NL else c in
       cset (λ s, s <| ibuf ::= <[Z.to_nat (ie s mod INPUT_BUF) := i8 c]> |>
                    <| ie := u32 (ie s + 1) |>);;
       consputc c;;
       s ← gets kcons;
       if (c =? NL) || (c =? ctrl 68) || (ie s =? u32 (ir s + INPUT_BUF)) then
         cset (λ s, s <| iw := ie s |>);; wakeup Cinput
       else skip
     else skip);; mret false.

Fixpoint console_chars (cs : list Z) (dump : bool) : K bool :=
  match cs with
  | [] => mret dump
  | c :: cs' => if c <? 0 then mret dump
                else d ← console_char c; console_chars cs' (dump || d)
  end.

(** [consoleintr] on the characters [getc] delivers. *)
Definition consoleintr (cs : list Z) : K unit :=
  acquire Lcons;;
  d ← console_chars cs false;
  release Lcons;;
  if d : bool then procdump else skip.
