(* ===== verification/Vm.v ===== *)
(** * Page tables

    [vm.c]: two-level x86 page tables held in the byte memory. An entry is the
    32-bit word at its address; [walkpgdir] answers the address of an entry,
    or 0. Loops over pages carry a fuel that is the number of pages in the
    range, which the loop cannot exceed. *)
From stdpp Require Import base strings numbers gmap list.
From S2P Require Import Prelude Machine KString Kernel Locks Kalloc Proc Console.

Definition rd32 (a : Z) : K Z := gets (λ k, ld32 (mem k) a).
Definition wr32 (a v : Z) : K unit := modify (λ k, k <| mem ::= λ m, st32 m a v |>).
Definition kmemset (a c n : Z) : K unit := modify (λ k, k <| mem ::= λ m, memset m a c n |>).
Definition kmemmove (d s n : Z) : K unit := modify (λ k, k <| mem ::= λ m, memmove m d s n |>).

Definition walkpgdir (pgdir va : Z) (alloc : bool) : K Z :=
  let pde := pgdir + 4 * PDX va in
  e ← rd32 pde;
  if istrue (Z.land e PTE_P) then mret (P2V (PTE_ADDR e) + 4 * PTX va)
  else if negb alloc then mret 0
  else
    pgtab ← kalloc;
    if pgtab =? 0 then mret 0
    else
      kmemset pgtab 0 PGSIZE;;
      wr32 pde (Z.lor (Z.lor (Z.lor (V2P pgtab) PTE_P) PTE_W) PTE_U);;
      mret (pgtab + 4 * PTX va).

Fixpoint mappages_loop (fuel : nat) (pgdir a last pa perm : Z) : K Z :=
  match fuel with
  | O => mret 0
  | S f =>
      pte ← walkpgdir pgdir a true;
      if pte =? 0 then mret (-1)
      else
        e ← rd32 pte;
        (if istrue (Z.land e PTE_P) then panic "remap" else skip);;
        wr32 pte (Z.lor (Z.lor pa perm) PTE_P);;
        if a =? last then mret 0
        else mappages_loop f pgdir (u32 (a + PGSIZE)) last (u32 (pa + PGSIZE)) perm
  end.

Definition mappages (pgdir va size pa perm : Z) : K Z :=
  let a := PGROUNDDOWN va in
  let last := PGROUNDDOWN (va + size - 1) in
  mappages_loop (S (Z.to_nat (u32 (last - a) / PGSIZE))) pgdir a last pa perm.

(** [kmap]: the kernel's mappings, as (virt, phys_start, phys_end, perm). *)
Definition kmap (img : linker) : list (Z * Z * Z * Z) :=
  [ (KERNBASE, 0, EXTMEM, PTE_W);
    (KERNLINK, V2P KERNLINK, V2P (l_data img), 0);
    (l_data img, V2P (l_data img), PHYSTOP, PTE_W);
    (DEVSPACE, DEVSPACE, 0, PTE_W) ].

Fixpoint deallocuvm_loop (fuel : nat) (pgdir a oldsz : Z) : K unit :=
  match fuel with
  | O => skip
  | S f =>
      if a <? oldsz then
        pte ← walkpgdir pgdir a false;
        if pte =? 0 then
          deallocuvm_loop f pgdir (u32 (u32 (PGADDR (PDX a + 1) 0 0 - PGSIZE) + PGSIZE)) oldsz
        else
          e ← rd32 pte;
          (if istrue (Z.land e PTE_P) then
             let pa := PTE_ADDR e in
             (if pa =? 0 then panic "kfree" else skip);;
             kfree (P2V pa);;
             wr32 pte 0
           else skip);;
          deallocuvm_loop f pgdir (u32 (a + PGSIZE)) oldsz
      else skip
  end.

Definition deallocuvm (pgdir oldsz newsz : Z) : K Z :=
  if oldsz <=? newsz then mret oldsz
  else
    let a := PGROUNDUP newsz in
    deallocuvm_loop (S (Z.to_nat ((oldsz - a) / PGSIZE))) pgdir a oldsz;;
    mret newsz.

Fixpoint freevm_loop (n : nat) (i pgdir : Z) : K unit :=
  match n with
  | O => skip
  | S n' =>
      e ← rd32 (pgdir + 4 * i);
      (if istrue (Z.land e PTE_P) then kfree (P2V (PTE_ADDR e)) else skip);;
      freevm_loop n' (i + 1) pgdir
  end.

Definition freevm (pgdir : Z) : K unit :=
  (if pgdir =? 0 then panic "freevm: no pgdir" else skip);;
  deallocuvm pgdir KERNBASE 0;;
  freevm_loop NPDENTRIES 0 pgdir;;
  kfree pgdir.

Fixpoint setupkvm_loop (ks : list (Z * Z * Z * Z)) (pgdir : Z) : K Z :=
  match ks with
  | [] => mret pgdir
  | (virt, phys_start, phys_end, perm) :: ks' =>
      r ← mappages pgdir virt (u32 (phys_end - phys_start)) phys_start perm;
      if r <? 0 then freevm pgdir;; mret 0 else setupkvm_loop ks' pgdir
  end.

Definition setupkvm : K Z :=
  pgdir ← kalloc;
  if pgdir =? 0 then mret 0
  else
    kmemset pgdir 0 PGSIZE;;
    (if DEVSPACE <? P2V PHYSTOP then panic "PHYSTOP too high" else skip);;
    img ← gets image;
    setupkvm_loop (kmap img) pgdir.

Definition switchkvm : K unit :=
  pg ← gets kpgdir;
  modify (λ k, k <| cr3 := V2P pg |>).

Definition kvmalloc : K unit :=
  p ← setupkvm;
  modify (λ k, k <| kpgdir := p |>);;
  switchkvm.

(** [switchuvm]: the task-state fields and the page-table register. *)
Definition switchuvm (p : nat) : K unit :=
  r ← pget p;
  (if kstack r =? 0 then panic "switchuvm: no kstack" else skip);;
  (if pgdir r =? 0 then panic "switchuvm: no pgdir" else skip);;
  pushcli;;
  modify (λ k, k <| kcpu ::= λ c, c <| cts :=
    mkTs (u32 (kstack r + KSTACKSIZE)) (Z.shiftl SEG_KDATA 3) 0xFFFF |> |>);;
  modify (λ k, k <| cr3 := V2P (pgdir r) |>);;
  popcli.

Definition inituvm (pgdir : Z) (init : list Z) : K unit :=
  (if PGSIZE <=? Z.of_nat (length init) then panic "inituvm: more than a page" else skip);;
  mem0 ← kalloc;
  kmemset mem0 0 PGSIZE;;
  mappages pgdir 0 PGSIZE (V2P mem0) (Z.lor PTE_W PTE_U);;
  modify (λ k, k <| mem ::= λ m, store_bytes m mem0 init |>).

Fixpoint allocuvm_loop (fuel : nat) (pgdir a oldsz newsz : Z) : K Z :=
  match fuel with
  | O => mret newsz
  | S f =>
      if a <? newsz then
        mem0 ← kalloc;
        if mem0 =? 0 then
          cprintf ("allocuvm out of memory" +:+ nl) [];;
          deallocuvm pgdir newsz oldsz;;
          mret 0
        else
          kmemset mem0 0 PGSIZE;;
          r ← mappages pgdir a PGSIZE (V2P mem0) (Z.lor PTE_W PTE_U);
          if r <? 0 then
            cprintf ("allocuvm out of memory (2)" +:+ nl) [];;
            deallocuvm pgdir newsz oldsz;;
            kfree mem0;;
            mret 0
          else allocuvm_loop f pgdir (u32 (a + PGSIZE)) oldsz newsz
      else mret newsz
  end.

Definition allocuvm (pgdir oldsz newsz : Z) : K Z :=
  if KERNBASE <=? newsz then mret 0
  else if newsz <? oldsz then mret oldsz
  else
    let a := PGROUNDUP oldsz in
    allocuvm_loop (S (Z.to_nat ((newsz - a) / PGSIZE + 1))) pgdir a oldsz newsz.

Definition clearpteu (pgdir uva : Z) : K unit :=
  pte ← walkpgdir pgdir uva false;
  (if pte =? 0 then panic "clearpteu" else skip);;
  e ← rd32 pte;
  wr32 pte (Z.land e (u32 (Z.lnot PTE_U))).

Fixpoint copyuvm_loop (fuel : nat) (pgdir d i sz : Z) : K Z :=
  match fuel with
  | O => mret d
  | S f =>
      if i <? sz then
        pte ← walkpgdir pgdir i false;
        (if pte =? 0 then panic "copyuvm: pte should exist" else skip);;
        e ← rd32 pte;
        (if istrue (Z.land e PTE_P) then skip else panic "copyuvm: page not present");;
        let pa := PTE_ADDR e in
        let flags := PTE_FLAGS e in
        mem0 ← kalloc;
        if mem0 =? 0 then freevm d;; mret 0
        else
          kmemmove mem0 (P2V pa) PGSIZE;;
          r ← mappages d i PGSIZE (V2P mem0) flags;
          if r <? 0 then kfree mem0;; freevm d;; mret 0
          else copyuvm_loop f pgdir d (u32 (i + PGSIZE)) sz
      else mret d
  end.

Definition copyuvm (pgdir sz : Z) : K Z :=
  d ← setupkvm;
  if d =? 0 then mret 0
  else copyuvm_loop (S (Z.to_nat (sz / PGSIZE + 1))) pgdir d 0 sz.

(** The source does not test the answer of [walkpgdir] for null. *)
Definition uva2ka (pgdir uva : Z) : K Z :=
  pte ← walkpgdir pgdir uva false;
  (if pte =? 0 then panic "trap" else skip);;
  e ← rd32 pte;
  if Z.land e PTE_P =? 0 then mret 0
  else if Z.land e PTE_U =? 0 then mret 0
  else mret (P2V (PTE_ADDR e)).

(** [copyout] with the bytes to copy; each turn copies up to a page boundary. *)
Fixpoint copyout_loop (fuel : nat) (pgdir va : Z) (buf : list Z) : K Z :=
  match fuel with
  | O => mret 0
  | S f =>
      if 0 <? Z.of_nat (length buf) then
        let va0 := PGROUNDDOWN va in
        pa0 ← uva2ka pgdir va0;
        if pa0 =? 0 then mret (-1)
        else
          let n := Z.min (PGSIZE - (va - va0)) (Z.of_nat (length buf)) in
          modify (λ k, k <| mem ::= λ m,
            store_bytes m (pa0 + (va - va0)) (take (Z.to_nat n) buf) |>);;
          copyout_loop f pgdir (u32 (va0 + PGSIZE)) (drop (Z.to_nat n) buf)
      else mret 0
  end.

Definition copyout (pgdir va : Z) (buf : list Z) : K Z :=
  copyout_loop (S (length buf)) pgdir va buf.
