(* ===== verification/VmSpec.v ===== *)
(** * Address spaces

    What the functions of [vm.c] do to the address spaces they build: page tables
    as finite maps, the ownership of pages, and specifications of [walkpgdir],
    [mappages], [setupkvm], [deallocuvm], [freevm], [copyuvm] and [copyout]
    against the two-level translation of the processor. *)
From stdpp Require Import base strings numbers gmap list list_tactics.
From S2P Require Import Prelude Machine KString Kernel Locks Kalloc Proc Console Vm.

(** ** The translation of the processor *)

Definition present (e : Z) : bool := istrue (Z.land e PTE_P).

(** The page-table entry through which a page directory maps [va]. *)
Definition mmu (m : memory) (dir va : Z) : option Z :=
  let e := ld32 m (dir + 4 * PDX va) in
  if present e then
    let e' := ld32 m (P2V (PTE_ADDR e) + 4 * PTX va) in
    if present e' then Some e' else None
  else None.

(** The kernel's address of the byte [va] of a page mapped by [e]. *)
Definition frame (e : Z) : Z := P2V (PTE_ADDR e).
Definition uaddr (e va : Z) : Z := frame e + va mod PGSIZE.

(** The byte a program sees at [va]. *)
Definition ubyte (m : memory) (dir va : Z) : option Z :=
  (λ e, ld8 m (uaddr e va)) <$> mmu m dir va.

(** ** Arithmetic of entries *)

Lemma land_1 x : Z.land x 1 = x mod 2.
Proof. change 1 with (Z.ones 1). by rewrite Z.land_ones. Qed.

Lemma present_mod e : present e = negb (e mod 2 =? 0).
Proof. unfold present, PTE_P, istrue. by rewrite land_1. Qed.

Lemma mod_page pa x : pa mod 4096 = 0 → 0 ≤ x < 4096 → (pa + x) mod 4096 = x.
Proof. intros H1 H2. rewrite Z.add_mod, H1, (Z.mod_small x) by lia. by apply Z.mod_small. Qed.

(** The entry [mappages] writes. *)
Definition mkpte (pa perm : Z) : Z := Z.lor (Z.lor pa perm) PTE_P.

Lemma lor_page pa x : pa mod 4096 = 0 → 0 ≤ x < 4096 → Z.lor pa x = pa + x.
Proof.
  intros Hp Hx. rewrite <- Z.add_lor_land. enough (Z.land pa x = 0) by lia.
  apply Z.bits_inj'. intros n Hn. rewrite Z.land_spec, Z.bits_0. destruct (decide (n < 12)).
  - replace pa with (Z.shiftl (pa / 4096) 12).
    2:{ rewrite Z.shiftl_mul_pow2 by lia. change (2 ^ 12) with 4096. pose proof (Z.div_mod pa 4096). lia. }
    rewrite Z.shiftl_spec_low by lia. done.
  - rewrite <- (Z.mod_small x (2 ^ 12)) by (change (2 ^ 12) with 4096; lia).
    rewrite Z.mod_pow2_bits_high by lia. apply andb_false_r.
Qed.

Lemma lor_perm p : 0 ≤ p < 4096 → 0 ≤ Z.lor p PTE_P < 4096 ∧ Z.lor p PTE_P mod 2 = 1.
Proof.
  intros Hp. assert (0 ≤ Z.lor p PTE_P) by (apply Z.lor_nonneg; unfold PTE_P; lia). split; [split; [done|]|].
  - destruct (decide (Z.lor p PTE_P = 0)) as [->|]; [lia|].
    apply Z.log2_lt_pow2 with (b := 12); [lia|]. rewrite Z.log2_lor by (unfold PTE_P; lia).
    apply Z.max_lub_lt; [|done]. destruct (decide (p = 0)) as [->|]; [done|]. apply Z.log2_lt_pow2; [lia|].
    change (2 ^ 12) with 4096. lia.
  - rewrite <- land_1. unfold PTE_P. rewrite Z.land_comm. change 1 with (Z.ones 1).
    apply Z.bits_inj'. intros n Hn. rewrite Z.land_spec, Z.lor_spec.
    destruct (Z.testbit (Z.ones 1) n); [apply orb_true_r|done].
Qed.

Lemma mkpte_add pa perm : pa mod 4096 = 0 → 0 ≤ perm < 4096 → mkpte pa perm = pa + Z.lor perm PTE_P.
Proof. intros Hp Hm. unfold mkpte. rewrite <- Z.lor_assoc. apply lor_page; [done|]. by apply lor_perm. Qed.

Section entries.
Context (pa perm : Z) (Hpa : 0 ≤ pa < 4294967296) (Hal : pa mod 4096 = 0) (Hperm : 0 ≤ perm < 4096).
Lemma mkpte_range : 0 ≤ mkpte pa perm < 4294967296.
Proof using Type*.
  rewrite mkpte_add by done. pose proof (lor_perm perm Hperm) as [? _].
  apply Z.mod_divide in Hal as [q ->]; [|lia]. lia.
Qed.
Lemma mkpte_present : present (mkpte pa perm) = true.
Proof using Type*.
  rewrite present_mod, mkpte_add by done. pose proof (lor_perm perm Hperm) as [? E].
  apply Z.mod_divide in Hal as [q ->]; [|lia].
  replace (q * 4096 + Z.lor perm PTE_P) with (Z.lor perm PTE_P + (q * 2048) * 2) by lia.
  rewrite Z.mod_add by lia. by rewrite E.
Qed.
Lemma mkpte_addr : PTE_ADDR (mkpte pa perm) = pa.
Proof using Type*.
  pose proof mkpte_range. rewrite PTE_ADDR_spec by done. rewrite mkpte_add in * by done.
  pose proof (lor_perm perm Hperm) as [? _]. rewrite mod_page by done. lia.
Qed.
Lemma mkpte_flags : PTE_FLAGS (mkpte pa perm) = Z.lor perm PTE_P.
Proof using Type*.
  pose proof mkpte_range. unfold PTE_FLAGS. rewrite u32_small by done. change 0xFFF with (Z.ones 12).
  rewrite Z.land_ones by lia. rewrite mkpte_add in * by done. change (2 ^ 12) with 4096.
  pose proof (lor_perm perm Hperm) as [? _]. by rewrite mod_page.
Qed.
End entries.

(** What the link of the kernel provides: its data begins on a page boundary above
    its text, and all of it lies in physical memory. *)
Definition image_ok (img : linker) : Prop :=
  l_data img mod 4096 = 0 ∧ KERNLINK < l_data img ∧ l_data img < l_end img ∧ l_end img ≤ KERNBASE + PHYSTOP.

Lemma page_phys img v : image_ok img → page_ok img v → 0 < V2P v < 0xE000000 ∧ V2P v mod 4096 = 0 ∧ P2V (V2P v) = v.
Proof.
  intros (_ & Hd & He & _) (Hm & Hl & Hv). unfold V2P, P2V, KERNLINK, EXTMEM, KERNBASE, PHYSTOP in *.
  rewrite (u32_small (v - _)) by lia. apply Z.mod_divide in Hm as [q ->]; [|lia]. split_and!; [lia|lia| |].
  - apply Z.mod_divide; [lia|]. exists (q - 0x80000). lia.
  - rewrite u32_small; lia.
Qed.

Lemma frame_mkpte img v perm : image_ok img → page_ok img v → 0 ≤ perm < 4096 → frame (mkpte (V2P v) perm) = v.
Proof.
  intros Hi Hv Hp. destruct (page_phys img v Hi Hv) as (? & ? & E). unfold frame.
  rewrite mkpte_addr; [done|lia|done|done].
Qed.

(** ** Page tables *)

(** The entry of page [v] when the tables are [T]. *)
Definition pte (m : memory) (T : gmap Z Z) (v : Z) : Z :=
  match T !! (v / 1024) with
  | Some t => ld32 m (t + 4 * (v mod 1024))
  | None => 0
  end.

(** The directory [dir] refers to the tables [T]. *)
Definition pt_rep (m : memory) (img : linker) (dir : Z) (T : gmap Z Z) : Prop :=
  page_ok img dir ∧
  (∀ i t, T !! i = Some t → 0 ≤ i < 1024 ∧ page_ok img t ∧ ld32 m (dir + 4 * i) = mkpte (V2P t) 6) ∧
  (∀ i, 0 ≤ i < 1024 → T !! i = None → present (ld32 m (dir + 4 * i)) = false).

Definition vals (T : gmap Z Z) : list Z := (map_to_list T).*2.

(** Memory outside, and inside, a set of pages. *)
Definition eq_off (P : list Z) (m m' : memory) : Prop :=
  ∀ a, (∀ p, p ∈ P → ¬ p ≤ a < p + 4096) → ld8 m' a = ld8 m a.
Definition eq_page (p : Z) (m m' : memory) : Prop := ∀ a, p ≤ a < p + 4096 → ld8 m' a = ld8 m a.

(** Nothing but memory and the free list is changed. *)
Definition same_rest (k k' : kernel) : Prop :=
  ∃ m f, k' = k <| mem := m |> <| kmem ::= λ km, km <| freelist := f |> |>.

(** The free pages are [L] and the pages in use that matter are [O], all distinct. *)
Record pool (k : kernel) (L O : list Z) : Prop := {
  pool_free : kmem_free k;
  pool_rep : kmem_rep k L;
  pool_bytes : bytes_ok (mem k);
  pool_img : image_ok (image k);
  pool_own : Forall (page_ok (image k)) O;
  pool_dup : NoDup (O ++ L) }.

(** The user part of an address space: the entries [U] of its pages below
    [KERNBASE], and all the pages it is made of. *)
Definition frames (U : gmap Z Z) : list Z := frame <$> vals U.
Definition own (dir : Z) (T U : gmap Z Z) : list Z := dir :: vals T ++ frames U.
Definition urep (m : memory) (T U : gmap Z Z) : Prop :=
  (∀ v e, U !! v = Some e → 0 ≤ v < 524288 ∧ pte m T v = e ∧ present e = true) ∧
  (∀ v, 0 ≤ v < 524288 → U !! v = None → present (pte m T v) = false).

(** ** Maps and pages *)

Lemma elem_of_vals T t : t ∈ vals T ↔ ∃ i, T !! i = Some t.
Proof.
  unfold vals. rewrite list_elem_of_fmap. split.
  - intros ([i x] & -> & Hx). exists i. by apply elem_of_map_to_list in Hx.
  - intros [i Hi]. exists (i, t). split; [done|]. by apply elem_of_map_to_list.
Qed.

Lemma vals_insert T i t : T !! i = None → vals (<[i := t]> T) ≡ₚ t :: vals T.
Proof. intros. unfold vals. by rewrite map_to_list_insert. Qed.

Lemma vals_delete T i t : T !! i = Some t → vals T ≡ₚ t :: vals (delete i T).
Proof. intros H. unfold vals. rewrite <- (map_to_list_delete T i t H). done. Qed.

Lemma elem_of_frames U f : f ∈ frames U ↔ ∃ v e, U !! v = Some e ∧ f = frame e.
Proof. unfold frames. rewrite list_elem_of_fmap. setoid_rewrite elem_of_vals. naive_solver. Qed.

Lemma frames_insert U v e : U !! v = None → frames (<[v := e]> U) ≡ₚ frame e :: frames U.
Proof. intros. unfold frames. by rewrite vals_insert. Qed.

Lemma frames_delete U v e : U !! v = Some e → frames U ≡ₚ frame e :: frames (delete v U).
Proof. intros H. unfold frames. rewrite (vals_delete U v e H). done. Qed.

Lemma frames_empty : frames ∅ = [].
Proof. unfold frames, vals. by rewrite map_to_list_empty. Qed.

Lemma eq_off_refl P m : eq_off P m m.
Proof. by intros ??. Qed.
Lemma eq_off_trans P Q R m1 m2 m3 : (∀ p, p ∈ P → p ∈ R) → (∀ p, p ∈ Q → p ∈ R) →
  eq_off P m1 m2 → eq_off Q m2 m3 → eq_off R m1 m3.
Proof. intros HP HQ H1 H2 a Ha. rewrite H2, H1; [done|..]; intros p Hp; apply Ha; auto. Qed.
Lemma eq_off_mono P Q m m' : (∀ p, p ∈ P → p ∈ Q) → eq_off P m m' → eq_off Q m m'.
Proof. intros HP H a Ha. apply H. intros p Hp. apply Ha; auto. Qed.

(** A page outside a set of pages is unchanged. *)
Lemma eq_off_page img P p m m' : Forall (page_ok img) P → page_ok img p → p ∉ P → eq_off P m m' → eq_page p m m'.
Proof.
  intros HP [Hp _] Hn H a Ha. apply H. intros q Hq. rewrite Forall_forall in HP.
  destruct (HP q Hq) as [Hm _]. destruct (page_disjoint p q Hp Hm); [set_solver|lia|lia].
Qed.

Lemma ld32_page p m m' a : eq_page p m m' → p ≤ a → a + 4 ≤ p + 4096 → ld32 m' a = ld32 m a.
Proof. intros H H1 H2. apply ld32_same. intros x Hx. apply H. lia. Qed.

Lemma pte_same m m' T v : (∀ t, t ∈ vals T → eq_page t m m') → pte m' T v = pte m T v.
Proof.
  intros H. unfold pte. destruct (T !! _) as [t|] eqn:E; [|done].
  pose proof (Z.mod_pos_bound v 1024). eapply (ld32_page t); [|lia|lia]. apply H, elem_of_vals. by eexists.
Qed.

Lemma pt_rep_same m m' img dir T : eq_page dir m m' → pt_rep m img dir T → pt_rep m' img dir T.
Proof.
  intros H (Hd & HT & HN). split_and!; [done|..].
  - intros i t Hi. destruct (HT i t Hi) as (Hb & ? & <-). split_and!; [lia..|done|]. eapply ld32_page; [done|lia|lia].
  - intros i Hb Hi. erewrite (ld32_page dir m m'); [by apply HN|done|lia|lia].
Qed.

Lemma urep_same m m' T U : (∀ t, t ∈ vals T → eq_page t m m') → urep m T U → urep m' T U.
Proof.
  intros H [H1 H2]. split.
  - intros v e Hv. rewrite (pte_same m) by done. by apply H1.
  - intros v Hv Hn. rewrite (pte_same m) by done. by apply H2.
Qed.

(** The processor translates by the entries. *)
Lemma mmu_pte m img dir T va : image_ok img → pt_rep m img dir T → 0 ≤ va < 4294967296 →
  mmu m dir va = if present (pte m T (va / 4096)) then Some (pte m T (va / 4096)) else None.
Proof.
  intros Hi (Hd & HT & HN) Hva. unfold mmu, pte. rewrite PDX_spec, PTX_spec by done.
  rewrite Zdiv_Zdiv by lia. change (4096 * 1024) with 4194304.
  destruct (T !! (va / 4194304)) as [t|] eqn:E.
  - destruct (HT _ _ E) as (Hb & Hp & ->). change (P2V (PTE_ADDR ?e)) with (frame e).
    destruct (page_phys _ _ Hi Hp) as (? & ? & _). by rewrite mkpte_present, (frame_mkpte img) by (done || lia).
  - rewrite (HN (va / 4194304)); [done| |done]. split; [apply Z.div_pos; lia|]. apply Z.div_lt_upper_bound; lia.
Qed.

Lemma mmu_user m img dir T U va : image_ok img → pt_rep m img dir T → urep m T U → 0 ≤ va < KERNBASE →
  mmu m dir va = U !! (va / 4096).
Proof.
  intros Hi HT [H1 H2] Hva. unfold KERNBASE in *. rewrite (mmu_pte _ _ _ T) by (done || lia).
  assert (0 ≤ va / 4096 < 524288) by (split; [apply Z.div_pos; lia|apply Z.div_lt_upper_bound; lia]).
  destruct (U !! (va / 4096)) as [e|] eqn:E.
  - destruct (H1 _ _ E) as (_ & -> & ->). done.
  - by rewrite (H2 _ ltac:(done) E).
Qed.

(** ** The pool of pages *)

Lemma same_rest_refl k : same_rest k k.
Proof. exists (mem k), (freelist (kmem k)). by destruct k as [? ? ? ? ? ? ? ? ? ? ? ? ? ? []]. Qed.
Lemma same_rest_trans k1 k2 k3 : same_rest k1 k2 → same_rest k2 k3 → same_rest k1 k3.
Proof. intros (m & f & ->) (m' & f' & ->). by exists m', f'. Qed.
Lemma same_rest_mem k f : same_rest k (k <| mem ::= f |>).
Proof. exists (f (mem k)), (freelist (kmem k)). by destruct k as [? ? ? ? ? ? ? ? ? ? ? ? ? ? []]. Qed.
Lemma same_rest_image k k' : same_rest k k' → image k' = image k.
Proof. by intros (m & f & ->). Qed.
#[local] Hint Resolve same_rest_refl same_rest_mem : core.

Lemma pool_perm k L O O' : O ≡ₚ O' → pool k L O → pool k L O'.
Proof. intros HO [? ? ? ? H1 H2]. split; [done..|by rewrite <- HO|by rewrite <- HO]. Qed.

Lemma pool_page k L O p : pool k L O → p ∈ O ++ L → page_ok (image k) p.
Proof.
  intros P. destruct (pool_rep _ _ _ P) as (_ & _ & F). pose proof (pool_own _ _ _ P) as F'.
  rewrite Forall_forall in F, F'. rewrite elem_of_app. naive_solver.
Qed.

Lemma pool_pages k L O : pool k L O → Forall (page_ok (image k)) (O ++ L).
Proof. intros P. apply Forall_forall. intros p. by apply pool_page. Qed.

(** Writing to pages in use. *)
Lemma pool_write k L O f : pool k L O → eq_off O (mem k) (f (mem k)) → bytes_ok (f (mem k)) →
  pool (k <| mem ::= f |>) L O.
Proof.
  intros P E B. pose proof P as [Hf (Hc & Hd & HF) _ Hi Ho Hn]. split; try done. split; [|done].
  eapply chain_ext; [|exact Hc]. intros x Hx. symmetry. eapply ld32_page with (p := x); [|lia|lia].
  intros a Ha. symmetry. revert a Ha. eapply eq_off_page; [exact Ho|by rewrite Forall_forall in HF; apply HF| |exact E].
  apply NoDup_app in Hn as (_ & Hn & _). intros Hx'. by apply (Hn x).
Qed.

Lemma pool_kfree k L O v : pool k L (v :: O) → pool (kfree_st v k) (v :: L) O ∧ eq_off [v] (mem k) (mem (kfree_st v k)).
Proof.
  intros P. pose proof P as [Hf Hr Hb Hi Ho Hn]. apply Forall_cons in Ho as [Hv Ho].
  rewrite <- app_comm_cons in Hn. apply NoDup_cons in Hn as [Hvn Hn]. split.
  - split; [done|apply kmem_rep_kfree; [done..|set_solver]|..]; [|done|done|].
    + by repeat apply bytes_ok_st8; apply bytes_ok_memset.
    + rewrite <- Permutation_middle. by constructor.
  - intros a Ha. apply kfree_mem. specialize (Ha v ltac:(set_solver)). lia.
Qed.

Section pool_kwp.
Context (Y : protocol kernel) `{!Mono Y}.

Lemma kwp_kalloc_pool Q k L O : pool k L O → (L = [] → Q 0 k) →
  (∀ x L' k', L = x :: L' → pool k' L' (x :: O) → mem k' = mem k → same_rest k k' → Q x k') → kwp kalloc Q Y k.
Proof using Type*.
  intros P HN HS. pose proof P as [Hf Hr Hb Hi Ho Hn]. apply kwp_kalloc; [done|done|].
  destruct (kmem_rep_kalloc _ _ Hr) as [Hh Hr']. rewrite Hh. destruct L as [|x L].
  - unfold kalloc_st. rewrite Hh. by apply HN.
  - assert (page_ok (image k) x) as Hx by (apply (pool_page _ _ _ _ P); set_solver).
    assert (kalloc_st k = k <| kmem ::= λ km, km <| freelist := ld32 (mem k) x |> |>) as EK.
    { unfold kalloc_st. rewrite Hh. simpl hd. unfold istrue. pose proof (page_nonzero _ _ Hx).
      by replace (x =? 0) with false by lia. }
    simpl. rewrite EK in *. eapply (HS x L); [done| |done|].
    + split; [done|done|done|done|by constructor|]. by rewrite <- app_comm_cons, Permutation_middle.
    + exists (mem k), (ld32 (mem k) x). by destruct k.
Qed.

Lemma kwp_kfree_pool Q k L O v : pool k L (v :: O) →
  (∀ k', pool k' (v :: L) O → eq_off [v] (mem k) (mem k') → same_rest k k' → Q tt k') → kwp (kfree v) Q Y k.
Proof using Type*.
  intros P HS. destruct (pool_kfree k L O v P) as [P' E]. apply kwp_kfree; [done|apply P| |].
  - apply (pool_page _ _ _ _ P). by left.
  - apply HS; [done|done|]. unfold kfree_st. by eexists _, _.
Qed.
End pool_kwp.

(** ** walkpgdir *)

(** [dir] has got the further tables [new], taken from the free pages; memory has
    changed in the directory and the tables only. *)
Definition grew (dir : Z) (new : list Z) (k : kernel) (L O : list Z) (T : gmap Z Z)
    (k' : kernel) (L' : list Z) (T' : gmap Z Z) : Prop :=
  pool k' L' (new ++ O) ∧ pt_rep (mem k') (image k') dir T' ∧ L = new ++ L' ∧ vals T' ≡ₚ new ++ vals T ∧
  eq_off (dir :: vals T') (mem k) (mem k') ∧ same_rest k k'.

Lemma grew_trans dir n1 n2 k L O T k1 L1 T1 k2 L2 T2 :
  grew dir n1 k L O T k1 L1 T1 → grew dir n2 k1 L1 (n1 ++ O) T1 k2 L2 T2 → grew dir (n1 ++ n2) k L O T k2 L2 T2.
Proof.
  intros (P1 & R1 & E1 & V1 & M1 & S1) (P2 & R2 & E2 & V2 & M2 & S2). split_and!.
  - eapply pool_perm; [|done]. solve_Permutation.
  - done.
  - by rewrite E1, E2, app_assoc.
  - rewrite V2, V1. solve_Permutation.
  - eapply eq_off_trans; [..|exact M1|exact M2]; [|done]. intros p. rewrite !elem_of_cons, V2, elem_of_app. naive_solver.
  - by eapply same_rest_trans.
Qed.

Lemma grew_perm dir n k L O O' T k' L' T' : O ≡ₚ O' → grew dir n k L O T k' L' T' → grew dir n k L O' T k' L' T'.
Proof. intros HO (P & G). split; [|done]. eapply pool_perm; [|exact P]. by rewrite HO. Qed.

(** The tables that [T'] has and [T] has not are from entry [i] of the directory on. *)
Definition only_from (i : Z) (T T' : gmap Z Z) : Prop := ∀ j, is_Some (T' !! j) → is_Some (T !! j) ∨ i ≤ j.
Lemma only_from_refl i T : only_from i T T.
Proof. intros j Hj. by left. Qed.
Lemma only_from_insert i T t : only_from i T (<[i := t]> T).
Proof. intros j [x Hj]. apply lookup_insert_Some in Hj as [[<- _]|[_ Hj]]; [by right|left; eauto]. Qed.
Lemma only_from_trans i i' T1 T2 T3 : only_from i T1 T2 → only_from i' T2 T3 → i ≤ i' → only_from i T1 T3.
Proof. intros H1 H2 Hi j Hj. destruct (H2 j Hj) as [Hj2|]; [by apply H1|right; lia]. Qed.

(** The directory and its tables are among the pages in use. *)
Definition tables_in (dir : Z) (T : gmap Z Z) (O : list Z) : Prop := ∃ X, O ≡ₚ dir :: vals T ++ X.

Lemma tables_in_grew dir n k L O T k' L' T' : tables_in dir T O → grew dir n k L O T k' L' T' → tables_in dir T' (n ++ O).
Proof. intros [X HX] (_ & _ & _ & V & _). exists X. rewrite HX, V. solve_Permutation. Qed.

Lemma tables_in_cons dir T O x : tables_in dir T O → tables_in dir T (x :: O).
Proof. intros [X HX]. exists (x :: X). rewrite HX. solve_Permutation. Qed.

Lemma tables_in_elem dir T O p : tables_in dir T O → p ∈ dir :: vals T → p ∈ O.
Proof. intros [X ->]. rewrite !elem_of_cons, elem_of_app. naive_solver. Qed.

Lemma pool_disjoint k L O x p : pool k L (x :: O) → p ∈ O → p ≠ x.
Proof. intros P Hp ->. destruct P as [_ _ _ _ _ D]. rewrite <- app_comm_cons in D. apply NoDup_cons in D as [D _]. set_solver. Qed.

Lemma pool_dir k L O dir T : pool k L O → tables_in dir T O → dir ∉ vals T.
Proof.
  intros P [X HX] Hd. eapply pool_perm in P; [|exact HX]. by apply (pool_disjoint _ _ _ _ dir P); [set_solver|].
Qed.

Lemma dir_index va : 0 ≤ va < 4294967296 → 0 ≤ va / 4194304 < 1024.
Proof. intros. split; [apply Z.div_pos; lia|]. apply Z.div_lt_upper_bound; lia. Qed.

Lemma page_index v : 4096 * v / 4194304 = v / 1024 ∧ 4096 * v / 4096 = v.
Proof.
  split; [change 4194304 with (4096 * 1024); rewrite Z.div_mul_cancel_l; lia|]. rewrite Z.mul_comm, Z.div_mul; lia.
Qed.

(** The address of an entry is not null. *)
Lemma entry_pos m img dir T i t v : pt_rep m img dir T → T !! i = Some t → t + 4 * (v mod 1024) ≠ 0.
Proof.
  intros (_ & HT & _) Hi. destruct (HT _ _ Hi) as (_ & (_ & _ & ?) & _). pose proof (Z.mod_pos_bound v 1024).
  unfold KERNBASE in *. lia.
Qed.

(** A new, zeroed table for index [i]. *)
Definition new_table (dir i x : Z) (m : memory) : memory := st32 (memset m x 0 PGSIZE) (dir + 4 * i) (mkpte (V2P x) 6).

Section new_table.
Context (k : kernel) (L O : list Z) (dir i x : Z) (T : gmap Z Z).
Hypothesis (P : pool k L (x :: O)) (R : pt_rep (mem k) (image k) dir T) (HO : tables_in dir T O).
Hypothesis (Hi : 0 ≤ i < 1024) (HN : T !! i = None).
#[local] Definition nt_mem := new_table dir i x (mem k).

Lemma nt_x : page_ok (image k) x ∧ page_ok (image k) dir ∧ x ≠ dir.
Proof using Type*.
  split_and!; [apply (pool_page _ _ _ _ P); set_solver| |].
  - apply R.
  - intros E. apply (pool_disjoint _ _ _ _ dir P); [|done]. eapply tables_in_elem; [done|]. by left.
Qed.

Lemma nt_eq_off : eq_off [dir; x] (mem k) nt_mem.
Proof using Type*.
  intros a Ha. unfold nt_mem, new_table, PGSIZE. pose proof (Ha dir ltac:(set_solver)). pose proof (Ha x ltac:(set_solver)).
  rewrite ld8_st32_ne by lia. rewrite memset_spec by done. case_decide; [lia|done].
Qed.

Lemma nt_bytes : bytes_ok nt_mem.
Proof using Type*. repeat apply bytes_ok_st8. apply bytes_ok_memset; [done|]. apply P. Qed.

Lemma nt_dir j : 0 ≤ j < 1024 → ld32 nt_mem (dir + 4 * j) = if decide (j = i) then mkpte (V2P x) 6 else ld32 (mem k) (dir + 4 * j).
Proof using Type*.
  intros Hj. destruct nt_x as (Hx & Hd & Hne). unfold nt_mem, new_table, PGSIZE. case_decide as E.
  - subst j. rewrite ld32_st32. apply u32_small. destruct (page_phys _ _ (pool_img _ _ _ P) Hx) as (? & ? & _).
    apply mkpte_range; [lia|done|lia].
  - rewrite ld32_st32_ne by lia. apply ld32_memset_out; [done|].
    destruct (page_disjoint x dir) as [|]; [apply Hx|apply Hd|done|lia|lia].
Qed.

Lemma nt_zero j : 0 ≤ j < 1024 → ld32 nt_mem (x + 4 * j) = 0.
Proof using Type*.
  intros Hj. destruct nt_x as (Hx & Hd & Hne). unfold nt_mem, new_table, PGSIZE. rewrite ld32_st32_ne.
  - rewrite ld32_memset_in by lia. done.
  - destruct (page_disjoint x dir) as [|]; [apply Hx|apply Hd|done|lia|lia].
Qed.

Lemma nt_rep : pt_rep nt_mem (image k) dir (<[i := x]> T).
Proof using Type*.
  destruct R as (Hd & HT & HE). destruct nt_x as (Hx & _). split_and!; [done|..].
  - intros j t. rewrite lookup_insert_Some. intros [[<- <-]|[Hne Hj]].
    + rewrite nt_dir by done. by rewrite decide_True.
    + destruct (HT _ _ Hj) as (? & ? & ?). rewrite nt_dir by done. rewrite decide_False by done. done.
  - intros j Hj. rewrite lookup_insert_None. intros [Hn Hne]. rewrite nt_dir by done.
    rewrite decide_False by done. by apply HE.
Qed.

Lemma nt_pte v : 0 ≤ v → pte nt_mem (<[i := x]> T) v = pte (mem k) T v.
Proof using Type*.
  intros Hv. unfold pte. destruct (decide (v / 1024 = i)) as [->|Hne].
  - rewrite lookup_insert_eq, HN. apply nt_zero. apply Z.mod_pos_bound. lia.
  - rewrite lookup_insert_ne by congruence. destruct (T !! (v / 1024)) as [t|] eqn:E; [|done].
    pose proof (Z.mod_pos_bound v 1024 ltac:(lia)). eapply (ld32_page t); [|lia|lia].
    assert (t ∈ O) by (eapply tables_in_elem; [done|]; rewrite elem_of_cons, elem_of_vals; eauto).
    destruct nt_x as (Hx & Hd & _). eapply (eq_off_page (image k)); [..|exact nt_eq_off].
    + constructor; [done|]. by constructor.
    + by destruct R as (_ & HT & _); apply (HT _ _ E).
    + rewrite !elem_of_cons. intros [->|[->|[]%elem_of_nil]].
      * apply (pool_dir k L (x :: O) dir T); [done|by apply tables_in_cons|]. apply elem_of_vals. by eexists.
      * by apply (pool_disjoint _ _ _ _ x P).
Qed.
End new_table.

Section walk.
Context (Y : protocol kernel) `{!Mono Y}.

Lemma kwp_walk Q k L O dir T va : pool k L O → pt_rep (mem k) (image k) dir T → 0 ≤ va < 4294967296 →
  Q (match T !! (va / 4194304) with Some t => t + 4 * (va / 4096 mod 1024) | None => 0 end) k →
  kwp (walkpgdir dir va false) Q Y k.
Proof using Type*.
  intros P (Hd & HT & HN) Hv HQ. unfold walkpgdir, rd32. rewrite PDX_spec, PTX_spec by done. kstep. kstep.
  fold (present (ld32 (mem k) (dir + 4 * (va / 4194304)))). destruct (T !! (va / 4194304)) as [t|] eqn:E.
  - destruct (HT _ _ E) as (_ & Hp & ->). destruct (page_phys _ _ (pool_img _ _ _ P) Hp) as (? & ? & _).
    rewrite mkpte_present by (done || lia). change (P2V (PTE_ADDR ?e)) with (frame e).
    rewrite (frame_mkpte (image k)) by (done || lia || apply P). by kstep.
  - rewrite HN by (done || by apply dir_index). simpl. by kstep.
Qed.

(** The entry of a page that is mapped. *)
Lemma kwp_walk_page Q k L O dir T U v e : pool k L O → pt_rep (mem k) (image k) dir T → urep (mem k) T U →
  U !! v = Some e → (∀ a, a ≠ 0 → ld32 (mem k) a = e → Q a k) → kwp (walkpgdir dir (4096 * v) false) Q Y k.
Proof using Type*.
  intros P R RU HU HQ. destruct (proj1 RU _ _ HU) as (Hv & Ep & Hpr). eapply kwp_walk; [exact P|exact R|lia|].
  destruct (page_index v) as [-> ->]. unfold pte in Ep. destruct (T !! (v / 1024)) as [t|] eqn:ET; [|by subst].
  apply HQ; [by eapply entry_pos|done].
Qed.

Lemma kwp_walk_alloc Q k L O dir T va : pool k L O → pt_rep (mem k) (image k) dir T → tables_in dir T O →
  0 ≤ va < 4294967296 → (L = [] → Q 0 k) →
  (∀ new k' L' T' t, grew dir new k L O T k' L' T' → T' !! (va / 4194304) = Some t → only_from (va / 4194304) T T' →
     (∀ v, 0 ≤ v → pte (mem k') T' v = pte (mem k) T v) → Q (t + 4 * (va / 4096 mod 1024)) k') →
  kwp (walkpgdir dir va true) Q Y k.
Proof using Type*.
  intros P R HO Hv HN HS. unfold walkpgdir, rd32, kmemset, wr32. rewrite PDX_spec, PTX_spec by done. kstep. kstep.
  fold (present (ld32 (mem k) (dir + 4 * (va / 4194304)))). pose proof R as (Hd & HT & HE).
  destruct (T !! (va / 4194304)) as [t|] eqn:E.
  - destruct (HT _ _ E) as (_ & Hp & ->). destruct (page_phys _ _ (pool_img _ _ _ P) Hp) as (? & ? & _).
    rewrite mkpte_present by (done || lia). change (P2V (PTE_ADDR ?e)) with (frame e).
    rewrite (frame_mkpte (image k)) by (done || lia || apply P). kstep. apply (HS [] k L T); try done. apply only_from_refl.
  - rewrite HE by (done || by apply dir_index). simpl negb. cbv iota. apply kwp_bind; [done|].
    eapply kwp_kalloc_pool; [done|done| |].
    { intros HL. simpl. kstep. by apply HN. }
    intros x L' k' -> P' Em S'. pose proof (pool_page _ _ _ x P' ltac:(set_solver)) as Hx.
    pose proof (page_nonzero _ _ Hx). replace (x =? 0) with false by lia. ksteps.
    replace (Z.lor (Z.lor (Z.lor (V2P x) PTE_P) PTE_W) PTE_U) with (mkpte (V2P x) 6) by (unfold mkpte; by rewrite <- !Z.lor_assoc).
    change (Q (x + 4 * (va / 4096 mod 1024)) (k' <| mem ::= new_table dir (va / 4194304) x |>)).
    rewrite <- Em, <- (same_rest_image _ _ S') in R. pose proof (dir_index va Hv) as Hb.
    apply (HS [x] _ L' (<[va / 4194304 := x]> T) x); [|apply lookup_insert_eq|by apply only_from_insert|].
    + split_and!; [|by apply (nt_rep k' L' O)|done|by rewrite vals_insert|..].
      * apply pool_write; [done| |by apply (nt_bytes k' L' O dir _ x T)].
        eapply eq_off_mono; [|by apply (nt_eq_off k' L' O dir _ x T)]. intros p.
        rewrite !elem_of_cons. intros [->|[->|[]%elem_of_nil]]; [right|by left]. eapply tables_in_elem; [done|by left].
      * rewrite <- Em. eapply eq_off_mono; [|by apply (nt_eq_off k' L' O dir _ x T)]. intros p.
        rewrite vals_insert by done. rewrite !elem_of_cons. set_solver.
      * eapply same_rest_trans; [done|]. apply same_rest_mem.
    + intros v Hv'. rewrite <- Em. by apply (nt_pte k' L' O).
Qed.
End walk.

(** ** mappages *)

Lemma vals_inj T i j t : NoDup (vals T) → T !! i = Some t → T !! j = Some t → i = j.
Proof.
  intros HN Hi Hj. destruct (decide (i = j)) as [|Hne]; [done|]. rewrite (vals_delete T i t Hi) in HN.
  apply NoDup_cons in HN as [HN _]. destruct HN. apply elem_of_vals. exists j. by rewrite lookup_delete_ne.
Qed.

Lemma pool_tables k L O dir T : pool k L O → tables_in dir T O → NoDup (vals T).
Proof.
  intros P [X HX]. destruct P as [_ _ _ _ _ D]. rewrite HX in D. apply NoDup_app in D as (D & _ & _).
  apply NoDup_cons in D as [_ D]. by apply NoDup_app in D as (D & _ & _).
Qed.

(** Writing the entry of page [v]. *)
Lemma set_pte k L O dir T v t w : pool k L O → pt_rep (mem k) (image k) dir T → tables_in dir T O →
  T !! (v / 1024) = Some t →
  let k' := k <| mem ::= λ m, st32 m (t + 4 * (v mod 1024)) w |> in
  grew dir [] k L O T k' L T ∧
  ∀ v', 0 ≤ v' → pte (mem k') T v' = if decide (v' = v) then u32 w else pte (mem k) T v'.
Proof.
  intros P R HO HT k'. pose proof (Z.mod_pos_bound v 1024 ltac:(lia)) as Hb.
  assert (t ∈ vals T) as Ht by (apply elem_of_vals; eauto).
  assert (eq_off [t] (mem k) (mem k')) as E.
  { intros a Ha. specialize (Ha t ltac:(set_solver)). apply ld8_st32_ne. lia. }
  assert (∀ p, p ∈ O → p ≠ t → eq_page p (mem k) (mem k')) as EP.
  { intros p Hp Hne. eapply (eq_off_page (image k)); [..|exact E].
    - constructor; [|done]. eapply (pool_page _ _ _ t P), elem_of_app. left. eapply tables_in_elem; [done|by right].
    - apply (pool_page _ _ _ p P), elem_of_app. by left.
    - by rewrite list_elem_of_singleton. }
  split.
  - split_and!; [| |done|done| |apply same_rest_mem].
    + apply pool_write; [done| |by repeat apply bytes_ok_st8; apply P]. eapply eq_off_mono; [|exact E].
      intros p ->%list_elem_of_singleton. eapply tables_in_elem; [done|by right].
    + eapply pt_rep_same; [|exact R]. apply EP; [eapply tables_in_elem; [done|by left]|].
      intros ->. by apply (pool_dir k L O t T).
    + eapply eq_off_mono; [|exact E]. intros p ->%list_elem_of_singleton. by right.
  - intros v' Hv'. unfold pte. destruct (T !! (v' / 1024)) as [t'|] eqn:E'.
    2:{ rewrite decide_False; [done|]. intros ->. congruence. }
    pose proof (Z.mod_pos_bound v' 1024 ltac:(lia)). case_decide as Ev.
    + subst v'. assert (t' = t) as -> by congruence. apply ld32_st32.
    + destruct (decide (t' = t)) as [->|Hne].
      * apply ld32_st32_ne. pose proof (vals_inj T _ _ t (pool_tables _ _ _ _ _ P HO) HT E').
        pose proof (Z.div_mod v 1024). pose proof (Z.div_mod v' 1024). lia.
      * eapply ld32_page with (p := t'); [|lia|lia]. apply EP; [|done]. eapply tables_in_elem; [done|].
        right. apply elem_of_vals. by eexists.
Qed.

Section mappages.
Context (Y : protocol kernel) `{!Mono Y}.

(** One turn of the loop of [mappages]. *)
Lemma kwp_map_one (C : K Z) Q k L O dir T v pa perm :
  pool k L O → pt_rep (mem k) (image k) dir T → tables_in dir T O → 0 ≤ v < 1048576 →
  0 ≤ pa < 4294967296 → pa mod 4096 = 0 → 0 ≤ perm < 4096 → present (pte (mem k) T v) = false →
  (L = [] → Q (-1) k) →
  (∀ new k' L' T', grew dir new k L O T k' L' T' → only_from (v / 1024) T T' →
     (∀ w, 0 ≤ w → pte (mem k') T' w = if decide (w = v) then mkpte pa perm else pte (mem k) T w) → kwp C Q Y k') →
  kwp (pte ← walkpgdir dir (4096 * v) true;
       if pte =? 0 then mret (-1)
       else
         e ← rd32 pte;
         (if istrue (Z.land e PTE_P) then panic "remap" else skip);;
         wr32 pte (Z.lor (Z.lor pa perm) PTE_P);; C) Q Y k.
Proof using Type*.
  intros P R HO Hv Hpa Hal Hpm HE HN HS. apply kwp_bind; [done|].
  eapply kwp_walk_alloc; [done|done|done|done|lia|..].
  { intros HL. simpl. kstep. by apply HN. }
  intros new k' L' T' t G Ht Hof Hpte. pose proof G as (P' & R' & _).
  destruct (page_index v) as [E1 E2]. rewrite E1 in Ht, Hof. rewrite E2. clear E1 E2.
  rewrite (proj2 (Z.eqb_neq _ _)) by by eapply entry_pos.
  assert (ld32 (mem k') (t + 4 * (v mod 1024)) = pte (mem k) T v) as EL.
  { rewrite <- Hpte by lia. unfold pte. by rewrite Ht. }
  unfold rd32, wr32. kstep. kstep. rewrite EL. fold (present (pte (mem k) T v)). rewrite HE. kstep. kstep. kstep. kstep.
  change (Z.lor (Z.lor pa perm) PTE_P) with (mkpte pa perm).
  destruct (set_pte k' L' (new ++ O) dir T' v t (mkpte pa perm)) as [G2 E2];
    [done|done|by eapply tables_in_grew|done|].
  eapply HS; [exact (grew_trans _ _ _ _ _ _ _ _ _ _ _ _ _ G G2)|done|]. intros w Hw. rewrite E2 by done.
  rewrite Hpte by done. case_decide; [|done]. apply u32_small. by apply mkpte_range.
Qed.

(** [mappages] of [n + 1] pages maps [j] of them: all, or fewer when the free
    pages run out. *)
Lemma kwp_mappages_loop n : ∀ Q k L O dir T v pa perm,
  pool k L O → pt_rep (mem k) (image k) dir T → tables_in dir T O →
  0 ≤ v → v + Z.of_nat n < 1048576 → 0 ≤ pa → pa + 4096 * Z.of_nat n < 4294967296 → pa mod 4096 = 0 → 0 ≤ perm < 4096 →
  (∀ w, v ≤ w ≤ v + Z.of_nat n → present (pte (mem k) T w) = false) →
  (∀ r new k' L' T' j, grew dir new k L O T k' L' T' → only_from (v / 1024) T T' →
     (∀ w, 0 ≤ w → pte (mem k') T' w =
        if decide (v ≤ w < v + j) then mkpte (pa + 4096 * (w - v)) perm else pte (mem k) T w) →
     r = 0 ∧ j = Z.of_nat (S n) ∨ r = -1 ∧ 0 ≤ j ≤ Z.of_nat n ∧ L' = [] → Q r k') →
  kwp (mappages_loop (S n) dir (4096 * v) (4096 * (v + Z.of_nat n)) pa perm) Q Y k.
Proof using Type*.
  induction n as [|n IH]; intros Q k L O dir T v pa perm P R HO Hv Hn Hp Hpn Ha Hm HE HS.
  - cbn [mappages_loop]. apply kwp_map_one with (L := L) (O := O) (T := T); try done; try lia; [apply HE; lia|..].
    + intros HL. apply (HS (-1) [] k L T 0); [done|apply only_from_refl| |right; split_and!; (lia || done)].
      intros w Hw. case_decide; [lia|done].
    + intros new k' L' T' G Hof E. rewrite Z.add_0_r, Z.eqb_refl. kstep.
      apply (HS 0 new k' L' T' 1); [done|done| |by left]. intros w Hw. rewrite E by done.
      repeat case_decide; try lia; try done; f_equal; lia.
  - change (mappages_loop (S (S n)) dir ?a ?b ?c ?d) with
      (pte ← walkpgdir dir a true;
       if pte =? 0 then mret (-1)
       else
         e ← rd32 pte;
         (if istrue (Z.land e PTE_P) then panic "remap" else skip);;
         wr32 pte (Z.lor (Z.lor c d) PTE_P);;
         (if a =? b then mret 0
          else mappages_loop (S n) dir (u32 (a + PGSIZE)) b (u32 (c + PGSIZE)) d)).
    apply kwp_map_one with (L := L) (O := O) (T := T); try done; try lia; [apply HE; lia|..].
    + intros HL. apply (HS (-1) [] k L T 0); [done|apply only_from_refl| |right; split_and!; (lia || done)].
      intros w Hw. case_decide; [lia|done].
    + intros new k' L' T' G Hof E. rewrite (proj2 (Z.eqb_neq _ _)) by lia.
      unfold PGSIZE. rewrite !u32_small by lia. replace (4096 * v + 4096) with (4096 * (v + 1)) by lia.
      replace (v + Z.of_nat (S n)) with (v + 1 + Z.of_nat n) by lia. pose proof G as (P' & R' & _).
      eapply IH; [done|done|by eapply tables_in_grew|lia|lia|lia|lia| |done|..].
      * replace 4096 with (1 * 4096) at 1 by lia. by rewrite Z.mod_add by lia.
      * intros w Hw. rewrite E by lia. case_decide; [lia|]. apply HE. lia.
      * intros r new' k'' L'' T'' j G' Hof' E' Hr. eapply (HS r (new ++ new') k'' L'' T'' (j + 1)); [by eapply grew_trans| | |lia || naive_solver lia].
        -- eapply only_from_trans; [exact Hof|exact Hof'|]. apply Z.div_le_mono; lia.
        -- intros w Hw. rewrite E', E by done. repeat case_decide; try lia; try done; f_equal; lia.
Qed.

Lemma kwp_mappages Q k L O dir T v n pa perm :
  pool k L O → pt_rep (mem k) (image k) dir T → tables_in dir T O →
  0 ≤ v → 0 < n → v + n ≤ 1048576 → 0 ≤ pa → pa + 4096 * n ≤ 4294967296 → pa mod 4096 = 0 → 0 ≤ perm < 4096 →
  (∀ w, v ≤ w < v + n → present (pte (mem k) T w) = false) →
  (∀ r new k' L' T' j, grew dir new k L O T k' L' T' → only_from (v / 1024) T T' →
     (∀ w, 0 ≤ w → pte (mem k') T' w =
        if decide (v ≤ w < v + j) then mkpte (pa + 4096 * (w - v)) perm else pte (mem k) T w) →
     r = 0 ∧ j = n ∨ r = -1 ∧ 0 ≤ j < n ∧ L' = [] → Q r k') →
  kwp (mappages dir (4096 * v) (4096 * n) pa perm) Q Y k.
Proof using Type*.
  intros P R HO Hv Hn0 Hn Hp Hpn Ha Hm HE HS. unfold mappages.
  rewrite !PGROUNDDOWN_spec by lia.
  replace (4096 * v mod 4096) with 0 by (rewrite Z.mul_comm, Z.mod_mul; lia).
  replace (4096 * v + 4096 * n - 1) with (4095 + (v + n - 1) * 4096) by lia. rewrite Z.mod_add by lia.
  change (4095 mod 4096) with 4095.
  replace (4095 + (v + n - 1) * 4096 - 4095) with (4096 * (v + Z.of_nat (Z.to_nat (n - 1)))) by lia.
  replace (4096 * v - 0) with (4096 * v) by lia. rewrite u32_small by lia.
  replace ((4096 * (v + Z.of_nat (Z.to_nat (n - 1))) - 4096 * v) / PGSIZE) with (n - 1).
  2:{ unfold PGSIZE. apply Z.div_unique_exact; lia. }
  apply kwp_mappages_loop with (L := L) (O := O) (T := T); try done; try lia.
  - intros w Hw. apply HE. lia.
  - intros r new k' L' T' j G Hof E Hr. eapply HS; [done|done|done|]. destruct Hr as [[-> ->]|(-> & ? & ->)]; [left; lia|right].
    split_and!; [lia..|done].
Qed.
End mappages.

(** ** deallocuvm *)

Lemma urep_insert m m' T T' U v e : urep m T U → 0 ≤ v < 524288 → present e = true →
  (∀ w, 0 ≤ w → pte m' T' w = if decide (w = v) then e else pte m T w) → urep m' T' (<[v := e]> U).
Proof.
  intros [H1 H2] Hv He HP. split.
  - intros w x. rewrite lookup_insert_Some. intros [[<- <-]|[Hne Hx]].
    + rewrite HP by lia. by rewrite decide_True.
    + destruct (H1 _ _ Hx) as (? & ? & ?). rewrite HP by lia. by rewrite decide_False.
  - intros w Hw. rewrite lookup_insert_None. intros [Hn Hne]. rewrite HP by lia. rewrite decide_False by done. by apply H2.
Qed.

Lemma urep_empty m T : (∀ w, 0 ≤ w < 524288 → present (pte m T w) = false) → urep m T ∅.
Proof. intros H. split; [by intros ? ? ?%lookup_empty_Some|]. intros v Hv _. by apply H. Qed.

Lemma urep_delete m m' T U v : urep m T U →
  (∀ w, 0 ≤ w → pte m' T w = if decide (w = v) then 0 else pte m T w) → urep m' T (delete v U).
Proof.
  intros [H1 H2] HP. split.
  - intros w x. rewrite lookup_delete_Some. intros [Hne Hx]. destruct (H1 _ _ Hx) as (? & ? & ?).
    rewrite HP by lia. by rewrite decide_False.
  - intros w Hw. rewrite lookup_delete_None, HP by lia. case_decide; [done|]. intros [|Hn]; [done|]. by apply H2.
Qed.

Lemma tables_in_own dir T U X : tables_in dir T (own dir T U ++ X).
Proof. exists (frames U ++ X). unfold own. solve_Permutation. Qed.

Lemma own_delete dir T U v e : U !! v = Some e → own dir T U ≡ₚ frame e :: own dir T (delete v U).
Proof. intros H. unfold own. rewrite (frames_delete U v e H). solve_Permutation. Qed.

Lemma own_insert dir T U v e : U !! v = None → own dir T (<[v := e]> U) ≡ₚ frame e :: own dir T U.
Proof. intros H. unfold own. rewrite (frames_insert U v e H). solve_Permutation. Qed.

Section dealloc.
Context (Y : protocol kernel) `{!Mono Y}.

(** Freeing the frame of page [v] and clearing its entry. *)
Lemma kwp_unmap Q k L dir T U X v e t :
  pool k L (own dir T U ++ X) → pt_rep (mem k) (image k) dir T → urep (mem k) T U →
  U !! v = Some e → T !! (v / 1024) = Some t →
  (∀ k', pool k' (frame e :: L) (own dir T (delete v U) ++ X) → pt_rep (mem k') (image k') dir T →
     urep (mem k') T (delete v U) → eq_off (own dir T U) (mem k) (mem k') → same_rest k k' → Q tt k') →
  kwp (kfree (frame e);; wr32 (t + 4 * (v mod 1024)) 0) Q Y k.
Proof using Type*.
  intros P R RU HU HT HS. assert (frame e ∈ frames U) as Hfe by (apply elem_of_frames; eauto).
  pose proof (own_delete dir T U v e HU) as EO. eapply pool_perm in P as P1; [|rewrite EO; reflexivity].
  apply kwp_bind; [done|]. eapply kwp_kfree_pool; [done|exact P1|]. intros k1 P2 E1 S1.
  assert (∀ p, p ∈ dir :: vals T → eq_page p (mem k) (mem k1)) as HE.
  { intros p Hp. eapply (eq_off_page (image k)); [..|exact E1].
    - constructor; [|done]. apply (pool_page _ _ _ _ P1). set_solver.
    - apply (pool_page _ _ _ _ P), elem_of_app. left. eapply tables_in_elem; [apply tables_in_own|done].
    - rewrite list_elem_of_singleton. eapply pool_disjoint; [exact P1|].
      eapply tables_in_elem; [apply tables_in_own|done]. }
  assert (pt_rep (mem k1) (image k1) dir T) as R1.
  { rewrite (same_rest_image _ _ S1). eapply pt_rep_same; [|exact R]. apply HE. by left. }
  destruct (set_pte k1 (frame e :: L) _ dir T v t 0 P2 R1) as [G E2]; [apply tables_in_own|done|].
  destruct G as (P3 & R3 & _ & _ & M3 & S3). unfold wr32. kstep. apply HS; [done|done|..].
  - eapply urep_delete; [exact RU|]. intros w Hw. rewrite E2 by done. case_decide; [done|].
    apply pte_same. intros p Hp. apply HE. by right.
  - eapply eq_off_trans; [..|exact E1|exact M3]; unfold own; intros p; rewrite ?elem_of_cons, ?elem_of_app; [|naive_solver].
    intros [->|[]%elem_of_nil]. auto.
  - by eapply same_rest_trans.
Qed.

(** The skip over a page table that does not exist. *)
Lemma next_table a : 0 ≤ a < KERNBASE →
  u32 (u32 (PGADDR (PDX a + 1) 0 0 - PGSIZE) + PGSIZE) = 4194304 * (a / 4194304 + 1).
Proof.
  intros Ha. unfold KERNBASE, PGSIZE in *. rewrite u32_add_l. replace (PGADDR (PDX a + 1) 0 0 - 4096 + 4096) with (PGADDR (PDX a + 1) 0 0) by lia.
  unfold PGADDR. rewrite u32_idem, !Z.lor_0_r, Z.shiftl_mul_pow2, PDX_spec by lia. change (2 ^ 22) with 4194304.
  assert (0 ≤ a / 4194304 < 512) by (split; [apply Z.div_pos; lia|apply Z.div_lt_upper_bound; lia]).
  rewrite u32_small by lia. lia.
Qed.

Lemma urep_table m T U v : urep m T U → T !! (v / 1024) = None → U !! v = None.
Proof.
  intros [H1 _] HT. destruct (U !! v) as [e|] eqn:E; [|done]. destruct (H1 _ _ E) as (_ & Hp & He).
  unfold pte in Hp. rewrite HT in Hp. by subst.
Qed.

(** What freeing the user pages from [a] to [b] leaves. *)
Definition freed (dir : Z) (T U : gmap Z Z) (X : list Z) (a b : Z) (k : kernel) (L : list Z) (k' : kernel) (L' : list Z)
    (U' : gmap Z Z) : Prop :=
  pool k' L' (own dir T U' ++ X) ∧ pt_rep (mem k') (image k') dir T ∧ urep (mem k') T U' ∧
  (∀ v, U' !! v = if decide (a ≤ 4096 * v < b) then None else U !! v) ∧
  frames U' ++ L' ≡ₚ frames U ++ L ∧ eq_off (own dir T U) (mem k) (mem k') ∧ same_rest k k'.

Lemma freed_nil dir T U X a b k L : pool k L (own dir T U ++ X) → pt_rep (mem k) (image k) dir T → urep (mem k) T U →
  (∀ v, a ≤ 4096 * v < b → U !! v = None) → freed dir T U X a b k L k L U.
Proof.
  intros P R RU H. split_and!; try done. intros v. case_decide; [by apply H|done].
Qed.

Lemma freed_trans dir T U X a b c k L k1 L1 U1 k2 L2 U2 : a ≤ b →
  (∀ v, U1 !! v = if decide (a ≤ 4096 * v < b) then None else U !! v) →
  frames U1 ++ L1 ≡ₚ frames U ++ L → eq_off (own dir T U) (mem k) (mem k1) → same_rest k k1 →
  freed dir T U1 X b c k1 L1 k2 L2 U2 → (∀ v, a ≤ 4096 * v < b → 4096 * v < c ∨ U !! v = None) → freed dir T U X a c k L k2 L2 U2.
Proof.
  intros Hab E1 F1 M1 S1 (P2 & R2 & RU2 & E2 & F2 & M2 & S2) Hbc. split_and!; try done.
  - intros v. rewrite E2, E1. repeat case_decide; try done; try lia.
    by destruct (Hbc v); [|lia|].
  - by rewrite F2, F1.
  - eapply eq_off_trans; [..|exact M1|exact M2]; [done|]. intros p. unfold own. rewrite !elem_of_cons, !elem_of_app, !elem_of_frames.
    intros [|[|(v & e & Hv & ->)]]; [by left|by right; left|]. right. right. exists v, e. split; [|done].
    rewrite E1 in Hv. by case_decide.
  - by eapply same_rest_trans.
Qed.

Lemma kwp_dealloc_loop fuel : ∀ Q k L dir T U X a b,
  pool k L (own dir T U ++ X) → pt_rep (mem k) (image k) dir T → urep (mem k) T U →
  a mod 4096 = 0 → 0 ≤ a → b ≤ KERNBASE → b ≤ a + 4096 * Z.of_nat fuel →
  (∀ k' L' U', freed dir T U X a b k L k' L' U' → Q tt k') →
  kwp (deallocuvm_loop fuel dir a b) Q Y k.
Proof using Type*.
  induction fuel as [|fuel IH]; intros Q k L dir T U X a b P R RU Hm Ha Hb Hf HS; cbn [deallocuvm_loop].
  { kstep. eapply HS, freed_nil; try done. lia. }
  destruct (Z.ltb_spec a b) as [Hlt|Hge].
  2:{ kstep. eapply HS, freed_nil; try done. lia. }
  assert (∃ v, a = 4096 * v) as [v ->] by (exists (a / 4096); pose proof (Z.div_mod a 4096); lia).
  assert (0 ≤ v < 524288) as Hv by (unfold KERNBASE in *; lia).
  apply kwp_bind; [done|]. eapply kwp_walk; [done|exact P|exact R|unfold KERNBASE in *; lia|].
  destruct (page_index v) as [E1 E2]. rewrite E1, E2.
  destruct (T !! (v / 1024)) as [t|] eqn:ET.
  - rewrite (proj2 (Z.eqb_neq _ _)) by by eapply entry_pos.
    unfold rd32. kstep. kstep. replace (ld32 (mem k) (t + 4 * (v mod 1024))) with (pte (mem k) T v) by (unfold pte; by rewrite ET).
    fold (present (pte (mem k) T v)).
    rewrite (u32_small (4096 * v + PGSIZE)) by (unfold PGSIZE, KERNBASE in *; lia).
    replace (4096 * v + PGSIZE) with (4096 * (v + 1)) by (unfold PGSIZE; lia).
    destruct (U !! v) as [e|] eqn:EU.
    + destruct (proj1 RU _ _ EU) as (_ & Ee & He). rewrite Ee, He. apply kwp_bind; [done|].
      assert (page_ok (image k) (frame e)) as Hp.
      { apply (pool_page _ _ _ _ P), elem_of_app. left. apply elem_of_app. left. right. apply elem_of_app. right.
        apply elem_of_frames. eauto. }
      rewrite (proj2 (Z.eqb_neq (PTE_ADDR e) 0)).
      2:{ intros E0. destruct (pool_img _ _ _ P) as (_ & ? & ? & _). destruct Hp as (_ & Hp & _).
          assert (frame e = KERNBASE) as Ef by (unfold frame; by rewrite E0). rewrite Ef in Hp.
          unfold KERNLINK, EXTMEM, KERNBASE in *. lia. }
      kstep. kstep. change (P2V (PTE_ADDR e)) with (frame e). eapply kwp_unmap; [exact P|done|done|done|done|].
      intros k1 P1 R1 RU1 M1 S1. eapply IH; [exact P1|done|done| |lia|done|lia|].
      { rewrite Z.mul_comm. apply Z.mod_mul. lia. }
      intros k' L' U' F. eapply HS, (freed_trans _ _ _ _ _ (4096 * (v + 1))); [lia|..|exact F|]; try done.
      * intros w. case_decide; [|by rewrite lookup_delete_ne by lia]. replace w with v by lia. apply lookup_delete_eq.
      * rewrite (frames_delete U v e EU). solve_Permutation.
      * intros w Hw. left. lia.
    + rewrite (proj2 RU v Hv EU). kstep. kstep. eapply IH; [done|done|done| |lia|done|lia|].
      { rewrite Z.mul_comm. apply Z.mod_mul. lia. }
      intros k' L' U' F. eapply HS, (freed_trans _ _ _ _ _ (4096 * (v + 1))); [lia|..|exact F|]; try done.
      * intros w. case_decide; [|done]. replace w with v by lia. done.
      * intros w Hw. left. lia.
  - simpl. rewrite next_table by (unfold KERNBASE in *; lia).
    rewrite E1. assert (∀ w, 4096 * v ≤ 4096 * w < 4194304 * (v / 1024 + 1) → U !! w = None) as HN.
    { intros w Hw. eapply urep_table; [exact RU|]. rewrite <- ET. f_equal.
      pose proof (Z.div_mod v 1024). pose proof (Z.mod_pos_bound v 1024).
      symmetry. apply (Z.div_unique w 1024 _ (w - 1024 * (v / 1024))); lia. }
    pose proof (Z.div_mod v 1024). pose proof (Z.mod_pos_bound v 1024).
    eapply IH; [done|done|done| |lia|done|lia|].
    { replace (4194304 * (v / 1024 + 1)) with ((1024 * (v / 1024 + 1)) * 4096) by lia. apply Z.mod_mul. lia. }
    intros k' L' U' F. eapply HS, (freed_trans _ _ _ _ _ (4194304 * (v / 1024 + 1))); [lia|..|exact F|]; try done.
    + intros w. case_decide; [|done]. by apply HN.
    + intros w Hw. right. by apply HN.
Qed.
End dealloc.

(** ** freevm *)

Section freevm.
Context (Y : protocol kernel) `{!Mono Y}.

Lemma kwp_freevm_loop n : ∀ Q k L dir T X i,
  pool k L (dir :: vals T ++ X) → i + Z.of_nat n = 1024 → 0 ≤ i →
  (∀ j t, T !! j = Some t → i ≤ j < 1024 ∧ ld32 (mem k) (dir + 4 * j) = mkpte (V2P t) 6) →
  (∀ j, i ≤ j < 1024 → T !! j = None → present (ld32 (mem k) (dir + 4 * j)) = false) →
  (∀ k' L', pool k' L' (dir :: X) → L' ≡ₚ vals T ++ L → eq_off (vals T) (mem k) (mem k') → same_rest k k' → Q tt k') →
  kwp (freevm_loop n i dir) Q Y k.
Proof using Type*.
  induction n as [|n IH]; intros Q k L dir T X i P Hi Hi0 HT HN HS; cbn [freevm_loop].
  { assert (T = ∅) as ->.
    { apply map_empty. intros j. destruct (T !! j) as [t|] eqn:E; [|done]. destruct (HT _ _ E). lia. }
    kstep. by apply (HS k L). }
  unfold rd32. kstep. kstep. fold (present (ld32 (mem k) (dir + 4 * i))). destruct (T !! i) as [t|] eqn:ET.
  - destruct (HT _ _ ET) as [_ ->]. assert (page_ok (image k) t) as Hp.
    { apply (pool_page _ _ _ _ P). rewrite elem_of_app, elem_of_cons, elem_of_app, elem_of_vals. eauto. }
    destruct (page_phys _ _ (pool_img _ _ _ P) Hp) as (? & ? & _).
    rewrite mkpte_present by (done || lia). change (P2V (PTE_ADDR ?e)) with (frame e).
    rewrite (frame_mkpte (image k)) by (done || lia || apply P). apply kwp_bind; [done|].
    eapply pool_perm in P as P1; [|rewrite (vals_delete T i t ET), <- app_comm_cons; apply Permutation_swap].
    eapply kwp_kfree_pool; [done|exact P1|]. intros k1 P2 E1 S1.
    assert (eq_page dir (mem k) (mem k1)) as Hd.
    { eapply (eq_off_page (image k)); [..|exact E1]; [by constructor|apply (pool_page _ _ _ _ P); set_solver|].
      rewrite list_elem_of_singleton. eapply pool_disjoint; [exact P1|]. by left. }
    eapply IH; [exact P2|lia|lia|..].
    + intros j t'. rewrite lookup_delete_Some. intros [Hne Hj]. destruct (HT _ _ Hj) as [? <-]. split; [lia|].
      eapply ld32_page; [exact Hd|lia|lia].
    + intros j Hj Hn. erewrite (ld32_page dir (mem k) (mem k1)); [|done|lia|lia]. apply HN; [lia|].
      apply lookup_delete_None in Hn as [|]; [lia|done].
    + intros k' L' P' HL M' S'. apply (HS k' L'); [done|..].
      * rewrite HL, (vals_delete T i t ET). solve_Permutation.
      * eapply eq_off_trans; [..|exact E1|exact M']; intros p; [|].
        -- intros ->%list_elem_of_singleton. apply elem_of_vals. eauto.
        -- rewrite !elem_of_vals. intros [j [_ Hj]%lookup_delete_Some]. eauto.
      * by eapply same_rest_trans.
  - rewrite HN by (done || lia). kstep. kstep. eapply IH; [exact P|lia|lia|..|exact HS].
    + intros j t Hj. destruct (HT _ _ Hj) as [? ?]. split; [|done]. destruct (decide (j = i)); [congruence|lia].
    + intros j Hj. apply HN. lia.
Qed.

Lemma kwp_deallocuvm Q k L dir T U X a b :
  pool k L (own dir T U ++ X) → pt_rep (mem k) (image k) dir T → urep (mem k) T U →
  a mod 4096 = 0 → 0 ≤ a < b → b ≤ KERNBASE →
  (∀ k' L' U', freed dir T U X a b k L k' L' U' → Q a k') → kwp (deallocuvm dir b a) Q Y k.
Proof using Type*.
  intros P R RU Hm Ha Hb HS. unfold deallocuvm. rewrite (proj2 (Z.leb_gt _ _)) by lia.
  rewrite PGROUNDUP_spec by (unfold KERNBASE in *; lia).
  replace ((a + 4095) mod 4096) with 4095 by (symmetry; by apply mod_page).
  replace (a + 4095 - 4095) with a by lia. apply kwp_bind; [done|].
  eapply kwp_dealloc_loop; [done|exact P|done|done|done|lia|done| |].
  - unfold PGSIZE. pose proof (Z.div_mod (b - a) 4096). pose proof (Z.mod_pos_bound (b - a) 4096).
    pose proof (Z.div_pos (b - a) 4096). lia.
  - intros k' L' U' F. kstep. eauto.
Qed.

(** [freevm] gives all pages of an address space back, and changes no other page. *)
Lemma kwp_freevm Q k L dir T U X :
  pool k L (own dir T U ++ X) → pt_rep (mem k) (image k) dir T → urep (mem k) T U →
  (∀ k' L', pool k' L' X → L' ≡ₚ own dir T U ++ L → eq_off (own dir T U) (mem k) (mem k') → same_rest k k' → Q tt k') →
  kwp (freevm dir) Q Y k.
Proof using Type*.
  intros P R RU HS. unfold freevm. pose proof (page_nonzero _ _ (proj1 R)). rewrite (proj2 (Z.eqb_neq _ _)) by done.
  kstep. kstep. apply kwp_bind; [done|]. eapply kwp_deallocuvm; [exact P|done|done|done|unfold KERNBASE; lia|done|].
  intros k1 L1 U1 (P1 & R1 & RU1 & EU & HL & M1 & S1). assert (U1 = ∅) as ->.
  { apply map_empty. intros v. rewrite EU. case_decide as Hv; [done|]. destruct (U !! v) as [e|] eqn:E; [|done].
    destruct (proj1 RU _ _ E) as (? & _). unfold KERNBASE in Hv. lia. }
  apply kwp_bind; [done|]. destruct R1 as (Hd & HT & HN). eapply kwp_freevm_loop with (T := T) (X := X); [..|].
  { eapply pool_perm; [|exact P1]. unfold own. rewrite frames_empty. solve_Permutation. }
  { done. }
  { done. }
  { intros j t Hj. destruct (HT _ _ Hj) as (? & _ & ?). done. }
  { intros j Hj. by apply HN. }
  intros k2 L2 P2 HL2 M2 S2. eapply kwp_kfree_pool; [done|exact P2|]. intros k3 P3 M3 S3. apply (HS k3 (dir :: L2)).
  - done.
  - rewrite frames_empty in HL. simpl in HL. rewrite HL2, HL.
    unfold own. solve_Permutation.
  - assert (eq_off (own dir T U) (mem k1) (mem k3)) as M13.
    { eapply eq_off_trans; [..|exact M2|exact M3]; intros p; unfold own.
      - rewrite elem_of_cons, elem_of_app. auto.
      - intros ->%list_elem_of_singleton. by left. }
    by eapply eq_off_trans; [..|exact M1|exact M13].
  - eauto using same_rest_trans.
Qed.
End freevm.

(** ** setupkvm *)

(** The entry by which [kmap] maps page [w]. *)
Fixpoint kpte (ks : list (Z * Z * Z * Z)) (w : Z) : option Z :=
  match ks with
  | [] => None
  | (virt, phys_start, phys_end, perm) :: ks' =>
      if decide (virt ≤ 4096 * w < virt + u32 (phys_end - phys_start))
      then Some (mkpte (phys_start + (4096 * w - virt)) perm) else kpte ks' w
  end.

(** The regions of [kmap] are made of pages, not empty, ascending from [lo], and
    stay within the addresses. *)
Fixpoint kmap_wf (lo : Z) (ks : list (Z * Z * Z * Z)) : Prop :=
  match ks with
  | [] => True
  | (virt, phys_start, phys_end, perm) :: ks' =>
      let size := u32 (phys_end - phys_start) in
      virt mod 4096 = 0 ∧ size mod 4096 = 0 ∧ 0 < size ∧ lo ≤ virt ∧ virt + size ≤ 4294967296 ∧
      phys_start mod 4096 = 0 ∧ 0 ≤ phys_start ∧ phys_start + size ≤ 4294967296 ∧ 0 ≤ perm < 4096 ∧
      kmap_wf (virt + size) ks'
  end.

Lemma kmap_ok img : image_ok img → kmap_wf KERNBASE (kmap img).
Proof.
  intros (Hm & Hl & He & Hp). apply Z.mod_divide in Hm as [q Hq]; [|lia].
  unfold KERNLINK, EXTMEM, KERNBASE, PHYSTOP in *.
  assert (V2P (l_data img) = l_data img - 0x80000000) as EV by (unfold V2P, KERNBASE; apply u32_small; lia).
  cbn [kmap_wf kmap]. rewrite EV. unfold KERNLINK, EXTMEM, KERNBASE, PHYSTOP, DEVSPACE, PTE_W in *.
  change (V2P (0x80000000 + 0x100000)) with 0x100000. rewrite Hq in *.
  rewrite (u32_small (q * 4096 - 0x80000000 - 0x100000)), (u32_small (0xE000000 - (q * 4096 - 0x80000000))) by lia.
  change (u32 (0x100000 - 0)) with 0x100000. change (u32 (0 - 0xFE000000)) with 0x2000000.
  assert (∀ x y, x = y * 4096 → x mod 4096 = 0) as HM by (intros x y ->; apply Z.mod_mul; lia).
  split_and!; try done; try lia.
  - apply (HM _ (q - 0x80100)). lia.
  - apply (HM _ q). lia.
  - apply (HM _ (0x8E000 - q)). lia.
  - apply (HM _ (q - 0x80000)). lia.
Qed.

Lemma kpte_lo ks : ∀ lo w, kmap_wf lo ks → 4096 * w < lo → kpte ks w = None.
Proof.
  induction ks as [|[[[virt ps] pe] perm] ks IH]; intros lo w; [done|]. cbn.
  intros (_ & _ & Hs & Hv & _ & _ & _ & _ & _ & HK) Hw. rewrite decide_False by lia. apply (IH _ w HK). lia.
Qed.

(** A directory has at most 1024 tables, and at most 512 for the kernel's half. *)
Lemma pt_rep_size_from m img dir T i : pt_rep m img dir T → 0 ≤ i ≤ 1024 → (∀ j, is_Some (T !! j) → i ≤ j) → Z.of_nat (length (vals T)) ≤ 1024 - i.
Proof.
  intros (_ & HT & _) Hi Hof. unfold vals. rewrite length_fmap, <- (length_fmap fst).
  replace (1024 - i) with (Z.of_nat (length (seqZ i (1024 - i)))) by (rewrite length_seqZ; lia).
  apply Nat2Z.inj_le, submseteq_length, NoDup_submseteq; [apply NoDup_fst_map_to_list|].
  intros j ([j' t] & -> & Hj)%list_elem_of_fmap. apply elem_of_map_to_list in Hj. destruct (HT _ _ Hj) as (? & _).
  pose proof (Hof j' ltac:(eauto)). apply elem_of_seqZ. simpl. lia.
Qed.
Lemma pt_rep_size m img dir T : pt_rep m img dir T → (length (vals T) ≤ 1024)%nat.
Proof.
  intros R. pose proof (pt_rep_size_from _ _ _ _ 0 R ltac:(lia)) as H. enough (Z.of_nat (length (vals T)) ≤ 1024 - 0) by lia. apply H.
  intros j [t Hj]. destruct (proj1 (proj2 R) _ _ Hj) as (? & _). lia.
Qed.
Lemma pt_rep_kernel_size m img dir T : pt_rep m img dir T → only_from 512 ∅ T → (length (vals T) ≤ 512)%nat.
Proof.
  intros R Hof. pose proof (pt_rep_size_from _ _ _ _ 512 R ltac:(lia)) as H. enough (Z.of_nat (length (vals T)) ≤ 1024 - 512) by lia. apply H.
  intros j Hj. by destruct (Hof j Hj) as [[? []%lookup_empty_Some]|].
Qed.

Section setupkvm.
Context (Y : protocol kernel) `{!Mono Y}.

Lemma kwp_setupkvm_loop ks : ∀ Q k L X dir T lo,
  pool k L (own dir T ∅ ++ X) → pt_rep (mem k) (image k) dir T → urep (mem k) T ∅ → only_from 512 ∅ T →
  kmap_wf lo ks → KERNBASE ≤ lo → (∀ w, lo ≤ 4096 * w < 4294967296 → present (pte (mem k) T w) = false) →
  (∀ k' L', pool k' L' X → L' ≡ₚ own dir T ∅ ++ L → (length (vals T) + length L ≤ 512)%nat →
     eq_off (own dir T ∅ ++ L) (mem k) (mem k') → same_rest k k' → Q 0 k') →
  (∀ new k' L' T', grew dir new k L (own dir T ∅ ++ X) T k' L' T' →
     (∀ w, 0 ≤ w → pte (mem k') T' w = default (pte (mem k) T w) (kpte ks w)) → Q dir k') →
  kwp (setupkvm_loop ks dir) Q Y k.
Proof using Type*.
  induction ks as [|[[[virt ps] pe] perm] ks IH]; intros Q k L X dir T lo P R RU Hof HK Hlo HN HF HS; cbn [setupkvm_loop].
  { kstep. by apply (HS [] k L T). }
  destruct HK as (Hvm & Hsm & Hs & Hv & Hvs & Hpm & Hp & Hps & Hpe & HK). set (size := u32 (pe - ps)) in *.
  assert (∃ v, virt = 4096 * v) as [v ->] by (exists (virt / 4096); pose proof (Z.div_mod virt 4096); lia).
  assert (∃ n, size = 4096 * n) as [n En] by (exists (size / 4096); pose proof (Z.div_mod size 4096); lia).
  rewrite En in *. unfold KERNBASE in *. apply kwp_bind; [done|].
  eapply kwp_mappages; [done|exact P|done|apply tables_in_own|lia|lia|lia|lia|lia|done|done| |].
  { intros w Hw. apply HN. lia. }
  intros r new k1 L1 T1 j G Hof' Hpt Hr. pose proof G as (P1 & R1 & EL & EV & M1 & S1).
  assert (only_from 512 ∅ T1) as Hof1.
  { intros i Hi. destruct (Hof' i Hi) as [Hi'|Hi']; [by apply Hof|right]. pose proof (Z.div_le_mono 524288 v 1024 ltac:(lia) ltac:(lia)) as Hd. change (524288 / 1024) with 512 in Hd. lia. }
  assert (urep (mem k1) T1 ∅) as RU1.
  { apply urep_empty. intros w Hw. rewrite Hpt by lia. rewrite decide_False by lia. apply RU; [lia|done]. }
  assert (new ++ own dir T ∅ ++ X ≡ₚ own dir T1 ∅ ++ X) as EO.
  { unfold own. rewrite EV, frames_empty. solve_Permutation. }
  pose proof (pool_perm _ _ _ _ EO P1) as P1'.
  assert (own dir T1 ∅ ++ L1 ≡ₚ own dir T ∅ ++ L) as EOL.
  { unfold own. rewrite EL, EV, frames_empty. solve_Permutation. }
  assert (eq_off (own dir T ∅ ++ L) (mem k) (mem k1)) as M1'.
  { eapply eq_off_mono; [|exact M1]. intros p Hin. rewrite <- EOL. unfold own. rewrite app_comm_cons, !elem_of_app. by left; left. }
  assert (length (vals T1) + length L1 = length (vals T) + length L)%nat as ELen.
  { rewrite EL, length_app, EV, length_app. lia. }
  assert (∀ k' L', pool k' L' X → L' ≡ₚ own dir T1 ∅ ++ L1 → (length (vals T1) + length L1 ≤ 512)%nat →
     eq_off (own dir T1 ∅ ++ L1) (mem k1) (mem k') → same_rest k1 k' → Q 0 k') as HF'.
  { intros k' L' P' HL' HL1 M' S'. apply (HF k' L'); [done|by rewrite HL'|lia|..|by eapply same_rest_trans].
    eapply eq_off_trans; [done| |exact M1'|exact M']. intros p. by rewrite EOL. }
  destruct Hr as [[-> ->]|(-> & Hj & ->)]; simpl.
  - eapply (IH _ _ _ X _ _ (4096 * v + 4096 * n)); [exact P1'|done|done|done|done|lia| |exact HF'|].
    + intros w Hw. rewrite Hpt by lia. rewrite decide_False by lia. apply HN. lia.
    + intros new' k' L' T' G' Hpt'. eapply HS.
      * eapply grew_trans; [exact G|]. eapply grew_perm; [|exact G']. by rewrite EO.
      * intros w Hw. rewrite Hpt', Hpt by done. cbn [kpte]. fold size. rewrite En. repeat case_decide; try lia; try done.
        rewrite (kpte_lo _ _ _ HK) by lia. simpl. f_equal. lia.
  - apply kwp_bind; [done|]. eapply kwp_freevm; [done|exact P1'|done|done|]. intros k' L' P' HL' M' S'. kstep.
    apply (HF' k' L'); [done|by rewrite HL'|..|done].
    + simpl. rewrite Nat.add_0_r. by eapply pt_rep_kernel_size.
    + eapply eq_off_mono; [|exact M']. intros p. rewrite elem_of_app. by left.
Qed.

(** [setupkvm] makes an address space with the kernel's mappings and no user page,
    or answers 0 and takes no page. *)
Lemma kwp_setupkvm Q k L X :
  pool k L X →
  (∀ k' L', pool k' L' X → L' ≡ₚ L → (length L ≤ 513)%nat → eq_off L (mem k) (mem k') → same_rest k k' → Q 0 k') →
  (∀ dir T k' L', pool k' L' (own dir T ∅ ++ X) → pt_rep (mem k') (image k') dir T → urep (mem k') T ∅ →
     own dir T ∅ ++ L' ≡ₚ L → (∀ w, 0 ≤ w → pte (mem k') T w = default 0 (kpte (kmap (image k)) w)) →
     eq_off L (mem k) (mem k') → same_rest k k' → Q dir k') →
  kwp setupkvm Q Y k.
Proof using Type*.
  intros P HF HS. unfold setupkvm. apply kwp_bind; [done|]. eapply kwp_kalloc_pool; [done|exact P|..].
  { intros ->. simpl. kstep. apply (HF k []); try done. simpl. lia. }
  intros dir L0 k0 -> P0 E0 S0. assert (page_ok (image k0) dir) as Hd by (apply (pool_page _ _ _ _ P0); set_solver).
  pose proof (page_nonzero _ _ Hd). rewrite (proj2 (Z.eqb_neq _ _)) by done. unfold kmemset. kstep. kstep.
  change (DEVSPACE <? P2V PHYSTOP) with false. cbv iota. kstep. kstep. kstep. kstep.
  set (k1 := k0 <| mem ::= λ m, memset m dir 0 PGSIZE |>).
  assert (eq_off [dir] (mem k0) (mem k1)) as M1.
  { intros a Ha. specialize (Ha dir ltac:(set_solver)). simpl. rewrite memset_spec by done. unfold PGSIZE. by rewrite decide_False. }
  assert (∀ l, own dir ∅ ∅ ++ l = dir :: l) as EO by (intros l; unfold own; rewrite frames_empty; unfold vals; by rewrite map_to_list_empty).
  assert (pool k1 L0 (own dir ∅ ∅ ++ X)) as P1.
  { rewrite EO. apply pool_write; [done| |apply bytes_ok_memset; [done|apply P0]].
    eapply eq_off_mono; [|exact M1]. intros p ->%list_elem_of_singleton. by left. }
  assert (eq_off (dir :: L0) (mem k) (mem k1)) as M1'.
  { rewrite <- E0. eapply eq_off_mono; [|exact M1]. intros p ->%list_elem_of_singleton. by left. }
  assert (same_rest k k1) as S1 by (eapply same_rest_trans; [exact S0|apply same_rest_mem]).
  assert (pt_rep (mem k1) (image k1) dir ∅) as R1.
  { split_and!; [done|by intros ? ? ?%lookup_empty_Some|]. intros i Hi _. simpl.
    rewrite ld32_memset_in by (unfold PGSIZE; lia). done. }
  assert (kmap_wf KERNBASE (kmap (image k0))) as HK by (apply kmap_ok, P0).
  eapply (kwp_setupkvm_loop _ _ _ _ X dir ∅ KERNBASE); [exact P1|done|by apply urep_empty|apply only_from_refl|done|done|done|..].
  - intros k' L' P' HL HLen M' S'. rewrite EO in HL, M'. apply (HF k' L'); [done|done|simpl in *; lia| |by eapply same_rest_trans].
    by eapply eq_off_trans; [..|exact M1'|exact M'].
  - intros new k' L' T' (P' & R' & EL & EV & M' & S') Hpt. unfold vals in EV at 2. rewrite map_to_list_empty, app_nil_r in EV.
    rewrite EO in P'. rewrite (same_rest_image _ _ S0) in Hpt, HK.
    assert (dir :: vals T' ++ L' ≡ₚ dir :: L0) as EP by by rewrite EV, EL.
    apply (HS dir T' k' L'); [|done|..].
    + eapply pool_perm; [|exact P']. unfold own. rewrite frames_empty, EV. solve_Permutation.
    + apply urep_empty. intros w Hw. rewrite Hpt by lia. rewrite (kpte_lo _ _ _ HK); [done|unfold KERNBASE; lia].
    + unfold own. by rewrite frames_empty, app_nil_r.
    + done.
    + eapply eq_off_trans; [done| |exact M1'|exact M']. intros p. rewrite <- EP, !elem_of_cons, elem_of_app. naive_solver.
    + by eapply same_rest_trans.
Qed.
End setupkvm.
