(* ===== verification/VmCopy.v ===== *)
(** * Copies of user memory

    [copyuvm], with which [fork] gives the child a copy of the parent's memory,
    and [copyout], with which the kernel writes to a user address: what they do
    as a program sees it through its page table. *)
From stdpp Require Import base strings numbers gmap list list_tactics.
From S2P Require Import Prelude Machine KString Kernel Locks Kalloc Proc Console Vm VmSpec.

(** Pages below [j] are mapped in [U] with the flags they have in [U0], to frames
    with the same bytes; no other page is mapped. *)
Definition copied (m : memory) (U U0 : gmap Z Z) (j : Z) : Prop :=
  (∀ v, 0 ≤ v < j → ∃ e e0, U !! v = Some e ∧ U0 !! v = Some e0 ∧ PTE_FLAGS e = PTE_FLAGS e0 ∧
     ∀ b, 0 ≤ b < 4096 → ld8 m (frame e + b) = ld8 m (frame e0 + b)) ∧
  (∀ v, ¬ 0 ≤ v < j → U !! v = None).

Lemma present_flags e : 0 ≤ e < 4294967296 → present e = true → Z.lor (PTE_FLAGS e) PTE_P = PTE_FLAGS e.
Proof.
  intros He Hp. unfold PTE_FLAGS, PTE_P. rewrite u32_small by done. apply Z.bits_inj'. intros n Hn.
  rewrite Z.lor_spec. destruct (Z.testbit 1 n) eqn:E; [|apply orb_false_r]. rewrite orb_true_r.
  destruct (decide (n = 0)) as [->|Hne].
  - rewrite Z.land_spec. rewrite present_mod in Hp. rewrite Z.bit0_odd. simpl. rewrite andb_true_r. symmetry.
    rewrite Zmod_odd in Hp. by destruct (Z.odd e).
  - exfalso. change 1 with (2 ^ 0) in E. rewrite Z.pow2_bits_false in E by lia. done.
Qed.

Lemma flags_range e : 0 ≤ PTE_FLAGS e < 4096.
Proof. unfold PTE_FLAGS. change 0xFFF with (Z.ones 12). rewrite Z.land_ones by lia. apply Z.mod_pos_bound. done. Qed.

Lemma pte_range m T v : 0 ≤ pte m T v < 4294967296.
Proof. unfold pte. destruct (T !! _); [apply ld32_range|lia]. Qed.

(** The bytes of [x] after [kmemmove] of a page into it. *)
Lemma copy_page img m x f : bytes_ok m → page_ok img x → page_ok img f →
  (∀ b, 0 ≤ b < 4096 → ld8 (memmove m x f PGSIZE) (x + b) = ld8 m (f + b)) ∧ eq_off [x] m (memmove m x f PGSIZE).
Proof.
  intros B [Hx _] [Hf _]. unfold PGSIZE. split.
  - intros b Hb. rewrite memmove_spec by done. rewrite decide_True by lia. f_equal. lia.
  - intros a Ha. specialize (Ha x ltac:(set_solver)). rewrite memmove_spec by done. by rewrite decide_False.
Qed.

Lemma copied_same m m' U U0 j : (∀ p, p ∈ frames U ++ frames U0 → eq_page p m m') → copied m U U0 j → copied m' U U0 j.
Proof.
  intros HE [H1 H2]. split; [|done]. intros v Hv. destruct (H1 v Hv) as (e & e0 & A & B & C & D). exists e, e0.
  split_and!; [done..|]. intros b Hb. rewrite (HE (frame e)), (HE (frame e0)); [by apply D|..]; try lia.
  all: apply elem_of_app; rewrite !elem_of_frames; eauto 10.
Qed.

Lemma urep_ext m m' T T' U : (∀ w, 0 ≤ w → pte m' T' w = pte m T w) → urep m T U → urep m' T' U.
Proof.
  intros HE [H1 H2]. split.
  - intros v e Hv. destruct (H1 v e Hv) as (? & <- & ?). by rewrite HE by lia.
  - intros v Hv Hn. rewrite HE by lia. by apply H2.
Qed.

Lemma copied_step m m' U U0 v x e0 : copied m U U0 v → 0 ≤ v → U0 !! v = Some e0 →
  PTE_FLAGS x = PTE_FLAGS e0 → (∀ b, 0 ≤ b < 4096 → ld8 m' (frame x + b) = ld8 m' (frame e0 + b)) →
  (∀ p, p ∈ frames U ++ frames U0 → eq_page p m m') →
  copied m' (<[v := x]> U) U0 (v + 1).
Proof.
  intros [H1 H2] Hv HU Hf Hb HE. split.
  - intros w Hw. destruct (decide (w = v)) as [->|Hne].
    + exists x, e0. by rewrite lookup_insert_eq.
    + destruct (H1 w) as (e & e1 & A & B & C & D); [lia|]. exists e, e1. rewrite lookup_insert_ne by done.
      split_and!; [done..|]. intros b Hbb. rewrite (HE (frame e)), (HE (frame e1)); [by apply D|..]; try lia.
      all: apply elem_of_app; rewrite !elem_of_frames; eauto 10.
  - intros w Hw. rewrite lookup_insert_ne by lia. apply H2. lia.
Qed.

(** Membership in lists of pages. *)
Ltac in_pages := unfold own in *; repeat first [rewrite elem_of_app | rewrite elem_of_cons]; rewrite ?elem_of_nil; tauto.

(** Changes inside some pages in use leave the others alone. *)
Lemma pool_eq_page k L N R m m' p : pool k L (N ++ R) → eq_off N m m' → p ∈ R → eq_page p m m'.
Proof.
  intros P E Hp. eapply (eq_off_page (image k)); [..|exact E].
  - pose proof (pool_own _ _ _ P) as F. by apply Forall_app in F as [F _].
  - apply (pool_page _ _ _ _ P). rewrite !elem_of_app. auto.
  - destruct P as [_ _ _ _ _ D]. rewrite <- app_assoc in D. apply NoDup_app in D as (_ & D & _).
    intros Hp'. apply (D p Hp'). rewrite !elem_of_app. auto.
Qed.

(** Changes inside free pages leave the pages in use alone. *)
Lemma pool_eq_free k L O m m' p : pool k L O → eq_off L m m' → p ∈ O → eq_page p m m'.
Proof.
  intros P E Hp. eapply (eq_off_page (image k)); [..|exact E].
  - by destruct (pool_rep _ _ _ P) as (_ & _ & F).
  - apply (pool_page _ _ _ _ P). rewrite !elem_of_app. auto.
  - destruct P as [_ _ _ _ _ D]. apply NoDup_app in D as (_ & D & _). by apply D.
Qed.

(** ** copyuvm *)

Section copyuvm.
Context (Y : protocol kernel) `{!Mono Y}.
Context (dir0 : Z) (T0 U0 : gmap Z Z) (X : list Z).

(** The address space [dir0] beside another one, [dir]. *)
Definition two_spaces (k : kernel) (L : list Z) (dir : Z) (T U : gmap Z Z) : Prop :=
  pool k L (own dir T U ++ own dir0 T0 U0 ++ X) ∧
  pt_rep (mem k) (image k) dir T ∧ urep (mem k) T U ∧ pt_rep (mem k) (image k) dir0 T0 ∧ urep (mem k) T0 U0.

Lemma parent_rep m m' img : (∀ p, p ∈ own dir0 T0 U0 → eq_page p m m') →
  pt_rep m img dir0 T0 → urep m T0 U0 → pt_rep m' img dir0 T0 ∧ urep m' T0 U0.
Proof.
  intros H R RU. split; [eapply pt_rep_same; [|exact R]|eapply urep_same; [|exact RU]]; [apply H; by left|].
  intros t Ht. apply H. right. apply elem_of_app. by left.
Qed.

(** A copy that has been given up: all its pages are free again. *)
Lemma kwp_copy_bad Q k L dir T U : two_spaces k L dir T U →
  (∀ k' L', pool k' L' (own dir0 T0 U0 ++ X) → pt_rep (mem k') (image k') dir0 T0 → urep (mem k') T0 U0 →
     L' ≡ₚ own dir T U ++ L → eq_off (own dir T U) (mem k) (mem k') → same_rest k k' → Q 0 k') →
  kwp (freevm dir;; mret 0) Q Y k.
Proof using Type*.
  intros (P & R & RU & R0 & RU0) HS. apply kwp_bind; [done|]. eapply kwp_freevm; [done|exact P|done|done|].
  intros k' L' P' HL M S. kstep. destruct (parent_rep (mem k) (mem k') (image k)) as [R0' RU0']; [|done|done|].
  { intros p Hp. eapply pool_eq_page; [exact P|exact M|]. apply elem_of_app. by left. }
  apply (HS k' L'); try done. by rewrite (same_rest_image _ _ S).
Qed.

(** The representations survive changes outside the directory and its tables. *)
Lemma space_same m m' img dir T U : (∀ p, p ∈ dir :: vals T → eq_page p m m') →
  pt_rep m img dir T → urep m T U → pt_rep m' img dir T ∧ urep m' T U.
Proof.
  intros H R RU. split; [eapply pt_rep_same; [|exact R]|eapply urep_same; [|exact RU]]; [apply H; by left|].
  intros t Ht. apply H. by right.
Qed.

(** The page [x] gets the bytes of a page of the parent. *)
Lemma copy_moved k L dir T U v e0 x : pool k L (x :: own dir T U ++ own dir0 T0 U0 ++ X) →
  pt_rep (mem k) (image k) dir T → urep (mem k) T U → U0 !! v = Some e0 →
  let k1 := k <| mem ::= λ m, memmove m x (frame e0) PGSIZE |> in
  pool k1 L (x :: own dir T U ++ own dir0 T0 U0 ++ X) ∧ pt_rep (mem k1) (image k1) dir T ∧ urep (mem k1) T U ∧
  (∀ p, p ∈ own dir T U ++ own dir0 T0 U0 ++ X → eq_page p (mem k) (mem k1)) ∧
  (∀ b, 0 ≤ b < 4096 → ld8 (mem k1) (x + b) = ld8 (mem k) (frame e0 + b)) ∧ eq_off [x] (mem k) (mem k1).
Proof.
  intros P R RU HU k1. assert (frame e0 ∈ frames U0) by (apply elem_of_frames; eauto).
  destruct (copy_page (image k) (mem k) x (frame e0)) as [HB M1]; [apply P|apply (pool_page _ _ _ _ P); in_pages..|].
  assert (∀ p, p ∈ own dir T U ++ own dir0 T0 U0 ++ X → eq_page p (mem k) (mem k1)) as HE1.
  { intros p Hp. exact (pool_eq_page k L [x] _ _ _ p P M1 Hp). }
  destruct (space_same (mem k) (mem k1) (image k) dir T U) as [R1 RU1]; [|done|done|].
  { intros p Hp. apply HE1. revert Hp. in_pages. }
  split_and!; try done. apply pool_write; [done| |apply bytes_ok_memmove; [done|apply P]].
  eapply eq_off_mono; [|exact M1]. intros p. in_pages.
Qed.

(** The page [x], a copy of page [v] of the parent, has been mapped. *)
Lemma copy_mapped L dir T U v e0 x k1 k2 L2 T2 :
  pool k2 L2 (x :: own dir T2 U ++ own dir0 T0 U0 ++ X) → pt_rep (mem k2) (image k2) dir T2 →
  urep (mem k1) T U → pt_rep (mem k2) (image k2) dir0 T0 → urep (mem k2) T0 U0 →
  copied (mem k1) U U0 v → U0 !! v = Some e0 → 0 ≤ e0 < 4294967296 → present e0 = true → 0 ≤ v < 524288 →
  (∀ b, 0 ≤ b < 4096 → ld8 (mem k1) (x + b) = ld8 (mem k1) (frame e0 + b)) →
  (∀ w, 0 ≤ w → pte (mem k2) T2 w = if decide (w = v) then mkpte (V2P x) (PTE_FLAGS e0) else pte (mem k1) T w) →
  (∀ p, p ∈ frames U ++ own dir0 T0 U0 ++ x :: X → eq_page p (mem k1) (mem k2)) →
  own dir T2 U ++ x :: L2 ≡ₚ own dir T U ++ x :: L →
  let U' := <[v := mkpte (V2P x) (PTE_FLAGS e0)]> U in
  two_spaces k2 L2 dir T2 U' ∧ copied (mem k2) U' U0 (v + 1) ∧ own dir T2 U' ++ L2 ≡ₚ own dir T U ++ x :: L ∧
  length (frames U') = S (length (frames U)).
Proof.
  intros P2 R2 RU1 R0 RU0 HC HU He Hp Hv HB Hpt HE2 EO U'.
  assert (page_ok (image k2) x) as Hx by (apply (pool_page _ _ _ _ P2); in_pages).
  destruct (page_phys _ _ (pool_img _ _ _ P2) Hx) as (? & ? & _). pose proof (flags_range e0) as Hfl.
  assert (frame (mkpte (V2P x) (PTE_FLAGS e0)) = x) as Ef by (by apply (frame_mkpte (image k2)); [apply P2|..]).
  assert (frame e0 ∈ frames U0) by (apply elem_of_frames; eauto).
  assert (U !! v = None) as HN by (apply HC; lia).
  split_and!; [split_and!|..]; try done.
  - eapply pool_perm; [|exact P2]. unfold U'. by rewrite own_insert, Ef.
  - eapply urep_insert; [exact RU1|done| |exact Hpt]. apply mkpte_present; [lia|done|done].
  - eapply copied_step; [exact HC|lia|exact HU|..].
    + rewrite mkpte_flags by (done || lia). by apply present_flags.
    + intros b Hb. rewrite Ef. rewrite (HE2 x), (HE2 (frame e0)); [by apply HB|in_pages|lia|in_pages|lia].
    + intros p Hin. apply HE2. revert Hin. in_pages.
  - unfold U'. rewrite own_insert, Ef by done. rewrite <- EO. solve_Permutation.
  - unfold U'. by rewrite frames_insert by done.
Qed.

(** The page [x] could not be mapped and is free again. *)
Lemma copy_dropped dir T U x k L k' L' : pool k L (x :: own dir T U ++ own dir0 T0 U0 ++ X) →
  pool k' L' (own dir T U ++ own dir0 T0 U0 ++ X) → eq_off [x] (mem k) (mem k') → same_rest k k' →
  pt_rep (mem k) (image k) dir T → pt_rep (mem k) (image k) dir0 T0 → urep (mem k) T U → urep (mem k) T0 U0 →
  two_spaces k' L' dir T U.
Proof.
  intros P P' M S R R0 RU RU0.
  assert (∀ p, p ∈ own dir T U ++ own dir0 T0 U0 ++ X → eq_page p (mem k) (mem k')) as HE.
  { intros p Hp. exact (pool_eq_page k L [x] _ _ _ p P M Hp). }
  rewrite <- (same_rest_image _ _ S) in R, R0.
  destruct (space_same (mem k) (mem k') (image k') dir T U) as [R3 RU3]; [|done..|].
  { intros p Hp. apply HE. revert Hp. in_pages. }
  destruct (space_same (mem k) (mem k') (image k') dir0 T0 U0) as [R03 RU03]; [|done..|by split_and!].
  intros p Hp. apply HE. revert Hp. in_pages.
Qed.

(** Page [v] is copied into the page [x] and mapped. *)
Lemma kwp_copy_into (C : K Z) Q k L dir T U v e0 x :
  pool k L (x :: own dir T U ++ own dir0 T0 U0 ++ X) →
  pt_rep (mem k) (image k) dir T → urep (mem k) T U → pt_rep (mem k) (image k) dir0 T0 → urep (mem k) T0 U0 →
  copied (mem k) U U0 v → U0 !! v = Some e0 →
  (∀ k' L', pool k' L' (own dir0 T0 U0 ++ X) → pt_rep (mem k') (image k') dir0 T0 → urep (mem k') T0 U0 →
     L' ≡ₚ own dir T U ++ x :: L → (length (vals T) + length L ≤ 1024)%nat →
     eq_off (own dir T U ++ x :: L) (mem k) (mem k') → same_rest k k' → Q 0 k') →
  (∀ k' L' T' U', two_spaces k' L' dir T' U' → copied (mem k') U' U0 (v + 1) →
     own dir T' U' ++ L' ≡ₚ own dir T U ++ x :: L → length (frames U') = S (length (frames U)) →
     (∀ w, 524288 ≤ w → pte (mem k') T' w = pte (mem k) T w) →
     eq_off (own dir T U ++ x :: L) (mem k) (mem k') → same_rest k k' → kwp C Q Y k') →
  kwp (kmemmove x (frame e0) PGSIZE;;
       r ← mappages dir (4096 * v) PGSIZE (V2P x) (PTE_FLAGS e0);
       if r <? 0 then kfree x;; freevm dir;; mret 0 else C) Q Y k.
Proof using Type*.
  intros P R RU R0 RU0 HC HU HF HS. destruct (proj1 RU0 _ _ HU) as (Hv & Ep & He).
  destruct (copy_moved k L dir T U v e0 x P R RU HU) as (P1 & R1 & RU1 & HE1 & HB & M1).
  unfold kmemmove. kstep. kstep. set (k1 := k <| mem ::= λ m, memmove m x (frame e0) PGSIZE |>) in *.
  assert (same_rest k k1) as S1 by apply same_rest_mem. clearbody k1.
  apply kwp_bind; [done|]. replace PGSIZE with (4096 * 1) by done.
  destruct (page_phys _ _ (pool_img _ _ _ P1) (pool_page _ _ _ x P1 ltac:(in_pages))) as (? & ? & _).
  eapply kwp_mappages; [done|exact P1|exact R1| |lia|lia|lia|lia|lia|done|apply flags_range| |].
  { exists (x :: frames U ++ own dir0 T0 U0 ++ X). unfold own. solve_Permutation. }
  { intros w Hw. replace w with v by lia. apply RU1; [done|]. apply HC. lia. }
  intros r new k2 L2 T2 j (P2 & R2 & EL & EV & M2 & S2) _ Hpt Hr.
  eapply (pool_perm _ _ _ (x :: own dir T2 U ++ own dir0 T0 U0 ++ X)) in P2; [|unfold own; rewrite EV; solve_Permutation].
  assert (own dir T2 U ++ x :: L2 ≡ₚ own dir T U ++ x :: L) as EO by (unfold own; rewrite EL, EV; solve_Permutation).
  assert (∀ p, p ∈ frames U ++ own dir0 T0 U0 ++ x :: X → eq_page p (mem k1) (mem k2)) as HE2.
  { intros p Hp. eapply (pool_eq_page k2 L2 (dir :: vals T2)); [|exact M2|exact Hp].
    eapply pool_perm; [|exact P2]. unfold own. solve_Permutation. }
  assert (eq_off (own dir T U ++ x :: L) (mem k) (mem k2)) as M.
  { eapply eq_off_trans; [..|exact M1|exact M2]; intros p; [|rewrite <- EO]; in_pages. }
  destruct (space_same (mem k) (mem k2) (image k) dir0 T0 U0) as [R02 RU02]; [|done|done|].
  { intros p Hp a Ha. etrans; [apply (HE2 p)|apply (HE1 p)]; try done; revert Hp; in_pages. }
  pose proof (same_rest_trans _ _ _ S1 S2) as S12. rewrite <- (same_rest_image _ _ S12) in R02.
  destruct Hr as [[-> ->]|(-> & Hj & ->)]; simpl.
  - destruct (copy_mapped L dir T U v e0 x k1 k2 L2 T2) as (A & B & D & E); try done.
    + eapply copied_same; [|exact HC]. intros p Hp. apply HE1. revert Hp. in_pages.
    + rewrite <- Ep. apply pte_range.
    + intros b Hb. rewrite HB by done. symmetry. apply (HE1 (frame e0)); [|lia].
      assert (frame e0 ∈ frames U0) by (apply elem_of_frames; eauto). in_pages.
    + intros w Hw. rewrite Hpt by done. repeat case_decide; try lia; try done. f_equal. lia.
    + apply (HS k2 L2 T2 _ A); try done. intros w Hw. rewrite Hpt by lia. rewrite decide_False by lia.
      apply pte_same. intros p Hp. apply HE1. revert Hp. in_pages.
  - apply kwp_bind; [done|]. eapply kwp_kfree_pool; [done|exact P2|]. intros k3 P3 M3 S3.
    assert (two_spaces k3 [x] dir T2 U) as TS.
    { eapply copy_dropped; [exact P2|exact P3|done|done|done|done| |done]. eapply urep_ext; [|exact RU1].
      intros w Hw. rewrite Hpt by done. by rewrite decide_False by lia. }
    eapply kwp_copy_bad; [exact TS|]. intros k4 L4 P4 R4 RU4 HL4 M4 S4.
    apply (HF k4 L4); [done|done|done|by rewrite HL4| | |eauto using same_rest_trans].
    + rewrite EL, app_nil_r, <- length_app. rewrite (Permutation_app_comm (vals T)), <- EV. by eapply pt_rep_size.
    + eapply eq_off_trans; [done| |exact M|eapply (eq_off_trans _ _ (x :: own dir T2 U)); [..|exact M3|exact M4]].
      * intros p. rewrite <- EO. in_pages.
      * intros p. in_pages.
      * intros p. in_pages.
Qed.

(** One turn of the loop of [copyuvm]. *)
Lemma kwp_copy_page (C : K Z) Q k L dir T U v e0 : two_spaces k L dir T U → copied (mem k) U U0 v →
  U0 !! v = Some e0 →
  (∀ k' L', pool k' L' (own dir0 T0 U0 ++ X) → pt_rep (mem k') (image k') dir0 T0 → urep (mem k') T0 U0 →
     L' ≡ₚ own dir T U ++ L → (length (vals T) + length L ≤ 1025)%nat →
     eq_off (own dir T U ++ L) (mem k) (mem k') → same_rest k k' → Q 0 k') →
  (∀ k' L' T' U', two_spaces k' L' dir T' U' → copied (mem k') U' U0 (v + 1) →
     own dir T' U' ++ L' ≡ₚ own dir T U ++ L → length (frames U') = S (length (frames U)) →
     (∀ w, 524288 ≤ w → pte (mem k') T' w = pte (mem k) T w) →
     eq_off (own dir T U ++ L) (mem k) (mem k') → same_rest k k' → kwp C Q Y k') →
  kwp (pte ← walkpgdir dir0 (4096 * v) false;
       (if pte =? 0 then panic "copyuvm: pte should exist" else skip);;
       e ← rd32 pte;
       (if istrue (Z.land e PTE_P) then skip else panic "copyuvm: page not present");;
       mem0 ← kalloc;
       if mem0 =? 0 then freevm dir;; mret 0
       else
         kmemmove mem0 (P2V (PTE_ADDR e)) PGSIZE;;
         r ← mappages dir (4096 * v) PGSIZE (V2P mem0) (PTE_FLAGS e);
         if r <? 0 then kfree mem0;; freevm dir;; mret 0 else C) Q Y k.
Proof using Type*.
  intros HT HC HU HF HS. pose proof HT as (P & R & RU & R0 & RU0). destruct (proj1 RU0 _ _ HU) as (Hv & Ep & He).
  apply kwp_bind; [done|]. eapply kwp_walk_page; [done|exact P|exact R0|done|exact HU|].
  intros a Ha Ea. rewrite (proj2 (Z.eqb_neq _ _)) by done. unfold rd32. kstep. kstep. kstep. kstep. rewrite Ea.
  fold (present e0). rewrite He. kstep. kstep. apply kwp_bind; [done|]. eapply kwp_kalloc_pool; [done|exact P|..].
  { intros ->. simpl. eapply kwp_copy_bad; [done|]. intros k' L' P' R' RU' HL M S. apply (HF k' L'); try done.
    - simpl. rewrite Nat.add_0_r. pose proof (pt_rep_size _ _ _ _ R). lia.
    - by rewrite app_nil_r. }
  intros x L1 k1 -> P1 E1 S1. assert (page_ok (image k1) x) as Hx by (apply (pool_page _ _ _ _ P1); by left).
  pose proof (page_nonzero _ _ Hx). rewrite (proj2 (Z.eqb_neq _ _)) by done. change (P2V (PTE_ADDR e0)) with (frame e0).
  rewrite <- E1 in *. rewrite <- (same_rest_image _ _ S1) in R, R0.
  eapply kwp_copy_into; [exact P1|done|done|done|done|done|done|..].
  - intros k' L' P' R' RU' HL HLen M S. apply (HF k' L'); try done; [simpl; lia|by eapply same_rest_trans].
  - intros k' L' T' U' TS HC' HL HLen HK M S. apply (HS k' L' T' U'); try done. by eapply same_rest_trans.
Qed.

(** The number of pages that [sz] bytes take. *)
Definition npages (sz : Z) : Z := (sz + 4095) / 4096.

Lemma npages_lt j sz : 4096 * j < sz ↔ j < npages sz.
Proof. unfold npages. pose proof (Z.div_mod (sz + 4095) 4096). pose proof (Z.mod_pos_bound (sz + 4095) 4096). lia. Qed.

Lemma kwp_copy_loop fuel : ∀ Q k L dir T U j sz, two_spaces k L dir T U → copied (mem k) U U0 j →
  Z.of_nat (length (frames U)) = j → 0 ≤ j → j ≤ npages sz → sz ≤ KERNBASE → npages sz < j + Z.of_nat fuel →
  (∀ v, 0 ≤ v < npages sz → is_Some (U0 !! v)) →
  (∀ k' L', pool k' L' (own dir0 T0 U0 ++ X) → pt_rep (mem k') (image k') dir0 T0 → urep (mem k') T0 U0 →
     L' ≡ₚ own dir T U ++ L → Z.of_nat (length (own dir T U ++ L)) ≤ 1025 + npages sz →
     eq_off (own dir T U ++ L) (mem k) (mem k') → same_rest k k' → Q 0 k') →
  (∀ k' L' T' U', two_spaces k' L' dir T' U' → copied (mem k') U' U0 (npages sz) →
     own dir T' U' ++ L' ≡ₚ own dir T U ++ L → (∀ w, 524288 ≤ w → pte (mem k') T' w = pte (mem k) T w) →
     eq_off (own dir T U ++ L) (mem k) (mem k') → same_rest k k' → Q dir k') →
  kwp (copyuvm_loop fuel dir0 dir (4096 * j) sz) Q Y k.
Proof using Type*.
  induction fuel as [|fuel IH]; intros Q k L dir T U j sz TS HC HLen Hj Hjn Hsz Hf HU HF HS; [lia|].
  cbn [copyuvm_loop]. destruct (Z.ltb_spec (4096 * j) sz) as [Hlt|Hge].
  2:{ kstep. assert (j = npages sz) as -> by (pose proof (npages_lt j sz); lia). apply (HS k L T U); try done. apply same_rest_refl. }
  apply npages_lt in Hlt as Hlt'. destruct (HU j ltac:(lia)) as [e0 He0].
  eapply kwp_copy_page; [exact TS|exact HC|exact He0|..].
  - intros k' L' P' R' RU' HL HLL M S. apply (HF k' L'); try done.
    unfold own. simpl. rewrite !length_app. lia.
  - intros k' L' T' U' TS' HC' HL HLen' HK M S. unfold KERNBASE, PGSIZE in *. rewrite u32_small by lia.
    replace (4096 * j + 4096) with (4096 * (j + 1)) by lia.
    eapply (IH _ k' L' dir T' U'); try done; try lia.
    + intros k'' L'' P'' R'' RU'' HL'' HLL M' S'. apply (HF k'' L''); try done.
      * by rewrite HL''.
      * by rewrite <- HL.
      * eapply eq_off_trans; [done| |exact M|exact M']. intros p. by rewrite HL.
      * by eapply same_rest_trans.
    + intros k'' L'' T'' U'' TS'' HC'' HL'' HK' M' S'. apply (HS k'' L'' T'' U''); try done.
      * by rewrite HL''.
      * intros w Hw. by rewrite HK', HK.
      * eapply eq_off_trans; [done| |exact M|exact M']. intros p. by rewrite HL.
      * by eapply same_rest_trans.
Qed.
End copyuvm.

Lemma pool_eqv k k' L O : k' ≃ k → pool k L O → pool k' L O.
Proof.
  intros H [Hf Hr Hb Hi Ho Hd]. pose proof H as H'. keqv_rd H'. split; rewrite ?Hmem, ?Himg; try done.
  - by eapply kmem_free_eqv.
  - by rewrite H.
Qed.

Section spaces.
Context (k : kernel) (L X : list Z) (dir : Z) (T U : gmap Z Z).
Hypothesis (P : pool k L (own dir T U ++ X)) (R : pt_rep (mem k) (image k) dir T) (RU : urep (mem k) T U).

(** What a program sees of a copy: the same bytes under the same protection in
    the copied pages, nothing in other user pages, and the kernel where
    [setupkvm] puts it. *)
Definition same_view (m m' : memory) (img : linker) (d d' sz : Z) : Prop :=
  (∀ va, 0 ≤ va < 4096 * npages sz → is_Some (ubyte m d va) ∧ ubyte m' d' va = ubyte m d va ∧
     PTE_FLAGS <$> mmu m' d' va = PTE_FLAGS <$> mmu m d va) ∧
  (∀ va, 4096 * npages sz ≤ va < KERNBASE → mmu m' d' va = None) ∧
  (∀ va, KERNBASE ≤ va < 4294967296 → mmu m' d' va = kpte (kmap img) (va / 4096)).

Lemma kpte_present ks : ∀ lo w e, kmap_wf lo ks → kpte ks w = Some e → present e = true.
Proof.
  induction ks as [|[[[virt ps] pe] perm] ks IH]; intros lo w e; [done|]. cbn.
  intros (Hv & Hs & Hp & _ & _ & Hm & Hps & Hpp & Hpm & HK). case_decide as Hw; [|by apply (IH _ _ _ HK)].
  intros [= <-]. apply mkpte_present; [lia| |done].
  rewrite Z.add_mod, Hm by lia. rewrite Zminus_mod, Hv. rewrite (Z.mul_comm 4096), Z.mod_mul by lia. done.
Qed.

Lemma copied_view sz k' L' d' T' U' : two_spaces dir T U X k' L' d' T' U' → copied (mem k') U' U (npages sz) →
  (∀ p, p ∈ own dir T U → eq_page p (mem k) (mem k')) → 0 ≤ sz ≤ KERNBASE → image k' = image k →
  (∀ w, 524288 ≤ w → pte (mem k') T' w = default 0 (kpte (kmap (image k)) w)) →
  same_view (mem k) (mem k') (image k) dir d' sz.
Proof using P R RU.
  intros (P' & R' & RU' & _) [H1 H2] HE Hsz Ei HK. pose proof (pool_img _ _ _ P) as Hi. rewrite Ei in *.
  assert (0 ≤ npages sz) as Hn0 by (apply Z.div_pos; lia). assert (npages sz ≤ 524288) as Hn.
  { unfold npages, KERNBASE in *. assert ((sz + 4095) / 4096 < 524289); [|lia]. apply Z.div_lt_upper_bound; lia. }
  split_and!; intros va Hva.
  - assert (0 ≤ va / 4096 < npages sz) as Hv.
    { split; [apply Z.div_pos; lia|apply Z.div_lt_upper_bound; lia]. }
    destruct (H1 _ Hv) as (e & e0 & A & B & C & D). unfold ubyte, KERNBASE in *.
    rewrite (mmu_user _ _ _ T U _ Hi R RU), (mmu_user _ _ _ T' U' _ Hi R' RU'), A, B by (unfold KERNBASE; lia).
    pose proof (Z.mod_pos_bound va 4096 ltac:(lia)). split_and!; [by eexists| |by simpl; f_equal].
    simpl. f_equal. unfold uaddr, PGSIZE. rewrite D by done. apply (HE (frame e0)); [|lia].
    assert (frame e0 ∈ frames U) by (apply elem_of_frames; eauto). in_pages.
  - rewrite (mmu_user _ _ _ T' U' _ Hi R' RU'); [|lia]. apply H2.
    intros [_ Hlt]. assert (va < 4096 * npages sz); [|lia]. pose proof (Z.div_mod va 4096). pose proof (Z.mod_pos_bound va 4096). lia.
  - unfold KERNBASE in *. rewrite (mmu_pte _ _ _ T' _ Hi R') by lia.
    assert (524288 ≤ va / 4096) by (apply Z.div_le_lower_bound; lia). rewrite HK by done.
    destruct (kpte _ _) as [e|] eqn:E; [|done]. simpl. by rewrite (kpte_present _ _ _ _ (kmap_ok _ Hi) E).
Qed.

Lemma kwp_copyuvm Y `{!Mono Y} Q sz : 0 ≤ sz ≤ KERNBASE → (∀ v, 0 ≤ v < npages sz → is_Some (U !! v)) →
  (∀ r d, same_rest k d → eq_off L (mem k) (mem d) →
    (∃ T' U' L', two_spaces dir T U X d L' r T' U' ∧ own r T' U' ++ L' ≡ₚ L ∧ copied (mem d) U' U (npages sz) ∧
        ∀ w, 524288 ≤ w → pte (mem d) T' w = default 0 (kpte (kmap (image k)) w)) ∨
     (∃ L', r = 0 ∧ pool d L' (own dir T U ++ X) ∧ L' ≡ₚ L ∧ Z.of_nat (length L) ≤ 1025 + npages sz) → Q r d) →
  kwp (copyuvm dir sz) Q Y k.
Proof using P R RU.
  intros Hsz HU HQ. assert (0 ≤ npages sz) as Hn0 by (apply Z.div_pos; lia).
  unfold copyuvm. apply kwp_bind; [done|]. eapply kwp_setupkvm; [done|exact P|..].
  { intros k' L' P' HL HLen M S. simpl. kstep. apply HQ; [done|done|]. right. exists L'. split_and!; try done. lia. }
  intros d T' k' L' P' R' RU' HL HK M S. pose proof (page_nonzero _ _ (proj1 R')). rewrite (proj2 (Z.eqb_neq _ _)) by done.
  destruct (space_same (mem k) (mem k') (image k) dir T U) as [R0 RU0]; [|done|done|].
  { intros p Hp. eapply pool_eq_free; [exact P|done|]. revert Hp. in_pages. }
  rewrite <- (same_rest_image _ _ S) in R0. assert (∀ p, p ∈ own d T' ∅ ++ L' → p ∈ L) as Hin by (intros p; by rewrite HL).
  change 0 with (4096 * 0) at 1. eapply (kwp_copy_loop Y dir T U X _ _ k' L' d T' ∅ 0 sz); [by split_and!|..]; try done; try lia.
  - split; [lia|done].
  - pose proof (Z.div_pos sz 4096). unfold npages, PGSIZE in *. assert ((sz + 4095) / 4096 ≤ sz / 4096 + 1); [|lia].
    rewrite <- Z.div_add by lia. apply Z.div_le_mono; lia.
  - intros k2 L2 P2 R2 RU2 HL2 HLen M2 S2. rewrite HL in HL2, HLen. apply HQ; [by eapply same_rest_trans| |right; eauto].
    by eapply eq_off_trans; [..|exact M|exact M2].
  - intros k2 L2 T2 U2 TS HC HL2 HK2 M2 S2. apply HQ; [by eapply same_rest_trans| |left].
    + by eapply eq_off_trans; [..|exact M|exact M2].
    + exists T2, U2, L2. split_and!; [done|by rewrite HL2|done|]. intros w Hw. rewrite HK2 by done. apply HK. lia.
Qed.

(** C9: [fork] copies memory. [copyuvm] of an address space whose pages below
    [sz] are mapped returns, holds the locks it held before, and touches no page
    in use: neither of the parent nor any other. Either it answers a new address
    space through which a program sees, below [sz] rounded up to a page, the bytes
    and protection of the parent, made of pages that were free, so that neither
    sees the writes of the other; or it answers 0, every page it took is free
    again, and there were at most 1025 free pages more than the copy has. *)
Theorem copyuvm_copies sz : 0 ≤ sz ≤ KERNBASE → (∀ v, 0 ≤ v < npages sz → is_Some (U !! v)) →
  ∃ r k', copyuvm dir sz k = Ok r k' ∧ held k' = held k ∧
    (∀ p, p ∈ own dir T U ++ X → eq_page p (mem k) (mem k')) ∧
    ((∃ T' U' L', r ≠ 0 ∧ pool k' L' (own r T' U' ++ own dir T U ++ X) ∧ own r T' U' ++ L' ≡ₚ L ∧
        pt_rep (mem k') (image k') r T' ∧ urep (mem k') T' U' ∧ same_view (mem k) (mem k') (image k) dir r sz) ∨
     (∃ L', r = 0 ∧ pool k' L' (own dir T U ++ X) ∧ L' ≡ₚ L ∧ Z.of_nat (length L) ≤ 1025 + npages sz)).
Proof using P R RU.
  intros Hsz HU. destruct (kwp_returns (copyuvm dir sz) (λ r d, same_rest k d ∧ eq_off L (mem k) (mem d) ∧
    ((∃ T' U' L', two_spaces dir T U X d L' r T' U' ∧ own r T' U' ++ L' ≡ₚ L ∧ copied (mem d) U' U (npages sz) ∧
        ∀ w, 524288 ≤ w → pte (mem d) T' w = default 0 (kpte (kmap (image k)) w)) ∨
     (∃ L', r = 0 ∧ pool d L' (own dir T U ++ X) ∧ L' ≡ₚ L ∧ Z.of_nat (length L) ≤ 1025 + npages sz))) k)
    as (r & k' & d & E & Hd & S & M & HQ).
  { apply kwp_copyuvm; [apply _|done|done|]. done. }
  pose proof (same_rest_image _ _ S) as Ei. assert (held d = held k) as Eh by (by destruct S as (? & ? & ->)).
  pose proof Hd as Hd'. keqv_rd Hd'. exists r, k'. rewrite Hmem, Himg, Hheld, Eh. split_and!; [done|done|..].
  { intros p Hp. by eapply pool_eq_free. }
  destruct HQ as [(T' & U' & L' & TS & HL & HC & HK)|(L' & -> & P' & HL & HLen)]; [left|right].
  - exists T', U', L'. pose proof TS as (P' & R' & RU' & _). split_and!; try done.
    + eapply page_nonzero. apply R'.
    + by eapply pool_eqv.
    + eapply copied_view; [exact TS|done| |done|done|done]. intros p Hp. eapply pool_eq_free; [exact P|done|].
      revert Hp. in_pages.
  - exists L'. split_and!; try done. by eapply pool_eqv.
Qed.

(** C10: [freevm], the end of every address space, gives back exactly its pages:
    it returns, the free pages are then those there were and the pages of the
    address space (directory, tables and frames), none twice, and no page of
    another use is changed. *)
Theorem freevm_frees : ∃ k' L', freevm dir k = Ok tt k' ∧ held k' = held k ∧ pool k' L' X ∧
  L' ≡ₚ own dir T U ++ L ∧ ∀ p, p ∈ X → eq_page p (mem k) (mem k').
Proof using P R RU.
  destruct (kwp_returns (freevm dir) (λ _ d, same_rest k d ∧ eq_off (own dir T U) (mem k) (mem d) ∧
    ∃ L', pool d L' X ∧ L' ≡ₚ own dir T U ++ L) k) as ([] & k' & d & E & Hd & S & M & L' & P' & HL).
  { eapply kwp_freevm; [apply _|exact P|exact R|exact RU|]. eauto 10. }
  assert (held d = held k) as Eh by (by destruct S as (? & ? & ->)). pose proof Hd as Hd'. keqv_rd Hd'.
  exists k', L'. rewrite Hmem, Hheld, Eh. split_and!; try done; [by eapply pool_eqv|].
  intros p Hp. by eapply pool_eq_page.
Qed.

(** ** copyout *)

(** A page a program may access. *)
Definition user_page (v : Z) : Prop := ∃ e, U !! v = Some e ∧ Z.land e PTE_U ≠ 0.

Lemma frames_inj v w e e' : U !! v = Some e → U !! w = Some e' → frame e = frame e' → v = w.
Proof using P.
  intros Hv Hw E. destruct (decide (v = w)) as [|Hne]; [done|]. pose proof (pool_dup _ _ _ P) as D.
  apply NoDup_app in D as (D & _). apply NoDup_app in D as (D & _). unfold own in D. apply NoDup_cons in D as [_ D].
  apply NoDup_app in D as (_ & _ & D). rewrite (frames_delete U v e Hv) in D. apply NoDup_cons in D as [D _].
  destruct D. rewrite E. apply elem_of_frames. exists w, e'. by rewrite lookup_delete_ne.
Qed.

Lemma bytes_ok_store bs : ∀ m a, bytes_ok m → bytes_ok (store_bytes m a bs).
Proof. induction bs as [|b bs IH]; intros m a H; [done|]. apply IH. by apply bytes_ok_st8. Qed.

(** Bytes stored in the frame of page [v] appear at their user addresses. *)
Lemma ubyte_store v e off bs : U !! v = Some e → 0 ≤ off → off + Z.of_nat (length bs) ≤ 4096 →
  let m' := store_bytes (mem k) (frame e + off) bs in
  eq_off [frame e] (mem k) m' ∧ pt_rep m' (image k) dir T ∧ urep m' T U ∧
  ∀ va, 0 ≤ va < KERNBASE → ubyte m' dir va =
    if decide (4096 * v + off ≤ va < 4096 * v + off + Z.of_nat (length bs))
    then Some (u8 (bs !!! Z.to_nat (va - (4096 * v + off)))) else ubyte (mem k) dir va.
Proof using P R RU.
  intros Hv Hoff Hlen m'. pose proof (pool_img _ _ _ P) as Hi.
  assert (eq_off [frame e] (mem k) m') as M.
  { intros a Ha. specialize (Ha (frame e) ltac:(set_solver)). unfold m'. rewrite store_bytes_spec. by rewrite decide_False by lia. }
  assert (frame e ∈ frames U) as Hin by (apply elem_of_frames; eauto).
  destruct (space_same (mem k) m' (image k) dir T U) as [R' RU']; [|done|done|].
  { intros p Hp. eapply (pool_eq_page k L [frame e] (own dir T (delete v U) ++ X)); [|exact M|revert Hp; in_pages].
    eapply pool_perm; [|exact P]. by rewrite (own_delete dir T U v e Hv). }
  split_and!; [done..|]. intros va Hva. unfold ubyte. rewrite (mmu_user _ _ _ T U _ Hi R RU), (mmu_user _ _ _ T U _ Hi R' RU') by done.
  pose proof (Z.div_mod va 4096 ltac:(lia)). pose proof (Z.mod_pos_bound va 4096 ltac:(lia)).
  destruct (decide (va / 4096 = v)) as [Ev|Hne].
  - rewrite Ev, Hv. simpl. unfold uaddr, m', PGSIZE. rewrite store_bytes_spec.
    repeat case_decide; try lia; [|done]. do 3 f_equal. lia.
  - rewrite decide_False by lia. destruct (U !! (va / 4096)) as [e'|] eqn:E'; [|done]. simpl. f_equal.
    unfold uaddr, PGSIZE. assert (frame e' ∈ frames U) by (apply elem_of_frames; eauto).
    enough (eq_page (frame e') (mem k) m') as EP by (apply EP; lia). eapply (eq_off_page (image k)); [..|exact M].
    + constructor; [|done]. apply (pool_page _ _ _ _ P). in_pages.
    + apply (pool_page _ _ _ _ P). in_pages.
    + rewrite list_elem_of_singleton. intros Ef. destruct Hne. by eapply frames_inj.
Qed.

Lemma kwp_uva2ka Y `{!Mono Y} Q v e : U !! v = Some e → Z.land e PTE_U ≠ 0 → Q (frame e) k →
  kwp (uva2ka dir (4096 * v)) Q Y k.
Proof using P R RU.
  intros HU He HQ. destruct (proj1 RU _ _ HU) as (Hv & Ep & Hpr).
  unfold uva2ka. apply kwp_bind; [done|]. eapply kwp_walk_page; [done|exact P|exact R|done|exact HU|].
  intros a Ha Ea. rewrite (proj2 (Z.eqb_neq _ _)) by done. unfold rd32. kstep. kstep. kstep. kstep. rewrite Ea.
  unfold present, istrue in Hpr. rewrite negb_true_iff in Hpr. rewrite Hpr, (proj2 (Z.eqb_neq _ _)) by done. by kstep.
Qed.
End spaces.

Section copyout.
Context (Y : protocol kernel) `{!Mono Y}.
Context (L X : list Z) (dir : Z) (T U : gmap Z Z).

(** The bytes of [buf] at [va], and every other user byte as before. *)
Definition written (m m' : memory) (va : Z) (buf : list Z) : Prop :=
  ∀ a, 0 ≤ a < KERNBASE → ubyte m' dir a =
    if decide (va ≤ a < va + Z.of_nat (length buf)) then Some (u8 (buf !!! Z.to_nat (a - va))) else ubyte m dir a.

Lemma written_app m m1 m2 va b1 b2 : written m m1 va b1 → written m1 m2 (va + Z.of_nat (length b1)) b2 →
  written m m2 va (b1 ++ b2).
Proof.
  intros H1 H2 a Ha. rewrite H2, H1, length_app by done. repeat case_decide; try lia; try done; do 2 f_equal.
  - rewrite lookup_total_app_r by lia. f_equal. lia.
  - rewrite lookup_total_app_l by lia. done.
Qed.

Lemma kwp_copyout_loop fuel : ∀ Q k va buf,
  pool k L (own dir T U ++ X) → pt_rep (mem k) (image k) dir T → urep (mem k) T U →
  0 ≤ va → va + Z.of_nat (length buf) ≤ KERNBASE → (length buf < fuel)%nat →
  (∀ a, va ≤ a < va + Z.of_nat (length buf) → user_page U (a / 4096)) →
  (∀ k', pool k' L (own dir T U ++ X) → written (mem k) (mem k') va buf → eq_off (frames U) (mem k) (mem k') →
     same_rest k k' → Q 0 k') →
  kwp (copyout_loop fuel dir va buf) Q Y k.
Proof using Type*.
  induction fuel as [|fuel IH]; intros Q k va buf P R RU Hva Hlen Hf HU HS; [lia|]. cbn [copyout_loop].
  destruct (Z.ltb_spec 0 (Z.of_nat (length buf))) as [Hn|Hn].
  2:{ kstep. apply (HS k); try done; [|apply same_rest_refl]. intros a Ha. by rewrite decide_False by lia. }
  rewrite PGROUNDDOWN_spec by (unfold KERNBASE in *; lia). destruct (HU va) as (e & He & Hue); [lia|].
  pose proof (Z.div_mod va 4096 ltac:(lia)) as Ed. pose proof (Z.mod_pos_bound va 4096 ltac:(lia)) as Hm.
  replace (va - va mod 4096) with (4096 * (va / 4096)) by lia. replace (va - 4096 * (va / 4096)) with (va mod 4096) by lia.
  set (v := va / 4096) in *. set (off := va mod 4096) in *. apply kwp_bind; [done|].
  eapply kwp_uva2ka; [exact P|done|done|done|exact He|done|].
  assert (frame e ∈ frames U) as Hin by (apply elem_of_frames; eauto).
  assert (page_ok (image k) (frame e)) as Hp by (apply (pool_page _ _ _ _ P); in_pages).
  rewrite (proj2 (Z.eqb_neq _ _)) by by eapply page_nonzero.
  set (n := Z.to_nat (Z.min (PGSIZE - off) (Z.of_nat (length buf)))).
  assert (off + Z.of_nat n ≤ 4096 ∧ Z.of_nat n ≤ Z.of_nat (length buf)) as [Hn1 Hn2] by (unfold n, PGSIZE; lia).
  assert (0 < Z.of_nat n ∧ (Z.of_nat n < Z.of_nat (length buf) → off + Z.of_nat n = 4096)) as [Hn3 Hn4] by (unfold n, PGSIZE; lia).
  clearbody n. kstep. kstep. assert (length (take n buf) = n) as Etn by (rewrite length_take; lia).
  destruct (ubyte_store k L X dir T U P R RU v e off (take n buf) He) as (M1 & R1 & RU1 & W1); [lia|rewrite Etn; lia|].
  set (k1 := k <| mem ::= λ m, store_bytes m (frame e + off) (take n buf) |>).
  change (store_bytes (mem k) (frame e + off) (take n buf)) with (mem k1) in M1, R1, RU1, W1.
  assert (eq_off (frames U) (mem k) (mem k1)) as M1' by (eapply eq_off_mono; [|exact M1]; by intros p ->%list_elem_of_singleton).
  assert (pool k1 L (own dir T U ++ X)) as P1.
  { apply pool_write; [done|eapply eq_off_mono; [|exact M1']; intros p; in_pages|]. apply bytes_ok_store, P. }
  assert (same_rest k k1) as S1 by apply same_rest_mem. clearbody k1.
  assert (v < 524288) as Hv by (apply Z.div_lt_upper_bound; unfold KERNBASE in *; lia).
  unfold PGSIZE. rewrite u32_small by lia.
  assert (length (drop n buf) = 0%nat ∨ 4096 * v + 4096 = va + Z.of_nat n) as Hd by (rewrite length_drop; lia).
  eapply (IH _ k1); [done|by rewrite (same_rest_image _ _ S1)|done|lia|rewrite length_drop; unfold KERNBASE in *; lia|rewrite length_drop; lia|..].
  - intros a. rewrite length_drop. intros Ha. apply HU. lia.
  - intros k' P' W' M' S'. apply (HS k'); [done| |by eapply eq_off_trans; [..|exact M1'|exact M']|by eapply same_rest_trans].
    rewrite <- (take_drop n buf). eapply written_app.
    + intros a Ha. rewrite W1 by done. by replace (4096 * v + off) with va by lia.
    + rewrite Etn. intros a Ha. rewrite W' by done. destruct Hd as [E0| ->]; [|done]. rewrite E0. by rewrite !decide_False by lia.
Qed.
End copyout.

(** C15: [copyout] writes user memory. When the addresses from [va] on for the
    length of [buf] lie in pages of the address space that a program may access,
    it returns 0; a program then reads [buf] from [va] on and finds every other
    address of the space as it was, also where the range spans several pages,
    whose frames are scattered in memory; and nothing but those frames is
    changed. *)
Theorem copyout_writes k L X dir T U va buf :
  pool k L (own dir T U ++ X) → pt_rep (mem k) (image k) dir T → urep (mem k) T U →
  0 ≤ va → va + Z.of_nat (length buf) ≤ KERNBASE →
  (∀ a, va ≤ a < va + Z.of_nat (length buf) → user_page U (a / 4096)) →
  ∃ k', copyout dir va buf k = Ok 0 k' ∧ pool k' L (own dir T U ++ X) ∧
    written dir (mem k) (mem k') va buf ∧ eq_off (frames U) (mem k) (mem k').
Proof.
  intros P R RU Hva Hlen HU. destruct (kwp_returns (copyout dir va buf) (λ r d, r = 0 ∧ pool d L (own dir T U ++ X) ∧
    written dir (mem k) (mem d) va buf ∧ eq_off (frames U) (mem k) (mem d)) k) as (r & k' & d & E & Hd & -> & P' & W & M).
  { unfold copyout. eapply kwp_copyout_loop; [apply _|exact P|done|done|done|done|lia|done|]. auto. }
  exists k'. pose proof Hd as Hd'. keqv_rd Hd'. rewrite Hmem. split_and!; try done. by eapply pool_eqv.
Qed.

(** ** A small address space *)

Lemma pool_freed ps : ∀ k L O, pool k L (ps ++ O) →
  let k' := foldr (λ v, kfree_st v) k ps in pool k' (ps ++ L) O ∧ eq_off ps (mem k) (mem k') ∧ image k' = image k.
Proof.
  induction ps as [|v ps IH]; intros k L O P; [by split_and!|]. cbn [foldr].
  destruct (IH k L (v :: O)) as (P' & E & Ei); [eapply pool_perm; [|exact P]; solve_Permutation|].
  set (k1 := foldr _ k ps) in *. clearbody k1. destruct (pool_kfree k1 (ps ++ L) O v P') as [P1 E1]. split_and!; [done| |done].
  eapply eq_off_trans; [..|exact E|exact E1]; intros p; in_pages.
Qed.

(** One page of memory, at 0x80202000, with a table at 0x80201000 and a directory
    at 0x80200000; and 1100 free pages. *)
Definition vm_tables : gmap Z Z := {[ 0 := 0x80201000 ]}.
Definition vm_pages : gmap Z Z := {[ 0 := mkpte 0x202000 6 ]}.
Definition vm_mem : memory := st32 (st32 ∅ 0x80200000 (mkpte 0x201000 6)) 0x80201000 (mkpte 0x202000 6).
Definition vm_link : linker := mkLinker 0x80115000 0x80108000 0x80105000 0x80103000 [0].
Definition vm_used : kernel := (boot_state vm_link []) <| mem := vm_mem |>.
Definition vm_avail : list Z := pages_from 0x80300000 1100.
Definition vm_kernel : kernel := foldr (λ v, kfree_st v) vm_used vm_avail.

Lemma vm_word_0 p i : (p = 0x80200000 ∨ p = 0x80201000) → 0 < i < 1024 → ld32 vm_mem (p + 4 * i) = 0.
Proof.
  intros Hp Hi. unfold vm_mem. rewrite !ld32_st32_ne by (destruct Hp; subst; lia). done.
Qed.

Lemma vm_used_ok : pool vm_used [] (vm_avail ++ own 0x80200000 vm_tables vm_pages) ∧
  pt_rep (mem vm_used) (image vm_used) 0x80200000 vm_tables ∧ urep (mem vm_used) vm_tables vm_pages.
Proof.
  assert (∀ p, 0x80200 ≤ p < 0x80800 → page_ok vm_link (p * 4096)) as HP.
  { intros p Hp. split; [apply Z.mod_mul; lia|]. unfold KERNBASE, PHYSTOP. simpl. lia. }
  assert (own 0x80200000 vm_tables vm_pages = [0x80200000; 0x80201000; 0x80202000]) as EO by done.
  split_and!.
  - split; [split; [split_and!; [done|apply NoDup_nil_2|done]|done]|split_and!; [done|apply NoDup_nil_2|done]| |vm_compute; intuition congruence|..].
    + simpl. unfold vm_mem, st32. repeat apply bytes_ok_st8. intros a. unfold ld8. rewrite lookup_empty. simpl. lia.
    + apply Forall_app. split.
      2:{ rewrite EO. constructor; [by apply (HP 0x80200)|constructor; [by apply (HP 0x80201)|constructor; [by apply (HP 0x80202)|done]]]. }
      apply Forall_fmap, Forall_forall. intros i [_ Hi]%elem_of_seq. simpl.
      replace (0x80300000 + 4096 * Z.of_nat i) with ((0x80300 + Z.of_nat i) * 4096) by lia. apply HP. lia.
    + rewrite app_nil_r. apply NoDup_app. split_and!.
      * apply NoDup_fmap_2; [intros x y; lia|apply NoDup_seq].
      * intros p (i & -> & _)%list_elem_of_fmap. rewrite EO, !elem_of_cons, elem_of_nil. lia.
      * rewrite EO. by apply (bool_decide_unpack _).
  - unfold vm_tables. split_and!; [by apply (HP 0x80200)|..].
    + intros i t [<- <-]%lookup_singleton_Some. split_and!; [lia|lia|by apply (HP 0x80201)|done].
    + intros i Hi Hn%lookup_singleton_None. simpl. rewrite vm_word_0; [done|by left|lia].
  - unfold vm_pages. split.
    + intros v e [<- <-]%lookup_singleton_Some. split_and!; [lia|lia|done|done].
    + intros v Hv Hn%lookup_singleton_None. unfold pte, vm_tables. destruct (decide (v / 1024 = 0)) as [E0|Hne].
      * rewrite E0, lookup_singleton_eq. pose proof (Z.div_mod v 1024). simpl. rewrite vm_word_0; [done|by right|].
        pose proof (Z.mod_pos_bound v 1024). lia.
      * by rewrite lookup_singleton_ne.
Qed.

Lemma vm_kernel_ok : pool vm_kernel vm_avail (own 0x80200000 vm_tables vm_pages ++ []) ∧
  pt_rep (mem vm_kernel) (image vm_kernel) 0x80200000 vm_tables ∧ urep (mem vm_kernel) vm_tables vm_pages.
Proof.
  destruct vm_used_ok as (P & R & RU). unfold vm_kernel. revert P R RU. generalize vm_used vm_avail. intros k ps P R RU.
  rewrite app_nil_r. destruct (pool_freed _ _ _ _ P) as (P' & E & Ei). rewrite app_nil_r in P'.
  split_and!; [done|..]; (eapply pt_rep_same || eapply urep_same); [|rewrite Ei; exact R| |exact RU].
  - eapply pool_eq_page; [exact P|exact E|]. by left.
  - intros t Ht. eapply pool_eq_page; [exact P|exact E|]. revert Ht. in_pages.
Qed.

(** The copy of that page succeeds. *)
Lemma copyuvm_copies_witness :
  ∃ r k', copyuvm 0x80200000 4096 vm_kernel = Ok r k' ∧ r ≠ 0 ∧
    same_view (mem vm_kernel) (mem k') (image vm_kernel) 0x80200000 r 4096.
Proof.
  destruct vm_kernel_ok as (P & R & RU).
  destruct (copyuvm_copies vm_kernel vm_avail [] 0x80200000 vm_tables vm_pages P R RU 4096)
    as (r & k' & HC & _ & _ & [(T' & U' & L' & Hr & _ & _ & _ & _ & V)|(L' & _ & _ & _ & HL)]).
  - split; [lia|]. vm_compute. discriminate.
  - intros v Hv. change (npages 4096) with 1 in Hv. replace v with 0 by lia. exists (mkpte 0x202000 6). reflexivity.
  - exists r, k'. split; [exact HC|]. split; [exact Hr|exact V].
  - change (npages 4096) with 1 in HL. unfold vm_avail, pages_from in HL. rewrite length_fmap, length_seq in HL. lia.
Defined.

Lemma freevm_frees_witness : ∃ k' L', freevm 0x80200000 vm_kernel = Ok tt k' ∧ pool k' L' [] ∧
  L' ≡ₚ [0x80200000; 0x80201000; 0x80202000] ++ vm_avail.
Proof.
  destruct vm_kernel_ok as (P & R & RU).
  destruct (freevm_frees vm_kernel vm_avail [] 0x80200000 vm_tables vm_pages P R RU) as (k' & L' & E & _ & P' & HL & _).
  exists k', L'. split; [exact E|]. split; [exact P'|exact HL].
Defined.

Lemma copyout_writes_witness : ∃ k', copyout 0x80200000 4 [72; 105] vm_kernel = Ok 0 k' ∧
  ubyte (mem k') 0x80200000 5 = Some 105.
Proof.
  destruct vm_kernel_ok as (P & R & RU).
  destruct (copyout_writes vm_kernel vm_avail [] 0x80200000 vm_tables vm_pages 4 [72; 105] P R RU) as (k' & E & _ & W & _).
  - lia.
  - vm_compute. discriminate.
  - simpl. intros a Ha. rewrite Z.div_small by lia. exists (mkpte 0x202000 6). split; [reflexivity|]. vm_compute. discriminate.
  - exists k'. split; [exact E|]. rewrite W; [reflexivity|]. unfold KERNBASE. lia.
Defined.
