(* ===== verification/Random.v ===== *)
(** * The pseudo-random generator of the lottery

    [random.c]: a 32-bit linear congruential generator of which the lottery
    uses 15 bits. *)
From stdpp Require Import base strings numbers gmap list.
From S2P Require Import Prelude Machine Kernel.

Definition srand (s : Z) : K unit := modify (λ k, k <| seed := u32 s |>).

Definition lcg (s : Z) : Z := u32 (1664525 * s + 1013904223).
(** The 15 bits of the seed the generator hands out. *)
Definition rand15 (s : Z) : Z := Z.land (Z.shiftr s 16) 0x7FFF.

(** A zero range is a division by zero, which traps. *)
Definition get_random (min max : Z) : K Z :=
  modify (λ k, k <| seed ::= lcg |>);;
  s ← gets seed;
  let range := i32 (max - min) in
  if range =? 0 then panic "trap"
  else mret (i32 (rand15 s mod u32 range + min)).

Lemma rand15_range s : 0 ≤ rand15 s < 32768.
Proof.
  unfold rand15. change 0x7FFF with (Z.ones 15).
  rewrite Z.land_ones by lia. apply Z.mod_pos_bound. lia.
Qed.

Lemma get_random_eq min max k : 0 < max - min < 2147483648 →
  0 ≤ min → max < 2147483648 →
  get_random min max k =
    Ok (rand15 (lcg (seed k)) mod (max - min) + min) (k <| seed ::= lcg |>).
Proof.
  intros. unfold get_random. mred. cbn [seed upd].
  rewrite (i32_small (max - min)) by lia. replace (max - min =? 0) with false by lia.
  rewrite u32_small by lia.
  pose proof (Z.mod_pos_bound (rand15 (lcg (seed k))) (max - min)).
  rewrite i32_small by lia. done.
Qed.
