(* ===== verification/Sched.v ===== *)
(** * The schedulers

    [scheduler] of [proc.c] in its lottery and its default (round robin) form.
    A turn of its endless loop is one definition, [lottery_turn] or [rr_turn];
    it leaves the processor to the chosen process in [swtch] and resumes when
    that process gives it back. *)
From stdpp Require Import base strings numbers gmap list.
From S2P Require Import Prelude Machine KString Kernel Locks Kalloc Proc Vm Random.

Definition set_cproc (o : option nat) : K unit :=
  modify (λ k, k <| kcpu ::= λ c, c <| cproc := o |> |>).
Definition sti : K unit := modify (λ k, k <| eflags_if := true |>).

Definition is_done (r : proc) : bool :=
  bool_decide (state r = ZOMBIE ∨ state r = UNUSED).

(** ** SCHEDULER_LOTTERY *)

(** The body of the first loop: the metrics of slot [p]. *)
Definition lottery_update (p : nat) : K unit :=
  r ← pget p;
  (if is_done r && (completion_time r <=? creation_time r) then
     acquire Lticks;;
     t ← gets ticks;
     pset p (λ r, r <| completion_time := i32 t |>);;
     release Lticks;;
     pset p (λ r, if total_run_time r =? 0 then r <| total_run_time := 1 |> else r);;
     acquire Lperf;;
     r ← pget p;
     perf_store r;;
     release Lperf
   else skip);;
  r ← pget p;
  (if bool_decide (state r = RUNNABLE) && (0 <? enqueue_time r) then
     acquire Lticks;;
     t ← gets ticks;
     pset p (add_ready t);;
     pset p (λ r, r <| enqueue_time := i32 t |>);;
     release Lticks
   else skip).

(** The second loop: the tickets of all runnable processes. *)
Definition total_tickets (t : list proc) : Z :=
  foldl (λ acc r, if decide (state r = RUNNABLE) then i32 (acc + tickets r) else acc) 0 t.

(** The third loop: the first runnable slot at which the running count of
    tickets exceeds the winning one. *)
Fixpoint lottery_pick (w cur : Z) (t : list proc) : option nat :=
  match t with
  | [] => None
  | r :: t' =>
      if decide (state r = RUNNABLE) then
        let cur := i32 (cur + tickets r) in
        if w <? cur then Some 0%nat else S <$> lottery_pick w cur t'
      else S <$> lottery_pick w cur t'
  end.

(** If the third loop runs off the table, [p] points past its end and reading
    [p->state] is undefined; the model stops there. *)
Definition lottery_choose (total : Z) : K nat :=
  w ← get_random 0 total;
  o ← gets (λ k, lottery_pick w 0 (ptable k));
  match o with Some p => mret p | None => panic "read past ptable.proc" end.

(** From the choice of [p] to [swtch]: the answer is [run_start]. *)
Definition lottery_dispatch (p : nat) : K Z :=
  set_cproc (Some p);;
  switchuvm p;;
  pset p (λ r, r <| state := RUNNING |>);;
  r ← pget p;
  (if 0 <? enqueue_time r then
     acquire Lticks;;
     t ← gets ticks;
     pset p (add_ready t);;
     pset p (λ r, r <| enqueue_time := 0 |>);;
     release Lticks
   else skip);;
  acquire Lticks;;
  run_start ← gets ticks;
  release Lticks;;
  mret run_start.

(** The metrics after [p] has run. *)
Definition lottery_account (p : nat) (run_start : Z) : K unit :=
  acquire Lticks;;
  t ← gets ticks;
  let run_time := u32 (t - run_start) in
  release Lticks;;
  let run_time := if run_time =? 0 then 1 else run_time in
  pset p (λ r, r <| total_run_time := i32 (total_run_time r + run_time) |>);;
  pset p (λ r, r <| runticks := i32 (runticks r + run_time) |>);;
  r ← pget p;
  (if is_done r then
     acquire Lticks;;
     t ← gets ticks;
     pset p (λ r, r <| completion_time := i32 t |>);;
     modify (λ k, k <| last_completion_time := u32 (i32 t) |>);;
     release Lticks;;
     acquire Lperf;;
     r ← pget p;
     perf_store r;;
     release Lperf
   else skip).

(** What follows [swtch]. *)
Definition lottery_resume (p : nat) (run_start : Z) : K unit :=
  switchkvm;;
  lottery_account p run_start;;
  set_cproc None.

(** The branch that runs a process, with [total] tickets in the draw. *)
Definition lottery_run (total : Z) : K unit :=
  p ← lottery_choose total;
  r ← pget p;
  if decide (state r = RUNNABLE) then
    run_start ← lottery_dispatch p;
    swtch;;
    lottery_resume p run_start
  else skip.

Definition lottery_turn : K unit :=
  sti;;
  acquire Lptable;;
  for_up NPROC 0 lottery_update;;
  total ← gets (λ k, total_tickets (ptable k));
  (if 0 <? total then lottery_run total else skip);;
  release Lptable.

(** ** The default scheduler *)

(** From the choice of [p] to [swtch]: the answer is [run_start]. *)
Definition rr_dispatch (p : nat) : K Z :=
  set_cproc (Some p);;
  switchuvm p;;
  pset p (λ r, r <| state := RUNNING |>);;
  lct ← gets last_completion_time;
  pset p (λ r, if start_time r =? 0 then r <| start_time := i32 lct |> else r);;
  t ← gets ticks;
  pset p (λ r, if 0 <? enqueue_time r then add_ready t r else r);;
  acquire Lticks;;
  run_start ← gets ticks;
  release Lticks;;
  mret run_start.

(** The metrics after [p] has run. *)
Definition rr_account (p : nat) (run_start : Z) : K unit :=
  t ← gets ticks;
  pset p (λ r, r <| total_run_time := i32 (total_run_time r + (t - run_start)) |>);;
  r ← pget p;
  (if is_done r then
     acquire Lticks;;
     t ← gets ticks;
     pset p (λ r, r <| completion_time := i32 t |>);;
     modify (λ k, k <| last_completion_time := u32 (i32 t) |>);;
     release Lticks
   else skip).

(** The body of the pass over the table, for slot [p]. *)
Definition rr_slot (p : nat) : K unit :=
  r ← pget p;
  if decide (state r = RUNNABLE) then
    run_start ← rr_dispatch p;
    swtch;;
    switchkvm;;
    rr_account p run_start;;
    set_cproc None
  else skip.

Definition rr_turn : K unit :=
  sti;;
  acquire Lptable;;
  for_up NPROC 0 rr_slot;;
  release Lptable.
