(* ===== verification/SchedSpec.v ===== *)
(** * The lottery

    Which process the lottery scheduler chooses: every ticket of a runnable
    process wins for exactly one number, the choice never leaves the table, and
    what the 15-bit generator makes of it. *)
From stdpp Require Import base strings numbers gmap list.
From S2P Require Import Prelude Machine KString Kernel Locks Kalloc Proc ProcSpec Vm Random.
From S2P Require Import Sched.

(** The tickets slot [r] takes part with, and those of a table. *)
Definition wt (r : proc) : Z := if decide (state r = RUNNABLE) then tickets r else 0.
Definition wsum (t : list proc) : Z := foldr Z.add 0 (map wt t).

(** Every process in use holds a ticket. *)
Definition tickets_pos (t : list proc) : Prop := Forall (λ r, state r = RUNNABLE → 0 < tickets r) t.

Lemma wt_nonneg t : tickets_pos t → Forall (λ r, 0 ≤ wt r) t.
Proof.
  intros H. eapply Forall_impl; [done|]. intros r Hr. unfold wt.
  case_decide as E; [specialize (Hr E)|]; lia.
Qed.

Lemma wsum_nonneg t : tickets_pos t → 0 ≤ wsum t.
Proof. intros H%wt_nonneg. induction H; unfold wsum in *; cbn; lia. Qed.

Lemma wsum_app t u : wsum (t ++ u) = wsum t + wsum u.
Proof. unfold wsum. induction t as [|r t IH]; cbn; lia. Qed.

Lemma wsum_take_S t i r : t !! i = Some r → wsum (take (S i) t) = wsum (take i t) + wt r.
Proof. intros H. rewrite (take_S_r _ _ r) by done. rewrite wsum_app. unfold wsum at 2. cbn. lia. Qed.

Lemma wsum_take_le t i : tickets_pos t → wsum (take i t) ≤ wsum t.
Proof.
  intros H. rewrite <- (take_drop i t) at 2. rewrite wsum_app.
  assert (0 ≤ wsum (drop i t)) by (by apply wsum_nonneg, Forall_drop). lia.
Qed.

Lemma total_tickets_aux t : ∀ acc, tickets_pos t → 0 ≤ acc → acc + wsum t < 2147483648 →
  foldl (λ acc r, if decide (state r = RUNNABLE) then i32 (acc + tickets r) else acc) acc t = acc + wsum t.
Proof.
  induction t as [|r t IH]; intros acc Ht Ha Hs; [unfold wsum; cbn; lia|].
  apply Forall_cons in Ht as [Hr Ht]. pose proof (wsum_nonneg t Ht).
  unfold wsum, wt in *. cbn in *. case_decide as E; [specialize (Hr E)|];
    rewrite ?i32_small by lia; rewrite IH by (done || lia); lia.
Qed.

(** The second loop computes the number of tickets in the draw. *)
Lemma total_tickets_eq t : tickets_pos t → wsum t < 2147483648 → total_tickets t = wsum t.
Proof. intros. unfold total_tickets. rewrite total_tickets_aux by (done || lia). lia. Qed.

Lemma lottery_pick_aux w t : ∀ cur i, tickets_pos t → 0 ≤ cur ≤ w → cur + wsum t < 2147483648 →
  lottery_pick w cur t = Some i ↔
  ∃ r, t !! i = Some r ∧ state r = RUNNABLE ∧
       cur + wsum (take i t) ≤ w < cur + wsum (take i t) + tickets r.
Proof.
  induction t as [|r t IH]; intros cur i Ht Hc Hs.
  { cbn. split; [done|]. intros (? & ? & _). by rewrite lookup_nil in *. }
  apply Forall_cons in Ht as [Hr Ht]. pose proof (wsum_nonneg t Ht).
  assert (Hnn : ∀ i, 0 ≤ wsum (take i t)) by (intros; by apply wsum_nonneg, Forall_take).
  unfold wsum, wt in *. cbn in *. case_decide as E.
  - specialize (Hr E). rewrite i32_small by lia. destruct (Z.ltb_spec w (cur + tickets r)).
    + split.
      * intros [= <-]. exists r. cbn. split_and!; [done..|lia|lia].
      * intros (r' & Hi & _ & Hw). destruct i as [|i]; [done|]. cbn in Hw.
        rewrite decide_True in Hw by done. specialize (Hnn i). lia.
    + rewrite fmap_Some. split.
      * intros (j & (r' & Hj & Hst & Hw)%IH & ->); [|done|lia|lia]. exists r'. cbn.
        rewrite decide_True by done. split_and!; [done..|lia|lia].
      * intros (r' & Hi & Hst & Hw). destruct i as [|i]; cbn in *; [simplify_eq; lia|].
        rewrite decide_True in Hw by done. exists i. split; [|done].
        apply IH; [done|lia|lia|]. exists r'. split_and!; [done..|lia|lia].
  - rewrite fmap_Some. split.
    + intros (j & (r' & Hj & Hst & Hw)%IH & ->); [|done|lia|lia]. exists r'. cbn.
      rewrite decide_False by done. split_and!; [done..|lia|lia].
    + intros (r' & Hi & Hst & Hw). destruct i as [|i]; cbn in *; [simplify_eq|].
      rewrite decide_False in Hw by done. exists i. split; [|done].
      apply IH; [done|lia|lia|]. exists r'. split_and!; [done..|lia|lia].
Qed.

(** The third loop stops at the slot whose tickets include the winning one. *)
Lemma lottery_pick_iff w t i : tickets_pos t → wsum t < 2147483648 → 0 ≤ w →
  lottery_pick w 0 t = Some i ↔
  ∃ r, t !! i = Some r ∧ state r = RUNNABLE ∧ wsum (take i t) ≤ w < wsum (take i t) + tickets r.
Proof. intros. rewrite lottery_pick_aux by (done || lia). done. Qed.

(** Every number below the total has a winner. *)
Lemma lottery_pick_total w t : ∀ cur, tickets_pos t → 0 ≤ cur → cur + wsum t < 2147483648 →
  cur ≤ w < cur + wsum t → is_Some (lottery_pick w cur t).
Proof.
  induction t as [|r t IH]; intros cur Ht Hc Hs Hw; unfold wsum, wt in *; cbn in *; [lia|].
  apply Forall_cons in Ht as [Hr Ht]. pose proof (wsum_nonneg t Ht). unfold wsum, wt in *.
  case_decide as E; [specialize (Hr E)|].
  - rewrite i32_small by lia. case_match; [done|]. apply fmap_is_Some, IH; [done|lia..].
  - apply fmap_is_Some, IH; [done|lia..].
Qed.

(** The number of integers of [[0, n)] in an interval. *)
Lemma count_interval a b n : 0 ≤ a ≤ b → b ≤ n →
  length (filter (λ w, a ≤ w < b) (seqZ 0 n)) = Z.to_nat (b - a).
Proof.
  intros. replace n with (a + ((b - a) + (n - b))) by lia.
  rewrite seqZ_app, seqZ_app, !filter_app, !length_app by lia.
  rewrite (filter_none _ (seqZ 0 a)), (filter_none _ (seqZ (0 + a + (b - a)) _)), (filter_all _ (seqZ (0 + a) (b - a))).
  - cbn. rewrite length_seqZ. lia.
  - apply Forall_forall. intros x. rewrite elem_of_seqZ. lia.
  - apply Forall_forall. intros x. rewrite elem_of_seqZ. lia.
  - apply Forall_forall. intros x. rewrite elem_of_seqZ. lia.
Qed.

Lemma lottery_fair_aux t i r : tickets_pos t → wsum t < 2147483648 →
  t !! i = Some r → state r = RUNNABLE →
  length (filter (λ w, lottery_pick w 0 t = Some i) (seqZ 0 (wsum t))) = Z.to_nat (tickets r).
Proof.
  intros Ht Hs Hi Hr. pose proof (wsum_take_S t i r Hi) as HS.
  pose proof (wsum_take_le t (S i) Ht). pose proof (wsum_nonneg (take i t) ltac:(by apply Forall_take)).
  assert (wt r = tickets r) as Hw by (unfold wt; by rewrite decide_True).
  assert (0 < tickets r) as Hpos by (eapply Forall_lookup_1 in Ht; [|done]; by apply Ht).
  rewrite (filter_ext_in _ (λ w, wsum (take i t) ≤ w < wsum (take i t) + tickets r)).
  - rewrite count_interval by lia. f_equal. lia.
  - intros w [Hw0 _]%elem_of_seqZ. rewrite lottery_pick_iff by done. split.
    + intros (r' & ? & ? & ?). by simplify_eq.
    + intros. by exists r.
Qed.

(** ** The metrics pass *)

(** The slots whose completion the first loop records, and what it does. *)
Definition lu_done (r : proc) : bool := is_done r && (completion_time r <=? creation_time r).
Definition lu_slot (t : Z) (r : proc) : proc :=
  if lu_done r then
    let r := r <| completion_time := i32 t |> in
    if total_run_time r =? 0 then r <| total_run_time := 1 |> else r
  else if bool_decide (state r = RUNNABLE) && (0 <? enqueue_time r)
  then (add_ready t r) <| enqueue_time := i32 t |> else r.
Definition lu_perf (t : Z) (r : proc) (pd : list PerfData) : list PerfData :=
  if lu_done r then perf_put (perf_of (lu_slot t r)) pd else pd.

Lemma lu_done_state r : lu_done r = true → state r ≠ RUNNABLE.
Proof. unfold lu_done, is_done. rewrite andb_true_iff, bool_decide_eq_true. by intros [[->| ->] _]. Qed.

Lemma lu_slot_state t r : state (lu_slot t r) = state r.
Proof. unfold lu_slot. repeat case_match; done. Qed.

Lemma lu_slot_tickets t r : tickets (lu_slot t r) = tickets r.
Proof. unfold lu_slot. repeat case_match; done. Qed.

Lemma ptable_id k : k <| ptable ::= λ t, t |> = k.
Proof. by destruct k. Qed.
Lemma perf_data_id k : k <| perf_data ::= λ t, t |> = k.
Proof. by destruct k. Qed.

Lemma alter_id_at (f : proc → proc) p (t : list proc) : f (t !!! p) = t !!! p → alter f p t = t.
Proof.
  intros H. rewrite (alter_ext_at f id) by done. apply list_eq. intros i.
  rewrite lookup_alter_list. case_decide; [|done]. by destruct (t !! i).
Qed.

Lemma upd_ptable_ext f g k : f (ptable k) = g (ptable k) → k <| ptable ::= f |> = k <| ptable ::= g |>.
Proof. unfold upd. cbn. by intros ->. Qed.
Lemma upd_perf_ext f g k : f (perf_data k) = g (perf_data k) → k <| perf_data ::= f |> = k <| perf_data ::= g |>.
Proof. unfold upd. cbn. by intros ->. Qed.

Lemma kwp_lottery_update p Q Y k `{!Mono Y} :
  cpu_wf k → Lticks ∉ held k → Lperf ∉ held k → (p < length (ptable k))%nat →
  Q tt (k <| ptable ::= alter (lu_slot (ticks k)) p |>
          <| perf_data ::= lu_perf (ticks k) (ptable k !!! p) |>) →
  kwp (lottery_update p) Q Y k.
Proof.
  intros Hwf Ht Hpf Hp HQ. unfold lottery_update. do 2 pstep. kstep.
  fold (lu_done (ptable k !!! p)). set (r := ptable k !!! p) in *.
  destruct (lu_done r) eqn:Hd.
  - psteps. apply kwp_perf_store; [done|]. psteps.
    cbn [ptable upd perf_data acq]. rewrite alter_alter, alter_lookup_total by done. fold r.
    rewrite bool_decide_eq_false_2; cycle 1.
    { cbv beta. pose proof (lu_done_state _ Hd). by case_match. }
    cbn [andb]. psteps. eapply eq_rect; [exact HQ|].
    rewrite pset_pset. unfold lu_perf. rewrite Hd.
    replace (perf_of (lu_slot (ticks k) r)) with (perf_of ((λ r0 : proc,
         if total_run_time (r0 <| completion_time := i32 (ticks k) |>) =? 0
         then r0 <| completion_time := i32 (ticks k) |> <| total_run_time := 1 |>
         else r0 <| completion_time := i32 (ticks k) |>) r)) by (unfold lu_slot; by rewrite Hd).
    f_equal. apply upd_ptable_ext, alter_ext_at. unfold lu_slot. fold r. by rewrite Hd.
  - psteps. fold r. destruct (bool_decide _ && _) eqn:Hr; psteps.
    + eapply eq_rect; [exact HQ|]. unfold lu_perf. rewrite Hd, perf_data_id, pset_pset.
      apply upd_ptable_ext, alter_ext_at. unfold lu_slot. fold r. by rewrite Hd, Hr.
    + eapply eq_rect; [exact HQ|]. unfold lu_perf. rewrite Hd, perf_data_id.
      etrans; [|apply ptable_id]. apply upd_ptable_ext, alter_id_at. unfold lu_slot.
      fold r. by rewrite Hd, Hr.
Qed.

(** The state after the pass over the first [i] slots. *)
Definition lu_st (k : kernel) (i : nat) : kernel :=
  k <| ptable ::= λ t, map (lu_slot (ticks k)) (take i t) ++ drop i t |>
    <| perf_data ::= λ pd, foldl (λ pd r, lu_perf (ticks k) r pd) pd (take i (ptable k)) |>.

Lemma alter_take_drop (f : proc → proc) i (t : list proc) : (i < length t)%nat →
  alter f i (map f (take i t) ++ drop i t) = map f (take (S i) t) ++ drop (S i) t.
Proof.
  intros (r & Hr)%lookup_lt_is_Some. rewrite (take_S_r _ _ _ Hr), (drop_S _ _ _ Hr).
  assert (i = length (map f (take i t)) + 0)%nat as Hi.
  { rewrite length_map, length_take_le; [lia|]. apply lookup_lt_Some in Hr. lia. }
  rewrite Hi at 1. rewrite alter_app_r. cbn. by rewrite map_app, <- app_assoc.
Qed.

Lemma lookup_take_drop (f : proc → proc) i (t : list proc) : (i < length t)%nat →
  (map f (take i t) ++ drop i t) !!! i = t !!! i.
Proof.
  intros Hi. rewrite !list_lookup_total_alt, lookup_app_r; rewrite length_map, length_take_le by lia; [|done].
  rewrite lookup_drop. do 2 f_equal. lia.
Qed.

Lemma kwp_lottery_updates Q Y k `{!Mono Y} :
  cpu_wf k → Lticks ∉ held k → Lperf ∉ held k → length (ptable k) = NPROC →
  Q tt (lu_st k NPROC) → kwp (for_up NPROC 0 lottery_update) Q Y k.
Proof.
  intros Hwf Ht Hpf Hlen HQ.
  eapply kwp_mono; [done|apply (kwp_for_up (λ i d, d = lu_st k i)); [done|..]|].
  - by destruct k.
  - intros i d Hi ->. apply kwp_lottery_update; unfold lu_st; [done|kside|kside|kside| |].
    + cbn -[lu_slot]. rewrite length_app, length_map, length_drop, length_take. lia.
    + unfold upd. cbn -[lu_slot lu_perf alter take drop]. rewrite lookup_take_drop, alter_take_drop by lia.
      destruct (lookup_lt_is_Some_2 (ptable k) i) as [r Hr]; [lia|].
      rewrite (take_S_r _ _ _ Hr), foldl_app. cbn -[lu_slot lu_perf].
      by rewrite list_lookup_total_alt, Hr.
  - intros [] d ->. exact HQ.
Qed.

(** ** The draw *)

(** The slot that wins the draw from state [k]. *)
Definition winner (k : kernel) : option nat :=
  lottery_pick (rand15 (lcg (seed k)) mod wsum (ptable k)) 0 (ptable k).

(** The tables the lottery is defined on. *)
Definition draw_ok (t : list proc) : Prop :=
  length t = NPROC ∧ tickets_pos t ∧ wsum t < 2147483648.

Lemma winner_Some k : draw_ok (ptable k) → 0 < wsum (ptable k) →
  ∃ p, winner k = Some p ∧ (p < NPROC)%nat ∧ state (ptable k !!! p) = RUNNABLE.
Proof.
  intros (Hlen & Ht & Hs) Hpos. unfold winner.
  pose proof (Z.mod_pos_bound (rand15 (lcg (seed k))) (wsum (ptable k)) Hpos) as Hw.
  destruct (lottery_pick_total (rand15 (lcg (seed k)) mod wsum (ptable k)) (ptable k) 0)
    as [p Hp]; [done|lia..|]. exists p. split; [done|].
  apply lottery_pick_iff in Hp as (r & Hr & Hst & _); [|done|done|lia].
  rewrite <- Hlen, list_lookup_total_alt, Hr. split; [by eapply lookup_lt_Some|done].
Qed.

Lemma kwp_lottery_choose p Q Y k `{!Mono Y} : draw_ok (ptable k) → 0 < wsum (ptable k) →
  winner k = Some p → Q p (k <| seed ::= lcg |>) → kwp (lottery_choose (wsum (ptable k))) Q Y k.
Proof.
  intros (Hlen & Ht & Hs) Hpos Hw HQ. unfold lottery_choose, get_random. ksteps.
  rewrite (i32_small (_ - 0)), Z.sub_0_r by lia. replace (wsum (ptable k) =? 0) with false by lia.
  ksteps. rewrite u32_small by lia.
  pose proof (Z.mod_pos_bound (rand15 (lcg (seed k))) (wsum (ptable k)) Hpos).
  rewrite i32_small, Z.add_0_r by lia. fold (winner k). rewrite Hw. by ksteps.
Qed.

(** ** Dispatch *)
Lemma kwp_switchuvm p Q Y k `{!Mono Y} : cpu_wf k →
  kstack (ptable k !!! p) ≠ 0 → pgdir (ptable k !!! p) ≠ 0 →
  Q tt (k <| kcpu ::= λ c, c <| cts := mkTs (u32 (kstack (ptable k !!! p) + KSTACKSIZE))
                                         (Z.shiftl SEG_KDATA 3) 0xFFFF |> |>
          <| cr3 := V2P (pgdir (ptable k !!! p)) |>) →
  kwp (switchuvm p) Q Y k.
Proof.
  intros Hwf Hk Hp HQ. unfold switchuvm. do 2 pstep.
  rewrite (proj2 (Z.eqb_neq _ _) Hk), (proj2 (Z.eqb_neq _ _) Hp). by psteps.
Qed.

(** The slot and the state the lottery hands the processor to. *)
Definition disp_slot (t : Z) (r : proc) : proc :=
  let r := r <| state := RUNNING |> in
  if 0 <? enqueue_time r then (add_ready t r) <| enqueue_time := 0 |> else r.
Definition to_user (p : nat) (k : kernel) : kernel :=
  k <| kcpu ::= λ c, c <| cproc := Some p |> |>
    <| kcpu ::= λ c, c <| cts := mkTs (u32 (kstack (ptable k !!! p) + KSTACKSIZE))
                                   (Z.shiftl SEG_KDATA 3) 0xFFFF |> |>
    <| cr3 := V2P (pgdir (ptable k !!! p)) |>.
Definition lottery_disp_st (p : nat) (k : kernel) : kernel :=
  (to_user p k) <| ptable ::= alter (disp_slot (ticks k)) p |>.

(** A slot that can run has a kernel stack and a page table. *)
Definition runnable_ok (t : list proc) : Prop :=
  Forall (λ r, state r = RUNNABLE → kstack r ≠ 0 ∧ pgdir r ≠ 0) t.

Lemma kwp_lottery_dispatch p Q Y k `{!Mono Y} : cpu_wf k → Lticks ∉ held k →
  (p < length (ptable k))%nat → kstack (ptable k !!! p) ≠ 0 → pgdir (ptable k !!! p) ≠ 0 →
  Q (ticks k) (lottery_disp_st p k) → kwp (lottery_dispatch p) Q Y k.
Proof.
  intros Hwf Ht Hp Hks Hpg HQ. unfold lottery_dispatch, set_cproc. do 3 pstep.
  apply kwp_switchuvm; [done|kside|done|done|]. do 4 pstep. cbn [ptable upd].
  rewrite alter_lookup_total by done.
  destruct (0 <? _) eqn:He; psteps; rewrite ?pset_pset.
  - eapply eq_rect; [exact HQ|]. apply upd_ptable_ext, alter_ext_at. unfold disp_slot. cbn. cbn in He. by rewrite He.
  - eapply eq_rect; [exact HQ|]. apply upd_ptable_ext, alter_ext_at. unfold disp_slot. cbn. cbn in He. by rewrite He.
Qed.

(** ** A turn of the lottery *)
#[export] Instance eflags_proper g : Proper (keqv ==> keqv) (upd (proj:=eflags_if) g).
Proof.
  intros k k' H. change (upd (proj:=eflags_if) g (kdata k) = upd (proj:=eflags_if) g (kdata k')).
  by rewrite H.
Qed.

(** The state in which a turn draws: interrupts on, the lock taken, the
    metrics brought up to date. *)
Definition draw_st (k : kernel) : kernel := lu_st (acq Lptable (k <| eflags_if := true |>)) NPROC.

Lemma ptable_lu_st k : length (ptable k) = NPROC → ptable (lu_st k NPROC) = map (lu_slot (ticks k)) (ptable k).
Proof.
  intros H. unfold lu_st. cbn -[lu_slot take drop NPROC].
  by rewrite take_ge, drop_ge, app_nil_r by (rewrite H; done).
Qed.

Lemma ptable_draw_st k : length (ptable k) = NPROC → ptable (draw_st k) = map (lu_slot (ticks k)) (ptable k).
Proof. intros H. pose proof (ptable_lu_st (acq Lptable (k <| eflags_if := true |>)) H) as E. exact E. Qed.

Lemma wsum_lu t u : wsum (map (lu_slot t) u) = wsum u.
Proof.
  unfold wsum, wt. induction u as [|r u IH]; cbn -[lu_slot]; [done|].
  by rewrite IH, lu_slot_state, lu_slot_tickets.
Qed.

Lemma lottery_pick_lu t w u : ∀ cur, lottery_pick w cur (map (lu_slot t) u) = lottery_pick w cur u.
Proof.
  induction u as [|r u IH]; intros cur; cbn -[lu_slot]; [done|].
  rewrite lu_slot_state, lu_slot_tickets. by rewrite !IH.
Qed.

Lemma draw_ok_lu t u : draw_ok u → draw_ok (map (lu_slot t) u).
Proof.
  intros (Hlen & Ht & Hs). split_and!; [by rewrite length_map| |by rewrite wsum_lu].
  unfold tickets_pos. rewrite Forall_fmap. eapply Forall_impl; [exact Ht|].
  intros r. cbn -[lu_slot]. by rewrite lu_slot_state, lu_slot_tickets.
Qed.

Lemma lookup_map_lu t u p : (p < length u)%nat → map (lu_slot t) u !!! p = lu_slot t (u !!! p).
Proof.
  intros (r & Hr)%lookup_lt_is_Some. by rewrite !list_lookup_total_alt, list_lookup_fmap, Hr.
Qed.

Lemma runnable_at t p : runnable_ok t → (p < length t)%nat → state (t !!! p) = RUNNABLE →
  kstack (t !!! p) ≠ 0 ∧ pgdir (t !!! p) ≠ 0.
Proof.
  intros H (r & Hr)%lookup_lt_is_Some. rewrite list_lookup_total_alt, Hr. cbn.
  by eapply Forall_lookup_1 in H.
Qed.

Lemma lu_slot_mem t r : kstack (lu_slot t r) = kstack r ∧ pgdir (lu_slot t r) = pgdir r.
Proof. unfold lu_slot. repeat case_match; done. Qed.

Lemma winner_draw_st k : draw_ok (ptable k) → winner (draw_st k) = winner k.
Proof.
  intros (Hlen & _). unfold winner. rewrite ptable_draw_st by done.
  by rewrite wsum_lu, lottery_pick_lu.
Qed.

Lemma kwp_lottery_run p Q Y d `{!Mono Y} : cpu_wf d → Lticks ∉ held d →
  draw_ok (ptable d) → 0 < wsum (ptable d) → winner d = Some p → (p < NPROC)%nat →
  state (ptable d !!! p) = RUNNABLE → kstack (ptable d !!! p) ≠ 0 → pgdir (ptable d !!! p) ≠ 0 →
  Y (lottery_disp_st p (d <| seed ::= lcg |>)) (Some (kwp (lottery_resume p (ticks d)) Q Y)) →
  kwp (lottery_run (wsum (ptable d))) Q Y d.
Proof.
  intros Hwf Ht Hd Hpos Hw Hp Hst Hks Hpg HY. pose proof Hd as (Hlen & _).
  unfold lottery_run. kstep. apply (kwp_lottery_choose p); [done..|].
  do 2 pstep. rewrite decide_True by done. kstep.
  apply kwp_lottery_dispatch; [done|kside|kside|cbn; lia|done|done|].
  kstep. apply kwp_swtch; [done|]. exact HY.
Qed.

Lemma kwp_lottery_turn Q Y k `{!Mono Y} : cpu_wf k → held k = [] →
  draw_ok (ptable k) → runnable_ok (ptable k) →
  (wsum (ptable k) = 0 → Q tt (lu_st (k <| eflags_if := true |>) NPROC)) →
  (∀ p, winner k = Some p → 0 < wsum (ptable k) → (p < NPROC)%nat → state (ptable k !!! p) = RUNNABLE →
     Y (lottery_disp_st p ((draw_st k) <| seed ::= lcg |>))
       (Some (kwp (lottery_resume p (ticks k)) (λ _, kwp (release Lptable) Q Y) Y))) →
  kwp lottery_turn Q Y k.
Proof.
  intros Hwf Hh Hd Hr H0 HY. pose proof Hd as (Hlen & Ht & Hs).
  unfold lottery_turn, sti. do 2 kstep.
  set (k0 := k <| eflags_if := true |>) in *.
  assert (cpu_wf k0) as Hwf0.
  { destruct Hwf as (? & ? & ?). unfold cpu_wf. cbn. rewrite Hh in *. done. }
  assert (∀ l, l ∉ held k0) as Hl by (intros; cbn; rewrite Hh; apply not_elem_of_nil).
  do 3 kstep. apply kwp_lottery_updates; [done|kside|kside|kside|done|].
  assert (cpu_wf (draw_st k)) as Hwd by (unfold draw_st, lu_st; fold k0; kside).
  assert (Lticks ∉ held (draw_st k)) as Htd by (unfold draw_st, lu_st; fold k0; kside).
  change (lu_st (acq Lptable k0) NPROC) with (draw_st k).
  pose proof (ptable_draw_st k Hlen) as Hpt.
  assert (wsum (ptable (draw_st k)) = wsum (ptable k)) as Hws by by rewrite Hpt, wsum_lu.
  kstep. eapply kwp_gets; [solve_reads|done|].
  rewrite total_tickets_eq, Hws; [|rewrite Hpt; apply (draw_ok_lu (ticks k) _ Hd)|lia].
  pose proof (wsum_nonneg _ Ht). kstep. destruct (Z.ltb_spec 0 (wsum (ptable k))) as [Hpos|Hz].
  - destruct (winner_Some k) as (p & Hw & Hp & Hst); [done..|].
    destruct (runnable_at (ptable k) p) as [Hks Hpg]; [done|lia|done|].
    destruct (lu_slot_mem (ticks k) (ptable k !!! p)) as [Eks Epg].
    specialize (HY p Hw Hpos Hp Hst). rewrite <- Hws. change (ticks k) with (ticks (draw_st k)) in HY.
    apply (kwp_lottery_run p); [done|done|done| |lia|by rewrite winner_draw_st|done|..].
    { rewrite Hpt. by apply draw_ok_lu. }
    all: rewrite ?Hpt, ?lookup_map_lu, ?lu_slot_state, ?Eks, ?Epg by lia; done.
  - kstep. unfold draw_st, lu_st. fold k0. kstep. apply H0. lia.
Qed.

(** ** Accounting *)

(** Time on the processor since [rs], at least one tick. *)
Definition run_time (rs t : Z) : Z := if u32 (t - rs) =? 0 then 1 else u32 (t - rs).
Definition acct_slot (rs t : Z) (r : proc) : proc :=
  let r := r <| total_run_time := i32 (total_run_time r + run_time rs t) |>
             <| runticks := i32 (runticks r + run_time rs t) |> in
  if is_done r then r <| completion_time := i32 t |> else r.
Definition lottery_acct_st (p : nat) (rs : Z) (k : kernel) : kernel :=
  let r := acct_slot rs (ticks k) (ptable k !!! p) in
  let k1 := k <| cr3 := V2P (kpgdir k) |> <| ptable ::= alter (acct_slot rs (ticks k)) p |> in
  (if is_done r
   then k1 <| last_completion_time := u32 (i32 (ticks k)) |> <| perf_data ::= perf_put (perf_of r) |>
   else k1) <| kcpu ::= λ c, c <| cproc := None |> |>.

Lemma is_done_acct rs t r : is_done (acct_slot rs t r) = is_done r.
Proof. unfold acct_slot. by case_match. Qed.

Lemma acct_slot_eq rs t r : acct_slot rs t r =
  if is_done r
  then r <| total_run_time := i32 (total_run_time r + run_time rs t) |>
         <| runticks := i32 (runticks r + run_time rs t) |> <| completion_time := i32 t |>
  else r <| total_run_time := i32 (total_run_time r + run_time rs t) |>
         <| runticks := i32 (runticks r + run_time rs t) |>.
Proof. done. Qed.

Lemma kwp_lottery_resume p rs Q Y k `{!Mono Y} : cpu_wf k → Lticks ∉ held k → Lperf ∉ held k →
  (p < length (ptable k))%nat → Q tt (lottery_acct_st p rs k) → kwp (lottery_resume p rs) Q Y k.
Proof.
  intros Hwf Ht Hpf Hp HQ. unfold lottery_resume, switchkvm, lottery_account, set_cproc.
  psteps. fold (run_time rs (ticks k)). cbn [ptable upd]. rewrite alter_alter, alter_lookup_total by done.
  unfold lottery_acct_st in HQ. rewrite is_done_acct in HQ.
  change (is_done (_ <| runticks := _ |>)) with (is_done (ptable k !!! p)).
  destruct (is_done (ptable k !!! p)) eqn:Hd; psteps.
  - cbn [ptable upd acq]. rewrite !alter_alter, alter_lookup_total by done.
    apply kwp_perf_store; [done|]. psteps. eapply eq_rect; [exact HQ|].
    rewrite !pset_pset, (acct_slot_eq _ _ (ptable k !!! p)), Hd. do 3 f_equal.
    apply upd_ptable_ext, alter_ext_at. rewrite acct_slot_eq. cbn [ptable upd]. by rewrite Hd.
  - eapply eq_rect; [exact HQ|]. rewrite !pset_pset. f_equal.
    apply upd_ptable_ext, alter_ext_at. rewrite acct_slot_eq. cbn [ptable upd]. by rewrite Hd.
Qed.

(** ** The lottery's properties *)

(** C16: when the runnable processes have positive numbers of tickets whose total
    fits an int, each of them wins with exactly as many of the numbers below the
    total as it has tickets. *)
Theorem lottery_fair t i r : draw_ok t → t !! i = Some r → state r = RUNNABLE →
  length (filter (λ w, lottery_pick w 0 t = Some i) (seqZ 0 (total_tickets t))) = Z.to_nat (tickets r).
Proof. intros (Hlen & Ht & Hs) Hi Hr. rewrite total_tickets_eq by done. by apply lottery_fair_aux. Qed.

(** A runnable process, and a table with two of them, of 3 and 5 tickets. *)
Definition ready_proc (x tk ks pg : Z) : proc :=
  proc0 <| state := RUNNABLE |> <| pid := x |> <| tickets := tk |> <| kstack := ks |> <| pgdir := pg |>.
Definition two_procs : list proc :=
  <[1%nat := ready_proc 1 3 0x8dffd000 0x8dffe000]>
    (<[4%nat := ready_proc 2 5 0x8dffa000 0x8dffb000]> (replicate NPROC proc0)).
Definition demo_image : linker := mkLinker 0x80115000 0x80108000 0x80105000 0x80103000 [0].
Definition two_kernel : kernel := (boot_state demo_image []) <| ptable := two_procs |> <| ticks := 100 |>.

Lemma two_procs_ok : draw_ok two_procs ∧ runnable_ok two_procs.
Proof.
  split; [split_and!|]; [done|apply (bool_decide_unpack _)|..|apply (bool_decide_unpack _)];
    vm_compute; done.
Qed.

Lemma lottery_fair_witness :
  length (filter (λ w, lottery_pick w 0 two_procs = Some 4%nat) (seqZ 0 (total_tickets two_procs))) = 5%nat.
Proof. apply (lottery_fair two_procs 4 (ready_proc 2 5 0x8dffa000 0x8dffb000)); [apply two_procs_ok|done|done]. Defined.

Lemma Forall_at (P : proc → Prop) t i : Forall P t → (i < length t)%nat → P (t !!! i).
Proof.
  intros HF (r & Hr)%lookup_lt_is_Some. rewrite list_lookup_total_alt, Hr.
  exact (proj1 (Forall_lookup _ _) HF _ _ Hr).
Qed.

Lemma alter_lookup_ne (f : proc → proc) p i (t : list proc) : i ≠ p → alter f p t !!! i = t !!! i.
Proof. intros. by rewrite !list_lookup_total_alt, list_lookup_alter_ne. Qed.

Lemma ptable_disp p d : ptable (lottery_disp_st p d) = alter (disp_slot (ticks d)) p (ptable d).
Proof. done. Qed.

(** C17: a turn of the lottery with a runnable process gives the processor to the
    winner of the draw, a runnable slot of the table: the process is RUNNING on
    its own page table and kernel stack, only [ptable.lock] is held, its waiting
    time is accounted, and no other process changes state. *)
Theorem lottery_turn_dispatches k : cpu_wf k → held k = [] →
  draw_ok (ptable k) → runnable_ok (ptable k) → 0 < total_tickets (ptable k) →
  ∃ p k' resume, lottery_turn k = Swtch k' resume ∧
    lottery_pick (rand15 (lcg (seed k)) mod total_tickets (ptable k)) 0 (ptable k) = Some p ∧
    (p < NPROC)%nat ∧ state (ptable k !!! p) = RUNNABLE ∧
    ptable k' !!! p = disp_slot (ticks k) (lu_slot (ticks k) (ptable k !!! p)) ∧
    (∀ i, i ≠ p → state (ptable k' !!! i) = state (ptable k !!! i)) ∧
    cproc (kcpu k') = Some p ∧ cr3 k' = V2P (pgdir (ptable k !!! p)) ∧
    esp0 (cts (kcpu k')) = u32 (kstack (ptable k !!! p) + KSTACKSIZE) ∧
    held k' = [Lptable] ∧ ncli (kcpu k') = 1 ∧ eflags_if k' = false.
Proof.
  intros Hwf Hh Hd Hr. pose proof Hd as (Hlen & Ht & Hs). rewrite total_tickets_eq by done. intros Hpos.
  destruct (kwp_switches lottery_turn (λ d, ∃ p, winner k = Some p ∧ (p < NPROC)%nat ∧
    state (ptable k !!! p) = RUNNABLE ∧ d = lottery_disp_st p ((draw_st k) <| seed ::= lcg |>)) k)
    as (k' & r & d & Heq & Hk & p & Hw & Hp & Hst & ->).
  { apply kwp_lottery_turn; [apply _|done..|lia|]. intros p ????. by exists p. }
  exists p, k', r. keqv_rd Hk. rewrite Hpt, Hcproc, Hcr3, Hcts, Hheld, Hncli, Hif.
  destruct (lu_slot_mem (ticks k) (ptable k !!! p)) as [Eks Epg].
  assert (Hpd : ptable (lottery_disp_st p ((draw_st k) <| seed ::= lcg |>)) =
    alter (disp_slot (ticks k)) p (map (lu_slot (ticks k)) (ptable k))).
  { rewrite ptable_disp. change (ticks ((draw_st k) <| seed ::= lcg |>)) with (ticks k).
    change (ptable ((draw_st k) <| seed ::= lcg |>)) with (ptable (draw_st k)).
    by rewrite ptable_draw_st by done. }
  assert (Hrd : ptable ((draw_st k) <| seed ::= lcg |>) !!! p = lu_slot (ticks k) (ptable k !!! p)).
  { change (ptable (draw_st k) !!! p = lu_slot (ticks k) (ptable k !!! p)).
    rewrite ptable_draw_st, lookup_map_lu by lia. done. }
  split_and!; [done..| | | | | | | |done].
  - rewrite Hpd, alter_lookup_total, lookup_map_lu by (rewrite ?length_map; lia). done.
  - intros i Hi. rewrite Hpd, alter_lookup_ne by done.
    destruct (decide (i < length (ptable k))%nat) as [Hl|Hl].
    + by rewrite lookup_map_lu, lu_slot_state.
    + rewrite !list_lookup_total_alt, !lookup_ge_None_2 by (rewrite ?length_map; lia). done.
  - done.
  - cbn -[draw_st V2P lu_slot]. cbn -[draw_st lu_slot] in Hrd. by rewrite Hrd, Epg.
  - cbn -[draw_st V2P lu_slot]. cbn -[draw_st lu_slot] in Hrd. by rewrite Hrd, Eks.
  - cbn. by rewrite Hh.
  - cbn. destruct Hwf as [-> _]. by rewrite Hh.
Qed.

Lemma lottery_turn_dispatches_witness :
  ∃ p k' resume, lottery_turn two_kernel = Swtch k' resume ∧
    lottery_pick (rand15 (lcg (seed two_kernel)) mod total_tickets (ptable two_kernel)) 0
      (ptable two_kernel) = Some p ∧ state (ptable k' !!! p) = RUNNING.
Proof.
  destruct (lottery_turn_dispatches two_kernel) as (p & k' & r & H1 & H2 & _ & _ & H3 & _).
  - split_and!; [done|apply NoDup_nil_2|done].
  - done.
  - apply two_procs_ok.
  - apply two_procs_ok.
  - done.
  - exists p, k', r. refine (conj H1 (conj H2 _)). rewrite H3. unfold disp_slot. by case_match.
Defined.

(** A turn of the lottery when nothing can run changes no process's state,
    brings the metrics up to date and returns with the lock released and
    interrupts enabled. *)
Theorem lottery_turn_idle k : cpu_wf k → held k = [] →
  draw_ok (ptable k) → runnable_ok (ptable k) → total_tickets (ptable k) = 0 →
  ∃ k', lottery_turn k = Ok tt k' ∧ ptable k' = map (lu_slot (ticks k)) (ptable k) ∧
    perf_data k' = foldl (λ pd r, lu_perf (ticks k) r pd) (perf_data k) (ptable k) ∧
    held k' = [] ∧ eflags_if k' = true.
Proof.
  intros Hwf Hh Hd Hr. pose proof Hd as (Hlen & Ht & Hs). rewrite total_tickets_eq by done. intros Hz.
  destruct (kwp_returns lottery_turn (λ _ d, d = lu_st (k <| eflags_if := true |>) NPROC) k)
    as ([] & k' & d & Heq & Hk & ->).
  { apply kwp_lottery_turn; [apply _|done..|]. lia. }
  exists k'. keqv_rd Hk. rewrite Hpt, Hpf, Hheld, Hif. split_and!; [done| | |done|done].
  - by rewrite ptable_lu_st.
  - cbn -[lu_perf take]. by rewrite take_ge by lia.
Qed.

Lemma lottery_turn_idle_witness :
  ∃ k', lottery_turn (boot_state demo_image []) = Ok tt k' ∧ held k' = [].
Proof.
  destruct (lottery_turn_idle (boot_state demo_image [])) as (k' & H1 & _ & _ & H2 & _).
  - split_and!; [done|apply NoDup_nil_2|done].
  - done.
  - split_and!; [done|apply (bool_decide_unpack _); by vm_compute|done].
  - apply (bool_decide_unpack _). by vm_compute.
  - done.
  - exists k'. exact (conj H1 H2).
Defined.

(** when the process gives the processor back, the turn charges it the ticks
    since it was dispatched, at least one; a process that has exited has its
    completion time set and its record stored; and the turn ends with the lock
    released and no current process. *)
Theorem lottery_turn_accounts p rs k : cpu_wf k → held k = [Lptable] →
  length (ptable k) = NPROC → (p < NPROC)%nat →
  ∃ k', (lottery_resume p rs;; release Lptable) k = Ok tt k' ∧
    ptable k' = alter (acct_slot rs (ticks k)) p (ptable k) ∧
    perf_data k' = (if is_done (ptable k !!! p)
                    then perf_put (perf_of (acct_slot rs (ticks k) (ptable k !!! p))) (perf_data k)
                    else perf_data k) ∧
    cproc (kcpu k') = None ∧ cr3 k' = V2P (kpgdir k) ∧ held k' = [] ∧ ncli (kcpu k') = 0.
Proof.
  intros Hwf Hh Hlen Hp.
  destruct (kwp_returns (lottery_resume p rs;; release Lptable)
    (λ _ d, d = rel Lptable (lottery_acct_st p rs k)) k) as ([] & k' & d & Heq & Hk & ->).
  { kstep. apply kwp_lottery_resume; [apply _|done|rewrite Hh; set_solver..|lia|].
    apply (kwp_release_top _ []); [|unfold lottery_acct_st; by case_match|done].
    unfold lottery_acct_st. case_match; kside. }
  exists k'. keqv_rd Hk. rewrite Hpt, Hpf, Hcproc, Hcr3, Hheld, Hncli. split; [done|].
  unfold lottery_acct_st. rewrite is_done_acct. destruct Hwf as [Hn _]. rewrite Hh in Hn.
  destruct (is_done _); (split_and!; [done..| |]); cbn -[filter]; rewrite ?Hh, ?Hn; done.
Qed.

Lemma lottery_turn_accounts_witness :
  ∃ k', (lottery_resume 4 90;; release Lptable) (acq Lptable two_kernel) = Ok tt k' ∧
    total_run_time (ptable k' !!! 4%nat) = 10.
Proof.
  destruct (lottery_turn_accounts 4 90 (acq Lptable two_kernel)) as (k' & H1 & H2 & _).
  - apply cpu_wf_acq; [split_and!; [done|apply NoDup_nil_2|done]|apply not_elem_of_nil].
  - done.
  - done.
  - by apply Nat.ltb_lt.
  - exists k'. refine (conj H1 _). by rewrite H2.
Defined.

(** C35: the generator hands out 15 bits, so a runnable process before which
    32768 or more tickets are counted is never chosen, whatever the seed. *)
Theorem lottery_starves t p s : draw_ok t → 32768 ≤ total_tickets (take p t) →
  lottery_pick (rand15 s mod total_tickets t) 0 t ≠ Some p.
Proof.
  intros (Hlen & Ht & Hs) Hge Hp.
  pose proof (wsum_take_le t p Ht). assert (tickets_pos (take p t)) by by apply Forall_take.
  rewrite total_tickets_eq in Hge by (done || lia). rewrite total_tickets_eq in Hp by done.
  pose proof (rand15_range s). pose proof (Z.mod_le (rand15 s) (wsum t)).
  pose proof (Z.mod_pos_bound (rand15 s) (wsum t)).
  apply lottery_pick_iff in Hp as (r & _ & _ & Hw); [lia|done..|lia].
Qed.

(** A table in which process 4 has 32768 tickets counted before it. *)
Definition heavy_procs : list proc := <[1%nat := ready_proc 1 32768 0x8dffd000 0x8dffe000]> two_procs.

Lemma lottery_starves_witness :
  state (heavy_procs !!! 4%nat) = RUNNABLE ∧
  lottery_pick (rand15 (lcg 1) mod total_tickets heavy_procs) 0 heavy_procs ≠ Some 4%nat.
Proof.
  split; [done|]. apply lottery_starves; [|by vm_compute].
  split_and!; [done|apply (bool_decide_unpack _); by vm_compute|by vm_compute].
Defined.
