(* ===== verification/SchedLive.v ===== *)
(** * The default scheduler serves everyone

    One turn of the round-robin scheduler against any environment: what the
    processes do between a dispatch and the return to the scheduler is a function
    that leaves the other runnable processes runnable. The turn ends, and it
    dispatches every process that was runnable when it began, once. *)
From stdpp Require Import base strings numbers gmap list.
From S2P Require Import Prelude Machine KString Kernel Locks Kalloc Proc ProcSpec Vm Random Sched SchedSpec.

(** ** The slot and the state the scheduler hands the processor to *)
Definition rr_disp_slot (lct t : Z) (r : proc) : proc :=
  let r := r <| state := RUNNING |> in
  let r := if start_time r =? 0 then r <| start_time := i32 lct |> else r in
  if 0 <? enqueue_time r then add_ready t r else r.
Definition rr_disp_st (p : nat) (k : kernel) : kernel :=
  (to_user p k) <| ptable ::= alter (rr_disp_slot (last_completion_time k) (ticks k)) p |>.

Lemma kwp_rr_dispatch p Q Y k `{!Mono Y} : cpu_wf k → Lticks ∉ held k →
  (p < length (ptable k))%nat → kstack (ptable k !!! p) ≠ 0 → pgdir (ptable k !!! p) ≠ 0 →
  Q (ticks k) (rr_disp_st p k) → kwp (rr_dispatch p) Q Y k.
Proof.
  intros Hwf Ht Hp Hks Hpg HQ. unfold rr_dispatch, set_cproc. do 3 pstep.
  apply kwp_switchuvm; [done|kside|done|done|]. psteps. rewrite !pset_pset.
  eapply eq_rect; [exact HQ|]. by apply upd_ptable_ext, alter_ext_at.
Qed.

(** What follows [swtch]. *)
Definition rr_acct_slot (rs t : Z) (r : proc) : proc :=
  let r := r <| total_run_time := i32 (total_run_time r + (t - rs)) |> in
  if is_done r then r <| completion_time := i32 t |> else r.
Definition rr_acct_st (p : nat) (rs : Z) (k : kernel) : kernel :=
  let k1 := k <| cr3 := V2P (kpgdir k) |> <| ptable ::= alter (rr_acct_slot rs (ticks k)) p |> in
  (if is_done (ptable k !!! p) then k1 <| last_completion_time := u32 (i32 (ticks k)) |> else k1)
    <| kcpu ::= λ c, c <| cproc := None |> |>.
Definition rr_resume (p : nat) (rs : Z) : K unit := switchkvm;; rr_account p rs;; set_cproc None.

Lemma kwp_rr_resume p rs Q Y k `{!Mono Y} : cpu_wf k → Lticks ∉ held k → (p < length (ptable k))%nat →
  Q tt (rr_acct_st p rs k) → kwp (rr_resume p rs) Q Y k.
Proof.
  intros Hwf Ht Hp HQ. unfold rr_resume, switchkvm, rr_account, set_cproc. psteps.
  cbn [ptable upd]. rewrite alter_lookup_total by done. unfold rr_acct_st in HQ.
  change (is_done (_ <| total_run_time := _ |>)) with (is_done (ptable k !!! p)).
  destruct (is_done (ptable k !!! p)) eqn:Hd; psteps.
  - eapply eq_rect; [exact HQ|]. rewrite !pset_pset. do 2 f_equal. apply upd_ptable_ext, alter_ext_at.
    unfold rr_acct_slot. cbn [ptable upd]. change (is_done (_ <| total_run_time := _ |>)) with (is_done (ptable k !!! p)). by rewrite Hd.
  - eapply eq_rect; [exact HQ|]. f_equal. apply upd_ptable_ext, alter_ext_at.
    unfold rr_acct_slot. cbn [ptable upd]. change (is_done (_ <| total_run_time := _ |>)) with (is_done (ptable k !!! p)). by rewrite Hd.
Qed.

(** ** A turn against an environment *)

(** The processes dispatched by [o], in order, and the state it ends in, when
    the environment gives the processor back with [env]; at most [n] dispatches. *)
Fixpoint drive (env : kernel → kernel) (n : nat) (o : outcome kernel unit) : option (list (option nat) * kernel) :=
  match o, n with
  | Ok _ s, _ => Some ([], s)
  | Swtch s r, S n' =>
      '(l, e) ← drive env n' (r (env s));
      Some (cproc (kcpu s) :: l, e)
  | _, _ => None
  end.

(** The scheduler's side of the contract at [swtch], and the environment's: it
    comes back with the same lock, and a process other than the one it ran is
    still runnable if it was. *)
Definition lock_only (k : kernel) : Prop := cpu_wf k ∧ held k = [Lptable] ∧ length (ptable k) = NPROC.
Definition fair_env (env : kernel → kernel) : Prop := ∀ s p,
  lock_only s → cproc (kcpu s) = Some p → runnable_ok (ptable s) →
  lock_only (env s) ∧ runnable_ok (ptable (env s)) ∧
  ∀ q, q ≠ p → state (ptable s !!! q) = RUNNABLE → state (ptable (env s) !!! q) = RUNNABLE.

Section live.
Context (env : kernel → kernel) (Henv : fair_env env).

Fixpoint served {A} (o : outcome kernel A) (Q : list (option nat) → A → kernel → Prop) : Prop :=
  match o with
  | Ok a s => Q [] a s
  | Swtch s r => served (r (env s)) (λ l, Q (cproc (kcpu s) :: l))
  | _ => False
  end.
Lemma served_mono {A} (o : outcome kernel A) (Q1 Q2 : list (option nat) → A → kernel → Prop) :
  (∀ l a s, Q1 l a s → Q2 l a s) → served o Q1 → served o Q2.
Proof.
  revert Q1 Q2. induction o as [a s|e s|s r IH|s]; intros Q1 Q2 HQ; simpl; auto. apply IH. auto.
Qed.
Lemma served_bind {A B} (m : K A) (f : A → K B) Q k :
  served (m k) (λ l a s, served (f a s) (λ l', Q (l ++ l'))) → served ((m ≫= f) k) Q.
Proof.
  change ((m ≫= f) k) with (obind f (m k)). generalize (m k). intros o. revert Q.
  induction o as [a s|e s|s r IH|s]; intros Q; simpl; try done. apply (IH _ (λ l, Q (cproc (kcpu s) :: l))).
Qed.
Lemma served_drive o Q : served (A := unit) o Q → ∃ n l s, drive env n o = Some (l, s) ∧ Q l tt s.
Proof.
  revert Q. induction o as [[] s|e s|s r IH|s]; intros Q HQ; simpl in HQ; try done.
  - by exists 0%nat, [], s.
  - destruct (IH _ _ HQ) as (n & l & s' & E & HQ'). exists (S n), (cproc (kcpu s) :: l), s'. simpl. by rewrite E.
Qed.
(** A part that does not switch. *)
Lemma served_returns {A} (m : K A) Q R k : kwp m R no_switch k →
  (∀ a k' d, k' ≃ d → R a d → Q [] a k') → served (m k) Q.
Proof. intros HR HQ. destruct (kwp_returns _ _ _ HR) as (a & k' & d & -> & Hd & HR'). simpl. eauto. Qed.

Definition good (k : kernel) : Prop := lock_only k ∧ runnable_ok (ptable k).

Lemma runnable_ok_alter f p t : (∀ r, state (f r) = state r ∨ state (f r) = RUNNING) →
  (∀ r, kstack (f r) = kstack r ∧ pgdir (f r) = pgdir r) → runnable_ok t → runnable_ok (alter f p t).
Proof.
  intros H1 H2 F. apply Forall_lookup. intros i r. destruct (decide (p = i)) as [<-|N].
  - rewrite list_lookup_alter_eq. intros E. destruct (t !! p) as [r0|] eqn:E0; [|done]. injection E as <-.
    unfold runnable_ok in F. rewrite Forall_lookup in F. specialize (F _ _ E0). destruct (H2 r0) as [-> ->].
    destruct (H1 r0) as [->| ->]; [done|done].
  - rewrite list_lookup_alter_ne by done. unfold runnable_ok in F. rewrite Forall_lookup in F. apply F.
Qed.

(** One slot of the pass. *)
Lemma served_rr_slot p k : good k → (p < NPROC)%nat →
  served (rr_slot p k) (λ l _ s, good s ∧ l = (if decide (state (ptable k !!! p) = RUNNABLE) then [Some p] else []) ∧
    ∀ q, q ≠ p → state (ptable k !!! q) = RUNNABLE → state (ptable s !!! q) = RUNNABLE).
Proof.
  intros [(Hwf & Hh & HL) Hok] Hp. unfold rr_slot. apply served_bind. unfold pget, gets. simpl.
  case_decide as ER; [|simpl; by split].
  destruct (runnable_at (ptable k) p Hok) as [Hks Hpg]; [lia|done|].
  apply served_bind. eapply (served_returns _ _ (λ v d, v = ticks k ∧ d = rr_disp_st p k)).
  { apply kwp_rr_dispatch; [apply _|done|rewrite Hh; set_solver|lia|done|done|done]. }
  intros rs k1 d Hd [-> ->]. keqv_rd Hd. apply served_bind.
  assert (E1 : ptable k1 = alter (rr_disp_slot (last_completion_time k) (ticks k)) p (ptable k)) by by rewrite Hpt.
  assert (O1 : lock_only k1).
  { split; [|split]; [|by rewrite Hheld|rewrite E1, length_alter; done].
    rewrite Hd. apply (cpu_wf_data (λ k0, (k0 <| kcpu ::= λ c, c <| cproc := Some p |> |>
      <| kcpu ::= λ c, c <| cts := mkTs (u32 (kstack (ptable k !!! p) + KSTACKSIZE)) (Z.shiftl SEG_KDATA 3) 0xFFFF |> |>
      <| cr3 := V2P (pgdir (ptable k !!! p)) |>) <| ptable ::= alter (rr_disp_slot (last_completion_time k) (ticks k)) p |>)); [apply _|done]. }
  assert (C1 : cproc (kcpu k1) = Some p) by by rewrite Hcproc.
  assert (OK1 : runnable_ok (ptable k1)).
  { rewrite E1. apply runnable_ok_alter; [|..|done]; intros r; unfold rr_disp_slot, add_ready; repeat case_match; simpl; auto. }
  destruct (Henv k1 p O1 C1 OK1) as ((Hwf2 & Hh2 & HL2) & Hok2 & HR2). simpl.
  eapply (served_returns (rr_resume p (ticks k)) _ (λ _ d, d = rr_acct_st p (ticks k) (env k1))).
  { apply kwp_rr_resume; [apply _|done|rewrite Hh2; set_solver|lia|done]. }
  intros [] k3 d3 Hd3 ->. 
  assert (E3 : ptable k3 = alter (rr_acct_slot (ticks k) (ticks (env k1))) p (ptable (env k1))).
  { destruct (keqv_fields _ _ Hd3) as (_ & _ & _ & _ & _ & _ & _ & -> & _). unfold rr_acct_st. by destruct (is_done _). }
  split_and!.
  - split; [split; [|split]|].
    + rewrite Hd3. unfold rr_acct_st. destruct (is_done _).
      * apply (cpu_wf_data (λ k0, k0 <| cr3 := V2P (kpgdir (env k1)) |> <| ptable ::= _ |> <| last_completion_time := _ |>
          <| kcpu ::= λ c, c <| cproc := None |> |>)); [apply _|done].
      * apply (cpu_wf_data (λ k0, k0 <| cr3 := V2P (kpgdir (env k1)) |> <| ptable ::= _ |>
          <| kcpu ::= λ c, c <| cproc := None |> |>)); [apply _|done].
    + destruct (keqv_fields _ _ Hd3) as (-> & _). unfold rr_acct_st. by destruct (is_done _).
    + by rewrite E3, length_alter.
    + rewrite E3. apply runnable_ok_alter; [|..|done]; intros r; unfold rr_acct_slot; case_match; simpl; auto.
  - simpl. by rewrite C1.
  - intros q Nq Eq. rewrite E3, alter_lookup_ne by done. apply HR2; [done|]. rewrite E1, alter_lookup_ne by done. done.
Qed.

Lemma served_rr_pass n i k : good k → (i + n ≤ NPROC)%nat →
  served (for_up n i rr_slot k) (λ l _ s, good s ∧ NoDup l ∧
    (∀ x, x ∈ l → ∃ q, x = Some q ∧ (i ≤ q < i + n)%nat) ∧
    ∀ q, (i ≤ q < i + n)%nat → state (ptable k !!! q) = RUNNABLE → Some q ∈ l).
Proof.
  revert i k. induction n as [|n IH]; intros i k G Hn; cbn [for_up].
  { simpl. split_and!; [done|apply NoDup_nil_2|by intros x ?%elem_of_nil|lia]. }
  apply served_bind. eapply served_mono; [|apply served_rr_slot; [done|lia]]. cbv beta.
  intros l1 [] s1 (G1 & E1 & K1). eapply served_mono; [|apply IH; [done|lia]]. cbv beta.
  intros l2 [] s2 (G2 & N2 & I2 & K2). split_and!; [done|..].
  - subst l1. case_decide; [|done]. apply NoDup_cons. split; [|done]. intros J. destruct (I2 _ J) as (q & [= <-] & Hq). lia.
  - subst l1. intros x X. apply elem_of_app in X as [X|X].
    + case_decide; [|by apply elem_of_nil in X]. apply list_elem_of_singleton in X as ->. exists i. split; [done|lia].
    + destruct (I2 _ X) as (q & -> & Hq). exists q. split; [done|lia].
  - intros q Hq Eq. apply elem_of_app. destruct (decide (q = i)) as [->|N].
    + left. subst l1. rewrite decide_True by done. set_solver.
    + right. apply K2; [lia|]. by apply K1.
Qed.

(** C14: No runnable process is passed over. Against any environment that leaves
    the other runnable processes runnable, a turn of the default scheduler ends,
    it dispatches every process that was runnable when it began, each process at
    most once and no slot outside the table, and it leaves no lock held. *)
Theorem rr_serves k : cpu_wf k → held k = [] → length (ptable k) = NPROC → runnable_ok (ptable k) →
  ∃ n l s, drive env n (rr_turn k) = Some (l, s) ∧ held s = [] ∧ NoDup l ∧
    (∀ x, x ∈ l → ∃ q, x = Some q ∧ (q < NPROC)%nat) ∧
    (∀ q, (q < NPROC)%nat → state (ptable k !!! q) = RUNNABLE → Some q ∈ l).
Proof.
  intros Hwf Hh HL Hok.
  apply (served_drive (rr_turn k) (λ l _ s, held s = [] ∧ NoDup l ∧ (∀ x, x ∈ l → ∃ q, x = Some q ∧ (q < NPROC)%nat) ∧
    ∀ q, (q < NPROC)%nat → state (ptable k !!! q) = RUNNABLE → Some q ∈ l)).
  unfold rr_turn. apply served_bind. unfold sti. simpl. set (k0 := k <| eflags_if := true |>).
  assert (W0 : cpu_wf k0).
  { destruct Hwf as (A1 & A2 & _). split; [done|]. split; [done|]. simpl. by rewrite Hh. }
  apply served_bind. rewrite acquire_ok by (done || (simpl; rewrite Hh; apply not_elem_of_nil)). simpl.
  assert (G : good (acq Lptable k0)).
  { split; [|done]. split; [|split]; [|simpl; by rewrite Hh|done].
    apply cpu_wf_acq; [done|]. simpl. rewrite Hh. apply not_elem_of_nil. }
  apply served_bind. eapply served_mono; [|apply (served_rr_pass NPROC 0); [done|lia]]. cbv beta.
  intros l [] s (((W & Hs & _) & _) & N & I & K).
  rewrite release_ok by (done || (rewrite Hs; set_solver)). simpl. rewrite app_nil_r. split_and!.
  - rewrite Hs. apply held_rel_top. apply not_elem_of_nil.
  - done.
  - intros x X. destruct (I x X) as (q & -> & Hq). exists q. split; [done|lia].
  - intros q Hq Eq. apply K; [lia|done].
Qed.
End live.

(** Two runnable processes, which yield as soon as they run. *)
Definition yields (s : kernel) : kernel :=
  match cproc (kcpu s) with
  | Some p => s <| ptable ::= alter (λ r, if decide (kstack r ≠ 0 ∧ pgdir r ≠ 0) then r <| state := RUNNABLE |> else r) p |>
  | None => s
  end.
Lemma yields_fair : fair_env yields.
Proof.
  intros s p (Hwf & Hh & HL) Hc Hok. unfold yields. rewrite Hc. split_and!.
  - split; [|split]; [|done|simpl; by rewrite length_alter].
    apply (cpu_wf_data (λ k, k <| ptable ::= _ |>)); [apply _|done].
  - simpl. apply Forall_lookup. intros i r. destruct (decide (p = i)) as [<-|N].
    + rewrite list_lookup_alter_eq. destruct (ptable s !! p) as [r0|] eqn:E; [|done]. intros [= <-].
      case_decide; [done|]. unfold runnable_ok in Hok. rewrite Forall_lookup in Hok. by apply (Hok p).
    + rewrite list_lookup_alter_ne by done. unfold runnable_ok in Hok. rewrite Forall_lookup in Hok. by apply Hok.
  - intros q N E. simpl. by rewrite alter_lookup_ne.
Qed.
Lemma rr_serves_witness : ∃ n l s, drive yields n (rr_turn two_kernel) = Some (l, s) ∧ Some 1%nat ∈ l ∧ NoDup l.
Proof.
  destruct (rr_serves yields yields_fair two_kernel) as (n & l & s & E & _ & N & _ & K).
  - split_and!; [done|apply NoDup_nil_2|done].
  - done.
  - by vm_compute.
  - apply two_procs_ok.
  - exists n, l, s. split; [done|]. split; [|done]. apply K; [unfold NPROC; lia|by vm_compute].
Defined.
