(* ===== verification/Sleeplock.v ===== *)
(** * Sleep locks

    [sleeplock.c]. A sleep lock is part of a buffer or of an in-memory inode;
    [slp] names it, [slk] is the spinlock inside it and [schan] its address as
    a sleep channel. *)
From stdpp Require Import base strings numbers gmap list.
From S2P Require Import Prelude Machine KString Kernel Locks Kalloc Proc.

Inductive slp := SBuf (b : nat) | SInode (i : nat).
#[export] Instance slp_eq_dec : EqDecision slp.
Proof. solve_decision. Defined.

Definition slk (l : slp) : lock := match l with SBuf b => Lbufslp b | SInode i => Lislp i end.
Definition schan (l : slp) : chan := match l with SBuf b => Cbufslp b | SInode i => Cislp i end.

Definition get_slp (k : kernel) (l : slp) : sleeplock :=
  match l with SBuf b => bslp (bufs k !!! b) | SInode i => islp (icache k !!! i) end.
Definition set_slp (l : slp) (s : sleeplock) (k : kernel) : kernel :=
  match l with
  | SBuf b => k <| bufs ::= alter (λ r, r <| bslp := s |>) b |>
  | SInode i => k <| icache ::= alter (λ r, r <| islp := s |>) i |>
  end.

Definition initsleeplock (l : slp) : K unit := modify (set_slp l (mkSlk 0 0)).

(** [myproc()->pid] *)
Definition mypid : K Z :=
  q ← myproc;
  p ← deref q;
  r ← pget p;
  mret (pid r).

(** The loop of [acquiresleep], with the inner spinlock held. *)
Fixpoint acquiresleep_loop (n : nat) (l : slp) : K unit :=
  s ← gets (λ k, get_slp k l);
  if istrue (slocked s) then
    sleep (schan l) (Some (slk l));;
    match n with O => waiting | S n' => acquiresleep_loop n' l end
  else skip.

Definition acquiresleep `{!Patience} (l : slp) : K unit :=
  acquire (slk l);;
  acquiresleep_loop patience l;;
  modify (λ k, set_slp l ((get_slp k l) <| slocked := 1 |>) k);;
  x ← mypid;
  modify (λ k, set_slp l ((get_slp k l) <| spid := x |>) k);;
  release (slk l).

Definition releasesleep (l : slp) : K unit :=
  acquire (slk l);;
  modify (λ k, set_slp l ((get_slp k l) <| slocked := 0 |>) k);;
  modify (λ k, set_slp l ((get_slp k l) <| spid := 0 |>) k);;
  wakeup (schan l);;
  release (slk l).

Definition holdingsleep (l : slp) : K bool :=
  acquire (slk l);;
  s ← gets (λ k, get_slp k l);
  r ← (if istrue (slocked s) then x ← mypid; mret (spid s =? x) else mret false);
  release (slk l);;
  mret r.
