(* ===== verification/Bio.v ===== *)
(** * The buffer cache and the disk

    [bio.c]: [NBUF] buffers on a doubly linked list in order of use, threaded
    through [prev] and [next]; slot [NBUF] is the list head [bcache.head]. The
    disk driver is an interface; [memide.c], the driver that keeps the disk in
    memory, is its instance here, and [Ide.v] treats the interrupt-driven one. *)
From stdpp Require Import base strings numbers gmap list.
From S2P Require Import Prelude Machine KString Kernel Locks Kalloc Proc Sleeplock.

(** What the kernel uses of a disk driver: its start, the transfer of a buffer, and
    the handler of the disk's interrupt. *)
Class DiskDriver := { ideinit : K unit; iderw : nat → K unit; ideintr : K unit }.

Definition bget_slot (b : nat) : K buf := gets (λ k, bufs k !!! b).
Definition bset (b : nat) (f : buf → buf) : K unit := modify (λ k, k <| bufs ::= alter f b |>).

Definition has_flag (r : buf) (fl : Z) : bool := istrue (Z.land (bflags r) fl).
Definition clear_flag (fl : Z) (r : buf) : buf := r <| bflags := Z.land (bflags r) (Z.lnot fl) |>.
Definition set_flag (fl : Z) (r : buf) : buf := r <| bflags := Z.lor (bflags r) fl |>.

(** ** memide.c *)

(** [disk] is the image linked to the kernel, and its length is [disksize]. *)
Definition memide_ideinit : K unit := skip.
Definition memide_iderw (b : nat) : K unit :=
  h ← holdingsleep (SBuf b);
  (if h : bool then skip else panic "iderw: buf not locked");;
  r ← bget_slot b;
  (if Z.land (bflags r) (Z.lor B_VALID B_DIRTY) =? B_VALID
   then panic "iderw: nothing to do" else skip);;
  (if bdev r =? 1 then skip else panic "iderw: request not for disk 1");;
  d ← gets disk;
  (if Z.of_nat (length d) <=? blockno r then panic "iderw: block out of range" else skip);;
  (if has_flag r B_DIRTY then
     bset b (clear_flag B_DIRTY);;
     modify (λ k, k <| disk ::= <[Z.to_nat (blockno r) := bdata r]> |>
                    <| dtrace ::= cons (Z.to_nat (blockno r), bdata r) |>)
   else bset b (λ r', r' <| bdata := d !!! Z.to_nat (blockno r) |>));;
  bset b (set_flag B_VALID).
Definition memide_ideintr : K unit := skip.
#[export] Instance memide : DiskDriver := {| ideinit := memide_ideinit; iderw := memide_iderw; ideintr := memide_ideintr |}.

(** ** bio.c *)
Definition bhead : nat := NBUF.

Definition binit_one (b : nat) : K unit :=
  n ← gets (λ k, bnext (bufs k !!! bhead));
  bset b (λ r, r <| bnext := n |>);;
  bset b (λ r, r <| bprev := bhead |>);;
  initsleeplock (SBuf b);;
  bset n (λ r, r <| bprev := b |>);;
  bset bhead (λ r, r <| bnext := b |>).

Definition binit : K unit :=
  bset bhead (λ r, r <| bprev := bhead |>);;
  bset bhead (λ r, r <| bnext := bhead |>);;
  for_up NBUF 0 binit_one.

(** The two searches of [bget]: along [next] for the block, along [prev] for a
    buffer to recycle. The fuel is the number of buffers. *)
Fixpoint bcache_find (fuel : nat) (bs : list buf) (dev blkno : Z) (b : nat) : option nat :=
  match fuel with
  | O => None
  | S f =>
      if decide (b = bhead) then None
      else let r := bs !!! b in
           if (bdev r =? dev) && (blockno r =? blkno) then Some b
           else bcache_find f bs dev blkno (bnext r)
  end.

Fixpoint bcache_victim (fuel : nat) (bs : list buf) (b : nat) : option nat :=
  match fuel with
  | O => None
  | S f =>
      if decide (b = bhead) then None
      else let r := bs !!! b in
           if (refcnt r =? 0) && negb (has_flag r B_DIRTY) then Some b
           else bcache_victim f bs (bprev r)
  end.

Section bio.
Context `{!Patience, !DiskDriver}.

Definition bget (dev blkno : Z) : K nat :=
  acquire Lbcache;;
  o ← gets (λ k, bcache_find (S NBUF) (bufs k) dev blkno (bnext (bufs k !!! bhead)));
  match o with
  | Some b =>
      bset b (λ r, r <| refcnt := u32 (refcnt r + 1) |>);;
      release Lbcache;;
      acquiresleep (SBuf b);;
      mret b
  | None =>
      v ← gets (λ k, bcache_victim (S NBUF) (bufs k) (bprev (bufs k !!! bhead)));
      match v with
      | Some b =>
          bset b (λ r, r <| bdev := dev |>);;
          bset b (λ r, r <| blockno := blkno |>);;
          bset b (λ r, r <| bflags := 0 |>);;
          bset b (λ r, r <| refcnt := 1 |>);;
          release Lbcache;;
          acquiresleep (SBuf b);;
          mret b
      | None => panic "bget: no buffers"
      end
  end.

Definition bread (dev blkno : Z) : K nat :=
  b ← bget dev blkno;
  r ← bget_slot b;
  (if has_flag r B_VALID then skip else iderw b);;
  mret b.

Definition bwrite (b : nat) : K unit :=
  h ← holdingsleep (SBuf b);
  (if h : bool then skip else panic "bwrite");;
  bset b (set_flag B_DIRTY);;
  iderw b.

(** [brelse]: the list part, with the sleep lock released. *)
Definition brelse_list (b : nat) : K unit :=
  acquire Lbcache;;
  bset b (λ r, r <| refcnt := u32 (refcnt r - 1) |>);;
  r ← bget_slot b;
  (if refcnt r =? 0 then
     bset (bnext r) (λ n, n <| bprev := bprev r |>);;
     bset (bprev r) (λ p, p <| bnext := bnext r |>);;
     h ← gets (λ k, bnext (bufs k !!! bhead));
     bset b (λ r, r <| bnext := h |>);;
     bset b (λ r, r <| bprev := bhead |>);;
     h ← gets (λ k, bnext (bufs k !!! bhead));
     bset h (λ n, n <| bprev := b |>);;
     bset bhead (λ n, n <| bnext := b |>)
   else skip);;
  release Lbcache.

Definition brelse (b : nat) : K unit :=
  h ← holdingsleep (SBuf b);
  (if h : bool then skip else panic "brelse");;
  releasesleep (SBuf b);;
  brelse_list b.
End bio.
