(* ===== verification/BioSpec.v ===== *)
(** * Behaviour of the buffer cache

    The cache of [bio.c] over the disk of [memide.c] implements a simple store: a
    disk, blocks whose new contents are pinned in memory, and the buffers the
    running process holds locked. The invariant of the cache is that its list
    threads every buffer once, that no block has two buffers, and that a clean
    buffer agrees with the disk. *)
From stdpp Require Import base strings numbers gmap list.
From S2P Require Import Prelude Machine KString Kernel Locks Kalloc Proc ProcSpec Sleeplock Bio.

(** ** The list of buffers *)

(** From [a] through [l] to [z] along [next], and back along [prev]. *)
Fixpoint chain (N P : nat → nat) (a : nat) (l : list nat) (z : nat) : Prop :=
  match l with
  | [] => N a = z ∧ P z = a
  | x :: l' => N a = x ∧ P x = a ∧ chain N P x l' z
  end.

Lemma chain_app N P a l1 x l2 z : chain N P a (l1 ++ x :: l2) z ↔ chain N P a l1 x ∧ chain N P x l2 z.
Proof. revert a. induction l1 as [|y l1 IH]; intros a; simpl; [|rewrite IH]; tauto. Qed.
Lemma bchain_ext N P N' P' a l z :
  (∀ y, y ∈ a :: l → N' y = N y) → (∀ y, y ∈ z :: l → P' y = P y) → chain N P a l z → chain N' P' a l z.
Proof.
  revert a. induction l as [|x l IH]; intros a HN HP; simpl.
  - rewrite HN, HP by set_solver. done.
  - intros (H1 & H2 & H3). rewrite HN, HP by set_solver. split_and!; [done..|].
    apply IH; [set_solver..|done].
Qed.

Definition fset (f : nat → nat) (i v j : nat) : nat := if decide (i = j) then v else f j.

(** Taking [b] out of the ring, and putting it in behind the head. *)
Lemma fset_eq f i v : fset f i v i = v.
Proof. unfold fset. by rewrite decide_True. Qed.
Lemma fset_ne f i v j : i ≠ j → fset f i v j = f j.
Proof. intros. unfold fset. by rewrite decide_False. Qed.
Lemma chain_first N P a l z : chain N P a l z → N a = default z (head l).
Proof. destruct l; simpl; tauto. Qed.
Lemma chain_last N P a l z : chain N P a l z → P z = default a (last l).
Proof.
  destruct l as [|y l _] using rev_ind; [simpl; tauto|]. rewrite last_snoc, chain_app. simpl. tauto.
Qed.

(** Redirecting the last link of a chain, or its first one. *)
Lemma chain_set_last N P a l z z' : NoDup (a :: l) → z' ∉ l → chain N P a l z →
  chain (fset N (P z) z') (fset P z' (P z)) a l z'.
Proof.
  intros ND NI C. destruct l as [|y l _] using rev_ind.
  - destruct C as [_ ->]. simpl. by rewrite !fset_eq.
  - apply chain_app in C as [C1 [_ E]]. rewrite E. apply chain_app. split.
    + apply NoDup_cons in ND as [ND1 ND2]. apply NoDup_app in ND2 as (_ & D & _).
      eapply bchain_ext; [..|exact C1]; intros w W; apply fset_ne; set_solver.
    + simpl. by rewrite !fset_eq.
Qed.
Lemma chain_set_first N P a a' l z : NoDup l → z ∉ l → a' ∉ l → chain N P a l z →
  chain (fset N a' (N a)) (fset P (N a) a') a' l z.
Proof.
  intros ND NI NA C. destruct l as [|y l].
  - destruct C as [-> _]. simpl. by rewrite !fset_eq.
  - destruct C as (-> & _ & C). simpl. rewrite !fset_eq. split_and!; [done..|].
    apply NoDup_cons in ND as [D _].
    eapply bchain_ext; [..|exact C]; intros w W; apply fset_ne; set_solver.
Qed.

(** Taking [b] out of the ring, and putting it in behind the head. *)
Lemma chain_unlink N P h l1 b l2 : NoDup (h :: l1 ++ b :: l2) → chain N P h (l1 ++ b :: l2) h →
  chain (fset N (P b) (N b)) (fset P (N b) (P b)) h (l1 ++ l2) h.
Proof.
  intros ND C. apply chain_app in C as [C1 C2].
  apply NoDup_cons in ND as [Nh ND]. apply NoDup_app in ND as (D1 & D2 & D3).
  apply NoDup_cons in D3 as [D3 D4].
  destruct l2 as [|c l2].
  - destruct C2 as [-> _]. rewrite app_nil_r. apply chain_set_last; [|set_solver|done].
    apply NoDup_cons. set_solver.
  - destruct C2 as (EN & EP & C2). rewrite EN. apply chain_app. split.
    + apply chain_set_last; [|set_solver|done]. apply NoDup_cons. set_solver.
    + assert (P b = default h (last l1)) as EL by by eapply chain_last.
      assert (P b ∈ h :: l1) as IN.
      { rewrite EL. destruct (last l1) eqn:E; simpl; [|set_solver].
        apply last_Some_elem_of in E. set_solver. }
      apply NoDup_cons in D4 as [D4 D5].
      eapply bchain_ext; [..|exact C2]; intros w W; apply fset_ne; intros <-;
        rewrite ?elem_of_cons in *; set_solver.
Qed.
Lemma chain_push N P h b l : NoDup (h :: b :: l) → chain N P h l h →
  chain (fset (fset N b (N h)) h b) (fset (fset P b h) (N h) b) h (b :: l) h.
Proof.
  intros ND C. apply NoDup_cons in ND as [Nh ND]. apply NoDup_cons in ND as [Nb ND].
  simpl. rewrite fset_eq. split; [done|]. assert (N h = default h (head l)) as E by by eapply chain_first.
  assert (N h ≠ b) as Nhb. { rewrite E. destruct l; simpl in *; set_solver. }
  rewrite fset_ne, fset_eq by done. split; [done|].
  pose proof (chain_set_first _ _ h b _ h ND ltac:(set_solver) Nb C) as C'.
  eapply bchain_ext; [..|exact C']; intros w W.
  - rewrite fset_ne by set_solver. done.
  - unfold fset. repeat case_decide; try done. subst. set_solver.
Qed.

(** ** The store the cache implements *)

(** A buffer the running process holds: its block, what its data are now, and
    whether the log has pinned it. *)
Record hold := mkHold { h_blk : Z; h_data : list Z; h_dirty : bool }.
(** The disk and the blocks written to it, the pinned blocks that no one holds,
    and the buffers held. *)
Record store := mkStore {
  s_disk : list (list Z);
  s_trace : list (nat * list Z);
  s_dirty : gmap Z (list Z);
  s_held : gmap nat hold }.
#[export] Instance eta_store : Eta store := λ r, mkStore (s_disk r) (s_trace r) (s_dirty r) (s_held r).

Definition s_block (s : store) (blk : Z) : list Z := s_disk s !!! Z.to_nat blk.
(** What a reader of a block that no one holds finds. *)
Definition s_view (s : store) (blk : Z) : list Z := default (s_block s blk) (s_dirty s !! blk).
Definition in_range (s : store) (blk : Z) : Prop := 0 ≤ blk < Z.of_nat (length (s_disk s)).

(** One buffer of the cache, of process [x]'s view: what it is held for, and its
    block on the disk and among the pinned ones. *)
Definition slot_ok (x : Z) (o : option hold) (d : list Z) (dd : option (list Z)) (r : buf) : Prop :=
  match o with
  | Some h => bdev r = 1 ∧ blockno r = h_blk h ∧ bdata r = h_data h ∧ dd = None ∧
      bflags r = (if h_dirty h then 6 else 2) ∧ refcnt r = 1 ∧ bslp r = mkSlk 1 x
  | None => refcnt r = 0 ∧ slocked (bslp r) = 0 ∧
      (bflags r = 0 ∧ bdev r ≠ 1 ∨
       bdev r = 1 ∧ bflags r = 2 ∧ bdata r = d ∧ dd = None ∨
       bdev r = 1 ∧ bflags r = 6 ∧ dd = Some (bdata r))
  end.
Definition buf_ok (x : Z) (s : store) (b : nat) (r : buf) : Prop :=
  slot_ok x (s_held s !! b) (s_block s (blockno r)) (s_dirty s !! blockno r) r.

Record cache (x : Z) (s : store) (bs : list buf) : Prop := {
  ca_len : length bs = S NBUF;
  ca_order : ∃ order, order ≡ₚ seq 0 NBUF ∧
    chain (λ b, bnext (bs !!! b)) (λ b, bprev (bs !!! b)) bhead order bhead;
  ca_bufs : ∀ b, (b < NBUF)%nat → buf_ok x s b (bs !!! b);
  ca_held : ∀ b h, s_held s !! b = Some h → (b < NBUF)%nat ∧ in_range s (h_blk h);
  ca_dirty : ∀ blk d, s_dirty s !! blk = Some d → in_range s blk ∧
    ∃ b, (b < NBUF)%nat ∧ s_held s !! b = None ∧ bdev (bs !!! b) = 1 ∧ blockno (bs !!! b) = blk;
  ca_uniq : ∀ b b', (b < NBUF)%nat → (b' < NBUF)%nat → bdev (bs !!! b) = 1 → bdev (bs !!! b') = 1 →
    blockno (bs !!! b) = blockno (bs !!! b') → b = b';
  ca_range : ∀ b, (b < NBUF)%nat → bdev (bs !!! b) = 1 → in_range s (blockno (bs !!! b)) }.

Lemma list_alter_total {A} `{!Inhabited A} (f : A → A) i (l : list A) j : (i < length l)%nat →
  alter f i l !!! j = if decide (i = j) then f (l !!! i) else l !!! j.
Proof.
  intros L. case_decide as E.
  - subst j. apply list_lookup_total_correct. rewrite list_lookup_alter_eq.
    destruct (lookup_lt_is_Some_2 _ _ L) as [y Y]. by rewrite Y, (list_lookup_total_correct _ _ _ Y).
  - rewrite !list_lookup_total_alt. by rewrite list_lookup_alter_ne.
Qed.

(** A step that changes one buffer, its links apart, and what the store says of
    its block. *)
Lemma cache_step x s s' bs b f :
  let r := bs !!! b in let r' := f r in
  cache x s bs → (b < NBUF)%nat → bnext r' = bnext r → bprev r' = bprev r →
  bdev r' = 1 → in_range s (blockno r') → length (s_disk s') = length (s_disk s) →
  (bflags r ≠ 6 ∨ blockno r' = blockno r) →
  (∀ j, (j < NBUF)%nat → j ≠ b → bdev (bs !!! j) = 1 → blockno (bs !!! j) ≠ blockno r') →
  (∀ j, j ≠ b → s_held s' !! j = s_held s !! j) →
  (∀ blk, in_range s blk → blk ≠ blockno r' → s_block s' blk = s_block s blk ∧ s_dirty s' !! blk = s_dirty s !! blk) →
  (∀ blk, ¬ in_range s blk → s_dirty s' !! blk = None) →
  (s_dirty s' !! blockno r' ≠ None → s_held s' !! b = None) →
  (∀ h, s_held s' !! b = Some h → h_blk h = blockno r') →
  buf_ok x s' b r' → cache x s' (alter f b bs).
Proof.
  intros r r' C Hb HN HP Hd Hr HL HF HU HH HS HO HD HK OK.
  pose proof (ca_len _ _ _ C) as Len.
  assert (T : ∀ j, alter f b bs !!! j = if decide (b = j) then r' else bs !!! j).
  { intros j. apply list_alter_total. lia. }
  assert (R : ∀ blk, in_range s' blk ↔ in_range s blk) by (intros; unfold in_range; by rewrite HL).
  split.
  - by rewrite length_alter.
  - destruct (ca_order _ _ _ C) as (o & Po & Co). exists o. split; [done|].
    eapply bchain_ext; [..|exact Co]; intros y _; simpl; rewrite T; case_decide; subst; done.
  - intros j Hj. rewrite T. case_decide as E; [by subst|].
    pose proof (ca_bufs _ _ _ C j Hj) as B. unfold buf_ok in *. rewrite HH by done.
    destruct (decide (bdev (bs !!! j) = 1)) as [D|D].
    + destruct (HS (blockno (bs !!! j))) as [-> ->]; [by eapply ca_range|by apply HU|]. done.
    + unfold slot_ok in *. destruct (s_held s !! j); [tauto|]. naive_solver.
  - intros j h Hh. destruct (decide (j = b)) as [->|N].
    + split; [done|]. rewrite (HK h Hh). by apply R.
    + rewrite HH in Hh by done. rewrite R. by eapply ca_held.
  - intros blk d Hblk. destruct (decide (blk = blockno r')) as [->|N].
    + split; [by apply R|]. exists b. rewrite T, decide_True by done. split_and!; try done. apply HD. by rewrite Hblk.
    + destruct (decide (in_range s blk)) as [I|I]; [|by rewrite HO in Hblk].
      destruct (HS blk I N) as [_ E]. rewrite E in Hblk.
      destruct (ca_dirty _ _ _ C _ _ Hblk) as (_ & j & Hj & Hhj & Dj & Bj). split; [by apply R|]. exists j.
      assert (j ≠ b) as Nj.
      { intros ->. destruct HF as [HF|HF]; [|subst r; congruence].
        pose proof (ca_bufs _ _ _ C b Hb) as B. unfold buf_ok in B. rewrite Hhj, Bj, Hblk in B.
        unfold slot_ok in B. naive_solver. }
      rewrite T, decide_False, HH by done. done.
  - intros i j Hi Hj. rewrite !T. repeat case_decide; subst; try done.
    + intros _ Dj E. destruct (HU j Hj); congruence.
    + intros Di _ E. destruct (HU i Hi); congruence.
    + by apply (ca_uniq _ _ _ C).
  - intros j Hj. rewrite T, R. case_decide; [done|]. by apply (ca_range _ _ _ C).
Qed.

(** ** The searches of [bget] *)
Definition is_for (bs : list buf) (dev blk : Z) (b : nat) : Prop :=
  bdev (bs !!! b) = dev ∧ blockno (bs !!! b) = blk.
Definition is_free (bs : list buf) (b : nat) : Prop :=
  refcnt (bs !!! b) = 0 ∧ has_flag (bs !!! b) B_DIRTY = false.

Lemma bcache_find_spec bs dev blk N P : (∀ b, N b = bnext (bs !!! b)) →
  ∀ order a fuel, chain N P a order bhead → bhead ∉ order → (length order < fuel)%nat →
  match bcache_find fuel bs dev blk (N a) with
  | Some b => b ∈ order ∧ is_for bs dev blk b
  | None => ∀ b, b ∈ order → ¬ is_for bs dev blk b
  end.
Proof.
  intros EN order. induction order as [|y l IH]; intros a [|fuel] C NI Hf; simpl in *; try lia.
  - destruct C as [-> _]. rewrite decide_True by done. intros b []%elem_of_nil.
  - destruct C as (-> & _ & C). rewrite decide_False by set_solver.
    destruct ((bdev (bs !!! y) =? dev) && (blockno (bs !!! y) =? blk)) eqn:E.
    + split; [set_solver|]. unfold is_for. lia.
    + specialize (IH y fuel C ltac:(set_solver) ltac:(lia)). rewrite EN in IH.
      destruct (bcache_find _ _ _ _ _); [destruct IH; split; [set_solver|done]|].
      intros b [->|I]%elem_of_cons; [unfold is_for; lia|by apply IH].
Qed.

Lemma bcache_victim_spec bs N P : (∀ b, P b = bprev (bs !!! b)) →
  ∀ order z fuel, chain N P bhead order z → bhead ∉ order → (length order < fuel)%nat →
  match bcache_victim fuel bs (P z) with
  | Some b => b ∈ order ∧ is_free bs b
  | None => ∀ b, b ∈ order → ¬ is_free bs b
  end.
Proof.
  intros EP order. induction order as [|y l IH] using rev_ind; intros z [|fuel] C NI Hf; try lia.
  - destruct C as [_ ->]. cbn [bcache_victim]. rewrite decide_True by done. intros b []%elem_of_nil.
  - rewrite length_app in Hf. simpl in Hf. apply chain_app in C as [C [_ ->]]. cbn [bcache_victim].
    rewrite decide_False by set_solver.
    destruct ((refcnt (bs !!! y) =? 0) && negb (has_flag (bs !!! y) B_DIRTY)) eqn:E.
    + split; [set_solver|]. unfold is_free. destruct (has_flag _ _); [|split]; [lia..|done].
    + specialize (IH y fuel C ltac:(set_solver) ltac:(lia)). rewrite EP in IH.
      destruct (bcache_victim _ _ _); [destruct IH; split; [set_solver|done]|].
      intros b I. apply elem_of_app in I as [I|I]; [by apply IH|]. apply list_elem_of_singleton in I as ->.
      unfold is_free. destruct (has_flag _ _); [naive_solver|]. simpl in E. lia.
Qed.

Section search.
Context (x : Z) (s : store) (bs : list buf) (C : cache x s bs).

Lemma order_seq order : order ≡ₚ seq 0 NBUF →
  bhead ∉ order ∧ (length order < S NBUF)%nat ∧ NoDup order ∧ ∀ b, b ∈ order ↔ (b < NBUF)%nat.
Proof.
  intros E. assert (M : ∀ b, b ∈ order ↔ (b < NBUF)%nat).
  { intros b. rewrite E, elem_of_seq. lia. }
  split_and!; [|rewrite E, length_seq; lia|rewrite E; apply NoDup_seq|done]. rewrite M. unfold bhead. lia.
Qed.

(** A block that no one holds: its buffer, or none. *)
Lemma find_cached blk :
  match bcache_find (S NBUF) bs 1 blk (bnext (bs !!! bhead)) with
  | Some b => (b < NBUF)%nat ∧ is_for bs 1 blk b
  | None => ∀ b, (b < NBUF)%nat → ¬ is_for bs 1 blk b
  end.
Proof.
  destruct (ca_order _ _ _ C) as (o & Po & Co). destruct (order_seq o Po) as (A & L & _ & M).
  pose proof (bcache_find_spec bs 1 blk _ _ (λ _, eq_refl) o bhead (S NBUF) Co A L) as F.
  destruct (bcache_find _ _ _ _ _); [by rewrite M in F|]. intros b. rewrite <- M. apply F.
Qed.

(** The buffers in use. *)
Definition in_use (b : nat) : Prop := ¬ is_free bs b.
Definition pinned : nat := size (s_dirty s) + size (s_held s).

Lemma slot_free b : (b < NBUF)%nat → is_free bs b ↔
  s_held s !! b = None ∧ (bdev (bs !!! b) = 1 → s_dirty s !! blockno (bs !!! b) = None).
Proof.
  intros Hb. pose proof (ca_bufs _ _ _ C b Hb) as B. unfold buf_ok, slot_ok in B. unfold is_free, has_flag.
  destruct (s_held s !! b) as [h|].
  - destruct B as (_ & _ & _ & _ & _ & -> & _). naive_solver.
  - destruct B as (-> & _ & [[-> ?]|[(? & -> & _ & ->)|(? & -> & ->)]]); simpl; naive_solver.
Qed.

Lemma find_victim : (pinned < NBUF)%nat →
  ∃ b, bcache_victim (S NBUF) bs (bprev (bs !!! bhead)) = Some b ∧ (b < NBUF)%nat ∧ is_free bs b.
Proof.
  intros Hp. destruct (ca_order _ _ _ C) as (o & Po & Co). destruct (order_seq o Po) as (A & L & ND & M).
  pose proof (bcache_victim_spec bs _ _ (λ _, eq_refl) o bhead (S NBUF) Co A L) as F.
  destruct (bcache_victim _ _ _) as [b|]; [exists b; by rewrite M in F|]. exfalso.
  (* every buffer is pinned: an injection into the pinned ones *)
  set (g := λ b, if s_held s !! b then inr b else inl (blockno (bs !!! b)) : Z + nat).
  assert (I : (length (g <$> seq 0 NBUF) ≤ length ((inl <$> (map_to_list (s_dirty s)).*1) ++ (inr <$> (map_to_list (s_held s)).*1)))%nat).
  { apply submseteq_length, NoDup_submseteq.
    - apply NoDup_fmap_2_strong; [|apply NoDup_seq]. intros i j Hi Hj E.
      apply elem_of_seq in Hi, Hj. subst g. simpl in E.
      pose proof (F i) as Fi. pose proof (F j) as Fj. rewrite M, slot_free in Fi, Fj by lia.
      destruct (s_held s !! i) eqn:Ei, (s_held s !! j) eqn:Ej; simplify_eq; try done.
      apply (ca_uniq _ _ _ C); try lia; destruct (decide (bdev (bs !!! i) = 1)), (decide (bdev (bs !!! j) = 1)); naive_solver lia.
    - intros y Y. apply list_elem_of_fmap in Y as (i & -> & Hi). apply elem_of_seq in Hi. subst g. simpl.
      pose proof (F i) as Fi. rewrite M, slot_free in Fi by lia. apply elem_of_app.
      destruct (s_held s !! i) as [h|] eqn:Ei.
      + right. apply list_elem_of_fmap_2, list_elem_of_fmap. exists (i, h). split; [done|]. by apply elem_of_map_to_list.
      + left. apply list_elem_of_fmap_2. destruct (s_dirty s !! blockno (bs !!! i)) as [d|] eqn:Ed; [|naive_solver lia].
        apply list_elem_of_fmap. exists (blockno (bs !!! i), d). split; [done|]. by apply elem_of_map_to_list. }
  rewrite length_app, !length_fmap, length_seq, !length_map_to_list in I. unfold pinned in Hp. lia.
Qed.
End search.

(** ** The operations on the store *)
Definition not_held (s : store) (blk : Z) : Prop := ∀ b h, s_held s !! b = Some h → h_blk h ≠ blk.
Definition s_take (b : nat) (blk : Z) (s : store) : store :=
  s <| s_held ::= <[b := mkHold blk (s_view s blk) (bool_decide (is_Some (s_dirty s !! blk)))]> |>
    <| s_dirty ::= delete blk |>.
Definition s_hold (b : nat) (h : hold) (s : store) : store := s <| s_held ::= <[b := h]> |>.
Definition s_put (blk : Z) (d : list Z) (s : store) : store :=
  s <| s_disk ::= <[Z.to_nat blk := d]> |> <| s_trace ::= cons (Z.to_nat blk, d) |>.
Definition s_drop (b : nat) (h : hold) (s : store) : store :=
  s <| s_held ::= delete b |>
    <| s_dirty ::= if h_dirty h then <[h_blk h := h_data h]> else id |>.

Section ops.
Context (x : Z) (s : store) (bs : list buf) (C : cache x s bs).

Definition lock_slot (r : buf) : buf := r <| refcnt := 1 |> <| bslp := mkSlk 1 x |>.
Definition load_slot (blk : Z) (d : list Z) (r : buf) : buf :=
  lock_slot (r <| bdev := 1 |> <| blockno := blk |> <| bflags := 2 |> <| bdata := d |>).

Lemma dirty_range blk : ¬ in_range s blk → s_dirty s !! blk = None.
Proof.
  intros N. destruct (s_dirty s !! blk) eqn:E; [|done]. by destruct (ca_dirty _ _ _ C _ _ E).
Qed.

Lemma held_slot b h : s_held s !! b = Some h → (b < NBUF)%nat ∧ in_range s (h_blk h) ∧
  slot_ok x (Some h) (s_block s (h_blk h)) (s_dirty s !! h_blk h) (bs !!! b).
Proof.
  intros E. destruct (ca_held _ _ _ C _ _ E) as [Hb R]. split_and!; [done..|].
  pose proof (ca_bufs _ _ _ C b Hb) as B. unfold buf_ok in B. rewrite E in B. unfold slot_ok in *.
  destruct B as (B1 & B2 & B3 & B4 & B5). by rewrite <- B2.
Qed.

Lemma cached_slot b blk : not_held s blk → (b < NBUF)%nat → is_for bs 1 blk b →
  s_held s !! b = None ∧ bdata (bs !!! b) = s_view s blk ∧
  bflags (bs !!! b) = (if bool_decide (is_Some (s_dirty s !! blk)) then 6 else 2) ∧
  refcnt (bs !!! b) = 0 ∧ slocked (bslp (bs !!! b)) = 0.
Proof.
  intros NH Hb [D B]. pose proof (ca_bufs _ _ _ C b Hb) as OK. unfold buf_ok, slot_ok in OK.
  destruct (s_held s !! b) as [h|] eqn:E; [destruct (NH b h E); naive_solver|]. rewrite B in OK.
  unfold s_view. destruct (s_dirty s !! blk) eqn:ED;
    [rewrite bool_decide_eq_true_2 by eauto|rewrite bool_decide_eq_false_2 by (by intros [? ?])];
    simpl; naive_solver.
Qed.

Lemma cache_hit b blk : not_held s blk → (b < NBUF)%nat → is_for bs 1 blk b →
  cache x (s_take b blk s) (alter lock_slot b bs).
Proof.
  intros NH Hb F. pose proof F as [D B]. destruct (cached_slot b blk NH Hb F) as (E1 & E2 & E3 & E4 & E5).
  eapply (cache_step x s); try done.
  - by apply (ca_range _ _ _ C).
  - by right.
  - intros j Hj Nj Dj E. apply Nj. apply (ca_uniq _ _ _ C); simpl in *; congruence.
  - intros j Nj. simpl. by rewrite lookup_insert_ne.
  - intros z _ Nz. simpl in *. rewrite B in Nz. by rewrite lookup_delete_ne.
  - intros z Nz. simpl. apply lookup_delete_None. right. by apply dirty_range.
  - simpl. rewrite B, lookup_delete_eq. done.
  - simpl. intros h. rewrite lookup_insert_eq. intros [= <-]. simpl. done.
  - unfold buf_ok. simpl. rewrite B, lookup_insert_eq, lookup_delete_eq. simpl. rewrite E2, E3. by case_bool_decide.
Qed.

Lemma cache_miss b blk : in_range s blk → (∀ j, (j < NBUF)%nat → ¬ is_for bs 1 blk j) →
  (b < NBUF)%nat → is_free bs b → cache x (s_take b blk s) (alter (load_slot blk (s_block s blk)) b bs).
Proof.
  intros R NF Hb F. assert (ED : s_dirty s !! blk = None).
  { destruct (s_dirty s !! blk) eqn:E; [|done]. destruct (ca_dirty _ _ _ C _ _ E) as (_ & j & Hj & _ & D & B).
    by destruct (NF j). }
  apply (slot_free x s bs C b Hb) in F as [F1 F2].
  eapply (cache_step x s); try done.
  - left. pose proof (ca_bufs _ _ _ C b Hb) as OK. unfold buf_ok, slot_ok in OK. rewrite F1 in OK.
    destruct OK as (_ & _ & [[-> _]|[(_ & -> & _)|(D & _ & E)]]); [done..|]. by rewrite F2 in E.
  - intros j Hj Nj Dj E. by apply (NF j Hj).
  - intros j Nj. simpl. by rewrite lookup_insert_ne.
  - intros z _ Nz. simpl in *. by rewrite lookup_delete_ne.
  - intros z Nz. simpl. apply lookup_delete_None. right. by apply dirty_range.
  - simpl. by rewrite lookup_delete_eq.
  - simpl. intros h. rewrite lookup_insert_eq. by intros [= <-].
  - unfold buf_ok. simpl. rewrite lookup_insert_eq, lookup_delete_eq. simpl. unfold s_view. by rewrite ED.
Qed.

Lemma cache_data b h d : s_held s !! b = Some h →
  cache x (s_hold b (mkHold (h_blk h) d (h_dirty h)) s) (alter (λ r, r <| bdata := d |>) b bs).
Proof.
  intros E. destruct (held_slot b h E) as (Hb & R & D & B & _ & ED & FL & RC & SL).
  eapply (cache_step x s); try done.
  - by apply (ca_range _ _ _ C).
  - by right.
  - intros j Hj Nj Dj Ej. apply Nj. by apply (ca_uniq _ _ _ C).
  - intros j Nj. simpl. by rewrite lookup_insert_ne.
  - intros z Nz. simpl. by apply dirty_range.
  - simpl. by rewrite B, ED.
  - simpl. intros h'. rewrite lookup_insert_eq. by intros [= <-].
  - unfold buf_ok. simpl. rewrite lookup_insert_eq. simpl. rewrite B. done.
Qed.

(** A block is written: the buffer is clean, the disk has its data. *)
Lemma cache_write b h : s_held s !! b = Some h →
  cache x (s_put (h_blk h) (h_data h) (s_hold b (mkHold (h_blk h) (h_data h) false) s))
    (alter (λ r, r <| bflags := 2 |>) b bs).
Proof.
  intros E. destruct (held_slot b h E) as (Hb & R & D & B & BD & ED & FL & RC & SL).
  eapply (cache_step x s); try done.
  - by apply (ca_range _ _ _ C).
  - simpl. by rewrite length_insert.
  - by right.
  - intros j Hj Nj Dj Ej. apply Nj. by apply (ca_uniq _ _ _ C).
  - intros j Nj. simpl. by rewrite lookup_insert_ne.
  - intros z Rz Nz. simpl in *. split; [|done]. unfold s_block. simpl. rewrite B in Nz.
    apply list_lookup_total_insert_ne. unfold in_range in *. lia.
  - intros z Nz. simpl. by apply dirty_range.
  - simpl. by rewrite B, ED.
  - simpl. intros h'. rewrite lookup_insert_eq. by intros [= <-].
  - unfold buf_ok. simpl. rewrite lookup_insert_eq. simpl. rewrite B. done.
Qed.

Lemma cache_pin b h : s_held s !! b = Some h →
  cache x (s_hold b (mkHold (h_blk h) (h_data h) true) s) (alter (λ r, r <| bflags := 6 |>) b bs).
Proof.
  intros E. destruct (held_slot b h E) as (Hb & R & D & B & BD & ED & FL & RC & SL).
  eapply (cache_step x s); try done.
  - by apply (ca_range _ _ _ C).
  - by right.
  - intros j Hj Nj Dj Ej. apply Nj. by apply (ca_uniq _ _ _ C).
  - intros j Nj. simpl. by rewrite lookup_insert_ne.
  - intros z Nz. simpl. by apply dirty_range.
  - simpl. by rewrite B, ED.
  - simpl. intros h'. rewrite lookup_insert_eq. by intros [= <-].
  - unfold buf_ok. simpl. rewrite lookup_insert_eq. simpl. rewrite B. done.
Qed.

(** A buffer is let go: if it is clean its data are those of the disk. *)
Lemma cache_drop b h : s_held s !! b = Some h → (h_dirty h = false → h_data h = s_block s (h_blk h)) →
  cache x (s_drop b h s) (alter (λ r, r <| refcnt := 0 |> <| bslp := mkSlk 0 0 |>) b bs).
Proof.
  intros E Hc. destruct (held_slot b h E) as (Hb & R & D & B & BD & ED & FL & RC & SL).
  eapply (cache_step x s); try done.
  - by apply (ca_range _ _ _ C).
  - by right.
  - intros j Hj Nj Dj Ej. apply Nj. by apply (ca_uniq _ _ _ C).
  - intros j Nj. simpl. by rewrite lookup_delete_ne.
  - intros z Rz Nz. simpl in *. rewrite B in Nz. destruct (h_dirty h); [|done]. by rewrite lookup_insert_ne.
  - intros z Nz. simpl. destruct (h_dirty h); [|by apply dirty_range].
    rewrite lookup_insert_ne by congruence. by apply dirty_range.
  - simpl. by rewrite lookup_delete_eq.
  - simpl. intros h'. by rewrite lookup_delete_eq.
  - unfold buf_ok. simpl. rewrite lookup_delete_eq. simpl. rewrite B. split_and!; [done..|].
    right. rewrite BD, FL. destruct (h_dirty h); [right|left]; rewrite ?lookup_insert_eq; [done|].
    unfold s_block in Hc |- *. simpl. auto.
Qed.
End ops.

(** ** Moving a buffer to the front of the list *)
Definition setP (i v : nat) : list buf → list buf := alter (λ n, n <| bprev := v |>) i.
Definition setN (i v : nat) : list buf → list buf := alter (λ n, n <| bnext := v |>) i.
Definition relink (b : nat) (bs : list buf) : list buf :=
  let r := bs !!! b in
  let bs := setN (bprev r) (bnext r) (setP (bnext r) (bprev r) bs) in
  let bs := setP b bhead (setN b (bnext (bs !!! bhead)) bs) in
  setN bhead b (setP (bnext (bs !!! bhead)) b bs).

Definition same_but_links (r r' : buf) : Prop :=
  bflags r' = bflags r ∧ bdev r' = bdev r ∧ blockno r' = blockno r ∧ bslp r' = bslp r ∧
  refcnt r' = refcnt r ∧ bdata r' = bdata r.

Lemma setP_links i v bs j : (i < length bs)%nat → same_but_links (bs !!! j) (setP i v bs !!! j) ∧
  bnext (setP i v bs !!! j) = bnext (bs !!! j) ∧
  bprev (setP i v bs !!! j) = fset (λ j, bprev (bs !!! j)) i v j.
Proof.
  intros L. unfold setP, fset. rewrite list_alter_total by done. case_decide; subst; done.
Qed.
Lemma setN_links i v bs j : (i < length bs)%nat → same_but_links (bs !!! j) (setN i v bs !!! j) ∧
  bnext (setN i v bs !!! j) = fset (λ j, bnext (bs !!! j)) i v j ∧
  bprev (setN i v bs !!! j) = bprev (bs !!! j).
Proof.
  intros L. unfold setN, fset. rewrite list_alter_total by done. case_decide; subst; done.
Qed.
Lemma same_but_links_trans r1 r2 r3 : same_but_links r1 r2 → same_but_links r2 r3 → same_but_links r1 r3.
Proof. unfold same_but_links. intuition congruence. Qed.

Lemma cache_links x s bs bs' order : cache x s bs → length bs' = length bs →
  (∀ j, same_but_links (bs !!! j) (bs' !!! j)) → order ≡ₚ seq 0 NBUF →
  chain (λ b, bnext (bs' !!! b)) (λ b, bprev (bs' !!! b)) bhead order bhead → cache x s bs'.
Proof.
  intros C L S Po Co.
  assert (∀ j, bdev (bs' !!! j) = bdev (bs !!! j)) as ED by (intros; apply S).
  assert (∀ j, blockno (bs' !!! j) = blockno (bs !!! j)) as EB by (intros; apply S).
  split.
  - rewrite L. apply C.
  - by exists order.
  - intros b Hb. pose proof (ca_bufs _ _ _ C b Hb) as OK. unfold buf_ok, slot_ok in *.
    destruct (S b) as (-> & -> & -> & -> & -> & ->). done.
  - apply C.
  - intros blk d Hd. destruct (ca_dirty _ _ _ C _ _ Hd) as (R & b & Hb). split; [done|]. exists b. by rewrite ED, EB.
  - intros b b'. rewrite !ED, !EB. apply C.
  - intros b. rewrite ED, EB. apply C.
Qed.

Lemma chain_range N P h order (l : nat) : chain N P h order h → (∀ y, y ∈ h :: order → (y < l)%nat) →
  ∀ b, b ∈ h :: order → (N b < l ∧ P b < l)%nat ∧ N b ∈ h :: order ∧ P b ∈ h :: order.
Proof.
  intros C R b Hb. assert (N b ∈ h :: order ∧ P b ∈ h :: order) as [A B]; [|auto].
  destruct (decide (b = h)) as [->|Nb].
  - rewrite (chain_first _ _ _ _ _ C), (chain_last _ _ _ _ _ C). split.
    + destruct order; set_solver.
    + destruct (last order) eqn:E; simpl; [|set_solver]. apply last_Some_elem_of in E. set_solver.
  - apply elem_of_cons in Hb as [->|Hb]; [done|]. apply list_elem_of_split in Hb as (l1 & l2 & ->).
    apply chain_app in C as [C1 C2]. rewrite (chain_first _ _ _ _ _ C2), (chain_last _ _ _ _ _ C1). split.
    + destruct l2; set_solver.
    + destruct (last l1) eqn:E; simpl; [|set_solver]. apply last_Some_elem_of in E. set_solver.
Qed.

Definition nexts (bs : list buf) (b : nat) : nat := bnext (bs !!! b).
Definition prevs (bs : list buf) (b : nat) : nat := bprev (bs !!! b).
Definition links (bs bs' : list buf) (N P : nat → nat) : Prop :=
  length bs' = length bs ∧ ∀ j, same_but_links (bs !!! j) (bs' !!! j) ∧ nexts bs' j = N j ∧ prevs bs' j = P j.

Lemma unlink_links bs a c : (a < length bs)%nat → (c < length bs)%nat →
  links bs (setN a c (setP c a bs)) (fset (nexts bs) a c) (fset (prevs bs) c a).
Proof.
  intros Ha Hc. split; [unfold setN, setP; by rewrite !length_alter|]. intros j.
  destruct (setP_links c a bs j Hc) as (S1 & S2 & S3).
  destruct (setN_links a c (setP c a bs) j) as (S4 & S5 & S6); [unfold setP; by rewrite length_alter|].
  split; [by eapply same_but_links_trans|]. unfold nexts, prevs. rewrite S5, S6, S3. split; [|done].
  unfold fset. case_decide; [done|exact S2].
Qed.
Lemma push_links bs b : let h := nexts bs bhead in
  (b < length bs)%nat → (bhead < length bs)%nat → (h < length bs)%nat → b ≠ bhead →
  links bs (setN bhead b (setP h b (setP b bhead (setN b h bs))))
    (fset (fset (nexts bs) b h) bhead b) (fset (fset (prevs bs) b bhead) h b).
Proof.
  intros h Hb Hh Hn Nb. split; [unfold setN, setP; by rewrite !length_alter|]. intros j.
  set (bs1 := setN b h bs). set (bs2 := setP b bhead bs1). set (bs3 := setP h b bs2).
  assert (length bs1 = length bs) as L1 by (unfold bs1, setN; by rewrite length_alter).
  assert (length bs2 = length bs) as L2 by (unfold bs2, setP; by rewrite length_alter).
  assert (length bs3 = length bs) as L3 by (unfold bs3, setP; by rewrite length_alter).
  destruct (setN_links b h bs j Hb) as (S1 & A1 & B1).
  destruct (setP_links b bhead bs1 j) as (S2 & A2 & B2); [lia|].
  destruct (setP_links h b bs2 j) as (S3 & A3 & B3); [lia|].
  destruct (setN_links bhead b bs3 j) as (S4 & A4 & B4); [lia|].
  split; [repeat (eapply same_but_links_trans; [eassumption|]); done|].
  unfold nexts, prevs. rewrite A4, B4. fold bs1 in A1, B1. fold bs2 in A2, B2. fold bs3 in A3, B3. split.
  - unfold fset in *. case_decide; [done|]. rewrite A3, A2, A1. unfold nexts. done.
  - rewrite B3. unfold fset in *. destruct (decide (h = j)); [done|]. rewrite B2. destruct (decide (b = j)); [done|]. rewrite B1. done.
Qed.

Lemma cache_relink x s bs b : cache x s bs → (b < NBUF)%nat → cache x s (relink b bs).
Proof.
  intros C Hb. pose proof (ca_len _ _ _ C) as L. destruct (ca_order _ _ _ C) as (o & Po & Co).
  destruct (order_seq o Po) as (A & _ & ND & M).
  set (N := nexts bs). set (P := prevs bs). change (chain N P bhead o bhead) in Co.
  assert (Rg : ∀ y, y ∈ bhead :: o → (y < S NBUF)%nat).
  { intros y [->|I]%elem_of_cons; [unfold bhead; lia|]. apply M in I. lia. }
  pose proof (chain_range N P bhead o (S NBUF) Co Rg) as CR.
  assert (b ∈ bhead :: o) as Ib by (apply elem_of_cons; right; by apply M).
  assert (b ≠ bhead) as Nb by (unfold bhead; lia).
  destruct (CR b Ib) as ([B1 B2] & I1 & I2).
  assert (b ∈ o) as Io by by apply M.
  apply list_elem_of_split in Io as (l1 & l2 & Eo).
  assert (ND' : NoDup (bhead :: l1 ++ b :: l2)) by (rewrite <- Eo; by constructor).
  rewrite Eo in Co. pose proof (chain_unlink N P bhead l1 b l2 ND' Co) as C1.
  set (N1 := fset N (P b) (N b)) in *. set (P1 := fset P (N b) (P b)) in *.
  assert (ND2 : NoDup (bhead :: b :: l1 ++ l2)).
  { rewrite Permutation_middle. exact ND'. }
  pose proof (chain_push N1 P1 bhead b (l1 ++ l2) ND2 C1) as C2.
  assert (N1b : (N1 bhead < S NBUF)%nat).
  { rewrite (chain_first _ _ _ _ _ C1). destruct (l1 ++ l2) as [|y l] eqn:E; simpl; [unfold bhead; lia|].
    apply Rg. assert (y ∈ l1 ++ l2) as Iy by (rewrite E; apply list_elem_of_here).
    rewrite Eo, elem_of_cons, elem_of_app, elem_of_cons. apply elem_of_app in Iy. tauto. }
  unfold relink. cbv zeta. change (bnext (bs !!! b)) with (N b). change (bprev (bs !!! b)) with (P b).
  destruct (unlink_links bs (P b) (N b)) as [L1 F1]; [lia..|].
  set (bs1 := setN (P b) (N b) (setP (N b) (P b) bs)) in *.
  assert (E1 : bnext (bs1 !!! bhead) = N1 bhead) by apply F1.
  destruct (push_links bs1 b) as [L2 F2]; [lia|unfold bhead; lia|unfold nexts; rewrite E1; lia|done|].
  assert (E2 : bnext (setP b bhead (setN b (nexts bs1 bhead) bs1) !!! bhead) = nexts bs1 bhead).
  { destruct (setP_links b bhead (setN b (nexts bs1 bhead) bs1) bhead) as (_ & -> & _);
      [unfold setN; rewrite length_alter; lia|].
    destruct (setN_links b (nexts bs1 bhead) bs1 bhead) as (_ & -> & _); [lia|]. by apply fset_ne. }
  change (bnext (bs1 !!! bhead)) with (nexts bs1 bhead). rewrite E2.
  apply (cache_links x s bs _ (b :: l1 ++ l2)); [done|lia| |by rewrite <- Po, Eo, Permutation_middle|].
  - intros j. eapply same_but_links_trans; [apply F1|apply F2].
  - assert (EN : ∀ j, nexts bs1 j = N1 j) by (intros; apply F1).
    assert (EP : ∀ j, prevs bs1 j = P1 j) by (intros; apply F1).
    eapply bchain_ext; [..|exact C2]; intros y _.
    + etransitivity; [apply F2|]. unfold fset. repeat case_decide; [done|by rewrite EN..].
    + etransitivity; [apply F2|]. rewrite EN. unfold fset. repeat case_decide; [done..|by rewrite EP].
Qed.

(** ** The functions of [bio.c] *)

(** Process [p] with pid [x] runs and holds no lock. *)
Definition bctx (p : nat) (x : Z) (k : kernel) : Prop := running p [] k ∧ pid (ptable k !!! p) = x.
(** Everything but the process table, the disk and its buffers. *)
Definition rest (k : kernel) : kernel :=
  k <| ptable := [] |> <| disk := [] |> <| dtrace := [] |> <| bufs := [] |>.
Definition kcache (p : nat) (x : Z) (s : store) (k : kernel) : Prop :=
  bctx p x k ∧ disk k = s_disk s ∧ dtrace k = s_trace s ∧ cache x s (bufs k).

Lemma bctx_no_lock p x k l : bctx p x k → l ∉ held k.
Proof. intros [(_ & -> & _) _]. apply not_elem_of_nil. Qed.
Lemma bctx_wf p x k : bctx p x k → cpu_wf k.
Proof. by intros [(? & _) _]. Qed.
Lemma bctx_data F p x k `{!DataUpd F} : ptable (F k) = ptable k → bctx p x k → cproc (kcpu (F k)) = cproc (kcpu k) → bctx p x (F k).
Proof.
  intros E [R X] Ec. split; [|by rewrite E]. apply running_data; [apply _|by rewrite E|done|done].
Qed.
Lemma bctx_wake p x k f : (∀ r, pid (f r) = pid r) → bctx p x k → bctx p x (k <| ptable ::= fmap f |>).
Proof.
  intros Hf [R X]. pose proof R as (_ & _ & _ & L). split.
  - apply (running_data (λ k, k <| ptable ::= _ |>)); [apply _|simpl; apply length_fmap|done|done].
  - simpl. destruct (lookup_lt_is_Some_2 _ _ L) as [r Hr].
    rewrite (list_lookup_total_correct (f <$> ptable k) p (f r)) by by rewrite list_lookup_fmap, Hr.
    rewrite Hf, <- X. by rewrite (list_lookup_total_correct _ _ _ Hr).
Qed.

Definition bup (f : buf → buf) (b : nat) (k : kernel) : kernel := k <| bufs ::= alter f b |>.
Lemma list_alter_ext {A} `{!Inhabited A} (f g : A → A) i (l : list A) :
  f (l !!! i) = g (l !!! i) → alter f i l = alter g i l.
Proof.
  intros E. apply list_eq. intros j. destruct (decide (i = j)) as [<-|N].
  - rewrite !list_lookup_alter_eq. destruct (l !! i) eqn:L; [|done]. simpl.
    by rewrite (list_lookup_total_correct _ _ _ L) in E; rewrite E.
  - by rewrite !list_lookup_alter_ne.
Qed.
Lemma bup_ext f g b k : f (bufs k !!! b) = g (bufs k !!! b) → bup f b k = bup g b k.
Proof. intros E. unfold bup, upd. simpl. by rewrite (list_alter_ext f g). Qed.
Lemma bup_bup f g b k : bup f b (bup g b k) = bup (λ r, f (g r)) b k.
Proof. unfold bup, upd. simpl. by rewrite alter_alter. Qed.
Lemma bup_lookup f b k : (b < length (bufs k))%nat → bufs (bup f b k) !!! b = f (bufs k !!! b).
Proof. intros L. simpl. rewrite list_alter_total by done. by rewrite decide_True. Qed.
#[export] Instance bup_proper f b : Proper (keqv ==> keqv) (bup f b).
Proof. apply _. Qed.
#[export] Instance bup_du f b : DataUpd (bup f b).
Proof. apply (du_bufs (alter f b) (λ k, k)), _. Qed.

(** What the sleep lock operations do to a lock. *)
Definition slp_up (g : sleeplock → sleeplock) (l : slp) (k : kernel) : kernel :=
  match l with
  | SBuf b => bup (λ r, r <| bslp ::= g |>) b k
  | SInode i => k <| icache ::= alter (λ r, r <| islp ::= g |>) i |>
  end.
Lemma set_slp_up g l k : set_slp l (g (get_slp k l)) k = slp_up g l k.
Proof.
  destruct l as [b|i]; [by apply (bup_ext (λ r, r <| bslp := _ |>))|]. unfold set_slp, slp_up, upd. simpl.
  by rewrite (list_alter_ext (λ r, _) (λ r, r <| islp ::= g |>)).
Qed.
Lemma slp_up_up f g l k : slp_up f l (slp_up g l k) = slp_up (λ s, f (g s)) l k.
Proof. destruct l as [b|i]; unfold slp_up, bup, upd; simpl; by rewrite alter_alter. Qed.
Lemma slp_up_ext f g l k : f (get_slp k l) = g (get_slp k l) → slp_up f l k = slp_up g l k.
Proof. intros E. rewrite <- !set_slp_up. by rewrite E. Qed.
#[export] Instance slp_up_proper g l : Proper (keqv ==> keqv) (slp_up g l).
Proof. destruct l; apply _. Qed.
#[export] Instance slp_up_du g l : DataUpd (slp_up g l).
Proof. destruct l as [b|i]; [apply bup_du|apply (du_icache (alter (λ r, r <| islp ::= g |>) i) (λ k, k)), _]. Qed.
Lemma slp_up_ptable g l k : ptable (slp_up g l k) = ptable k ∧ kcpu (slp_up g l k) = kcpu k ∧ ticks (slp_up g l k) = ticks k.
Proof. by destruct l. Qed.

Section kwp.
Context (p : nat) (x : Z) (Y : protocol kernel) `{!Mono Y}.

Lemma kwp_slp_gets l (Q : sleeplock → kernel → Prop) k : Q (get_slp k l) k → kwp (gets (λ k, get_slp k l)) Q Y k.
Proof.
  apply kwp_gets; [|done]. intros s d E. keqv_rd E. destruct l; simpl; by rewrite ?Hbufs, ?Hic.
Qed.
Lemma kwp_slp_modify (g : sleeplock → sleeplock) l (Q : unit → kernel → Prop) k :
  Q tt (slp_up g l k) → kwp (modify (λ k, set_slp l (g (get_slp k l)) k)) Q Y k.
Proof.
  intros HQ. apply kwp_modify; [|by rewrite set_slp_up].
  intros s d E. rewrite !set_slp_up. by rewrite E.
Qed.
Lemma kwp_mypid (Q : Z → kernel → Prop) k : cpu_wf k → cproc (kcpu k) = Some p →
  Q (pid (ptable k !!! p)) k → kwp mypid Q Y k.
Proof. intros Hwf Hc HQ. unfold mypid. pstep. pstep. rewrite Hc. by psteps. Qed.

Lemma get_slp_acq l l' k : get_slp (acq l' k) l = get_slp k l.
Proof. by destruct l. Qed.
Lemma slk_lptable l : slk l ≠ Lptable.
Proof. by destruct l. Qed.

Lemma kwp_acquiresleep `{!Patience} l (Q : unit → kernel → Prop) k :
  bctx p x k → slocked (get_slp k l) = 0 → Q tt (slp_up (λ _, mkSlk 1 x) l k) → kwp (acquiresleep l) Q Y k.
Proof.
  intros HB HF HQ. pose proof (bctx_wf _ _ _ HB) as Hwf. pose proof (bctx_no_lock p x k) as HL.
  pose proof HB as [(_ & _ & Hc & _) Hx].
  unfold acquiresleep. kstep. kstep. kstep.
  assert (∀ n (Q' : unit → kernel → Prop), Q' tt (acq (slk l) k) → kwp (acquiresleep_loop n l) Q' Y (acq (slk l) k)) as W.
  { intros [|n] Q' HQ'; cbn [acquiresleep_loop]; kstep; apply kwp_slp_gets;
    rewrite get_slp_acq, HF; change (istrue 0) with false; cbv iota; by kstep. }
  apply W. cbv beta. kstep. apply (kwp_slp_modify (λ s, s <| slocked := 1 |>)). cbv beta. kstep.
  destruct (slp_up_ptable (λ s, s <| slocked := 1 |>) l (acq (slk l) k)) as (Ep & Ec & _).
  apply kwp_mypid; [apply (cpu_wf_data (slp_up _ l)), cpu_wf_acq; [apply _|auto..]|by rewrite Ec|]. cbv beta.
  kstep. apply (kwp_slp_modify (λ s, s <| spid := _ |>)). cbv beta. rewrite slp_up_up, Ep.
  change (ptable (acq (slk l) k)) with (ptable k). rewrite Hx.
  apply (kwp_release (slk l) (slp_up _ l)); [apply _|done|auto|].
  erewrite slp_up_ext; [exact HQ|]. done.
Qed.

Lemma kwp_releasesleep l (Q : unit → kernel → Prop) k : bctx p x k →
  Q tt ((slp_up (λ _, mkSlk 0 0) l k) <| ptable ::= fmap (wake_slot (Some (schan l)) (ticks k)) |>) →
  kwp (releasesleep l) Q Y k.
Proof.
  intros HB HQ. pose proof (bctx_wf _ _ _ HB) as Hwf. pose proof (bctx_no_lock p x k) as HL.
  unfold releasesleep. kstep. kstep. kstep.
  apply (kwp_slp_modify (λ s, s <| slocked := 0 |>)). cbv beta. kstep.
  apply (kwp_slp_modify (λ s, s <| spid := 0 |>)). cbv beta. rewrite slp_up_up. kstep.
  apply kwp_wakeup; [apply _|apply (cpu_wf_data (slp_up _ l)), cpu_wf_acq; [apply _|auto..]
    |apply (not_held_data (slp_up _ l)); [apply _|]; apply not_held_acq; [by apply not_eq_sym, slk_lptable|auto]|].
  rewrite (proj2 (proj2 (slp_up_ptable _ l (acq (slk l) k)))).
  apply (kwp_release (slk l) (λ k', (slp_up _ l k') <| ptable ::= _ |>));
    [apply (du_ptable _ (slp_up _ l)), _|done|auto|].
  rewrite (slp_up_ext _ (λ _, mkSlk 0 0) l k) by done. exact HQ.
Qed.

Lemma kwp_holdingsleep l (Q : bool → kernel → Prop) k : bctx p x k → get_slp k l = mkSlk 1 x →
  Q true k → kwp (holdingsleep l) Q Y k.
Proof.
  intros HB HS HQ. pose proof (bctx_wf _ _ _ HB) as Hwf. pose proof (bctx_no_lock p x k) as HL.
  pose proof HB as [(_ & _ & Hc & _) Hx].
  unfold holdingsleep. kstep. kstep. kstep. apply kwp_slp_gets.
  rewrite get_slp_acq, HS. simpl slocked. change (istrue 1) with true. cbv iota.
  kstep. kstep. apply kwp_mypid; [apply cpu_wf_acq; auto|done|]. cbv beta. kstep.
  change (ptable (acq _ k)) with (ptable k). rewrite Hx. simpl spid. rewrite Z.eqb_refl.
  kstep. apply (kwp_release (slk l) (λ k, k)); [apply _|done|auto|]. by kstep.
Qed.

Lemma kwp_bget_slot b (Q : buf → kernel → Prop) k : Q (bufs k !!! b) k → kwp (bget_slot b) Q Y k.
Proof. intros HQ. unfold bget_slot. by kstep. Qed.
Lemma kwp_bset b f (Q : unit → kernel → Prop) k : Q tt (bup f b k) → kwp (bset b f) Q Y k.
Proof. intros HQ. unfold bset. by kstep. Qed.

Lemma kwp_bget_hit `{!Patience} blk b (Q : nat → kernel → Prop) k : bctx p x k →
  bcache_find (S NBUF) (bufs k) 1 blk (bnext (bufs k !!! bhead)) = Some b → (b < length (bufs k))%nat →
  refcnt (bufs k !!! b) = 0 → slocked (bslp (bufs k !!! b)) = 0 →
  Q b (bup (lock_slot x) b k) → kwp (bget 1 blk) Q Y k.
Proof.
  intros HB HF Hb HR HS HQ. pose proof (bctx_wf _ _ _ HB) as Hwf. pose proof (bctx_no_lock p x k) as HL.
  unfold bget. kstep. kstep. kstep. kstep. change (bufs (acq _ k)) with (bufs k). rewrite HF.
  kstep. apply kwp_bset. kstep. apply (kwp_release Lbcache (bup _ b)); [apply _|done|auto|].
  kstep. apply kwp_acquiresleep; [|unfold get_slp; by rewrite bup_lookup|].
  { by apply (bctx_data (bup _ b)); [apply _| | |]. }
  unfold slp_up. rewrite bup_bup. kstep. erewrite bup_ext; [exact HQ|]. unfold lock_slot. by rewrite HR.
Qed.
Lemma kwp_bget_miss `{!Patience} blk b (Q : nat → kernel → Prop) k : bctx p x k →
  bcache_find (S NBUF) (bufs k) 1 blk (bnext (bufs k !!! bhead)) = None →
  bcache_victim (S NBUF) (bufs k) (bprev (bufs k !!! bhead)) = Some b → (b < length (bufs k))%nat →
  slocked (bslp (bufs k !!! b)) = 0 →
  Q b (bup (λ r, lock_slot x (r <| bdev := 1 |> <| blockno := blk |> <| bflags := 0 |>)) b k) →
  kwp (bget 1 blk) Q Y k.
Proof.
  intros HB HF HV Hb HS HQ. pose proof (bctx_wf _ _ _ HB) as Hwf. pose proof (bctx_no_lock p x k) as HL.
  unfold bget. kstep. kstep. kstep. kstep. change (bufs (acq _ k)) with (bufs k). rewrite HF.
  kstep. kstep. change (bufs (acq _ k)) with (bufs k). rewrite HV.
  do 4 (kstep; apply kwp_bset; cbv beta). rewrite !bup_bup.
  kstep. apply (kwp_release Lbcache (bup _ b)); [apply _|done|auto|].
  kstep. apply kwp_acquiresleep; [|unfold get_slp; by rewrite bup_lookup|].
  { by apply (bctx_data (bup _ b)); [apply _| | |]. }
  unfold slp_up. rewrite bup_bup. kstep. exact HQ.
Qed.

Lemma kwp_iderw_read b (Q : unit → kernel → Prop) k : let r := bufs k !!! b in bctx p x k →
  bslp r = mkSlk 1 x → bflags r = 0 → bdev r = 1 → blockno r < Z.of_nat (length (disk k)) →
  Q tt (bup (λ r, r <| bdata := disk k !!! Z.to_nat (blockno r) |> <| bflags := 2 |>) b k) →
  kwp (memide_iderw b) Q Y k.
Proof.
  intros r HB HS HF HD HR HQ. unfold memide_iderw. kstep. apply kwp_holdingsleep; [done..|].
  kstep. kstep. kstep. apply kwp_bget_slot. fold r. rewrite HF. simpl (_ =? _). cbv iota. kstep. kstep.
  rewrite HD. simpl (_ =? _). cbv iota. kstep. kstep. kstep. kstep.
  rewrite (proj2 (Z.leb_gt _ _)) by done. kstep. kstep. kstep. unfold has_flag. rewrite HF. cbv iota beta.
  change (istrue (Z.land 0 B_DIRTY)) with false. cbv iota.
  apply kwp_bset. apply kwp_bset. rewrite bup_bup.
  rewrite (bup_ext _ (λ r, r <| bdata := disk k !!! Z.to_nat (blockno r) |> <| bflags := 2 |>)); [exact HQ|].
  unfold set_flag. fold r. simpl. by rewrite HF.
Qed.
Lemma kwp_iderw_write b (Q : unit → kernel → Prop) k : let r := bufs k !!! b in bctx p x k →
  bslp r = mkSlk 1 x → bflags r = 6 → bdev r = 1 → blockno r < Z.of_nat (length (disk k)) →
  Q tt ((bup (λ r, r <| bflags := 2 |>) b k) <| disk ::= <[Z.to_nat (blockno r) := bdata r]> |>
    <| dtrace ::= cons (Z.to_nat (blockno r), bdata r) |>) →
  kwp (memide_iderw b) Q Y k.
Proof.
  intros r HB HS HF HD HR HQ. unfold memide_iderw. kstep. apply kwp_holdingsleep; [done..|].
  kstep. kstep. kstep. apply kwp_bget_slot. fold r. rewrite HF. simpl (_ =? _). cbv iota. kstep. kstep.
  rewrite HD. simpl (_ =? _). cbv iota. kstep. kstep. kstep. kstep.
  rewrite (proj2 (Z.leb_gt _ _)) by done. kstep. kstep. kstep. unfold has_flag. rewrite HF. cbv iota beta.
  change (istrue (Z.land 6 B_DIRTY)) with true. cbv iota.
  kstep. apply kwp_bset. apply kwp_modify; [apply _|]. apply kwp_bset.
  change (bup ?f b (?k' <| disk ::= ?g |> <| dtrace ::= ?h |>)) with ((bup f b k') <| disk ::= g |> <| dtrace ::= h |>).
  rewrite bup_bup. rewrite (bup_ext _ (λ r, r <| bflags := 2 |>)); [exact HQ|].
  unfold set_flag, clear_flag. fold r. simpl. by rewrite HF.
Qed.

(** ** The specifications over the store *)
Context `{!Patience}.

Lemma kcache_bup f b s s' k : kcache p x s k → s_disk s' = s_disk s → s_trace s' = s_trace s →
  cache x s' (alter f b (bufs k)) → kcache p x s' (bup f b k) ∧ rest (bup f b k) = rest k.
Proof.
  intros (HB & HD & HT & _) E1 E2 C. split; [|done]. split; [by apply (bctx_data (bup f b)); [apply _| | |]|].
  split_and!; simpl; congruence.
Qed.

Lemma kwp_bread blk s (Q : nat → kernel → Prop) k : kcache p x s k → in_range s blk → not_held s blk →
  is_Some (s_dirty s !! blk) ∨ (pinned s < NBUF)%nat →
  (∀ b k', s_held s !! b = None → kcache p x (s_take b blk s) k' → rest k' = rest k → Q b k') →
  kwp (bread 1 blk) Q Y k.
Proof.
  intros HK HR HN HP HQ. pose proof HK as (HB & HD & HT & C). pose proof (ca_len _ _ _ C) as L.
  unfold bread. kstep. pose proof (find_cached x s _ C blk) as F.
  destruct (bcache_find _ _ _ _ _) as [b|] eqn:EF.
  - destruct F as [Hb F]. destruct (cached_slot x s _ C b blk HN Hb F) as (E1 & E2 & E3 & E4 & E5).
    apply (kwp_bget_hit blk b); [done..|lia|done|done|]. kstep. apply kwp_bget_slot. kstep.
    rewrite bup_lookup by lia. unfold has_flag. simpl bflags. rewrite E3.
    replace (istrue _) with true by by case_bool_decide. kstep. kstep.
    destruct (kcache_bup (lock_slot x) b s (s_take b blk s) k HK) as [A B]; [done|done|by apply cache_hit|]. by apply HQ.
  - destruct (find_victim x s _ C) as (b & EV & Hb & Fb).
    { destruct HP as [[d Hd]|]; [|done]. destruct (ca_dirty _ _ _ C _ _ Hd) as (_ & j & Hj & _ & Dj & Bj).
      by destruct (F j). }
    pose proof (proj1 (slot_free x s _ C b Hb) Fb) as [E1 _].
    assert (slocked (bslp (bufs k !!! b)) = 0) as E2.
    { pose proof (ca_bufs _ _ _ C b Hb) as OK. unfold buf_ok, slot_ok in OK. rewrite E1 in OK. tauto. }
    apply (kwp_bget_miss blk b); [done..|lia|done|]. kstep. apply kwp_bget_slot. kstep.
    rewrite bup_lookup by lia. unfold has_flag. simpl bflags. change (istrue (Z.land 0 B_VALID)) with false. cbv iota.
    change (iderw b) with (memide_iderw b).
    apply kwp_iderw_read; rewrite ?bup_lookup by lia; try done.
    { simpl. rewrite HD. apply HR. }
    rewrite bup_bup. kstep.
    rewrite (bup_ext _ (load_slot x blk (s_block s blk))); [|by unfold s_block; rewrite <- HD].
    destruct (kcache_bup (load_slot x blk (s_block s blk)) b s (s_take b blk s) k HK) as [A B]; [done|done| |].
    { by apply cache_miss. }
    by apply HQ.
Qed.

Lemma kwp_bwrite b h s (Q : unit → kernel → Prop) k : kcache p x s k → s_held s !! b = Some h →
  (∀ k', kcache p x (s_put (h_blk h) (h_data h) (s_hold b (mkHold (h_blk h) (h_data h) false) s)) k' →
    rest k' = rest k → Q tt k') →
  kwp (bwrite b) Q Y k.
Proof.
  intros HK HH HQ. pose proof HK as (HB & HD & HT & C). pose proof (ca_len _ _ _ C) as L.
  destruct (held_slot x s _ C b h HH) as (Hb & R & D & B & BD & ED & FL & RC & SL).
  unfold bwrite. kstep. apply kwp_holdingsleep; [done..|]. kstep. kstep. kstep. apply kwp_bset.
  change (iderw b) with (memide_iderw b).
  apply kwp_iderw_write; rewrite ?bup_lookup by lia; try done.
  { simpl. rewrite FL. by destruct (h_dirty h). }
  { simpl. rewrite B, HD. apply R. }
  rewrite bup_bup. simpl blockno. simpl bdata. rewrite B, BD.
  rewrite (bup_ext _ (λ r, r <| bflags := 2 |>)) by done.
  apply HQ; [|done]. split_and!; simpl; [|by rewrite HD|by rewrite HT|by apply cache_write].
  apply (bctx_data (λ k, (bup (λ r, r <| bflags := 2 |>) b k) <| disk ::= _ |> <| dtrace ::= _ |>)); try done.
  apply (du_dtrace _ (λ k, (bup _ b k) <| disk ::= _ |>)), (du_disk _ (bup _ b)), _.
Qed.

Lemma bup_eq f b k : bup f b k = k <| bufs := alter f b (bufs k) |>.
Proof. done. Qed.
Lemma bup_set f b k v : bup f b (k <| bufs := v |>) = k <| bufs := alter f b v |>.
Proof. done. Qed.
Lemma kwp_brelse_list b (Q : unit → kernel → Prop) k : bctx p x k → (b < length (bufs k))%nat →
  refcnt (bufs k !!! b) = 1 →
  Q tt (k <| bufs := relink b (alter (λ r, r <| refcnt := 0 |>) b (bufs k)) |>) → kwp (brelse_list b) Q Y k.
Proof.
  intros HB Hb HR HQ. pose proof (bctx_wf _ _ _ HB) as Hwf. pose proof (bctx_no_lock p x k) as HL.
  unfold brelse_list. kstep. kstep. kstep. apply kwp_bset.
  rewrite (bup_ext _ (λ r, r <| refcnt := 0 |>)) by (simpl; by rewrite HR).
  kstep. apply kwp_bget_slot. rewrite bup_lookup by done. cbv beta. kstep.
  change (refcnt (_ <| refcnt := 0 |>) =? 0) with true. cbv iota.
  rewrite bup_eq. do 2 (kstep; apply kwp_bset; rewrite bup_set). kstep. kstep.
  do 2 (kstep; apply kwp_bset; rewrite bup_set). kstep. kstep.
  kstep. apply kwp_bset. rewrite bup_set. apply kwp_bset. rewrite bup_set.
  apply (kwp_release Lbcache (λ k, k <| bufs := _ |>)); [apply _|done|auto|].
  unfold relink in HQ. cbv zeta in HQ. rewrite list_alter_total, decide_True in HQ by done. exact HQ.
Qed.

Lemma kwp_brelse b h s (Q : unit → kernel → Prop) k : kcache p x s k → s_held s !! b = Some h →
  (h_dirty h = false → h_data h = s_block s (h_blk h)) →
  (∀ k', kcache p x (s_drop b h s) k' → rest k' = rest k → Q tt k') →
  kwp (brelse b) Q Y k.
Proof.
  intros HK HH HC HQ. pose proof HK as (HB & HD & HT & C). pose proof (ca_len _ _ _ C) as L.
  destruct (held_slot x s _ C b h HH) as (Hb & R & D & B & BD & ED & FL & RC & SL).
  unfold brelse. kstep. apply kwp_holdingsleep; [done..|]. kstep. kstep. kstep. apply kwp_releasesleep; [done|]. unfold slp_up.
  set (k1 := (bup _ b k) <| ptable ::= _ |>).
  assert (HB1 : bctx p x k1).
  { apply bctx_wake; [|by apply (bctx_data (bup _ b)); [apply _| | |]]. intros r. unfold wake_slot. by destruct (decide _). }
  assert (EB : bufs k1 = alter (λ r, r <| bslp := mkSlk 0 0 |>) b (bufs k)) by done.
  apply (kwp_brelse_list b); [done|rewrite EB, length_alter; lia|rewrite EB; by rewrite list_alter_total, decide_True by lia|].
  apply HQ; [|done]. split_and!; [|done|done|].
  - by apply (bctx_data (λ k, k <| bufs := _ |>)); [apply _| | |].
  - change (cache x (s_drop b h s) (relink b (alter (λ r, r <| refcnt := 0 |>) b (bufs k1)))). rewrite EB. apply cache_relink; [|done]. rewrite alter_alter. by apply cache_drop.
Qed.

Lemma kwp_bset_data b h g s (Q : unit → kernel → Prop) k : kcache p x s k → s_held s !! b = Some h →
  (∀ k', kcache p x (s_hold b (mkHold (h_blk h) (g (h_data h)) (h_dirty h)) s) k' → rest k' = rest k → Q tt k') →
  kwp (bset b (λ r, r <| bdata ::= g |>)) Q Y k.
Proof.
  intros HK HH HQ. pose proof HK as (HB & HD & HT & C).
  destruct (held_slot x s _ C b h HH) as (Hb & R & D & B & BD & ED & FL & RC & SL).
  apply kwp_bset. rewrite (bup_ext _ (λ r, r <| bdata := g (h_data h) |>)) by (by rewrite <- BD).
  destruct (kcache_bup (λ r, r <| bdata := g (h_data h) |>) b s
    (s_hold b (mkHold (h_blk h) (g (h_data h)) (h_dirty h)) s) k HK) as [A E]; [done..|by apply cache_data|]. by apply HQ.
Qed.
Lemma kwp_bset_pin b h s (Q : unit → kernel → Prop) k : kcache p x s k → s_held s !! b = Some h →
  (∀ k', kcache p x (s_hold b (mkHold (h_blk h) (h_data h) true) s) k' → rest k' = rest k → Q tt k') →
  kwp (bset b (set_flag B_DIRTY)) Q Y k.
Proof.
  intros HK HH HQ. pose proof HK as (HB & HD & HT & C).
  destruct (held_slot x s _ C b h HH) as (Hb & R & D & B & BD & ED & FL & RC & SL).
  apply kwp_bset. rewrite (bup_ext _ (λ r, r <| bflags := 6 |>)).
  2: { unfold set_flag. rewrite FL. by destruct (h_dirty h). }
  destruct (kcache_bup (λ r, r <| bflags := 6 |>) b s
    (s_hold b (mkHold (h_blk h) (h_data h) true) s) k HK) as [A E]; [done..|by apply cache_pin|]. by apply HQ.
Qed.
End kwp.

(** ** The cache as [binit] leaves it *)
Definition fresh_buf (i : nat) : buf :=
  buf0 <| bnext := if decide (i = 0)%nat then bhead else pred i |>
       <| bprev := if decide (i = bhead) then 0%nat else S i |>.
Definition fresh_bufs : list buf := fresh_buf <$> seq 0 (S NBUF).

Lemma fresh_lookup i : (i ≤ NBUF)%nat → fresh_bufs !!! i = fresh_buf i.
Proof.
  intros Hi. apply list_lookup_total_correct. unfold fresh_bufs. rewrite list_lookup_fmap, lookup_seq_lt by lia. done.
Qed.
Lemma cache_fresh x d tr : cache x (mkStore d tr ∅ ∅) fresh_bufs.
Proof.
  split.
  - done.
  - exists (rev (seq 0 NBUF)). split; [symmetry; apply Permutation_rev|]. vm_compute. repeat split.
  - intros b Hb. rewrite fresh_lookup by lia. unfold buf_ok. simpl. rewrite lookup_empty. split_and!; [done..|]. by left.
  - intros b h. simpl. by rewrite lookup_empty.
  - intros blk e. simpl. by rewrite lookup_empty.
  - intros b b' Hb Hb'. rewrite !fresh_lookup by lia. done.
  - intros b Hb. rewrite fresh_lookup by lia. done.
Qed.

Lemma binit_ok k : bufs k = replicate (S NBUF) buf0 → ∃ k', binit k = Ok tt k' ∧ bufs k' = fresh_bufs ∧ rest k' = rest k ∧
  ptable k' = ptable k ∧ disk k' = disk k ∧ dtrace k' = dtrace k.
Proof.
  intros E. destruct k. simpl in E. subst. eexists. split; [vm_compute; reflexivity|]. repeat split.
Qed.

(** ** Clients of the cache *)

(** A client reads a block, or replaces its contents by a function of them. *)
Inductive bop := BRead (blk : Z) | BUpdate (blk : Z) (g : list Z → list Z).
Definition bop_block (o : bop) : Z := match o with BRead blk | BUpdate blk _ => blk end.

Definition do_bop `{!Patience} (o : bop) : K (list Z) :=
  match o with
  | BRead blk => b ← bread 1 blk; r ← bget_slot b; brelse b;; mret (bdata r)
  | BUpdate blk g => b ← bread 1 blk; bset b (λ r, r <| bdata ::= g |>);; bwrite b;; brelse b;; mret []
  end.
Fixpoint do_bops `{!Patience} (os : list bop) : K (list (list Z)) :=
  match os with
  | [] => mret []
  | o :: os' => v ← do_bop o; vs ← do_bops os'; mret (v :: vs)
  end.

(** The same on a plain array of blocks. *)
Definition disk_bop (o : bop) (d : list (list Z)) : list Z * list (list Z) :=
  match o with
  | BRead blk => (d !!! Z.to_nat blk, d)
  | BUpdate blk g => ([], <[Z.to_nat blk := g (d !!! Z.to_nat blk)]> d)
  end.
Fixpoint disk_bops (os : list bop) (d : list (list Z)) : list (list Z) * list (list Z) :=
  match os with
  | [] => ([], d)
  | o :: os' => let '(v, d) := disk_bop o d in let '(vs, d) := disk_bops os' d in (v :: vs, d)
  end.

Section clients.
Context `{!Patience} (p : nat) (x : Z).

Lemma kwp_do_bop o s (Q : list Z → kernel → Prop) k :
  kcache p x s k → s_held s = ∅ → s_dirty s = ∅ → in_range s (bop_block o) →
  (∀ v s' k', kcache p x s' k' → s_held s' = ∅ → s_dirty s' = ∅ → rest k' = rest k →
    (v, s_disk s') = disk_bop o (s_disk s) → length (s_disk s') = length (s_disk s) → Q v k') →
  kwp (do_bop o) Q no_switch k.
Proof.
  intros HK HE HD HR HQ.
  assert (NH : not_held s (bop_block o)) by (intros b h Hb; by rewrite HE in Hb).
  assert (HP : (pinned s < NBUF)%nat) by (unfold pinned; rewrite HE, HD, !map_size_empty; unfold NBUF; simpl; lia).
  assert (HV : s_view s (bop_block o) = s_disk s !!! Z.to_nat (bop_block o)) by (unfold s_view; by rewrite HD).
  destruct o as [blk|blk g]; simpl bop_block in *; cbn [do_bop].
  - kstep. apply (kwp_bread p x no_switch blk s); [done..|by right|]. intros b k1 F1 K1 R1.
    pose proof K1 as (_ & _ & _ & C1).
    assert (Hh : s_held (s_take b blk s) !! b = Some (mkHold blk (s_block s blk) false)).
    { simpl. rewrite lookup_insert_eq, HV, HD. done. }
    destruct (held_slot x _ _ C1 b _ Hh) as (_ & _ & _ & _ & Ed & _). simpl in Ed.
    kstep. apply kwp_bget_slot. rewrite Ed. kstep.
    eapply (kwp_brelse p x no_switch b); [exact K1|exact Hh|done|]. intros k2 K2 R2. kstep. eapply HQ; [exact K2| | | | |].
    + simpl. rewrite HE. by rewrite delete_insert_eq.
    + simpl. rewrite HD. apply delete_empty.
    + congruence.
    + done.
    + done.
  - kstep. apply (kwp_bread p x no_switch blk s); [done..|by right|]. intros b k1 F1 K1 R1.
    assert (Hh : s_held (s_take b blk s) !! b = Some (mkHold blk (s_block s blk) false)).
    { simpl. rewrite lookup_insert_eq, HV, HD. done. }
    kstep. eapply (kwp_bset_data p x no_switch b); [exact K1|exact Hh|]. intros k2 K2 R2. simpl in K2.
    kstep. eapply (kwp_bwrite p x no_switch b); [exact K2|apply lookup_insert_eq|]. intros k3 K3 R3. simpl in K3.
    kstep. eapply (kwp_brelse p x no_switch b); [exact K3|apply lookup_insert_eq| |].
    { intros _. unfold s_block. simpl. rewrite list_lookup_total_insert_eq; [done|]. unfold in_range in HR. lia. }
    intros k4 K4 R4. kstep. eapply HQ; [exact K4| | | | |].
    + simpl. rewrite HE. by rewrite !insert_insert_eq, delete_insert_eq.
    + simpl. rewrite HD. apply delete_empty.
    + congruence.
    + done.
    + simpl. by rewrite length_insert.
Qed.

Lemma kwp_do_bops os s (Q : list (list Z) → kernel → Prop) k :
  kcache p x s k → s_held s = ∅ → s_dirty s = ∅ → Forall (λ o, in_range s (bop_block o)) os →
  (∀ vs s' k', kcache p x s' k' → s_held s' = ∅ → s_dirty s' = ∅ → rest k' = rest k →
    (vs, s_disk s') = disk_bops os (s_disk s) → Q vs k') →
  kwp (do_bops os) Q no_switch k.
Proof.
  revert s Q k. induction os as [|o os IH]; intros s Q k HK HE HD F HQ; cbn [do_bops].
  - kstep. by eapply HQ.
  - apply Forall_cons in F as [F1 F2]. kstep. apply (kwp_do_bop o s); [done..|].
    intros v s1 k1 K1 E1 D1 R1 EV L1. kstep. apply (IH s1); [done..| |].
    { eapply Forall_impl; [exact F2|]. unfold in_range. intros u. by rewrite L1. }
    intros vs s2 k2 K2 E2 D2 R2 EV2. kstep. eapply HQ; [exact K2|done|done|congruence|]. simpl.
    destruct (disk_bop o (s_disk s)) as [v' d']. injection EV as -> <-. destruct (disk_bops os (s_disk s1)) as [vs' d''].
    by injection EV2 as -> <-.
Qed.

(** C11: The buffer cache is transparent: for any sequence of reads and updates of
    blocks, however many blocks it touches and buffers it recycles, a process that
    finds the cache with no buffer held or pinned sees exactly what it would see on
    the bare disk, every update reaches the disk, no [panic] happens, and at the end
    no buffer is held: the cache again agrees with the disk. *)
Theorem cache_transparent os k tr :
  bctx p x k → dtrace k = tr → cache x (mkStore (disk k) tr ∅ ∅) (bufs k) →
  Forall (λ o, 0 ≤ bop_block o < Z.of_nat (length (disk k))) os →
  ∃ k', do_bops os k = Ok (disk_bops os (disk k)).1 k' ∧ disk k' = (disk_bops os (disk k)).2 ∧ held k' = [] ∧
    cache x (mkStore (disk k') (dtrace k') ∅ ∅) (bufs k').
Proof.
  intros HB ET HC F.
  destruct (kwp_returns (do_bops os) (λ vs d, ∃ s', kcache p x s' d ∧ s_held s' = ∅ ∧ s_dirty s' = ∅ ∧ (vs, s_disk s') = disk_bops os (disk k)) k)
    as (vs & k' & d & E & Hd & s' & K' & EH & EDr & EV).
  { apply (kwp_do_bops os (mkStore (disk k) tr ∅ ∅)); [|done..|]; [by split|]. intros vs s' k' K' EH EDr _ EV. by exists s'. }
  exists k'. keqv_rd Hd. destruct K' as (B' & D' & T' & C').
  destruct (disk_bops os (disk k)) as [vs' d'] eqn:ED. injection EV as -> <-.
  split; [exact E|]. rewrite Hdisk, Hbufs, Hheld, Hdtr. split; [done|]. split; [by destruct B' as [(_ & -> & _) _]|].
  destruct s' as [dk tr' dd hh]. simpl in *. by subst.
Qed.
End clients.

Definition zero_block : list Z := replicate 512 0.
Definition bio_kernel : kernel := demo_kernel <| disk := replicate 64 zero_block |> <| bufs := fresh_bufs |>.
Lemma bctx_disk p x k d bs : bctx p x k → bctx p x (k <| disk := d |> <| bufs := bs |>).
Proof. intros HB. by apply (bctx_data (λ k, k <| disk := d |> <| bufs := bs |>)); [apply _| | |]. Qed.
Lemma demo_ctx : bctx 1 2 demo_kernel.
Proof. split; [apply demo_running|done]. Qed.
Lemma bio_kernel_ctx : bctx 1 2 bio_kernel.
Proof. apply bctx_disk, demo_ctx. Qed.
Lemma cache_transparent_witness : ∃ k',
  do_bops (H := 0%nat) [BUpdate 40 (λ _, [7]); BRead 3; BRead 40] bio_kernel = Ok [[]; zero_block; [7]] k'.
Proof.
  destruct (cache_transparent (H := 0%nat) 1 2 [BUpdate 40 (λ _, [7]); BRead 3; BRead 40] bio_kernel [])
    as (k' & E & _); [apply bio_kernel_ctx|done|apply cache_fresh|repeat constructor; done|].
  exists k'. exact E.
Defined.
