(* ===== verification/Ide.v ===== *)
(** * The interrupt-driven disk driver

    [ide.c] and the controller it programs: requests wait in a queue threaded
    through [qnext], the head of which is at the disk; the interrupt completes
    it, wakes its process and starts the next one. The controller is modelled
    by the ports the driver uses: a command is the registers written before
    it, keeps the status busy for some reads, and transfers one sector. *)
From stdpp Require Import base strings numbers gmap list.
From S2P Require Import Prelude Machine KString Kernel Locks Kalloc Proc Sleeplock Bio.

(** ** ide.c: constants *)
Definition SECTOR_SIZE : Z := 512.
Definition IDE_BSY : Z := 0x80.
Definition IDE_DRDY : Z := 0x40.
Definition IDE_DF : Z := 0x20.
Definition IDE_ERR : Z := 0x01.
Definition IDE_CMD_READ : Z := 0x20.
Definition IDE_CMD_WRITE : Z := 0x30.
Definition IDE_CMD_RDMUL : Z := 0xc4.
Definition IDE_CMD_WRMUL : Z := 0xc5.

(** ** The controller *)
Definition iset (f : idest → idest) : K unit := modify (λ k, k <| kide ::= f |>).
Definition aset (f : ata → ata) : K unit := iset (λ s, s <| kata ::= f |>).
Definition katas (k : kernel) : ata := kata (kide k).
(** The sectors of a drive; [d] are those of drive 1. *)
Definition sectors (d : list (list Z)) (a : ata) (drive : Z) : list (list Z) := if drive =? 1 then d else a_disk0 a.

(** The drive and the sector the registers select. *)
Definition a_drive (a : ata) : Z := Z.land (Z.shiftr (a_head a) 4) 1.
Definition a_lba (a : ata) : Z :=
  a_lba0 a + 256 * a_lba1 a + 65536 * a_lba2 a + 16777216 * Z.land (a_head a) 0xf.

(** The status port: nothing answers for a drive that is not there; a command
    on a sector that does not exist ends with an error. *)
Definition in_status : K Z :=
  a ← gets katas;
  d ← gets disk;
  match sectors d a (a_drive a) with
  | [] => mret 0
  | _ =>
      match a_busy a with
      | S n => aset (λ a, a <| a_busy := n |>);; mret IDE_BSY
      | O =>
          mret (match a_cmd a with
                | Some (_, drive, lba) =>
                    if lba <? Z.of_nat (length (sectors d a drive)) then IDE_DRDY else Z.lor IDE_DRDY IDE_ERR
                | None => IDE_DRDY
                end)
      end
  end.

Definition outb (port v : Z) : K unit :=
  let v := u8 v in
  if port =? 0x1f2 then aset (λ a, a <| a_count := v |>)
  else if port =? 0x1f3 then aset (λ a, a <| a_lba0 := v |>)
  else if port =? 0x1f4 then aset (λ a, a <| a_lba1 := v |>)
  else if port =? 0x1f5 then aset (λ a, a <| a_lba2 := v |>)
  else if port =? 0x1f6 then aset (λ a, a <| a_head := v |>)
  else if port =? 0x1f7 then
    aset (λ a, a <| a_cmd := if v =? IDE_CMD_READ then Some (false, a_drive a, a_lba a)
                             else if v =? IDE_CMD_WRITE then Some (true, a_drive a, a_lba a) else None |>
                 <| a_busy := hd O (a_delays a) |> <| a_delays := tl (a_delays a) |>)
  else skip.

(** [insl] and [outsl] on the data port move the sector of the command. *)
Definition insl : K (list Z) :=
  a ← gets katas;
  d ← gets disk;
  mret (match a_cmd a with
        | Some (false, drive, lba) => sectors d a drive !!! Z.to_nat lba
        | _ => []
        end).
Definition outsl (data : list Z) : K unit :=
  o ← gets (λ k, a_cmd (katas k));
  match o with
  | Some (true, d, lba) =>
      if d =? 1 then
        modify (λ k, k <| disk ::= <[Z.to_nat lba := data]> |> <| dtrace ::= cons (Z.to_nat lba, data) |>)
      else aset (λ a, a <| a_disk0 ::= <[Z.to_nat lba := data]> |>)
  | _ => skip
  end.

(** ** ide.c *)
Section ide.
Context `{!Patience}.

(** The polling loop: every read of a busy status brings its end nearer. *)
Fixpoint idewait_loop (n : nat) (checkerr : bool) : K Z :=
  match n with
  | O => waiting
  | S n' =>
      r ← in_status;
      if negb (Z.land r (Z.lor IDE_BSY IDE_DRDY) =? IDE_DRDY) then idewait_loop n' checkerr
      else if checkerr && negb (Z.land r (Z.lor IDE_DF IDE_ERR) =? 0) then mret (-1)
      else mret 0
  end.
Definition idewait (checkerr : bool) : K Z :=
  n ← gets (λ k, a_busy (katas k));
  idewait_loop (S n) checkerr.

Fixpoint ide_probe (n : nat) : K unit :=
  match n with
  | O => skip
  | S n' => r ← in_status; if negb (r =? 0) then iset (λ s, s <| havedisk1 := 1 |>) else ide_probe n'
  end.
(** [ideinit] of ide.c, but for the name of the lock and the routing of the interrupt. *)
Definition ide_ideinit : K unit :=
  idewait false;;
  outb 0x1f6 (Z.lor 0xe0 (Z.shiftl 1 4));;
  ide_probe 1000;;
  outb 0x1f6 (Z.lor 0xe0 (Z.shiftl 0 4)).

Definition idestart (o : option nat) : K unit :=
  match o with
  | None => panic "idestart"
  | Some b =>
      r ← bget_slot b;
      (if FSSIZE <=? blockno r then panic "incorrect blockno" else skip);;
      let sector_per_block := BSIZE / SECTOR_SIZE in
      let sector := i32 (blockno r * sector_per_block) in
      let read_cmd := if sector_per_block =? 1 then IDE_CMD_READ else IDE_CMD_RDMUL in
      let write_cmd := if sector_per_block =? 1 then IDE_CMD_WRITE else IDE_CMD_WRMUL in
      (if 7 <? sector_per_block then panic "idestart" else skip);;
      idewait false;;
      outb 0x3f6 0;;
      outb 0x1f2 sector_per_block;;
      outb 0x1f3 (Z.land sector 0xff);;
      outb 0x1f4 (Z.land (Z.shiftr sector 8) 0xff);;
      outb 0x1f5 (Z.land (Z.shiftr sector 16) 0xff);;
      outb 0x1f6 (Z.lor (Z.lor 0xe0 (Z.shiftl (Z.land (bdev r) 1) 4)) (Z.land (Z.shiftr sector 24) 0x0f));;
      if has_flag r B_DIRTY then outb 0x1f7 write_cmd;; outsl (bdata r) else outb 0x1f7 read_cmd
  end.

Definition ide_ideintr : K unit :=
  acquire Lide;;
  o ← gets (λ k, idequeue (kide k));
  match o with
  | None => release Lide
  | Some b =>
      r ← bget_slot b;
      iset (λ s, s <| idequeue := qnext r |>);;
      (if negb (has_flag r B_DIRTY) then
         w ← idewait true;
         if 0 <=? w then d ← insl; bset b (λ r, r <| bdata := d |>) else skip
       else skip);;
      bset b (set_flag B_VALID);;
      bset b (clear_flag B_DIRTY);;
      wakeup (Cbuf b);;
      q ← gets (λ k, idequeue (kide k));
      (match q with Some _ => idestart q | None => skip end);;
      release Lide
  end.

(** The end of the queue that starts at [b]. *)
Fixpoint queue_last (fuel : nat) (bs : list buf) (b : nat) : nat :=
  match fuel with
  | O => b
  | S f => match qnext (bs !!! b) with None => b | Some b' => queue_last f bs b' end
  end.

Fixpoint ide_wait (n : nat) (b : nat) : K unit :=
  r ← bget_slot b;
  if negb (Z.land (bflags r) (Z.lor B_VALID B_DIRTY) =? B_VALID) then
    sleep (Cbuf b) (Some Lide);;
    match n with O => waiting | S n' => ide_wait n' b end
  else skip.

Definition ide_iderw (b : nat) : K unit :=
  h ← holdingsleep (SBuf b);
  (if h : bool then skip else panic "iderw: buf not locked");;
  r ← bget_slot b;
  (if Z.land (bflags r) (Z.lor B_VALID B_DIRTY) =? B_VALID then panic "iderw: nothing to do" else skip);;
  hd1 ← gets (λ k, havedisk1 (kide k));
  (if negb (bdev r =? 0) && (hd1 =? 0) then panic "iderw: ide disk 1 not present" else skip);;
  acquire Lide;;
  bset b (λ r, r <| qnext := None |>);;
  q ← gets (λ k, idequeue (kide k));
  (match q with
   | None => iset (λ s, s <| idequeue := Some b |>)
   | Some h =>
       e ← gets (λ k, queue_last NBUF (bufs k) h);
       bset e (λ r, r <| qnext := Some b |>)
   end);;
  q ← gets (λ k, idequeue (kide k));
  (if decide (q = Some b) then idestart (Some b) else skip);;
  ide_wait patience b;;
  release Lide.

Definition ide : DiskDriver := {| ideinit := ide_ideinit; iderw := ide_iderw; ideintr := ide_ideintr |}.
End ide.
