(* ===== verification/IdeSpec.v ===== *)
(** * The two disk drivers agree

    [ide.c] against [memide.c]: whatever the order of requests and
    interrupts, completing the requests of the queue in order gives the disk
    and the buffers that the driver without interrupts would give at once. *)
From stdpp Require Import base strings numbers gmap list.
From S2P Require Import Prelude Machine KString Kernel Locks Kalloc Proc ProcSpec Sleeplock Bio BioSpec Ide.

Definition aup (f : ata → ata) (k : kernel) : kernel := k <| kide ::= λ s, s <| kata ::= f |> |>.
#[export] Instance aup_du f : DataUpd (aup f).
Proof. unfold aup. apply _. Qed.

(** The controller is ready for the drive it has selected. *)
Definition ata_fine (d : list (list Z)) (a : ata) : Prop :=
  sectors d a (a_drive a) ≠ [] ∧
  match a_cmd a with Some (_, dr, lba) => 0 ≤ lba < Z.of_nat (length (sectors d a dr)) | None => True end.

Lemma aup_aup f g k : aup f (aup g k) = aup (λ a, f (g a)) k.
Proof. done. Qed.

(** The registers written for a sector select it. *)
Definition regs_for (z : Z) (a : ata) : ata :=
  a <| a_busy := O |> <| a_count := u8 (BSIZE / SECTOR_SIZE) |> <| a_lba0 := u8 (Z.land z 0xff) |>
    <| a_lba1 := u8 (Z.land (Z.shiftr z 8) 0xff) |> <| a_lba2 := u8 (Z.land (Z.shiftr z 16) 0xff) |>
    <| a_head := u8 (Z.lor (Z.lor 0xe0 (Z.shiftl (Z.land 1 1) 4)) (Z.land (Z.shiftr z 24) 0x0f)) |>.
(** The controller after a command byte. *)
Definition commanded (v : Z) (a : ata) : ata :=
  mkAta (a_count a) (a_lba0 a) (a_lba1 a) (a_lba2 a) (a_head a) (hd O (a_delays a)) (tl (a_delays a))
    (if u8 v =? IDE_CMD_READ then Some (false, a_drive a, a_lba a)
     else if u8 v =? IDE_CMD_WRITE then Some (true, a_drive a, a_lba a) else None) (a_disk0 a).
Definition regs_check (z : Z) : bool := (a_lba (regs_for z ata0) =? z) && (a_drive (regs_for z ata0) =? 1).
Lemma regs_ok z a : 0 ≤ z < FSSIZE → a_lba (regs_for z a) = z ∧ a_drive (regs_for z a) = 1.
Proof.
  intros Hz. assert (H : forallb regs_check (map Z.of_nat (seq 0 1000)) = true) by (vm_compute; exact eq_refl).
  rewrite forallb_forall in H. specialize (H z). unfold regs_check in H.
  destruct (andb_prop _ _ (H ltac:(apply in_map_iff; exists (Z.to_nat z); unfold FSSIZE in Hz; split; [lia|apply in_seq; lia]))) as [H1 H2].
  apply Z.eqb_eq in H1, H2. by destruct a.
Qed.

(** Reading the controller's state. *)
Ltac rd := lazymatch goal with
  | |- kwp (gets ?f) _ _ ?k =>
      apply (kwp_gets _ f (f k));
      [let H := fresh in intros ? ? H; keqv_rd H; unfold katas, id; (congruence || (cbv beta; congruence))|reflexivity|]
  end; cbv beta.

(** The state in a goal, by another name. *)
Ltac to_st d := lazymatch goal with |- kwp ?m ?Q ?Y _ => change (kwp m Q Y d) end.

Section ports.
Context (Y : protocol kernel) `{!Mono Y}.

Lemma kwp_aset f Q k : Q tt (aup f k) → kwp (aset f) Q Y k.
Proof. intros HQ. unfold aset, iset. kstep. exact HQ. Qed.

Lemma kwp_status Q k : ata_fine (disk k) (katas k) →
  match a_busy (katas k) with
  | S n => Q IDE_BSY (aup (λ a, a <| a_busy := n |>) k)
  | O => Q IDE_DRDY k
  end → kwp in_status Q Y k.
Proof.
  intros [Hs Hc] HQ. unfold in_status. kstep. rd. kstep. rd.
  destruct (sectors _ _ _) as [|x l] eqn:E; [done|]. destruct (a_busy (katas k)) as [|n].
  - kstep. destruct (a_cmd (katas k)) as [[[w dr] lba]|]; [|done]. by rewrite (proj2 (Z.ltb_lt _ _)) by lia.
  - kstep. apply kwp_aset. by kstep.
Qed.

Lemma kwp_idewait chk Q k : ata_fine (disk k) (katas k) →
  Q 0 (aup (λ a, a <| a_busy := O |>) k) → kwp (idewait chk) Q Y k.
Proof.
  intros Hf HQ. unfold idewait. kstep. rd. remember (a_busy (katas k)) as n eqn:En. revert k Hf HQ En.
  induction n as [|n IH]; intros k Hf HQ En; cbn [idewait_loop]; kstep; apply kwp_status; try done; rewrite <- En.
  - change (Z.land IDE_DRDY (Z.lor IDE_BSY IDE_DRDY) =? IDE_DRDY) with true. cbn [negb].
    change (Z.land IDE_DRDY (Z.lor IDE_DF IDE_ERR) =? 0) with true. cbn [negb]. rewrite andb_false_r. kstep.
    eapply eq_rect; [exact HQ|]. unfold katas in En. destruct k as [? ? ? ? ? ? ? ? ? ? ? ? ? ? ? ? ? ? ? ? ? ? ? ? ? ? [? ? []]].
    unfold aup, upd. cbn in *. by rewrite <- En.
  - change (Z.land IDE_BSY (Z.lor IDE_BSY IDE_DRDY) =? IDE_DRDY) with false. cbn [negb]. apply IH; [done| |done].
    exact HQ.
Qed.

(** A buffer that can be requested. *)
Definition req_ok (k : kernel) (b : nat) : Prop :=
  let r := bufs k !!! b in
  (b < NBUF)%nat ∧ bdev r = 1 ∧ 0 ≤ blockno r < FSSIZE ∧ blockno r < Z.of_nat (length (disk k)).

(** The state in which the disk works on buffer [b], with the registers [a]. *)
Definition at_disk (b : nat) (a : ata) (k : kernel) : kernel :=
  let r := bufs k !!! b in
  let k := k <| kide ::= λ s, s <| kata := a |> |> in
  if has_flag r B_DIRTY then
    k <| disk ::= <[Z.to_nat (blockno r) := bdata r]> |> <| dtrace ::= cons (Z.to_nat (blockno r), bdata r) |>
  else k.

Lemma kwp_idestart b Q k : req_ok k b → ata_fine (disk k) (katas k) →
  (∀ a, a_cmd a = Some (has_flag (bufs k !!! b) B_DIRTY, 1, blockno (bufs k !!! b)) → a_drive a = 1 → Q tt (at_disk b a k)) →
  kwp (idestart (Some b)) Q Y k.
Proof.
  intros (Hb & Hd & Hz & Hl) Hf HQ. unfold at_disk in HQ. set (r := bufs k !!! b) in *.
  unfold idestart, bget_slot. kstep. rd. fold r. rewrite (proj2 (Z.leb_gt _ _)) by lia. kstep. kstep.
  change (BSIZE / SECTOR_SIZE) with 1. cbv zeta. change (7 <? 1) with false. change (1 =? 1) with true. cbv iota. kstep. kstep.
  rewrite Z.mul_1_r. assert (i32 (blockno r) = blockno r) as -> by (unfold FSSIZE in Hz; apply i32_small; lia).
  kstep. apply kwp_idewait; [done|].
  unfold outb. cbn [Z.eqb Pos.eqb]. cbv zeta. kstep. kstep. do 5 (kstep; apply kwp_aset). rewrite !aup_aup, Hd.
  fold (aup (regs_for (blockno r)) k). destruct (regs_ok (blockno r) (katas k) Hz) as [H1 H2].
  destruct (has_flag r B_DIRTY).
  - kstep. apply kwp_aset. rewrite aup_aup. unfold outsl. kstep. rd.
    set (a := commanded IDE_CMD_WRITE (regs_for (blockno r) (katas k))).
    change (a_cmd (katas _)) with (a_cmd a).
    assert (Ha : a_cmd a = Some (true, 1, blockno r)) by (unfold a, commanded; cbn [a_cmd]; by rewrite H1, H2).
    rewrite Ha. change (1 =? 1) with true. cbv iota. kstep. exact (HQ a Ha H2).
  - apply kwp_aset. rewrite aup_aup.
    set (a := commanded IDE_CMD_READ (regs_for (blockno r) (katas k))).
    assert (Ha : a_cmd a = Some (false, 1, blockno r)) by (unfold a, commanded; cbn [a_cmd]; by rewrite H1, H2).
    exact (HQ a Ha H2).
Qed.
End ports.

(** ** The queue *)
Fixpoint qchain (bs : list buf) (o : option nat) (q : list nat) : Prop :=
  match q with
  | [] => o = None
  | b :: q' => o = Some b ∧ qchain bs (qnext (bs !!! b)) q'
  end.

Lemma qchain_ext bs bs' o q : (∀ b, b ∈ q → qnext (bs' !!! b) = qnext (bs !!! b)) → qchain bs o q → qchain bs' o q.
Proof.
  revert o. induction q as [|b q IH]; intros o H; [done|]. cbn [qchain]. intros [-> Hq]. split; [done|].
  rewrite H by apply list_elem_of_here. apply IH; [|done]. intros c Hc. apply H. by apply list_elem_of_further.
Qed.
Lemma balter_ne (f : buf → buf) b c (bs : list buf) : b ≠ c → alter f b bs !!! c = bs !!! c.
Proof. intros H. rewrite !list_lookup_total_alt. by rewrite list_lookup_alter_ne. Qed.
Lemma balter_eq (f : buf → buf) b (bs : list buf) : (b < length bs)%nat → alter f b bs !!! b = f (bs !!! b).
Proof. intros [r Hr]%lookup_lt_is_Some. rewrite !list_lookup_total_alt, list_lookup_alter_eq, Hr. done. Qed.

Lemma queue_last_spec bs q : ∀ n h, qchain bs (Some h) q → (length q ≤ S n)%nat → ∃ q', q = q' ++ [queue_last n bs h].
Proof.
  induction q as [|b q IH]; intros n h Hq Hn; [done|]. destruct Hq as [[= ->] Hq]. destruct q as [|c q].
  - exists []. cbn in Hq. destruct n; cbn; [done|]. by rewrite Hq.
  - destruct n as [|n]; [cbn in Hn; lia|]. pose proof Hq as [E _]. cbn [queue_last]. rewrite E in *.
    destruct (IH n c Hq) as [q' ->]; [cbn in *; lia|]. by exists (b :: q').
Qed.

Lemma qchain_snoc bs o q e b : qchain bs o (q ++ [e]) → NoDup (q ++ [e]) → (e < length bs)%nat → (b < length bs)%nat → b ∉ q ++ [e] →
  qnext (bs !!! b) = None → qchain (alter (λ r, r <| qnext := Some b |>) e bs) o (q ++ [e] ++ [b]).
Proof.
  intros Hq Hd He Hb Hn H0. revert o Hq. induction q as [|c q IH]; intros o Hq; cbn [app qchain] in *.
  - destruct Hq as [-> Hq]. split; [done|]. rewrite balter_eq by done. split; [done|].
    rewrite balter_ne; [done|]. intros ->. apply Hn, list_elem_of_here.
  - destruct Hq as [-> Hq]. split; [done|]. apply NoDup_cons in Hd as [Hc Hd]. apply not_elem_of_cons in Hn as [_ Hn].
    rewrite balter_ne; [by apply IH|]. intros ->. apply Hc. apply elem_of_app. right. apply list_elem_of_here.
Qed.

(** ** What the disk and the buffers should hold *)

(** A completed request, and the effect of one: what [memide.c] does at once. *)
Definition done_buf (r : buf) : buf := clear_flag B_DIRTY (set_flag B_VALID r).
Definition core : Type := list (list Z) * list buf.
Definition serve (c : core) (b : nat) : core :=
  let '(d, bs) := c in
  let r := bs !!! b in
  if has_flag r B_DIRTY then (<[Z.to_nat (blockno r) := bdata r]> d, alter done_buf b bs)
  else (d, alter (λ r, done_buf (r <| bdata := d !!! Z.to_nat (blockno r) |>)) b bs).
(** What a driver may look at of the disk and the buffers: not the links, the
    lock and the reference count of a buffer. *)
Definition bcore (r : buf) : buf :=
  buf0 <| bflags := bflags r |> <| bdev := bdev r |> <| blockno := blockno r |> <| bdata := bdata r |>.
Definition coreof (k : kernel) : core := (disk k, bcore <$> bufs k).

Record ide_inv (q : list nat) (k : kernel) : Prop := {
  iq_chain : qchain (bufs k) (idequeue (kide k)) q;
  iq_nodup : NoDup q;
  iq_req : ∀ b, b ∈ q → req_ok k b;
  iq_bufs : length (bufs k) = S NBUF;
  iq_fine : ata_fine (disk k) (katas k);
  iq_have : havedisk1 (kide k) ≠ 0;
  iq_head : match q with
            | [] => True
            | b :: _ =>
                let r := bufs k !!! b in
                a_cmd (katas k) = Some (has_flag r B_DIRTY, 1, blockno r) ∧
                (has_flag r B_DIRTY = true → disk k !! Z.to_nat (blockno r) = Some (bdata r))
            end }.

(** The state with [b] completed and its process woken, and with the disk on
    the next request, if there is one. *)
Definition fin_st (b : nat) (k : kernel) : kernel :=
  (bup done_buf b k) <| ptable ::= fmap (wake_slot (Some (Cbuf b)) (ticks k)) |>.
Definition next_st (a : ata) (k : kernel) : kernel :=
  match idequeue (kide k) with Some c => at_disk c a k | None => k end.
(** The registers with which the disk starts on the next request. *)
Definition next_cmd (a : ata) (k : kernel) : Prop :=
  match idequeue (kide k) with
  | Some c => a_cmd a = Some (has_flag (bufs k !!! c) B_DIRTY, 1, blockno (bufs k !!! c)) ∧ a_drive a = 1
  | None => True
  end.

(** The head's data, where the request is a read. *)
Definition read_buf (dirty : bool) (d : list (list Z)) (r : buf) : buf :=
  if dirty then r else r <| bdata := d !!! Z.to_nat (blockno r) |>.

Section driver.
Context (Y : protocol kernel) `{!Mono Y} `{!Patience}.

Lemma kwp_intr_tail b L Q d : cpu_wf d → held d = Lide :: L → Lptable ∉ held d → ata_fine (disk d) (katas d) →
  (∀ c, idequeue (kide d) = Some c → req_ok (fin_st b d) c) →
  (∀ a, next_cmd a (fin_st b d) → Q tt (rel Lide (next_st a (fin_st b d)))) →
  kwp (bset b (set_flag B_VALID);; bset b (clear_flag B_DIRTY);; wakeup (Cbuf b);;
       q ← gets (λ k, idequeue (kide k)); (match q with Some _ => idestart q | None => skip end);; release Lide) Q Y d.
Proof.
  intros Hwf Hh Hp Hf Hr HQ. unfold next_st, next_cmd in HQ. kstep. apply kwp_bset. kstep. apply kwp_bset. rewrite bup_bup.
  kstep. apply kwp_wakeup; [done|exact Hwf|exact Hp|]. cbv beta. to_st (fin_st b d). kstep. rd.
  change (idequeue (kide (fin_st b d))) with (idequeue (kide d)) in *.
  destruct (idequeue (kide d)) as [c|]; kstep.
  - apply kwp_idestart; [done|by apply Hr|exact Hf|]. intros a H1 H2. specialize (HQ a (conj H1 H2)).
    unfold at_disk in *. destruct (has_flag _ _); (apply (kwp_release_top Lide L); [exact Hwf|exact Hh|exact HQ]).
  - kstep. apply (kwp_release_top Lide L); [exact Hwf|exact Hh|]. exact (HQ ata0 I).
Qed.

(** The interrupt, up to the bookkeeping of the lock. *)
Lemma kwp_ideintr b q Q k : ide_inv (b :: q) k → cpu_wf k → Lide ∉ held k → Lptable ∉ held k →
  (∀ d a, disk d = disk k → bufs d = alter (read_buf (has_flag (bufs k !!! b) B_DIRTY) (disk k)) b (bufs k) →
     idequeue (kide d) = qnext (bufs k !!! b) → havedisk1 (kide d) = havedisk1 (kide k) → ptable d = ptable k → ticks d = ticks k →
     sectors (disk d) (katas d) = sectors (disk k) (katas k) → ata_fine (disk d) (katas d) →
     next_cmd a (fin_st b d) → Q tt (rel Lide (next_st a (fin_st b d)))) →
  kwp ide_ideintr Q Y k.
Proof.
  intros I Hwf Hl Hp HQ. destruct I as [Hq Hd Hreq Hlen Hf Hh [Hc Hw]]. destruct Hq as [Hi Hq].
  pose proof (Hreq b (list_elem_of_here b q)) as (Hb & Hdev & Hblk & Hlt). apply NoDup_cons in Hd as [Hbq _].
  assert (Hn : ∀ c, qnext (bufs k !!! b) = Some c → b ≠ c ∧ req_ok k c).
  { intros c E. destruct q as [|c' q]; cbn [qchain] in Hq; [congruence|]. destruct Hq as [E' _].
    assert (c' = c) as -> by congruence. split; [intros ->; apply Hbq, list_elem_of_here|].
    apply Hreq, list_elem_of_further, list_elem_of_here. }
  set (r := bufs k !!! b) in *. unfold ide_ideintr. kstep. kstep. kstep. rd. change (kide (acq Lide k)) with (kide k). rewrite Hi.
  kstep. apply kwp_bget_slot. change (bufs (acq Lide k)) with (bufs k). fold r. unfold iset. kstep. kstep. kstep.
  assert (Hr : ∀ d c, disk d = disk k → bufs d = alter (read_buf (has_flag r B_DIRTY) (disk k)) b (bufs k) →
    qnext r = Some c → req_ok (fin_st b d) c).
  { intros d c E1 E2 [Hbc Hc']%Hn. unfold req_ok in *. change (bufs (fin_st b d)) with (alter done_buf b (bufs d)).
    change (disk (fin_st b d)) with (disk d). rewrite E2, !balter_ne, E1 by done. exact Hc'. }
  pose proof (cpu_wf_acq _ _ Hwf Hl) as Hwf'.
  destruct (has_flag r B_DIRTY) eqn:Hdirty; cbn [negb].
  - kstep. match goal with |- kwp _ _ _ ?d => set (d0 := d) end.
    assert (Eb : bufs d0 = alter (read_buf true (disk k)) b (bufs k)) by (symmetry; by apply list_alter_id).
    apply (kwp_intr_tail b (held k)); [exact Hwf'|done|by apply not_held_acq|done|intros c; by apply Hr|].
    intros a Ha. by apply HQ.
  - kstep. apply kwp_idewait; [done|exact Hf|]. change (0 <=? 0) with true. cbv iota. unfold insl. kstep. kstep. rd. kstep. rd. kstep.
    change (a_cmd (katas _)) with (a_cmd (katas k)). rewrite Hc. change (1 =? 1) with true. cbv iota.
    apply kwp_bset. match goal with |- kwp _ _ _ ?d => set (d0 := d) end.
    assert (Eb : bufs d0 = alter (read_buf false (disk k)) b (bufs k)) by (by apply list_alter_ext).
    apply (kwp_intr_tail b (held k)); [exact Hwf'|done|by apply not_held_acq|exact Hf|intros c; by apply Hr|].
    intros a Ha. by apply HQ.
Qed.
End driver.

(** ** The queue against the driver without interrupts *)
Lemma bcore_lookup (bs : list buf) b : (b < length bs)%nat → (bcore <$> bs) !!! b = bcore (bs !!! b).
Proof. intros [r Hr]%lookup_lt_is_Some. rewrite !list_lookup_total_alt. rewrite list_lookup_fmap, Hr. done. Qed.
Lemma bcore_alter f b (bs : list buf) : (∀ r, bcore (f r) = f (bcore r)) → bcore <$> (alter f b bs) = alter f b (bcore <$> bs).
Proof.
  intros H. apply list_eq. intros c. rewrite list_lookup_fmap. destruct (decide (b = c)) as [<-|N].
  - rewrite !list_lookup_alter_eq, list_lookup_fmap. destruct (bs !! b); [|done]. cbn. by rewrite H.
  - by rewrite !list_lookup_alter_ne, list_lookup_fmap.
Qed.
Lemma serve_eq d bs b : (b < length bs)%nat → serve (d, bcore <$> bs) b =
  let r := bs !!! b in
  (if has_flag r B_DIRTY then <[Z.to_nat (blockno r) := bdata r]> d else d,
   bcore <$> alter (λ r', done_buf (read_buf (has_flag r B_DIRTY) d r')) b bs).
Proof.
  intros H. unfold serve. cbv zeta. rewrite bcore_lookup by done. change (has_flag (bcore ?r)) with (has_flag r).
  destruct (has_flag _ _); by rewrite bcore_alter.
Qed.

(** Starting the head of the queue does no more than its request asks for. *)
Lemma serve_at_disk b a k q : (b < length (bufs k))%nat →
  foldl serve (coreof (at_disk b a k)) (b :: q) = foldl serve (coreof k) (b :: q).
Proof.
  intros H. cbn [foldl]. f_equal. unfold at_disk. destruct (has_flag (bufs k !!! b) B_DIRTY) eqn:E; [|done].
  set (r := bufs k !!! b) in *. change (coreof _) with (<[Z.to_nat (blockno r) := bdata r]> (disk k), bcore <$> bufs k) at 1.
  unfold coreof. rewrite !serve_eq by exact H. fold r. cbv zeta. rewrite E. by rewrite list_insert_insert_eq.
Qed.

(** The invariant but for the disk's work on the head. *)
Record ide_pre (q : list nat) (k : kernel) : Prop := {
  ip_chain : qchain (bufs k) (idequeue (kide k)) q;
  ip_nodup : NoDup q;
  ip_req : ∀ b, b ∈ q → req_ok k b;
  ip_bufs : length (bufs k) = S NBUF;
  ip_fine : ata_fine (disk k) (katas k);
  ip_have : havedisk1 (kide k) ≠ 0 }.

Lemma req_lt k b : length (bufs k) = S NBUF → req_ok k b → (b < length (bufs k))%nat.
Proof. intros -> [? _]. lia. Qed.

Lemma next_inv a q k : ide_pre q k → next_cmd a k →
  ide_inv q (next_st a k) ∧ foldl serve (coreof (next_st a k)) q = foldl serve (coreof k) q.
Proof.
  intros [Hq Hd Hr Hl Hf Hh] Hc. unfold next_st, next_cmd in *. destruct q as [|b q].
  - cbn in Hq. rewrite Hq in *. split; [|done]. by split; try done; rewrite Hq.
  - pose proof Hq as [E Hq']. rewrite E in *. destruct Hc as [Hc Hdr].
    pose proof (Hr b (list_elem_of_here _ _)) as Hb. split; [|apply serve_at_disk; by apply req_lt].
    destruct Hb as (Hb & Hdev & Hz & Hlt). set (r := bufs k !!! b) in *.
    assert (Hdisk : length (disk (at_disk b a k)) = length (disk k)).
    { unfold at_disk. destruct (has_flag _ _); [apply length_insert|done]. }
    assert (E1 : bufs (at_disk b a k) = bufs k) by (unfold at_disk; by destruct (has_flag _ _)).
    assert (E2 : kide (at_disk b a k) = (kide k) <| kata := a |>) by (unfold at_disk; by destruct (has_flag _ _)).
    split; unfold katas, req_ok, ata_fine; rewrite ?E1, ?E2, ?Hdisk; try done.
    + cbn [kata upd]. rewrite Hdr, Hc. change (1 =? 1) with true. unfold sectors. change (1 =? 1) with true. cbv iota.
      rewrite Hdisk. split; [|lia]. intros E0. rewrite E0 in Hdisk. cbn in Hdisk. lia.
    + split; [done|]. fold r. intros Ht. unfold at_disk. fold r. rewrite Ht. cbn [disk upd].
      apply list_lookup_insert_eq. lia.
Qed.

(** Completing the head is what the driver without interrupts did for it. *)
Lemma fin_inv b q k d : ide_inv (b :: q) k → disk d = disk k →
  bufs d = alter (read_buf (has_flag (bufs k !!! b) B_DIRTY) (disk k)) b (bufs k) →
  idequeue (kide d) = qnext (bufs k !!! b) → havedisk1 (kide d) = havedisk1 (kide k) → ata_fine (disk d) (katas d) →
  ide_pre q (fin_st b d) ∧ coreof (fin_st b d) = serve (coreof k) b.
Proof.
  intros [Hq Hd Hr Hl Hf Hh [Hc Hw]] E1 E2 E3 E4 Hf'. destruct Hq as [Hi Hq]. apply NoDup_cons in Hd as [Hbq Hd].
  pose proof (req_lt k b Hl (Hr b (list_elem_of_here _ _))) as Hb.
  assert (Eb : bufs (fin_st b d) = alter (λ r', done_buf (read_buf (has_flag (bufs k !!! b) B_DIRTY) (disk k) r')) b (bufs k)).
  { change (alter done_buf b (bufs d) = alter (λ r', done_buf (read_buf (has_flag (bufs k !!! b) B_DIRTY) (disk k) r')) b (bufs k)).
    by rewrite E2, alter_alter. }
  assert (Hne : ∀ c, c ∈ q → bufs (fin_st b d) !!! c = bufs k !!! c).
  { intros c Hcq. rewrite Eb, balter_ne; [done|]. by intros ->. }
  split.
  - split; [|done| |rewrite Eb; by rewrite length_alter|exact Hf'|by change (havedisk1 (kide d) ≠ 0); rewrite E4].
    + change (idequeue (kide (fin_st b d))) with (idequeue (kide d)). rewrite E3.
      apply (qchain_ext (bufs k)); [|done]. intros c Hcq. by rewrite Hne.
    + intros c Hcq. unfold req_ok. rewrite Hne by done. change (disk (fin_st b d)) with (disk d). rewrite E1.
      by apply Hr, list_elem_of_further.
  - unfold coreof. rewrite serve_eq, Eb by done. cbv zeta. f_equal. change (disk (fin_st b d)) with (disk d). rewrite E1.
    destruct (has_flag _ _); [|done]. symmetry. by apply list_insert_id, Hw.
Qed.

Definition dev_eq (k k' : kernel) : Prop := disk k' = disk k ∧ bufs k' = bufs k ∧ kide k' = kide k.
Lemma dev_inv q k k' : dev_eq k k' → ide_inv q k → ide_inv q k' ∧ coreof k' = coreof k.
Proof.
  intros (E1 & E2 & E3) []. split; [|unfold coreof; by rewrite E1, E2].
  split; unfold katas, req_ok in *; by rewrite ?E1, ?E2, ?E3.
Qed.
Lemma rel_dev l k : dev_eq k (rel l k).
Proof. done. Qed.

Lemma next_ptable a k : ptable (next_st a k) = ptable k.
Proof. unfold next_st, at_disk. destruct (idequeue _) as [c|]; [|done]. by destruct (has_flag (bufs k !!! c) B_DIRTY). Qed.

(** The interrupt completes the head, wakes its process and starts the next. *)
Lemma intr_step `{!Patience} b q k : ide_inv (b :: q) k → cpu_wf k → Lide ∉ held k → Lptable ∉ held k →
  ∃ k', ide_ideintr k = Ok tt k' ∧ ptable k' = wake_slot (Some (Cbuf b)) (ticks k) <$> ptable k ∧
    ide_inv q k' ∧ foldl serve (coreof k') q = foldl serve (coreof k) (b :: q).
Proof.
  intros I Hwf Hl Hp.
  destruct (kwp_returns ide_ideintr (λ _ e, ptable e = wake_slot (Some (Cbuf b)) (ticks k) <$> ptable k ∧
    ide_inv q e ∧ foldl serve (coreof e) q = foldl serve (coreof k) (b :: q)) k) as ([] & k' & e & H1 & H2 & H3 & H4 & H5).
  - apply (kwp_ideintr _ b q); [done..|]. intros d a E1 E2 E3 E4 E5 E6 _ Hf Hn.
    destruct (fin_inv b q k d I E1 E2 E3 E4 Hf) as [P C]. destruct (next_inv a q _ P Hn) as [I' C'].
    destruct (dev_inv q _ _ (rel_dev Lide _) I') as [I'' C'']. split_and!; [|done|cbn [foldl]; congruence].
    rewrite <- E5, <- E6. exact (next_ptable a _).
  - keqv_rd H2. exists k'. destruct (dev_inv q e k') as [I' C']; [by split_and!|done|]. split_and!; [done|congruence|done|congruence].
Qed.
Lemma intr_spurious `{!Patience} k : idequeue (kide k) = None → cpu_wf k → Lide ∉ held k →
  ∃ k', ide_ideintr k = Ok tt k' ∧ k' ≃ k.
Proof.
  intros Hq Hwf Hl. destruct (kwp_returns ide_ideintr (λ _ e, e = k) k) as ([] & k' & e & H1 & H2 & ->); [|eauto].
  unfold ide_ideintr. kstep. kstep. kstep. rd. change (kide (acq Lide k)) with (kide k). rewrite Hq.
  by apply (kwp_release Lide (λ k, k)); [apply _|..].
Qed.

(** ** Submitting a request *)
Definition set_qnext (o : option nat) (r : buf) : buf := r <| qnext := o |>.
Lemma bcore_qnext o b (bs : list buf) : bcore <$> (alter (set_qnext o) b bs) = bcore <$> bs.
Proof.
  apply list_eq. intros c. rewrite !list_lookup_fmap. destruct (decide (b = c)) as [<-|N].
  - rewrite list_lookup_alter_eq. by destruct (bs !! b).
  - by rewrite list_lookup_alter_ne.
Qed.
(** A change of [qnext] leaves a buffer as it is for the driver. *)
Lemma qnext_same o b (bs : list buf) c : let r := alter (set_qnext o) b bs !!! c in
  bflags r = bflags (bs !!! c) ∧ bdev r = bdev (bs !!! c) ∧ blockno r = blockno (bs !!! c) ∧ bdata r = bdata (bs !!! c) ∧
  bslp r = bslp (bs !!! c).
Proof.
  cbv zeta. rewrite !list_lookup_total_alt. destruct (decide (b = c)) as [<-|N].
  - rewrite list_lookup_alter_eq. by destruct (bs !! b).
  - by rewrite list_lookup_alter_ne.
Qed.
Lemma qnext_req o b c k k' : bufs k' = alter (set_qnext o) b (bufs k) → disk k' = disk k → req_ok k c → req_ok k' c.
Proof. intros E E'. unfold req_ok. rewrite E, E'. destruct (qnext_same o b (bufs k) c) as (_ & -> & -> & _). done. Qed.
Lemma qnext_has o b (bs : list buf) c fl : has_flag (alter (set_qnext o) b bs !!! c) fl = has_flag (bs !!! c) fl.
Proof. unfold has_flag. by destruct (qnext_same o b bs c) as (-> & _). Qed.
Lemma qnext_blk o b (bs : list buf) c : blockno (alter (set_qnext o) b bs !!! c) = blockno (bs !!! c).
Proof. by destruct (qnext_same o b bs c) as (_ & _ & -> & _). Qed.
Lemma qnext_dat o b (bs : list buf) c : bdata (alter (set_qnext o) b bs !!! c) = bdata (bs !!! c).
Proof. by destruct (qnext_same o b bs c) as (_ & _ & _ & -> & _). Qed.

(** The queue with [b] at its end, the disk idle before. *)
Lemma first_pre b k k' : ide_inv [] k → req_ok k b → disk k' = disk k → bufs k' = alter (set_qnext None) b (bufs k) →
  kide k' = (kide k) <| idequeue := Some b |> → ide_pre [b] k' ∧ coreof k' = coreof k.
Proof.
  intros [_ _ _ Hl Hf Hh _] Hb E1 E2 E3. pose proof (req_lt k b Hl Hb) as Hlt.
  split; [|unfold coreof; by rewrite E1, E2, bcore_qnext].
  split; unfold katas; rewrite ?E1, ?E2, ?E3; try done.
  - cbn. by rewrite balter_eq.
  - apply NoDup_singleton.
  - intros c ->%list_elem_of_singleton. by apply (qnext_req None b b k k').
  - by rewrite length_alter.
Qed.
(** The queue with [b] at its end, the disk at work. *)
Lemma later_inv b e q k k' : ide_inv (q ++ [e]) k → req_ok k b → b ∉ q ++ [e] → disk k' = disk k →
  bufs k' = alter (set_qnext (Some b)) e (alter (set_qnext None) b (bufs k)) → kide k' = kide k →
  ide_inv ((q ++ [e]) ++ [b]) k' ∧ coreof k' = coreof k.
Proof.
  intros [Hq Hd Hr Hl Hf Hh Hw] Hb Hn E1 E2 E3. pose proof (req_lt k b Hl Hb) as Hlt.
  assert (He : req_ok k e) by (apply Hr, elem_of_app; right; apply list_elem_of_here).
  pose proof (req_lt k e Hl He) as Hlte.
  split; [|unfold coreof; by rewrite E1, E2, !bcore_qnext].
  split; unfold katas; rewrite ?E1, ?E2, ?E3; try done.
  - rewrite <- app_assoc. apply qchain_snoc; try done; rewrite ?length_alter; try done; [|by rewrite balter_eq].
    apply (qchain_ext (bufs k)); [|done]. intros c Hc. rewrite balter_ne; [done|]. by intros ->.
  - apply NoDup_app. split_and!; [done| |apply NoDup_singleton]. intros c Hc ->%list_elem_of_singleton. done.
  - intros c Hc. assert (req_ok k c) as H.
    { apply elem_of_app in Hc as [Hc| ->%list_elem_of_singleton]; [by apply Hr|done]. }
    apply (qnext_req (Some b) e c (k <| bufs ::= alter (set_qnext None) b |>)); [done|done|].
    by apply (qnext_req None b c k).
  - by rewrite !length_alter.
  - by destruct q as [|c q]; cbn [app] in *; rewrite !qnext_has, !qnext_blk, !qnext_dat.
Qed.
Lemma queue_short q k : ide_inv q k → (length q ≤ NBUF)%nat.
Proof.
  intros [_ Hd Hr _ _ _ _]. rewrite <- (length_seq NBUF 0). apply submseteq_length, NoDup_submseteq; [done|].
  intros b [Hb _]%Hr. apply elem_of_seq. lia.
Qed.

Definition pending (r : buf) : Prop := (Z.land (bflags r) (Z.lor B_VALID B_DIRTY) =? B_VALID) = false.
Lemma qnext_pending o c (bs : list buf) b : pending (bs !!! b) → pending (alter (set_qnext o) c bs !!! b).
Proof. unfold pending. by destruct (qnext_same o c bs b) as (-> & _). Qed.
Section submit.
Context `{!Patience} (p : nat) (x : Z) (b : nat) (R : kernel → Prop).

Lemma kwp_ide_sleep n e : running p [Lide] e → pending (bufs e !!! b) → R (sleep_st p (Cbuf b) e) →
  kwp (ide_wait n b) (λ _, kwp (release Lide) (λ _ _, False) (at_switch R)) (at_switch R) e.
Proof.
  intros Hr Hp HR. destruct n; cbn [ide_wait]; kstep; apply kwp_bget_slot; rewrite Hp; cbn [negb]; kstep;
    by apply (kwp_sleep p); [apply _|..].
Qed.

Lemma kwp_ide_iderw q k : ide_inv q k → bctx p x k → bslp (bufs k !!! b) = mkSlk 1 x → pending (bufs k !!! b) →
  req_ok k b → b ∉ q →
  (∀ e, ide_inv (q ++ [b]) e → foldl serve (coreof e) (q ++ [b]) = foldl serve (coreof k) (q ++ [b]) →
     ptable e = ptable k → R (sleep_st p (Cbuf b) e)) →
  kwp (ide_iderw b) (λ _ _, False) (at_switch R) k.
Proof.
  intros I HB Hs Hp Hb Hn HR. pose proof HB as [Hrun _]. pose proof (bctx_wf _ _ _ HB) as Hwf.
  unfold ide_iderw. kstep. apply (kwp_holdingsleep p x); [apply _|done..|]. kstep. kstep. kstep. apply kwp_bget_slot.
  unfold pending in Hp. rewrite Hp. kstep. kstep. kstep. rd.
  rewrite (proj2 (Z.eqb_neq _ 0) (iq_have _ _ I)), andb_false_r. kstep. kstep. kstep.
  apply kwp_acquire; [done|by apply (bctx_no_lock p x)|]. kstep. apply kwp_bset. kstep. rd.
  change (kide (bup _ b (acq Lide k))) with (kide k). pose proof (running_acq Lide p k Hrun) as Hrun'.
  kstep. pose proof (iq_chain _ _ I) as Hq. destruct q as [|h q].
  - cbn in Hq. rewrite Hq. unfold iset. kstep. kstep. rd. match goal with |- kwp _ _ _ ?d0 => set (d := d0) end.
    rewrite decide_True by done. destruct (first_pre b k d I Hb) as [P C]; [done..|]. kstep.
    apply kwp_idestart; [apply _|apply (ip_req _ _ P), list_elem_of_here|exact (ip_fine _ _ P)|]. intros a H1 H2.
    destruct (next_inv a [b] d P) as [I' C']; [by split|]. change (next_st a d) with (at_disk b a d) in *.
    assert (Eb : bufs (at_disk b a d) = bufs d) by (unfold at_disk; by destruct (has_flag (bufs d !!! b) B_DIRTY)).
    kstep. apply kwp_ide_sleep; [|rewrite Eb; by apply qnext_pending|].
    { unfold at_disk. by destruct (has_flag (bufs d !!! b) B_DIRTY). }
    apply HR; [done|cbn [app]; congruence|]. apply (next_ptable a d).
  - pose proof Hq as [E _]. rewrite E. kstep. rd. change (bufs (bup _ b (acq Lide k))) with (alter (set_qnext None) b (bufs k)).
    destruct (queue_last_spec (alter (set_qnext None) b (bufs k)) (h :: q) NBUF h) as [q' Eq].
    { rewrite <- E. apply (qchain_ext (bufs k)); [|done]. intros c Hc. rewrite balter_ne; [done|]. by intros ->. }
    { pose proof (queue_short _ _ I). lia. }
    set (e := queue_last _ _ _) in *. apply kwp_bset. match goal with |- kwp _ _ _ ?d0 => set (d := d0) end.
    rewrite Eq in *. destruct (later_inv b e q' k d I Hb Hn) as [I' C']; [done..|].
    kstep. rd. change (idequeue (kide d)) with (idequeue (kide k)). rewrite E. rewrite decide_False.
    2:{ intros [= ->]. apply Hn. rewrite <- Eq. apply list_elem_of_here. }
    kstep. kstep. kstep. apply kwp_ide_sleep; [done|by do 2 apply qnext_pending|]. apply HR; [done|congruence|done].
Qed.
End submit.

(** A submission queues the request, starts the disk if it was idle, and sleeps. *)
Lemma submit_step `{!Patience} p x b q k : ide_inv q k → bctx p x k → bslp (bufs k !!! b) = mkSlk 1 x →
  pending (bufs k !!! b) → req_ok k b → b ∉ q →
  ∃ s resume, ide_iderw b k = Swtch s resume ∧ state (ptable s !!! p) = SLEEPING ∧ pchan (ptable s !!! p) = Some (Cbuf b) ∧
    ide_inv (q ++ [b]) s ∧ foldl serve (coreof s) (q ++ [b]) = serve (foldl serve (coreof k) q) b.
Proof.
  intros I HB Hs Hp Hb Hn.
  destruct (kwp_switches (ide_iderw b) (λ d, ∃ e, d = sleep_st p (Cbuf b) e ∧ ide_inv (q ++ [b]) e ∧
    foldl serve (coreof e) (q ++ [b]) = foldl serve (coreof k) (q ++ [b]) ∧ ptable e = ptable k) k)
    as (s & r & d & H1 & H2 & e & -> & I' & C & Ept).
  { apply (kwp_ide_iderw p x b _ q); try done. intros e I' C Ept. by exists e. }
  keqv_rd H2. exists s, r. pose proof HB as [(_ & _ & _ & Hlt) _].
  assert (Es : ptable s !!! p = sleep_slot (Cbuf b) (ticks e) (ptable k !!! p)).
  { rewrite Hpt. cbn. by rewrite Ept, alter_lookup_total. }
  destruct (dev_inv (q ++ [b]) e s) as [I'' C']; [by split_and!|done|]. rewrite Es.
  split_and!; [done|done|done|done|]. rewrite C', C, foldl_app. done.
Qed.

(** ** The driver without interrupts *)
Lemma flags_order f : Z.land (Z.lor f B_VALID) (Z.lnot B_DIRTY) = Z.lor (Z.land f (Z.lnot B_DIRTY)) B_VALID.
Proof. by rewrite Z.land_lor_distr_l. Qed.
Lemma flags_clean f : istrue (Z.land f B_DIRTY) = false → Z.land f (Z.lnot B_DIRTY) = f.
Proof.
  unfold istrue. intros H. apply negb_false_iff, Z.eqb_eq in H. rewrite <- (Z.lor_ldiff_and f B_DIRTY) at 2.
  by rewrite H, Z.lor_0_r, Z.ldiff_land.
Qed.
Lemma memide_step p x b k : bctx p x k → length (bufs k) = S NBUF → bslp (bufs k !!! b) = mkSlk 1 x → pending (bufs k !!! b) →
  req_ok k b → ∃ k', memide_iderw b k = Ok tt k' ∧ coreof k' = serve (coreof k) b.
Proof.
  intros HB Hl Hs Hp Hb. pose proof (req_lt k b Hl Hb) as Hlt. destruct Hb as (_ & Hdev & _ & Hr).
  destruct (kwp_returns (memide_iderw b) (λ _ d, coreof d = serve (coreof k) b) k) as ([] & k' & d & H1 & H2 & H3).
  - unfold memide_iderw. kstep. apply (kwp_holdingsleep p x); [apply _|done..|]. kstep. kstep. kstep. apply kwp_bget_slot.
    unfold pending in Hp. rewrite Hp. kstep. kstep. rewrite Hdev. change (1 =? 1) with true. cbv iota. kstep. kstep. kstep. rd.
    rewrite (proj2 (Z.leb_gt _ _)) by done. kstep. kstep. kstep. unfold coreof at 2. rewrite serve_eq by done. cbv zeta.
    destruct (has_flag (bufs k !!! b) B_DIRTY) eqn:E.
    + kstep. apply kwp_bset. kstep. apply kwp_bset. unfold coreof. f_equal. f_equal.
      transitivity (alter (set_flag B_VALID) b (alter (clear_flag B_DIRTY) b (bufs k))); [done|]. rewrite alter_alter.
      apply list_alter_ext. unfold done_buf, read_buf, clear_flag, set_flag, upd. cbn. by rewrite flags_order.
    + apply kwp_bset. apply kwp_bset. unfold coreof. f_equal. f_equal.
      transitivity (alter (set_flag B_VALID) b
        (alter (λ r, r <| bdata := disk k !!! Z.to_nat (blockno (bufs k !!! b)) |>) b (bufs k))); [done|].
      rewrite alter_alter. apply list_alter_ext. unfold done_buf, read_buf, clear_flag, set_flag, upd. cbn.
      by rewrite flags_order, flags_clean.
  - exists k'. split; [done|]. keqv_rd H2. unfold coreof in *. by rewrite Hdisk, Hbufs.
Qed.

(** ** Requests and interrupts in any order *)
Lemma serve_ne c b b' : b ≠ b' → (serve c b).2 !!! b' = c.2 !!! b'.
Proof. destruct c as [d bs]. intros N. unfold serve. destruct (has_flag _ _); cbn; by apply balter_ne. Qed.
Lemma serves_ne q c b : b ∉ q → (foldl serve c q).2 !!! b = c.2 !!! b.
Proof.
  revert c. induction q as [|b' q IH]; intros c; [done|]. intros [N Hq]%not_elem_of_cons. cbn [foldl].
  rewrite IH by done. by apply serve_ne.
Qed.
(** A buffer that is not queued can change while the disk works. *)
Definition put (b : nat) (r : buf) (c : core) : core := (c.1, alter (λ _, bcore r) b c.2).
Lemma serve_put c b b' r : b ≠ b' → serve (put b r c) b' = put b r (serve c b').
Proof.
  destruct c as [d bs]. intros N. unfold put, serve. cbn. rewrite balter_ne by done.
  destruct (has_flag _ _); cbn; f_equal; by apply list_alter_alter_ne.
Qed.
Lemma serves_put q c b r : b ∉ q → foldl serve (put b r c) q = put b r (foldl serve c q).
Proof.
  revert c. induction q as [|b' q IH]; intros c; [done|]. intros [N Hq]%not_elem_of_cons. cbn [foldl].
  rewrite serve_put by done. by apply IH.
Qed.

(** What the rest of the kernel may do to the device and the buffers: the
    links, locks and counts of any buffer, but the links of the queue. *)
Definition aside (q : list nat) (k k' : kernel) : Prop :=
  disk k' = disk k ∧ kide k' = kide k ∧ bcore <$> bufs k' = bcore <$> bufs k ∧
  ∀ b, b ∈ q → qnext (bufs k' !!! b) = qnext (bufs k !!! b).
Lemma bcore_fields (bs bs' : list buf) b : bcore <$> bs' = bcore <$> bs → bcore (bs' !!! b) = bcore (bs !!! b).
Proof.
  intros E. pose proof (f_equal (λ l : list buf, l !! b) E) as H. cbv beta in H. rewrite !list_lookup_fmap in H.
  rewrite !list_lookup_total_alt. destruct (bs' !! b), (bs !! b); cbn [fmap option_fmap option_map from_option id] in *; congruence.
Qed.
Lemma aside_inv q k k' : aside q k k' → ide_inv q k → ide_inv q k' ∧ coreof k' = coreof k.
Proof.
  intros (E1 & E2 & E3 & E4) [Hq Hd Hr Hl Hf Hh Hw]. split; [|unfold coreof; by rewrite E1, E3].
  assert (Hs : ∀ b, bflags (bufs k' !!! b) = bflags (bufs k !!! b) ∧ bdev (bufs k' !!! b) = bdev (bufs k !!! b) ∧
    blockno (bufs k' !!! b) = blockno (bufs k !!! b) ∧ bdata (bufs k' !!! b) = bdata (bufs k !!! b)).
  { intros b. pose proof (bcore_fields _ _ b E3) as E. injection E. auto. }
  split; unfold katas, has_flag; rewrite ?E1, ?E2; try done.
  - by apply (qchain_ext (bufs k)).
  - intros b Hb. unfold req_ok. destruct (Hs b) as (_ & -> & -> & _). rewrite E1. by apply Hr.
  - apply (f_equal length) in E3. rewrite !length_fmap in E3. by rewrite E3.
  - destruct q as [|b q]; [done|]. cbv zeta. destruct (Hs b) as (-> & _ & -> & ->). exact Hw.
Qed.
Definition touches (b : nat) (r : buf) (k k' : kernel) : Prop :=
  disk k' = disk k ∧ kide k' = kide k ∧ bufs k' = alter (λ _, r) b (bufs k).
Lemma touches_inv q b r k k' : touches b r k k' → b ∉ q → ide_inv q k → ide_inv q k' ∧ coreof k' = put b r (coreof k).
Proof.
  intros (E1 & E2 & E3) Hb [Hq Hd Hr Hl Hf Hh Hw].
  assert (Hs : ∀ c, c ∈ q → bufs k' !!! c = bufs k !!! c).
  { intros c Hc. rewrite E3, balter_ne; [done|]. by intros ->. }
  split.
  - split; unfold katas; rewrite ?E1, ?E2; try done.
    + apply (qchain_ext (bufs k)); [|done]. intros c Hc. by rewrite Hs.
    + intros c Hc. unfold req_ok. rewrite Hs, E1 by done. by apply Hr.
    + by rewrite E3, length_alter.
    + destruct q as [|c q]; [done|]. cbv zeta. rewrite Hs by apply list_elem_of_here. exact Hw.
  - unfold coreof, put. cbn [fst snd]. rewrite E1, E3. f_equal. apply list_eq. intros c. rewrite list_lookup_fmap.
    destruct (decide (b = c)) as [<-|N].
    + rewrite !list_lookup_alter_eq, list_lookup_fmap. by destruct (bufs k !! b).
    + by rewrite !list_lookup_alter_ne, list_lookup_fmap.
Qed.

(** The controller as the machine starts: both drives present and idle. *)
Definition powered (k : kernel) : Prop :=
  disk k ≠ [] ∧ a_disk0 (katas k) ≠ [] ∧ a_cmd (katas k) = None ∧ idequeue (kide k) = None ∧ length (bufs k) = S NBUF.

Lemma ideinit_inv k : powered k → ∃ k', ide_ideinit k = Ok tt k' ∧ ide_inv [] k' ∧ coreof k' = coreof k.
Proof.
  intros (Hd & H0 & Hc & Hq & Hl).
  assert (Hs : ∀ a, a_disk0 a = a_disk0 (katas k) → sectors (disk k) a (a_drive a) ≠ []).
  { intros a E. unfold sectors. destruct (_ =? 1); by rewrite ?E. }
  destruct (kwp_returns ide_ideinit (λ _ d, ide_inv [] d ∧ coreof d = coreof k) k) as ([] & k' & d & H1 & H2 & I & C).
  - unfold ide_ideinit. kstep. apply kwp_idewait; [apply _|split; [by apply Hs|by rewrite Hc]|]. unfold outb. cbn [Z.eqb Pos.eqb]. cbv zeta.
    kstep. apply kwp_aset. kstep. change (ide_probe 1000) with (r ← in_status; if negb (r =? 0) then iset (λ s, s <| havedisk1 := 1 |>) else ide_probe 999).
    kstep. apply kwp_status; [apply _|split; [by apply Hs|unfold katas in *; cbn; by rewrite Hc]|]. rewrite aup_aup.
    change (a_busy (katas (aup _ k))) with O. cbv iota. change (IDE_DRDY =? 0) with false. cbn [negb]. unfold iset. kstep.
    apply kwp_aset. split; [|done]. split; try done.
    + apply NoDup_nil. done.
    + intros b []%not_elem_of_nil.
    + split; [by apply Hs|unfold katas in *; cbn; by rewrite Hc].
  - exists k'. keqv_rd H2. destruct (dev_inv [] d k') as [I' C']; [by split_and!|done|]. split_and!; [done|done|congruence].
Qed.

Lemma serves_length q c : length (foldl serve c q).1 = length c.1 ∧ length (foldl serve c q).2 = length c.2.
Proof.
  revert c. induction q as [|b q IH]; intros c; [done|]. cbn [foldl]. destruct (IH (serve c b)) as [-> ->].
  destruct c as [d bs]. unfold serve. destruct (has_flag _ _); cbn; by rewrite ?length_insert, !length_alter.
Qed.

(** A process that may call [iderw] on [b]. *)
Definition may_submit (p : nat) (x : Z) (b : nat) (q : list nat) (k : kernel) : Prop :=
  bctx p x k ∧ bslp (bufs k !!! b) = mkSlk 1 x ∧ pending (bufs k !!! b) ∧ req_ok k b ∧ b ∉ q.
(** A state in which the disk can interrupt. *)
Definition may_interrupt (k : kernel) : Prop := cpu_wf k ∧ Lide ∉ held k ∧ Lptable ∉ held k.

(** The runs of the driver: [ide_run k q c] is a state [k] with the requests
    [q] not completed, reached while the driver without interrupts, called
    where [iderw] was, reached the disk and buffers [c]. *)
Inductive ide_run `{!Patience} : kernel → list nat → core → Prop :=
| run_init k k' : powered k → ide_ideinit k = Ok tt k' → ide_run k' [] (coreof k)
| run_submit p x b q k c s resume : ide_run k q c → may_submit p x b q k →
    ide_iderw b k = Swtch s resume → ide_run s (q ++ [b]) (serve c b)
| run_interrupt b q k c k' : ide_run k (b :: q) c → may_interrupt k → ide_ideintr k = Ok tt k' → ide_run k' q c
| run_spurious k c k' : ide_run k [] c → may_interrupt k → ide_ideintr k = Ok tt k' → ide_run k' [] c
| run_touch b r q k c k' : ide_run k q c → b ∉ q → touches b r k k' → ide_run k' q (put b r c)
| run_aside q k c k' : ide_run k q c → aside q k k' → ide_run k' q c.

(** Completing what is queued gives what the other driver has. *)
Lemma run_inv `{!Patience} k q c : ide_run k q c → ide_inv q k ∧ foldl serve (coreof k) q = c.
Proof.
  induction 1 as [k k' Hk E|p x b q k c s r _ [I C] (HB & Hs & Hp & Hb & Hn) E|b q k c k' _ [I C] (Hwf & Hl & Hp) E|
    k c k' _ [I C] (Hwf & Hl & Hp) E|b r q k c k' _ [I C] Hn Ht|q k c k' _ [I C] Ha].
  - destruct (ideinit_inv k Hk) as (? & E' & I & C). rewrite E in E'. by injection E' as <-.
  - destruct (submit_step p x b q k I HB Hs Hp Hb Hn) as (? & ? & E' & _ & _ & I' & C'). rewrite E in E'. injection E' as <- _.
    split; [done|]. by rewrite C', C.
  - destruct (intr_step b q k I Hwf Hl Hp) as (? & E' & _ & I' & C'). rewrite E in E'. injection E' as <-.
    split; [done|]. by rewrite C'.
  - destruct (intr_spurious k (iq_chain _ _ I) Hwf Hl) as (? & E' & Hk). rewrite E in E'. injection E' as <-. keqv_rd Hk.
    destruct (dev_inv [] k k') as [I' C']; [by split_and!|done|]. split; [done|]. by rewrite C'.
  - destruct (touches_inv q b r k k' Ht Hn I) as [I' C']. split; [done|]. by rewrite C', serves_put, C.
  - destruct (aside_inv q k k' Ha I) as [I' C']. split; [done|]. by rewrite C'.
Qed.

Lemma run_memide `{!Patience} k q c p x b m : ide_run k q c → may_submit p x b q k → coreof m = c → bctx p x m →
  bslp (bufs m !!! b) = mkSlk 1 x → ∃ m', memide_iderw b m = Ok tt m' ∧ coreof m' = serve c b.
Proof.
  intros R (_ & _ & Hp & Hb & Hn) Em HB Hs. destruct (run_inv k q c R) as [I C]. pose proof (iq_bufs _ _ I) as Hl.
  destruct (serves_length q (coreof k)) as [L1 L2]. rewrite C, <- Em in L1, L2. cbn in L1, L2. rewrite !length_fmap in L2.
  pose proof (req_lt k b Hl Hb) as Hlt.
  assert (E : bcore (bufs m !!! b) = bcore (bufs k !!! b)).
  { pose proof (serves_ne q (coreof k) b Hn) as E. rewrite C, <- Em in E. cbn [snd coreof] in E.
    by rewrite !bcore_lookup in E by (rewrite ?L2; done). }
  injection E as E1 E2 E3 E4. rewrite <- Em. apply (memide_step p x); [done|congruence|done| |].
  - unfold pending in *. by rewrite E1.
  - unfold req_ok in *. by rewrite E2, E3, L1.
Qed.

(** C6: [ide.c] refines [memide.c]. Let requests be submitted, the disk
    interrupt, processes change buffers that are not queued and the rest of
    the kernel move the links, locks and counts of any buffer, in any order
    after [ide_ideinit]. Then every buffer with no request outstanding holds what
    it would hold had each [iderw] been the one of [memide.c], and so does the
    disk once the queue is empty. Every call of [iderw] gets to sleep on its
    buffer without a panic, as the call of [memide.c] returns without one; and
    every interrupt returns, with the head of the queue completed and whoever
    sleeps on it woken. *)
Theorem ide_refines_memide `{!Patience} k q c : ide_run k q c →
  (∀ b, b ∉ q → (bcore <$> bufs k) !!! b = c.2 !!! b) ∧ (q = [] → disk k = c.1) ∧
  (∀ p x b, may_submit p x b q k →
     (∃ s resume, ide_iderw b k = Swtch s resume ∧ state (ptable s !!! p) = SLEEPING ∧
        pchan (ptable s !!! p) = Some (Cbuf b) ∧ ide_run s (q ++ [b]) (serve c b)) ∧
     (∀ m, coreof m = c → bctx p x m → bslp (bufs m !!! b) = mkSlk 1 x →
        ∃ m', memide_iderw b m = Ok tt m' ∧ coreof m' = serve c b)) ∧
  (∀ b q', q = b :: q' → may_interrupt k →
     ∃ k', ide_ideintr k = Ok tt k' ∧ ide_run k' q' c ∧ ptable k' = wake_slot (Some (Cbuf b)) (ticks k) <$> ptable k).
Proof.
  intros R. destruct (run_inv k q c R) as [I C]. split_and!.
  - intros b Hb. by rewrite <- C, serves_ne.
  - intros ->. by rewrite <- C.
  - intros p x b M. split; [|intros m; by apply (run_memide k q c p x b m)]. pose proof M as (HB & Hs & Hp & Hb & Hn).
    destruct (submit_step p x b q k I HB Hs Hp Hb Hn) as (s & r & E & H1 & H2 & _). exists s, r. split_and!; [done..|].
    by apply (run_submit p x b q k c s r).
  - intros b q' -> M. pose proof M as (Hwf & Hl & Hp). destruct (intr_step b q' k I Hwf Hl Hp) as (k' & E & H1 & _).
    exists k'. split_and!; [done| |done]. by apply (run_interrupt b q' k c k').
Qed.

(** A run: a block is written and read back through another buffer, the second
    request queued behind the first. *)
Definition seat (k : kernel) : kernel :=
  demo_kernel <| disk := disk k |> <| bufs := (λ r, r <| bslp := mkSlk 1 2 |>) <$> bufs k |> <| kide := kide k |>.
Lemma seat_aside q k : aside q k (seat k).
Proof.
  split_and!; [done|done| |].
  - cbn. rewrite <- list_fmap_compose. by apply list_fmap_ext.
  - intros b _. cbn. rewrite !list_lookup_total_alt, list_lookup_fmap. by destruct (bufs k !! b).
Qed.
Lemma bctx_kide p x k d bs i : bctx p x k → bctx p x (k <| disk := d |> <| bufs := bs |> <| kide := i |>).
Proof. intros HB. by apply (bctx_data (λ k, k <| disk := d |> <| bufs := bs |> <| kide := i |>)); [apply _| | |]. Qed.
Lemma seat_ctx k : bctx 1 2 (seat k).
Proof. exact (bctx_kide 1 2 demo_kernel _ _ _ demo_ctx). Qed.
Definition asks (b : nat) (c : core) : bool :=
  let r := c.2 !!! b in
  (b <? NBUF)%nat && negb (Z.land (bflags r) (Z.lor B_VALID B_DIRTY) =? B_VALID) && (bdev r =? 1) &&
  (0 <=? blockno r) && (blockno r <? FSSIZE) && (blockno r <? Z.of_nat (length c.1)).
Lemma seat_submit `{!Patience} b q k c : ide_run k q c → b ∉ q → asks b c = true → ∃ k', ide_run k' (q ++ [b]) (serve c b).
Proof.
  intros R Hn Ha. destruct (run_inv k q c R) as [I C]. pose proof (iq_bufs _ _ I) as Hl.
  assert (Hs : c.2 !!! b = (bcore <$> bufs k) !!! b) by by rewrite <- C, serves_ne.
  destruct (serves_length q (coreof k)) as [L1 _]. rewrite C in L1. unfold asks in Ha. rewrite Hs, L1 in Ha.
  apply andb_prop in Ha as [Ha H6]. apply andb_prop in Ha as [Ha H5]. apply andb_prop in Ha as [Ha H4].
  apply andb_prop in Ha as [Ha H3]. apply andb_prop in Ha as [H1%Nat.ltb_lt H2%negb_true_iff].
  rewrite bcore_lookup in * by lia. apply Z.eqb_eq in H3. apply Z.leb_le in H4. apply Z.ltb_lt in H5, H6.
  assert (Hb : bufs (seat k) !!! b = (bufs k !!! b) <| bslp := mkSlk 1 2 |>).
  { cbn. rewrite !list_lookup_total_alt, list_lookup_fmap.
    destruct (lookup_lt_is_Some_2 (bufs k) b ltac:(lia)) as [r ->]. done. }
  pose proof (run_aside q k c _ R (seat_aside q k)) as R'.
  assert (M : may_submit 1 2 b q (seat k)).
  { unfold may_submit, pending, req_ok. rewrite Hb. split_and!; try done. apply seat_ctx. }
  destruct (run_inv _ q c R') as [I' _]. pose proof M as (HB & Hsl & Hp & Hr & _).
  destruct (submit_step 1 2 b q _ I' HB Hsl Hp Hr Hn) as (s & r & E & _). exists s. by apply (run_submit 1 2 b q (seat k) c s r).
Qed.
Lemma seat_interrupt `{!Patience} b q k c : ide_run k (b :: q) c → ∃ k', ide_run k' q c.
Proof.
  intros R. pose proof (run_aside _ k c _ R (seat_aside _ k)) as R'. destruct (run_inv _ _ c R') as [I _].
  pose proof (bctx_wf _ _ _ (seat_ctx k)) as Hwf. pose proof (bctx_no_lock 1 2 (seat k)) as Hl.
  destruct (intr_step b q _ I Hwf) as (k' & E & _); [apply Hl, seat_ctx..|]. exists k'.
  apply (run_interrupt b q (seat k) c k' R'); [|done]. split_and!; [done|apply Hl, seat_ctx..].
Qed.

Definition ide_kernel : kernel :=
  bio_kernel <| bufs := alter (λ r, r <| bdev := 1 |> <| blockno := 3 |> <| bflags := B_DIRTY |> <| bdata := [7] |>) 0%nat
                          (alter (λ r, r <| bdev := 1 |> <| blockno := 3 |>) 1%nat fresh_bufs) |>
             <| kide := mkIde None 0 (ata0 <| a_disk0 := [zero_block] |>) |>.
Lemma ide_refines_memide_witness : let _ : Patience := O in
  ∃ k, ide_run k [] (serve (serve (coreof ide_kernel) 0) 1) ∧ disk k !! 3%nat = Some [7] ∧
    bdata ((bcore <$> bufs k) !!! 1%nat) = [7].
Proof.
  intros P. assert (powered ide_kernel) as Hp by (split_and!; done).
  destruct (ideinit_inv ide_kernel Hp) as (k0 & E & _). pose proof (run_init _ _ Hp E) as R.
  apply (seat_submit 0) in R as [k1 R]; [|apply not_elem_of_nil|vm_compute; exact eq_refl].
  apply (seat_submit 1) in R as [k2 R]; [|by intros ?%list_elem_of_singleton|vm_compute; exact eq_refl].
  apply seat_interrupt in R as [k3 R]. apply seat_interrupt in R as [k4 R].
  destruct (ide_refines_memide k4 [] _ R) as (H1 & H2 & _). exists k4. split; [exact R|]. rewrite (H2 eq_refl), (H1 1%nat (not_elem_of_nil _)).
  split; vm_compute; exact eq_refl.
Defined.
