(* ===== verification/Log.v ===== *)
(** * The write-ahead log

    [log.c]: the in-memory header, group commit of concurrent operations, and
    recovery. The on-disk header block holds the count at byte 0 and the block
    numbers from byte 4 on. *)
From stdpp Require Import base strings numbers gmap list.
From S2P Require Import Prelude Machine KString Kernel Locks Kalloc Proc Sleeplock Bio.

Definition lset (f : logst → logst) : K unit := modify (λ k, k <| klog ::= f |>).

Section log.
Context `{!Patience, !DiskDriver}.

(** [memmove(a->data, b->data, BSIZE)] *)
Definition bcopy (dst src : nat) : K unit :=
  s ← bget_slot src;
  bset dst (λ r, r <| bdata := bdata s |>).

Definition install_one (tail : nat) : K unit :=
  l ← gets klog;
  lbuf ← bread (ldev l) (u32 (lstart l + Z.of_nat tail + 1));
  dbuf ← bread (ldev l) (u32 (lh_block l !!! tail));
  bcopy dbuf lbuf;;
  bwrite dbuf;;
  brelse lbuf;;
  brelse dbuf.

Definition install_trans : K unit :=
  l ← gets klog;
  for_up (Z.to_nat (lh_n l)) 0 install_one.

(** Entry [i] of the header array at byte 4 of a block. *)
Definition head_block (d : list Z) (i : nat) : Z := i32 (arr32 d (4 + 4 * i)).

Definition read_head : K unit :=
  l ← gets klog;
  b ← bread (ldev l) (u32 (lstart l));
  r ← bget_slot b;
  let n := i32 (arr32 (bdata r) 0) in
  lset (λ l, l <| lh_n := n |>);;
  for_up (Z.to_nat n) 0 (λ i, lset (λ l, l <| lh_block ::= <[i := head_block (bdata r) i]> |>));;
  brelse b.

Definition write_head : K unit :=
  l ← gets klog;
  b ← bread (ldev l) (u32 (lstart l));
  bset b (λ r, r <| bdata ::= λ d, splice d 0 (enc32 (lh_n l)) |>);;
  for_up (Z.to_nat (lh_n l)) 0 (λ i,
    bset b (λ r, r <| bdata ::= λ d, splice d (4 + 4 * i) (enc32 (lh_block l !!! i)) |>));;
  bwrite b;;
  brelse b.

Definition recover_from_log : K unit :=
  read_head;;
  install_trans;;
  lset (λ l, l <| lh_n := 0 |>);;
  write_head.

(** fs.c: the super block, seven words of block 1. *)
Definition sb_of (d : list Z) : superblock :=
  mkSb (arr32 d 0) (arr32 d 4) (arr32 d 8) (arr32 d 12) (arr32 d 16) (arr32 d 20) (arr32 d 24).

Definition readsb (dev : Z) : K superblock :=
  b ← bread dev 1;
  r ← bget_slot b;
  let s := sb_of (bdata r) in
  brelse b;;
  mret s.

(** [sizeof(struct logheader)] is [4 + 4 * LOGSIZE]. *)
Definition initlog (dev : Z) : K unit :=
  (if BSIZE <=? 4 + 4 * LOGSIZE then panic "initlog: too big logheader" else skip);;
  s ← readsb dev;
  lset (λ l, l <| lstart := i32 (sb_logstart s) |>);;
  lset (λ l, l <| lsize := i32 (sb_nlog s) |>);;
  lset (λ l, l <| ldev := dev |>);;
  recover_from_log.

(** The loop of [begin_op], with [log.lock] held. *)
Fixpoint begin_op_loop (n : nat) : K unit :=
  l ← gets klog;
  if istrue (committing l) || (LOGSIZE <? lh_n l + (outstanding l + 1) * MAXOPBLOCKS) then
    sleep Clog (Some Llog);;
    match n with O => waiting | S n' => begin_op_loop n' end
  else
    lset (λ l, l <| outstanding := outstanding l + 1 |>);;
    release Llog.

Definition begin_op : K unit :=
  acquire Llog;;
  begin_op_loop patience.

Definition write_log_one (tail : nat) : K unit :=
  l ← gets klog;
  to ← bread (ldev l) (u32 (lstart l + Z.of_nat tail + 1));
  from ← bread (ldev l) (u32 (lh_block l !!! tail));
  bcopy to from;;
  bwrite to;;
  brelse from;;
  brelse to.

Definition write_log : K unit :=
  l ← gets klog;
  for_up (Z.to_nat (lh_n l)) 0 write_log_one.

Definition commit : K unit :=
  l ← gets klog;
  if 0 <? lh_n l then
    write_log;;
    write_head;;
    install_trans;;
    lset (λ l, l <| lh_n := 0 |>);;
    write_head
  else skip.

Definition end_op : K unit :=
  acquire Llog;;
  lset (λ l, l <| outstanding := outstanding l - 1 |>);;
  l ← gets klog;
  (if istrue (committing l) then panic "log.committing" else skip);;
  do_commit ← (if outstanding l =? 0 then lset (λ l, l <| committing := 1 |>);; mret true
               else wakeup Clog;; mret false);
  release Llog;;
  if do_commit : bool then
    commit;;
    acquire Llog;;
    lset (λ l, l <| committing := 0 |>);;
    wakeup Clog;;
    release Llog
  else skip.

(** The slot of the header array [log_write] uses: the one that already names
    the block, or the first free one. *)
Definition log_slot (l : logst) (blk : Z) : nat :=
  default (Z.to_nat (lh_n l)) (find_idx (λ b, u32 b =? blk) (take (Z.to_nat (lh_n l)) (lh_block l))).

Definition log_write (b : nat) : K unit :=
  l ← gets klog;
  (if (LOGSIZE <=? lh_n l) || (lsize l - 1 <=? lh_n l) then panic "too big a transaction" else skip);;
  (if outstanding l <? 1 then panic "log_write outside of trans" else skip);;
  acquire Llog;;
  r ← bget_slot b;
  l ← gets klog;
  let i := log_slot l (blockno r) in
  lset (λ l, l <| lh_block ::= <[i := i32 (blockno r)]> |>);;
  (if Z.of_nat i =? lh_n l then lset (λ l, l <| lh_n := lh_n l + 1 |>) else skip);;
  bset b (set_flag B_DIRTY);;
  release Llog.
End log.
