(* ===== verification/LogSpec.v ===== *)
(** * The log survives a power failure

    [commit] writes the pinned blocks to the log area, then the header that names
    them, then the blocks to their homes, then an empty header; recovery copies
    what the header names. A disk that stops between any two of these block writes
    is recovered to the state before the transaction or to the state after it. *)
From stdpp Require Import base strings numbers gmap list.
From S2P Require Import Prelude Machine KString Kernel Locks Kalloc Proc ProcSpec Sleeplock Bio BioSpec Log.

(** A sequence of block writes, the first one first. *)
Definition apply_writes (ws : list (nat * list Z)) (d : list (list Z)) : list (list Z) :=
  foldl (λ d w, <[w.1 := w.2]> d) d ws.
Definition s_puts (ws : list (nat * list Z)) (s : store) : store :=
  s <| s_disk ::= apply_writes ws |> <| s_trace ::= app (rev ws) |>.

Lemma s_puts_nil s : s_puts [] s = s.
Proof. by destruct s. Qed.
Lemma s_puts_snoc ws w s : s_puts (ws ++ [w]) s = s_put (Z.of_nat w.1) w.2 (s_puts ws s).
Proof.
  destruct s, w as [n d]. unfold s_puts, s_put, upd, apply_writes. simpl.
  rewrite foldl_app, rev_app_distr, Nat2Z.id. done.
Qed.
Lemma apply_writes_length ws d : length (apply_writes ws d) = length d.
Proof. revert d. induction ws as [|w ws IH]; intros d; [done|]. simpl. rewrite IH. apply length_insert. Qed.
Lemma apply_writes_other ws d i : Forall (λ w, w.1 ≠ i) ws → apply_writes ws d !! i = d !! i.
Proof.
  intros F. revert d. induction F as [|w ws N _ IH]; intros d; [done|].
  change (apply_writes ws (<[w.1 := w.2]> d) !! i = d !! i). rewrite IH. by apply list_lookup_insert_ne.
Qed.

(** The in-memory header names the blocks [B]. *)
Definition log_at (ls : Z) (B : list Z) (l : logst) : Prop :=
  ldev l = 1 ∧ lstart l = ls ∧ lh_n l = Z.of_nat (length B) ∧ take (length B) (lh_block l) = B.

Lemma log_at_block ls B l i blk : log_at ls B l → B !! i = Some blk → lh_block l !!! i = blk.
Proof.
  intros (_ & _ & _ & E) L. apply list_lookup_total_correct. rewrite <- E, lookup_take in L. by case_decide.
Qed.

Lemma store_ext s s' : s_disk s = s_disk s' → s_trace s = s_trace s' → s_dirty s = s_dirty s' →
  s_held s = s_held s' → s = s'.
Proof. destruct s, s'. simpl. by intros -> -> -> ->. Qed.

Section steps.
Context `{!Patience} (p : nat) (x : Z) (Y : protocol kernel) `{!Mono Y}.
Context (ls : Z) (B : list Z).

Lemma klog_rest k k' : rest k' = rest k → klog k' = klog k.
Proof. intros E. by apply (f_equal klog) in E. Qed.

Lemma kwp_bcopy dst src hd hs s (Q : unit → kernel → Prop) k :
  kcache p x s k → s_held s !! dst = Some hd → s_held s !! src = Some hs →
  (∀ k', kcache p x (s_hold dst (mkHold (h_blk hd) (h_data hs) (h_dirty hd)) s) k' → rest k' = rest k → Q tt k') →
  kwp (bcopy dst src) Q Y k.
Proof.
  intros HK HD HS HQ. unfold bcopy. kstep. apply kwp_bget_slot.
  pose proof HK as (_ & _ & _ & C). destruct (held_slot x s _ C src hs HS) as (_ & _ & _ & _ & E & _). rewrite E.
  apply (kwp_bset_data p x Y dst hd (λ _, h_data hs) s); [done..].
Qed.

Lemma s_take_held b blk s : s_held (s_take b blk s) !! b =
  Some (mkHold blk (s_view s blk) (bool_decide (is_Some (s_dirty s !! blk)))).
Proof. apply lookup_insert_eq. Qed.

Lemma s_hold_eq b h s : s_held (s_hold b h s) !! b = Some h.
Proof. apply lookup_insert_eq. Qed.
Lemma s_hold_ne b b' h s : b ≠ b' → s_held (s_hold b h s) !! b' = s_held s !! b'.
Proof. apply lookup_insert_ne. Qed.
Lemma s_put_held blk d s : s_held (s_put blk d s) = s_held s.
Proof. done. Qed.
Lemma s_drop_ne b b' h s : b ≠ b' → s_held (s_drop b h s) !! b' = s_held s !! b'.
Proof. apply lookup_delete_ne. Qed.

Lemma kwp_write_log_one i blk d s (Q : unit → kernel → Prop) k :
  let lb := ls + Z.of_nat i + 1 in
  kcache p x s k → s_held s = ∅ → log_at ls B (klog k) → B !! i = Some blk →
  s_dirty s !! blk = Some d → s_dirty s !! lb = None → in_range s lb → in_range s blk →
  Z.of_nat (length (s_disk s)) ≤ 2147483648 → (size (s_dirty s) < NBUF)%nat →
  (∀ k', kcache p x (s_put lb d s) k' → rest k' = rest k → Q tt k') →
  kwp (write_log_one i) Q Y k.
Proof.
  intros lb HK HE HL HB HD HN R1 R2 HS HP HQ.
  assert (blk ≠ lb) as Nb by congruence.
  unfold write_log_one. kstep. kstep. rewrite (log_at_block _ _ _ _ _ HL HB).
  destruct HL as (-> & -> & _). fold lb. unfold in_range in *. rewrite !u32_small by lia.
  kstep. apply (kwp_bread p x Y lb s); [done|done| |right; unfold pinned; rewrite HE, map_size_empty; lia|].
  { intros b h Hb. by rewrite HE in Hb. }
  intros b1 k1 F1 K1 E1. kstep.
  apply (kwp_bread p x Y blk (s_take b1 lb s)); [done|done| |left|].
  { intros b h Hb. simpl in Hb. rewrite HE, lookup_insert in Hb. case_decide; [|done]. by simplify_eq. }
  { simpl. by rewrite lookup_delete_ne, HD by done. }
  intros b2 k2 F2 K2 E2. simpl in F2. rewrite HE, lookup_insert in F2. case_decide as N12; [done|].
  set (s2 := s_take b2 blk (s_take b1 lb s)) in *.
  assert (H1 : s_held s2 !! b1 = Some (mkHold lb (s_block s lb) false)).
  { simpl. rewrite lookup_insert_ne, lookup_insert_eq by done. unfold s_view. rewrite HN. done. }
  assert (H2 : s_held s2 !! b2 = Some (mkHold blk d true)).
  { simpl. rewrite lookup_insert_eq. unfold s_view. simpl. by rewrite lookup_delete_ne, HD by done. }
  kstep. apply (kwp_bcopy b1 b2 _ _ s2 _ _ K2 H1 H2). intros k3 K3 E3. simpl in K3.
  kstep. eapply (kwp_bwrite p x Y b1); [exact K3|apply lookup_insert_eq|]. intros k4 K4 E4. simpl in K4.
  kstep. eapply (kwp_brelse p x Y b2); [exact K4|rewrite s_put_held, !s_hold_ne by done; exact H2|done|].
  intros k5 K5 E5.
  eapply (kwp_brelse p x Y b1); [exact K5|rewrite s_drop_ne, s_put_held by done; apply s_hold_eq| |].
  { intros _. unfold s_block. simpl. rewrite list_lookup_total_insert_eq; [done|lia]. }
  intros k6 K6 E6. apply HQ; [|congruence].
  replace (s_put lb d s) with (s_drop b1 (mkHold lb d false) (s_drop b2 (mkHold blk d true)
    (s_put lb d (s_hold b1 (mkHold lb d false) (s_hold b1 (mkHold lb d false) s2))))); [done|].
  subst s2. apply store_ext; simpl; [done..| |].
  - rewrite insert_delete_eq, delete_id by done. by apply insert_id.
  - rewrite HE. apply map_eq. intros j. rewrite lookup_empty, !lookup_delete, !lookup_insert, lookup_empty. repeat case_decide; congruence.
Qed.

(** A block copied from the log to its home is no longer pinned. *)
Definition s_install (blk : Z) (d : list Z) (s : store) : store := (s_put blk d s) <| s_dirty ::= delete blk |>.

Lemma kwp_install_one i blk s (Q : unit → kernel → Prop) k :
  let lb := ls + Z.of_nat i + 1 in
  kcache p x s k → s_held s = ∅ → log_at ls B (klog k) → B !! i = Some blk →
  s_dirty s !! lb = None → blk ≠ lb → in_range s lb → in_range s blk →
  Z.of_nat (length (s_disk s)) ≤ 2147483648 →
  (size (s_dirty s) < NBUF)%nat → is_Some (s_dirty s !! blk) ∨ (S (size (s_dirty s)) < NBUF)%nat →
  (∀ k', kcache p x (s_install blk (s_block s lb) s) k' → rest k' = rest k → Q tt k') →
  kwp (install_one i) Q Y k.
Proof.
  intros lb HK HE HL HB HN Nb R1 R2 HS HP HP2 HQ.
  unfold install_one. kstep. kstep. rewrite (log_at_block _ _ _ _ _ HL HB).
  destruct HL as (-> & -> & _). fold lb. unfold in_range in *. rewrite !u32_small by lia.
  kstep. apply (kwp_bread p x Y lb s); [done|done| |right; unfold pinned; rewrite HE, map_size_empty; lia|].
  { intros b h Hb. by rewrite HE in Hb. }
  intros b1 k1 F1 K1 E1. kstep.
  apply (kwp_bread p x Y blk (s_take b1 lb s)); [done|done| | |].
  { intros b h Hb. simpl in Hb. rewrite HE, lookup_insert in Hb. case_decide; [|done]. by simplify_eq. }
  { simpl. rewrite lookup_delete_ne by done. destruct HP2 as [HP2|HP2]; [by left|right].
    unfold pinned. simpl. rewrite HE, delete_id, map_size_insert_None, map_size_empty by done. lia. }
  intros b2 k2 F2 K2 E2. simpl in F2. rewrite HE, lookup_insert in F2. case_decide as N12; [done|].
  set (s2 := s_take b2 blk (s_take b1 lb s)) in *.
  assert (H1 : s_held s2 !! b1 = Some (mkHold lb (s_block s lb) false)).
  { simpl. rewrite lookup_insert_ne, lookup_insert_eq by done. unfold s_view. rewrite HN. done. }
  assert (H2 : ∃ v b, s_held s2 !! b2 = Some (mkHold blk v b)).
  { simpl. rewrite lookup_insert_eq. by eexists _, _. }
  destruct H2 as (v & bb & H2).
  kstep. apply (kwp_bcopy b2 b1 _ _ s2 _ _ K2 H2 H1). intros k3 K3 E3. simpl in K3.
  kstep. eapply (kwp_bwrite p x Y b2); [exact K3|apply lookup_insert_eq|]. intros k4 K4 E4. simpl in K4.
  kstep. eapply (kwp_brelse p x Y b1); [exact K4|rewrite s_put_held, !s_hold_ne by done; exact H1| |].
  { intros _. unfold s_block. simpl. rewrite list_lookup_total_insert_ne; [done|]. lia. }
  intros k5 K5 E5.
  eapply (kwp_brelse p x Y b2); [exact K5|rewrite s_drop_ne, s_put_held by done; apply s_hold_eq| |].
  { intros _. unfold s_block. simpl. rewrite list_lookup_total_insert_eq; [done|lia]. }
  intros k6 K6 E6. apply HQ; [|congruence].
  match type of K6 with kcache _ _ ?s6 _ => replace (s_install blk (s_block s lb) s) with s6; [done|] end.
  subst s2. apply store_ext; simpl; [done..| |].
  - by rewrite (delete_id (s_dirty s) lb).
  - rewrite HE. apply map_eq. intros j. rewrite lookup_empty, !lookup_delete, !lookup_insert, lookup_empty.
    repeat case_decide; congruence.
Qed.

(** The header block that names [B], over the previous contents [d]. *)
Definition entries (n : nat) (d : list Z) : list Z :=
  foldl (λ d i, splice d (4 + 4 * i) (enc32 (B !!! i))) d (seq 0 n).
Definition header (d : list Z) : list Z := entries (length B) (splice d 0 (enc32 (Z.of_nat (length B)))).

Lemma kwp_write_head s (Q : unit → kernel → Prop) k :
  kcache p x s k → s_held s = ∅ → log_at ls B (klog k) → s_dirty s !! ls = None → in_range s ls →
  Z.of_nat (length (s_disk s)) ≤ 2147483648 → (size (s_dirty s) < NBUF)%nat →
  (∀ k', kcache p x (s_put ls (header (s_block s ls)) s) k' → rest k' = rest k → Q tt k') →
  kwp write_head Q Y k.
Proof.
  intros HK HE HL HN R1 HS HP HQ. pose proof HL as (E1 & E2 & E3 & _).
  unfold write_head. kstep. kstep. rewrite E1, E2, E3, Nat2Z.id. unfold in_range in *. rewrite u32_small by lia.
  kstep. apply (kwp_bread p x Y ls s); [done|done| |right; unfold pinned; rewrite HE, map_size_empty; lia|].
  { intros b h Hb. by rewrite HE in Hb. }
  intros b k1 F1 K1 R. kstep. eapply kwp_bset_data; [exact K1|apply s_take_held|]. intros k2 K2 R2. simpl in K2.
  unfold s_view in K2. rewrite HN in K2. simpl in K2.
  set (d0 := splice (s_block s ls) 0 (enc32 (Z.of_nat (length B)))) in *.
  set (s1 := s_take b ls s) in *.
  kstep. eapply kwp_mono; [apply _|apply (kwp_for_up (λ j k',
    kcache p x (s_hold b (mkHold ls (entries j d0) false) s1) k' ∧ rest k' = rest k)); [done|..]|].
  - simpl. split; [|congruence].
    replace (s_hold b (mkHold ls d0 false) s1) with (s_hold b (mkHold ls d0 (bool_decide (is_Some (@None (list Z))))) s1); [exact K2|done].
  - intros j k3 Hj [K3 R3]. eapply (kwp_bset_data p x Y b); [exact K3|apply lookup_insert_eq|]. intros k4 K4 R4.
    split; [|congruence]. simpl in K4. unfold entries. rewrite seq_S, foldl_app. simpl.
    destruct (lookup_lt_is_Some_2 B j) as [blk Hblk]; [lia|].
    rewrite (log_at_block _ _ _ _ _ HL Hblk) in K4. rewrite (list_lookup_total_correct _ _ _ Hblk).
    replace (s_hold b _ s1) with (s_hold b (mkHold ls (splice (entries j d0) (4 + 4 * j) (enc32 blk)) false)
      (s_hold b (mkHold ls (entries j d0) false) s1)); [done|].
    apply store_ext; simpl; [done..|]. by rewrite insert_insert_eq.
  - simpl. intros _ k3 [K3 R3]. kstep. eapply (kwp_bwrite p x Y b); [exact K3|apply lookup_insert_eq|]. intros k4 K4 R4. simpl in K4.
    eapply (kwp_brelse p x Y b); [exact K4|apply lookup_insert_eq| |].
    { intros _. unfold s_block. simpl. rewrite list_lookup_total_insert_eq; [done|lia]. }
    intros k5 K5 R5. apply HQ; [|congruence].
    match type of K5 with kcache _ _ ?s6 _ => replace (s_put ls _ s) with s6; [done|] end.
    subst s1. apply store_ext; simpl; [done..|by apply delete_id|].
    rewrite HE. apply map_eq. intros j. rewrite lookup_empty, !lookup_delete, !lookup_insert, lookup_empty.
    repeat case_decide; congruence.
Qed.
End steps.

(** ** The loops *)

(** The log area is the [nlog] blocks from [ls] on: a header and room for the
    blocks [B], whose homes are elsewhere on a disk of [nb] blocks. *)
Record layout (ls nlog : Z) (B : list Z) (nb : nat) : Prop := {
  lo_start : 0 ≤ ls;
  lo_end : ls + nlog ≤ Z.of_nat nb;
  lo_room : 1 + Z.of_nat (length B) ≤ nlog;
  lo_disk : Z.of_nat nb ≤ 2147483648;
  lo_nodup : NoDup B;
  lo_home : ∀ blk, blk ∈ B → 0 ≤ blk < Z.of_nat nb ∧ (blk < ls ∨ ls + nlog ≤ blk);
  lo_bufs : (length B < NBUF)%nat }.

Definition log_block (ls : Z) (i : nat) : nat := Z.to_nat (ls + Z.of_nat i + 1).
(** The block writes of the first [n] iterations of [write_log] and [install_trans]. *)
Definition log_writes (ls : Z) (B : list Z) (D : gmap Z (list Z)) (n : nat) : list (nat * list Z) :=
  (λ i, (log_block ls i, D !!! (B !!! i))) <$> seq 0 n.
Definition home_writes (ls : Z) (B : list Z) (d : list (list Z)) (n : nat) : list (nat * list Z) :=
  (λ i, (Z.to_nat (B !!! i), d !!! log_block ls i)) <$> seq 0 n.

Lemma dirty_size (B : list Z) (D : gmap Z (list Z)) : (∀ blk, is_Some (D !! blk) → blk ∈ B) → (size D ≤ length B)%nat.
Proof.
  intros H. rewrite <- length_map_to_list, <- (length_fmap fst). apply submseteq_length, NoDup_submseteq.
  - apply NoDup_fst_map_to_list.
  - intros blk I. apply list_elem_of_fmap in I as ([b d] & -> & I%elem_of_map_to_list). apply H. eauto.
Qed.

Section loops.
Context `{!Patience} (p : nat) (x : Z) (Y : protocol kernel) `{!Mono Y}.
Context (ls nlog : Z) (B : list Z).

Lemma s_put_nat blk d s : 0 ≤ blk → s_put (Z.of_nat (Z.to_nat blk)) d s = s_put blk d s.
Proof. intros. by rewrite Z2Nat.id. Qed.

Lemma log_dirty s i : layout ls nlog B (length (s_disk s)) → (∀ blk, is_Some (s_dirty s !! blk) → blk ∈ B) →
  ls ≤ i < ls + nlog → s_dirty s !! i = None.
Proof.
  intros L HB Hi. destruct (s_dirty s !! i) eqn:E; [|done]. destruct (lo_home _ _ _ _ L i); [apply HB; eauto|lia].
Qed.

Lemma kwp_write_log s (Q : unit → kernel → Prop) k :
  kcache p x s k → s_held s = ∅ → log_at ls B (klog k) → layout ls nlog B (length (s_disk s)) →
  (∀ blk, is_Some (s_dirty s !! blk) ↔ blk ∈ B) →
  (∀ k', kcache p x (s_puts (log_writes ls B (s_dirty s) (length B)) s) k' → rest k' = rest k → Q tt k') →
  kwp write_log Q Y k.
Proof.
  intros HK HE HL LO HD HQ. pose proof HL as (_ & _ & E3 & _). pose proof (lo_start _ _ _ _ LO).
  pose proof (lo_end _ _ _ _ LO). pose proof (lo_room _ _ _ _ LO). pose proof (lo_disk _ _ _ _ LO).
  unfold write_log. kstep. kstep. rewrite E3, Nat2Z.id. eapply kwp_mono; [done|apply (kwp_for_up (λ j k',
    kcache p x (s_puts (log_writes ls B (s_dirty s) j) s) k' ∧ rest k' = rest k)); [done|..]|].
  - split; [|done]. by rewrite s_puts_nil.
  - intros j k1 Hj [K1 R1]. destruct (lookup_lt_is_Some_2 B j) as [blk Hblk]; [lia|].
    assert (blk ∈ B) as IB by by eapply list_elem_of_lookup_2.
    destruct (proj2 (HD blk) IB) as [d Hd]. destruct (lo_home _ _ _ _ LO blk IB) as [RB _].
    eapply kwp_write_log_one; [done|exact K1|done|by rewrite (klog_rest _ _ R1)|exact Hblk|exact Hd| | | | | |].
    + apply (log_dirty s); [done|apply HD|lia].
    + unfold in_range. simpl. rewrite apply_writes_length. lia.
    + unfold in_range. simpl. rewrite apply_writes_length. lia.
    + simpl. by rewrite apply_writes_length.
    + simpl. pose proof (dirty_size B (s_dirty s) (λ b, proj1 (HD b))). pose proof (lo_bufs _ _ _ _ LO). lia.
    + intros k2 K2 R2. split; [|congruence]. unfold log_writes. rewrite seq_S, fmap_app. simpl fmap.
      rewrite s_puts_snoc. simpl. unfold log_block at 1. rewrite s_put_nat by lia.
      rewrite (list_lookup_total_correct _ _ _ Hblk), (lookup_total_correct _ _ _ Hd). done.
  - simpl. intros [] k1 [K1 R1]. by apply HQ.
Qed.

Lemma home_log ls' nb i j : layout ls' nlog B nb → (i < length B)%nat → (j < length B)%nat → Z.to_nat (B !!! i) ≠ log_block ls' j.
Proof.
  intros LO Hi Hj. destruct (lo_home _ _ _ _ LO (B !!! i)) as [R N].
  { destruct (lookup_lt_is_Some_2 B i Hi) as [b Hb]. rewrite (list_lookup_total_correct _ _ _ Hb). by eapply list_elem_of_lookup_2. }
  pose proof (lo_room _ _ _ _ LO). pose proof (lo_start _ _ _ _ LO). unfold log_block. lia.
Qed.

Lemma kwp_install_trans s (Q : unit → kernel → Prop) k :
  kcache p x s k → s_held s = ∅ → log_at ls B (klog k) → layout ls nlog B (length (s_disk s)) →
  (∀ blk, is_Some (s_dirty s !! blk) ↔ blk ∈ B) ∨ s_dirty s = ∅ →
  (∀ k', kcache p x ((s_puts (home_writes ls B (s_disk s) (length B)) s) <| s_dirty := ∅ |>) k' → rest k' = rest k → Q tt k') →
  kwp install_trans Q Y k.
Proof.
  intros HK HE HL LO HD HQ. pose proof HL as (_ & _ & E3 & _). pose proof (lo_start _ _ _ _ LO).
  pose proof (lo_end _ _ _ _ LO). pose proof (lo_room _ _ _ _ LO). pose proof (lo_disk _ _ _ _ LO).
  assert (HD' : ∀ blk, is_Some (s_dirty s !! blk) → blk ∈ B).
  { intros blk [d Hd]. destruct HD as [HD|HD]; [apply HD; eauto|]. by rewrite HD in Hd. }
  set (st j := (s_puts (home_writes ls B (s_disk s) j) s)
    <| s_dirty := filter (λ kv, kv.1 ∉ take j B) (s_dirty s) |>).
  assert (DJ : ∀ j blk, is_Some (s_dirty (st j) !! blk) → is_Some (s_dirty s !! blk)).
  { intros j blk [d Hd]. simpl in Hd. apply map_lookup_filter_Some in Hd as [Hd _]. eauto. }
  unfold install_trans. kstep. kstep. rewrite E3, Nat2Z.id. eapply kwp_mono; [done|apply (kwp_for_up (λ j k',
    kcache p x (st j) k' ∧ rest k' = rest k)); [done|..]|].
  - split; [|done]. replace (st 0%nat) with s; [done|]. apply store_ext; simpl; [done..| |done].
    symmetry. apply map_filter_id. intros ? ? _. simpl. apply not_elem_of_nil.
  - intros j k1 Hj [K1 R1]. destruct (lookup_lt_is_Some_2 B j) as [blk Hblk]; [lia|].
    assert (blk ∈ B) as IB by by eapply list_elem_of_lookup_2. destruct (lo_home _ _ _ _ LO blk IB) as [RB NB].
    assert (LD : length (s_disk (st j)) = length (s_disk s)) by (simpl; apply apply_writes_length).
    pose proof (dirty_size B (s_dirty (st j)) (λ b Hb, HD' b (DJ j b Hb))). pose proof (lo_bufs _ _ _ _ LO).
    eapply kwp_install_one; [done|exact K1|done|by rewrite (klog_rest _ _ R1)|exact Hblk| | | | | | | |].
    + destruct (s_dirty (st j) !! _) eqn:E; [|done]. destruct (DJ j (ls + Z.of_nat j + 1)) as [d Hd]; [eauto|].
      rewrite (log_dirty s) in Hd; [done|done|done|lia].
    + lia.
    + unfold in_range. rewrite LD. lia.
    + unfold in_range. rewrite LD. lia.
    + by rewrite LD.
    + lia.
    + destruct HD as [HD|HD]; [left|right].
      * destruct (proj2 (HD blk) IB) as [d Hd]. exists d. simpl. apply map_lookup_filter_Some. split; [done|]. simpl.
        intros I. apply list_elem_of_lookup in I as (i & I). rewrite lookup_take in I. case_decide; [|done].
        pose proof (NoDup_lookup _ _ _ _ (lo_nodup _ _ _ _ LO) I Hblk). lia.
      * simpl. rewrite HD, map_filter_empty, map_size_empty. unfold NBUF. lia.
    + intros k2 K2 R2. split; [|congruence].
      match type of K2 with kcache _ _ ?s6 _ => replace (st (S j)) with s6; [done|] end.
      assert (ED : s_block (st j) (ls + Z.of_nat j + 1) = s_disk s !!! log_block ls j).
      { unfold s_block. rewrite !list_lookup_total_alt. f_equal. simpl. apply apply_writes_other.
        apply Forall_fmap, Forall_forall. intros i Hi. apply elem_of_seq in Hi. simpl.
        apply (home_log ls (length (s_disk s))); [done|lia|lia]. }
      rewrite ED. assert (E : home_writes ls B (s_disk s) (S j) = home_writes ls B (s_disk s) j ++ [(Z.to_nat blk, s_disk s !!! log_block ls j)]).
      { unfold home_writes. rewrite seq_S, fmap_app. simpl. by rewrite (list_lookup_total_correct _ _ _ Hblk). }
      unfold st at 2. rewrite E. apply store_ext; simpl.
      * unfold apply_writes. by rewrite foldl_app.
      * by rewrite rev_app_distr.
      * apply map_eq. intros b. rewrite (take_S_r _ _ _ Hblk). apply option_eq. intros d.
        rewrite lookup_delete_Some, !map_lookup_filter_Some. simpl. set_solver.
      * done.
  - simpl. intros [] k1 [K1 R1]. apply HQ; [|done].
    match goal with |- kcache _ _ ?s6 _ => replace s6 with (st (length B)); [done|] end.
    apply store_ext; simpl; [done..| |done]. apply map_eq. intros b. rewrite lookup_empty.
    destruct (filter _ _ !! b) as [d|] eqn:Ed; [|done]. apply map_lookup_filter_Some in Ed as [Ed N]. simpl in N.
    rewrite firstn_all in N. destruct N. apply HD'. eauto.
Qed.
End loops.

(** ** The header block *)
Lemma entries_S B n d : entries B (S n) d = splice (entries B n d) (4 + 4 * n) (enc32 (B !!! n)).
Proof. unfold entries. by rewrite seq_S, foldl_app. Qed.
Lemma entries_length B n d : (4 + 4 * n ≤ length d)%nat → length (entries B n d) = length d.
Proof.
  induction n as [|n IH]; intros L; [done|].
  rewrite entries_S, length_splice; rewrite IH by lia; [done|]. simpl. lia.
Qed.
Lemma entries_other B n d off : (4 + 4 * n ≤ length d)%nat → (off + 4 ≤ 4)%nat →
  arr32 (entries B n d) off = arr32 d off.
Proof.
  induction n as [|n IH]; intros L Ho; [done|]. rewrite entries_S, arr32_splice_ne.
  - apply IH; lia.
  - rewrite entries_length by lia. simpl. lia.
  - lia.
Qed.
Lemma entries_entry B n d i : (4 + 4 * n ≤ length d)%nat → (i < n)%nat → 0 ≤ B !!! i < 2147483648 →
  head_block (entries B n d) i = B !!! i.
Proof.
  unfold head_block. intros L Hi Hb. induction n as [|n IH]; [lia|]. rewrite entries_S.
  destruct (decide (i = n)) as [->|N].
  - rewrite arr32_splice_eq by (rewrite entries_length; lia). rewrite u32_small by lia. by rewrite i32_small by lia.
  - rewrite arr32_splice_ne; [apply IH; lia|rewrite entries_length by lia; simpl; lia|simpl; lia].
Qed.

Lemma header_n B d : length d = 512%nat → (length B < NBUF)%nat → i32 (arr32 (header B d) 0) = Z.of_nat (length B).
Proof.
  unfold NBUF, header. intros L HB.
  assert (length (splice d 0 (enc32 (Z.of_nat (length B)))) = 512)%nat as L' by (rewrite length_splice; simpl; lia).
  rewrite entries_other by lia. rewrite arr32_splice_eq by lia. rewrite u32_small, i32_small by lia. done.
Qed.
Lemma header_block B d i : length d = 512%nat → (length B < NBUF)%nat → (i < length B)%nat → 0 ≤ B !!! i < 2147483648 →
  head_block (header B d) i = B !!! i.
Proof.
  unfold NBUF, header. intros L HB Hi Hb.
  assert (length (splice d 0 (enc32 (Z.of_nat (length B)))) = 512)%nat as L' by (rewrite length_splice; simpl; lia).
  apply entries_entry; lia.
Qed.

(** ** Recovery, as a function of the disk *)
Definition hdr_blocks (ls : Z) (d : list (list Z)) : list Z :=
  let h := d !!! Z.to_nat ls in head_block h <$> seq 0 (Z.to_nat (i32 (arr32 h 0))).
Definition recover_disk (ls : Z) (d : list (list Z)) : list (list Z) :=
  let B := hdr_blocks ls d in apply_writes (home_writes ls B d (length B)) d.
(** Equal outside the log area. *)
Definition same_files (ls nlog : Z) (d d' : list (list Z)) : Prop :=
  ∀ i : nat, Z.of_nat i < ls ∨ ls + nlog ≤ Z.of_nat i → d !! i = d' !! i.

Lemma hdr_blocks_header ls d B h0 : d !!! Z.to_nat ls = header B h0 → length h0 = 512%nat →
  (length B < NBUF)%nat → (∀ blk, blk ∈ B → 0 ≤ blk < 2147483648) → hdr_blocks ls d = B.
Proof.
  intros E L LB R. unfold hdr_blocks. rewrite E, header_n, Nat2Z.id by done.
  apply list_eq. intros i. rewrite list_lookup_fmap. destruct (decide (i < length B)%nat) as [Hi|Hi].
  - rewrite lookup_seq_lt by done. simpl. destruct (lookup_lt_is_Some_2 B i Hi) as [b Hb]. rewrite Hb. f_equal.
    rewrite header_block by (done || (rewrite (list_lookup_total_correct _ _ _ Hb); apply R; by eapply list_elem_of_lookup_2)).
    by apply list_lookup_total_correct.
  - rewrite lookup_seq_ge by lia. simpl. symmetry. apply lookup_ge_None_2. lia.
Qed.

Lemma apply_writes_app ws ws' d : apply_writes (ws ++ ws') d = apply_writes ws' (apply_writes ws d).
Proof. unfold apply_writes. by rewrite foldl_app. Qed.
Lemma apply_writes_cons w ws d : apply_writes (w :: ws) d = apply_writes ws (<[w.1 := w.2]> d).
Proof. done. Qed.

(** Writes to distinct blocks. *)
Lemma apply_writes_hit ws d i v : NoDup ws.*1 → (i, v) ∈ ws → (i < length d)%nat → apply_writes ws d !! i = Some v.
Proof.
  revert d. induction ws as [|w ws IH]; intros d ND I Hi; [by apply elem_of_nil in I|].
  simpl in ND. apply NoDup_cons in ND as [N ND]. rewrite apply_writes_cons. apply elem_of_cons in I as [<-|I].
  - rewrite apply_writes_other; [by apply list_lookup_insert_eq|]. simpl in *. apply Forall_forall. intros u U E.
    apply N. rewrite <- E. by apply list_elem_of_fmap_2.
  - apply IH; [done|done|]. by rewrite length_insert.
Qed.

(** ** A power failure at any block write *)
Section crash.
Context (ls nlog : Z) (B : list Z) (D : gmap Z (list Z)) (d0 : list (list Z)).
Context (LO : layout ls nlog B (length d0)).
Notation n := (length B).
Notation h0 := (d0 !!! Z.to_nat ls).

Definition logged_disk : list (list Z) :=
  apply_writes (log_writes ls B D n ++ [(Z.to_nat ls, header B h0)]) d0.
Definition commit_writes : list (nat * list Z) :=
  log_writes ls B D n ++ [(Z.to_nat ls, header B h0)] ++ home_writes ls B logged_disk n ++
  [(Z.to_nat ls, header [] (header B h0))].
(** The disk after the transaction. *)
Definition new_disk : list (list Z) := apply_writes ((λ blk, (Z.to_nat blk, D !!! blk)) <$> B) d0.

Definition in_log (i : nat) : Prop := ls ≤ Z.of_nat i < ls + nlog.
Lemma log_block_in i : (i < n)%nat → in_log (log_block ls i) ∧ log_block ls i ≠ Z.to_nat ls.
Proof. pose proof (lo_start _ _ _ _ LO). pose proof (lo_room _ _ _ _ LO). unfold in_log, log_block. lia. Qed.
Lemma home_not_in blk : blk ∈ B → ¬ in_log (Z.to_nat blk) ∧ (Z.to_nat blk < length d0)%nat ∧ 0 ≤ blk < 2147483648.
Proof. intros I. destruct (lo_home _ _ _ _ LO blk I). pose proof (lo_disk _ _ _ _ LO). unfold in_log. lia. Qed.
Lemma home_in i : (i < n)%nat → B !!! i ∈ B.
Proof.
  intros Hi. destruct (lookup_lt_is_Some_2 B i Hi) as [b Hb]. rewrite (list_lookup_total_correct _ _ _ Hb).
  by eapply list_elem_of_lookup_2.
Qed.
Lemma ls_in : in_log (Z.to_nat ls) ∧ (Z.to_nat ls < length d0)%nat.
Proof.
  pose proof (lo_start _ _ _ _ LO). pose proof (lo_room _ _ _ _ LO). pose proof (lo_end _ _ _ _ LO). unfold in_log. lia.
Qed.

Lemma log_writes_in m : (m ≤ n)%nat → Forall (λ w, in_log w.1 ∧ w.1 ≠ Z.to_nat ls) (log_writes ls B D m).
Proof. intros Hm. apply Forall_fmap, Forall_forall. intros i Hi. apply elem_of_seq in Hi. apply log_block_in. lia. Qed.
Lemma home_writes_out d m : (m ≤ n)%nat → Forall (λ w, ¬ in_log w.1) (home_writes ls B d m).
Proof. intros Hm. apply Forall_fmap, Forall_forall. intros i Hi. apply elem_of_seq in Hi. apply home_not_in, home_in. lia. Qed.
Lemma home_writes_take d m : take m (home_writes ls B d n) = home_writes ls B d (m `min` n).
Proof. unfold home_writes. by rewrite <- fmap_take, take_seq. Qed.
Lemma log_writes_take m : take m (log_writes ls B D n) = log_writes ls B D (m `min` n).
Proof. unfold log_writes. by rewrite <- fmap_take, take_seq. Qed.

Lemma log_only ws d : Forall (λ w, in_log w.1) ws → same_files ls nlog (apply_writes ws d) d.
Proof.
  intros F i Hi. apply apply_writes_other. eapply Forall_impl; [exact F|]. intros w W <-. unfold in_log in W. lia.
Qed.
Lemma same_files_trans d1 d2 d3 : same_files ls nlog d1 d2 → same_files ls nlog d2 d3 → same_files ls nlog d1 d3.
Proof. intros A C i Hi. by rewrite A, C. Qed.

Lemma logged_length : length logged_disk = length d0.
Proof. apply apply_writes_length. Qed.
Lemma logged_header : logged_disk !!! Z.to_nat ls = header B h0.
Proof.
  unfold logged_disk. rewrite apply_writes_app. apply list_lookup_total_insert_eq. rewrite apply_writes_length. apply ls_in.
Qed.
Lemma logged_block i : (i < n)%nat → logged_disk !!! log_block ls i = D !!! (B !!! i).
Proof.
  intros Hi. apply list_lookup_total_correct. unfold logged_disk. rewrite apply_writes_app, apply_writes_other.
  - apply apply_writes_hit.
    + unfold log_writes. rewrite <- list_fmap_compose. apply NoDup_fmap_2_strong; [|apply NoDup_seq].
      intros a b _ _ E. simpl in E. pose proof (lo_start _ _ _ _ LO). unfold log_block in E. lia.
    + apply list_elem_of_fmap. exists i. split; [done|]. apply elem_of_seq. lia.
    + destruct (log_block_in i Hi) as [L _]. pose proof (lo_end _ _ _ _ LO). unfold in_log in L. lia.
  - constructor; [|constructor]. simpl. intros E. by destruct (log_block_in i Hi) as [_ []].
Qed.
Lemma logged_files : same_files ls nlog logged_disk d0.
Proof.
  apply log_only, Forall_app. split; [|constructor; [apply ls_in|constructor]].
  eapply Forall_impl; [apply log_writes_in; done|]. naive_solver.
Qed.

(** Installing the logged blocks gives the new disk, from any point of the
    installation. *)
Lemma home_writes_same d : (∀ i, (i < n)%nat → d !! log_block ls i = logged_disk !! log_block ls i) →
  home_writes ls B d n = home_writes ls B logged_disk n.
Proof.
  intros E. apply list_fmap_ext. intros i j Hj. apply lookup_seq in Hj as [-> Hj]. simpl.
  by rewrite !list_lookup_total_alt, E.
Qed.
Lemma install_new m : (m ≤ n)%nat → let d := apply_writes (home_writes ls B logged_disk m) logged_disk in
  same_files ls nlog (apply_writes (home_writes ls B logged_disk n) d) new_disk.
Proof.
  intros Hm d i Hi.
  assert (ND : NoDup (Z.to_nat <$> B)).
  { apply NoDup_fmap_2_strong; [|apply (lo_nodup _ _ _ _ LO)]. intros a b Ia Ib.
    destruct (home_not_in a Ia) as (_ & _ & Ra). destruct (home_not_in b Ib) as (_ & _ & Rb). lia. }
  assert (K : (home_writes ls B logged_disk n).*1 = Z.to_nat <$> B).
  { unfold home_writes. rewrite <- list_fmap_compose. apply list_eq. intros j. rewrite !list_lookup_fmap.
    destruct (decide (j < n)%nat) as [Hj|Hj].
    - rewrite lookup_seq_lt by done. destruct (lookup_lt_is_Some_2 B j Hj) as [b Hb]. rewrite Hb. simpl.
      by rewrite (list_lookup_total_correct _ _ _ Hb).
    - rewrite lookup_seq_ge by lia. by rewrite (lookup_ge_None_2 B) by lia. }
  destruct (decide (i ∈ Z.to_nat <$> B)) as [I|I].
  - apply list_elem_of_fmap in I as (blk & -> & I). apply list_elem_of_lookup in I as (j & Hj).
    assert (j < n)%nat as Lj by by eapply lookup_lt_Some.
    assert (blk ∈ B) as Ib by by eapply list_elem_of_lookup_2.
    destruct (home_not_in blk Ib) as (_ & Lb & _).
    transitivity (Some (D !!! blk)); [|symmetry]; apply apply_writes_hit.
    + by rewrite K.
    + apply list_elem_of_fmap. exists j. rewrite elem_of_seq, logged_block by done.
      rewrite (list_lookup_total_correct _ _ _ Hj). split; [done|lia].
    + unfold d. rewrite apply_writes_length, logged_length. done.
    + by rewrite <- list_fmap_compose.
    + apply list_elem_of_fmap. by exists blk.
    + done.
  - assert (F : ∀ m', (m' ≤ n)%nat → Forall (λ w, w.1 ≠ i) (home_writes ls B logged_disk m')).
    { intros m' Hm'. apply Forall_fmap, Forall_forall. intros j Hj E. apply elem_of_seq in Hj. apply I.
      rewrite <- E. apply (list_elem_of_fmap_2 Z.to_nat), home_in. lia. }
    unfold d. rewrite !apply_writes_other by (apply F; lia). rewrite (logged_files i Hi). symmetry.
    apply apply_writes_other, Forall_fmap, Forall_forall. intros b Hb E. apply I. rewrite <- E. by apply (list_elem_of_fmap_2 Z.to_nat).
Qed.

Context (HB : length (d0 !!! Z.to_nat ls) = 512%nat).

Lemma recover_empty d : i32 (arr32 (d !!! Z.to_nat ls) 0) = 0 → recover_disk ls d = d.
Proof. intros E. unfold recover_disk, hdr_blocks. by rewrite E. Qed.

(** Before the header is written, recovery finds an empty log. *)
Lemma crash_before m : (m ≤ n)%nat → i32 (arr32 h0 0) = 0 →
  same_files ls nlog (recover_disk ls (apply_writes (log_writes ls B D m) d0)) d0.
Proof.
  intros Hm E0. rewrite recover_empty.
  - apply log_only. eapply Forall_impl; [by apply log_writes_in|]. naive_solver.
  - rewrite list_lookup_total_alt, apply_writes_other, <- list_lookup_total_alt; [done|].
    eapply Forall_impl; [by apply log_writes_in|]. naive_solver.
Qed.
(** After that, it installs the transaction, whatever part was installed. *)
Lemma crash_after m : (m ≤ n)%nat →
  same_files ls nlog (recover_disk ls (apply_writes (home_writes ls B logged_disk m) logged_disk)) new_disk.
Proof.
  intros Hm. set (d := apply_writes _ logged_disk).
  assert (O : ∀ i, in_log i → d !! i = logged_disk !! i).
  { intros i Hi. apply apply_writes_other. eapply Forall_impl; [by apply home_writes_out|]. naive_solver. }
  assert (E : hdr_blocks ls d = B).
  { apply (hdr_blocks_header _ _ _ h0); [|done|apply (lo_bufs _ _ _ _ LO)|].
    - rewrite list_lookup_total_alt, O, <- list_lookup_total_alt by apply ls_in. apply logged_header.
    - intros blk I. by destruct (home_not_in blk I) as (_ & _ & ?). }
  unfold recover_disk. rewrite E, home_writes_same by (intros i Hi; apply O, log_block_in; done).
  by apply install_new.
Qed.
(** After the header is cleared, the disk is the new one. *)
Lemma crash_end : let d := apply_writes commit_writes d0 in
  recover_disk ls d = d ∧ same_files ls nlog d new_disk ∧ i32 (arr32 (d !!! Z.to_nat ls) 0) = 0.
Proof.
  intros d. assert (Ed : d = <[Z.to_nat ls := header [] (header B h0)]> (apply_writes (home_writes ls B logged_disk n) logged_disk)).
  { unfold d, commit_writes. rewrite app_assoc, apply_writes_app.
    change (apply_writes (log_writes _ _ _ _ ++ _) d0) with logged_disk. by rewrite apply_writes_app. }
  assert (Eh : i32 (arr32 (d !!! Z.to_nat ls) 0) = 0).
  { rewrite Ed, list_lookup_total_insert_eq by (rewrite apply_writes_length, logged_length; apply ls_in).
    apply header_n; [|unfold NBUF; simpl; lia]. unfold header. pose proof (lo_bufs _ _ _ _ LO). unfold NBUF in *.
    rewrite entries_length; rewrite length_splice; simpl; lia. }
  split_and!; [by apply recover_empty| |done].
  intros i Hi. rewrite Ed, list_lookup_insert_ne by (pose proof ls_in as [L _]; unfold in_log in L; lia).
  pose proof (install_new n (Nat.le_refl _)) as N. simpl in N. rewrite <- (N i Hi).
  (* writing the same blocks twice changes nothing *)
  pose proof (install_new 0 (Nat.le_0_l _) i Hi) as N0. simpl in N0. rewrite N0. by rewrite (N i Hi).
Qed.

Lemma commit_head : length (apply_writes commit_writes d0 !!! Z.to_nat ls) = 512%nat.
Proof.
  unfold commit_writes. rewrite !app_assoc, apply_writes_app. set (d := apply_writes _ d0).
  change (apply_writes [?w] d) with (<[w.1 := w.2]> d). simpl fst. simpl snd.
  rewrite list_lookup_total_insert_eq by (unfold d; rewrite apply_writes_length; apply ls_in).
  unfold header. pose proof (lo_bufs _ _ _ _ LO). unfold NBUF in *. repeat (rewrite entries_length; rewrite length_splice; simpl; try lia).
Qed.

(** The states of the disk a power failure can leave during a commit, in order:
    up to the header write they recover to the old disk, from then on to the new one. *)
Lemma commit_crash j : i32 (arr32 h0 0) = 0 →
  same_files ls nlog (recover_disk ls (apply_writes (take j commit_writes) d0)) (if decide (j ≤ n)%nat then d0 else new_disk).
Proof.
  intros E0. assert (LW : length (log_writes ls B D n) = n) by (unfold log_writes; by rewrite length_fmap, length_seq).
  assert (LH : length (home_writes ls B logged_disk n) = n) by (unfold home_writes; by rewrite length_fmap, length_seq).
  unfold commit_writes. case_decide as Hj.
  - rewrite take_app_le by lia. rewrite log_writes_take. apply crash_before; [lia|done].
  - destruct (decide (j ≤ n + 1 + n)%nat) as [Hj2|Hj2].
    + rewrite app_assoc, take_app_ge by (rewrite length_app; simpl; lia).
      rewrite take_app_le by (rewrite length_app; simpl; lia).
      rewrite home_writes_take, apply_writes_app. apply crash_after. lia.
    + rewrite take_ge by (rewrite !length_app; simpl; lia). destruct crash_end as (E1 & E2 & _).
      unfold commit_writes in E1, E2. simpl in E1, E2 |- *. by rewrite E1.
Qed.
End crash.

(** ** commit *)
Lemma s_puts_app ws ws' s : s_puts (ws ++ ws') s = s_puts ws' (s_puts ws s).
Proof. apply store_ext; simpl; [apply apply_writes_app|by rewrite rev_app_distr, app_assoc|done..]. Qed.
Lemma s_put_puts blk d s : s_put blk d s = s_puts [(Z.to_nat blk, d)] s.
Proof. done. Qed.

Section commit.
Context `{!Patience} (p : nat) (x : Z) (Y : protocol kernel) `{!Mono Y}.

Lemma kcache_klog f s k : kcache p x s k → kcache p x s (k <| klog ::= f |>).
Proof.
  intros (HB & E1 & E2 & C). split; [|done]. by apply (bctx_data (λ k, k <| klog ::= f |>)); [apply _| | |].
Qed.

Lemma kwp_commit ls nlog B s (Q : unit → kernel → Prop) k :
  kcache p x s k → s_held s = ∅ → log_at ls B (klog k) → layout ls nlog B (length (s_disk s)) → B ≠ [] →
  (∀ blk, is_Some (s_dirty s !! blk) ↔ blk ∈ B) →
  (∀ k', kcache p x ((s_puts (commit_writes ls B (s_dirty s) (s_disk s)) s) <| s_dirty := ∅ |>) k' →
    rest k' = (rest k) <| klog ::= λ l, l <| lh_n := 0 |> |> → Q tt k') →
  kwp commit Q Y k.
Proof.
  intros HK HE HL LO NB HD HQ. pose proof HL as (E1 & E2 & E3 & _).
  pose proof (lo_start _ _ _ _ LO). pose proof (lo_end _ _ _ _ LO). pose proof (lo_room _ _ _ _ LO).
  pose proof (lo_disk _ _ _ _ LO). pose proof (lo_bufs _ _ _ _ LO).
  assert (HN : s_dirty s !! ls = None) by (apply (log_dirty ls nlog B); [done|apply HD|lia]).
  assert (HP : (size (s_dirty s) < NBUF)%nat) by (pose proof (dirty_size B (s_dirty s) (λ b, proj1 (HD b))); lia).
  unfold commit. kstep. kstep. rewrite E3. destruct B as [|b0 B0]; [done|]. set (B := b0 :: B0) in *.
  change (0 <? Z.of_nat (length B)) with true. cbv iota.
  kstep. eapply kwp_write_log; [done|exact HK|done|done|exact LO|done|]. intros k1 K1 R1.
  set (s1 := s_puts (log_writes _ _ _ _) s) in K1. assert (L1 : length (s_disk s1) = length (s_disk s)) by apply apply_writes_length.
  assert (Eh : s_block s1 ls = s_disk s !!! Z.to_nat ls).
  { unfold s_block. rewrite !list_lookup_total_alt. f_equal. apply apply_writes_other.
    eapply Forall_impl; [apply (log_writes_in ls nlog B (s_dirty s) (s_disk s) LO); lia|]. naive_solver. }
  kstep. eapply (kwp_write_head p x Y ls B s1); [exact K1|done|by rewrite (klog_rest _ _ R1)|done| | |done|].
  { unfold in_range. rewrite L1. lia. } { by rewrite L1. }
  intros k2 K2 R2. rewrite Eh, s_put_puts in K2. unfold s1 in K2. rewrite <- s_puts_app in K2.
  set (s2 := s_puts _ s) in K2. assert (E2d : s_disk s2 = logged_disk ls B (s_dirty s) (s_disk s)) by done.
  kstep. eapply (kwp_install_trans p x Y ls nlog B s2); [exact K2|done|by rewrite (klog_rest _ _ R2), (klog_rest _ _ R1)| |by left|].
  { rewrite E2d, logged_length. exact LO. }
  intros k3 K3 R3. kstep. unfold lset. kstep. apply (kcache_klog (λ l, l <| lh_n := 0 |>)) in K3.
  set (s3 := _ <| s_dirty := ∅ |>) in K3.
  assert (E3d : s_disk s3 = apply_writes (home_writes ls B (s_disk s2) (length B)) (s_disk s2)) by done.
  assert (L3 : length (s_disk s3) = length (s_disk s)).
  { rewrite E3d. by rewrite apply_writes_length, E2d, logged_length. }
  assert (E3h : s_block s3 ls = header B (s_disk s !!! Z.to_nat ls)).
  { unfold s_block. rewrite list_lookup_total_alt, E3d, apply_writes_other.
    - rewrite <- list_lookup_total_alt, E2d. by apply (logged_header ls nlog).
    - eapply Forall_impl; [apply (home_writes_out ls nlog B (s_disk s) LO); lia|]. intros w W E. apply W.
      rewrite E. apply (ls_in ls nlog B (s_disk s) LO). }
  eapply (kwp_write_head p x Y ls [] s3); [exact K3|done| |done| | |change (s_dirty s3) with (∅ : gmap Z (list Z)); rewrite map_size_empty; unfold NBUF; lia|].
  { simpl. rewrite (klog_rest _ _ R3), (klog_rest _ _ R2), (klog_rest _ _ R1). done. }
  { unfold in_range. rewrite L3. lia. } { by rewrite L3. }
  intros k4 K4 R4. rewrite E3h, s_put_puts in K4. apply HQ.
  - match type of K4 with kcache _ _ ?s6 _ => replace (_ <| s_dirty := ∅ |>) with s6; [done|] end.
    unfold commit_writes. rewrite (app_assoc (log_writes _ _ _ _)), (s_puts_app (_ ++ _)), s_puts_app.
    reflexivity.
  - rewrite R4. change (rest (k3 <| klog ::= ?f |>)) with ((rest k3) <| klog ::= f |>). by rewrite R3, R2, R1.
Qed.
End commit.

(** ** Recovery *)
Lemma apply_writes_again ws m d : NoDup ws.*1 → apply_writes ws (apply_writes (take m ws) d) = apply_writes ws d.
Proof.
  intros ND. apply list_eq. intros i. destruct (decide (i ∈ ws.*1)) as [I|I].
  - apply list_elem_of_fmap in I as ([j v] & -> & I). simpl. destruct (decide (j < length d)%nat).
    + rewrite !(apply_writes_hit ws _ j v); rewrite ?apply_writes_length; done.
    + rewrite !lookup_ge_None_2; rewrite ?apply_writes_length; lia || done.
  - assert (F : ∀ ws', ws' ⊆ ws → Forall (λ w, w.1 ≠ i) ws').
    { intros ws' S. apply Forall_forall. intros w W E. apply I. rewrite <- E. by apply list_elem_of_fmap_2, S. }
    rewrite !apply_writes_other; [done|apply F..]; [done| |done].
    intros w W. eapply subseteq_take; exact W.
Qed.

Section recovery.
Context (ls nlog : Z) (d : list (list Z)).
Notation B := (hdr_blocks ls d).
Context (LO : layout ls nlog B (length d)).

Definition recovery_writes : list (nat * list Z) :=
  home_writes ls B d (length B) ++ [(Z.to_nat ls, header [] (d !!! Z.to_nat ls))].

Lemma home_keys : NoDup (home_writes ls B d (length B)).*1.
Proof.
  unfold home_writes. rewrite <- list_fmap_compose. apply NoDup_fmap_2_strong; [|apply NoDup_seq].
  intros a b Ia Ib E. apply elem_of_seq in Ia, Ib. simpl in E.
  destruct (home_not_in _ _ _ _ LO (B !!! a)) as (_ & _ & Ra); [apply home_in; lia|].
  destruct (home_not_in _ _ _ _ LO (B !!! b)) as (_ & _ & Rb); [apply home_in; lia|].
  destruct (lookup_lt_is_Some_2 B a) as [u Hu]; [lia|]. destruct (lookup_lt_is_Some_2 B b) as [v Hv]; [lia|].
  apply (NoDup_lookup B a b u); [apply LO|done|].
  rewrite (list_lookup_total_correct _ _ _ Hu), (list_lookup_total_correct _ _ _ Hv) in *.
  rewrite Hv. f_equal. lia.
Qed.

(** A power failure during recovery changes nothing: recovery starts over. *)
Lemma recovery_crash j : length (d !!! Z.to_nat ls) = 512%nat →
  same_files ls nlog (recover_disk ls (apply_writes (take j recovery_writes) d)) (recover_disk ls d).
Proof.
  intros HB. set (n := length B).
  assert (LH : length (home_writes ls B d n) = n) by (unfold home_writes; by rewrite length_fmap, length_seq).
  unfold recovery_writes. fold n. destruct (decide (j ≤ n)%nat) as [Hj|Hj].
  - rewrite take_app_le by lia. set (d' := apply_writes _ d).
    assert (O : ∀ i, in_log ls nlog i → d' !! i = d !! i).
    { intros i Hi. apply apply_writes_other. apply Forall_take.
      eapply Forall_impl; [apply (home_writes_out ls nlog B d LO); done|]. naive_solver. }
    assert (E : hdr_blocks ls d' = B).
    { unfold hdr_blocks at 1. rewrite list_lookup_total_alt, O by apply (ls_in ls nlog B d LO).
      by rewrite <- list_lookup_total_alt. }
    assert (E2 : home_writes ls B d' n = home_writes ls B d n).
    { apply list_fmap_ext. intros i y Hy. apply lookup_seq in Hy as [-> Hy]. simpl.
      rewrite !list_lookup_total_alt, O; [done|]. by apply (log_block_in ls nlog B d LO). }
    unfold recover_disk. rewrite E. fold n. rewrite E2. unfold d'. rewrite apply_writes_again by apply home_keys. done.
  - rewrite take_ge by (rewrite length_app; simpl; lia). rewrite apply_writes_app.
    set (d' := apply_writes [_] _). assert (E0 : i32 (arr32 (d' !!! Z.to_nat ls) 0) = 0).
    { unfold d'. simpl. rewrite list_lookup_total_insert_eq by (rewrite apply_writes_length; apply (ls_in ls nlog B d LO)).
      apply (header_n []); [done|unfold NBUF; simpl; lia]. }
    rewrite (recover_empty ls) by done. intros i Hi. unfold d'. simpl.
    rewrite list_lookup_insert_ne by (pose proof (ls_in ls nlog B d LO) as [L _]; unfold in_log in L; lia). done.
Qed.
End recovery.

Lemma rest_klog f k : rest (k <| klog ::= f |>) = (rest k) <| klog := f (klog k) |>.
Proof. by destruct k. Qed.
Lemma klog_klog a b (k : kernel) : k <| klog := a |> <| klog := b |> = k <| klog := b |>.
Proof. by destruct k. Qed.

Section recover.
Context `{!Patience} (p : nat) (x : Z) (Y : protocol kernel) `{!Mono Y}.

Lemma kwp_read_head ls s (Q : unit → kernel → Prop) k :
  let B := hdr_blocks ls (s_disk s) in
  kcache p x s k → s_held s = ∅ → s_dirty s = ∅ → ldev (klog k) = 1 → lstart (klog k) = ls → in_range s ls →
  Z.of_nat (length (s_disk s)) ≤ 2147483648 → (length B ≤ length (lh_block (klog k)))%nat →
  0 ≤ i32 (arr32 (s_block s ls) 0) →
  (∀ k', kcache p x s k' → log_at ls B (klog k') → rest k' = (rest k) <| klog := klog k' |> → Q tt k') →
  kwp read_head Q Y k.
Proof.
  intros B HK HE HD E1 E2 R HS HL Hn HQ. unfold read_head. kstep. kstep. rewrite E1, E2.
  unfold in_range in R. rewrite u32_small by lia. kstep.
  apply (kwp_bread p x Y ls s); [done|done| |right; unfold pinned; rewrite HE, HD, !map_size_empty; unfold NBUF; lia|].
  { intros b h Hb. by rewrite HE in Hb. }
  intros b k1 F1 K1 R1. pose proof K1 as (_ & _ & _ & C1).
  pose proof (s_take_held b ls s) as Hh. unfold s_view in Hh. rewrite HD, lookup_empty in Hh. simpl in Hh.
  destruct (held_slot x _ _ C1 b _ Hh) as (_ & _ & _ & _ & Ed & _). simpl in Ed.
  kstep. apply kwp_bget_slot. rewrite Ed. unfold lset. kstep. kstep.
  set (nn := i32 (arr32 (s_block s ls) 0)) in *. set (h := s_block s ls) in *.
  assert (LB : length B = Z.to_nat nn) by (unfold B, hdr_blocks; by rewrite length_fmap, length_seq).
  kstep. eapply kwp_mono; [done|apply (kwp_for_up (λ j k', kcache p x (s_take b ls s) k' ∧
    rest k' = (rest k) <| klog := klog k' |> ∧ ldev (klog k') = 1 ∧ lstart (klog k') = ls ∧ lh_n (klog k') = nn ∧
    length (lh_block (klog k')) = length (lh_block (klog k)) ∧ take j (lh_block (klog k')) = take j B)); [done|..]|].
  - pose proof (klog_rest _ _ R1) as EK. split_and!; [by apply kcache_klog| |simpl; rewrite ?EK; done..].
    by rewrite rest_klog, R1.
  - intros j k2 Hj (K2 & R2 & A1 & A2 & A3 & A4 & A5). apply kwp_modify; [apply _|].
    split_and!; [by apply kcache_klog| |done..| |].
    + by rewrite rest_klog, R2, klog_klog.
    + simpl. by rewrite length_insert.
    + simpl. destruct (lookup_lt_is_Some_2 B j) as [v Hv]; [lia|]. rewrite (take_S_r _ _ v), (take_S_r B _ v Hv).
      * rewrite take_insert_ge by lia. by rewrite A5.
      * rewrite list_lookup_insert_eq by lia. unfold B, hdr_blocks in Hv. rewrite list_lookup_fmap in Hv.
        change (s_disk s !!! Z.to_nat ls) with h in Hv. fold nn in Hv. rewrite lookup_seq_lt in Hv by lia. exact Hv.
  - simpl. intros [] k2 (K2 & R2 & A1 & A2 & A3 & A4 & A5).
    eapply (kwp_brelse p x Y b); [exact K2|exact Hh|done|]. intros k3 K3 R3. pose proof (klog_rest _ _ R3) as EK. apply HQ.
    + replace s with (s_drop b (mkHold ls h false) (s_take b ls s)); [done|]. apply store_ext; simpl; [done..| |].
      * rewrite HD. apply delete_empty.
      * rewrite HE. by rewrite delete_insert_eq.
    + rewrite EK. unfold log_at. rewrite A1, A2, A3, LB, Z2Nat.id by done. split_and!; [done..|].
      rewrite <- LB in A5 |- *. rewrite A5. apply firstn_all.
    + rewrite R3, R2. by rewrite EK.
Qed.

Lemma kwp_recover ls nlog s (Q : unit → kernel → Prop) k :
  let B := hdr_blocks ls (s_disk s) in
  kcache p x s k → s_held s = ∅ → s_dirty s = ∅ → ldev (klog k) = 1 → lstart (klog k) = ls →
  layout ls nlog B (length (s_disk s)) → (NBUF ≤ length (lh_block (klog k)))%nat →
  0 ≤ i32 (arr32 (s_block s ls) 0) →
  (∀ k', kcache p x (s_puts (recovery_writes ls (s_disk s)) s) k' → lh_n (klog k') = 0 →
    rest k' = (rest k) <| klog := klog k' |> → Q tt k') →
  kwp recover_from_log Q Y k.
Proof.
  intros B HK HE HD E1 E2 LO HL Hn HQ. pose proof (lo_start _ _ _ _ LO). pose proof (lo_end _ _ _ _ LO).
  pose proof (lo_room _ _ _ _ LO). pose proof (lo_disk _ _ _ _ LO). pose proof (lo_bufs _ _ _ _ LO).
  assert (HR : in_range s ls) by (unfold in_range; lia).
  unfold recover_from_log. kstep. eapply (kwp_read_head ls s); [exact HK|done|done|done|done|done|done|fold B; lia|done|].
  intros k1 K1 L1 R1. kstep. eapply (kwp_install_trans p x Y ls nlog B s); [exact K1|done|done|done|by right|].
  intros k2 K2 R2. kstep. unfold lset. kstep. apply (kcache_klog p x (λ l, l <| lh_n := 0 |>)) in K2.
  set (s2 := _ <| s_dirty := ∅ |>) in K2.
  assert (E2d : s_disk s2 = apply_writes (home_writes ls B (s_disk s) (length B)) (s_disk s)) by done.
  assert (L2 : length (s_disk s2) = length (s_disk s)) by (rewrite E2d; apply apply_writes_length).
  assert (Eh : s_block s2 ls = s_disk s !!! Z.to_nat ls).
  { unfold s_block. rewrite !list_lookup_total_alt, E2d. f_equal. apply apply_writes_other.
    eapply Forall_impl; [apply (home_writes_out ls nlog B (s_disk s) LO); done|]. intros w W E. apply W.
    rewrite E. apply (ls_in ls nlog B (s_disk s) LO). }
  pose proof (klog_rest _ _ R2) as EK. pose proof L1 as (A1 & A2 & _).
  eapply (kwp_write_head p x Y ls [] s2); [exact K2|done| |done| | |change (s_dirty s2) with (∅ : gmap Z (list Z)); rewrite map_size_empty; unfold NBUF; lia|].
  { simpl. rewrite EK. done. } { unfold in_range in *. rewrite L2. lia. } { by rewrite L2. }
  intros k3 K3 R3. pose proof (klog_rest _ _ R3) as EK3. rewrite Eh, s_put_puts in K3. apply HQ.
  - match type of K3 with kcache _ _ ?s6 _ => replace (s_puts _ s) with s6; [done|] end.
    unfold recovery_writes. rewrite s_puts_app. by apply store_ext.
  - by rewrite EK3.
  - by rewrite R3, rest_klog, R2, R1, klog_klog, EK3.
Qed.
End recover.

(** ** The theorems *)

(** C2: A commit is atomic. A process commits the blocks [B] that the log has pinned
    in the cache, no buffer being held and the log on the disk being empty. It
    returns with no lock held and the log empty; and when the power fails between
    any two of its block writes, recovery of the disk left behind yields, outside
    the log area, the old disk if the failure came before the header write and
    the disk with every block of [B] replaced if it came after it: never a mixture. *)
Theorem commit_atomic `{!Patience} p x k D ls nlog B :
  bctx p x k → cache x (mkStore (disk k) (dtrace k) D ∅) (bufs k) →
  log_at ls B (klog k) → layout ls nlog B (length (disk k)) → B ≠ [] →
  (∀ blk, is_Some (D !! blk) ↔ blk ∈ B) →
  length (disk k !!! Z.to_nat ls) = 512%nat → i32 (arr32 (disk k !!! Z.to_nat ls) 0) = 0 →
  ∃ k' ws, commit k = Ok tt k' ∧ dtrace k' = rev ws ++ dtrace k ∧ disk k' = apply_writes ws (disk k) ∧
    (∀ j, same_files ls nlog (recover_disk ls (apply_writes (take j ws) (disk k)))
      (if decide (j ≤ length B)%nat then disk k else new_disk B D (disk k))) ∧
    same_files ls nlog (disk k') (new_disk B D (disk k)) ∧
    held k' = [] ∧ lh_n (klog k') = 0 ∧ cache x (mkStore (disk k') (dtrace k') ∅ ∅) (bufs k').
Proof.
  intros HB HC HL LO NB HD H5 H0. set (s := mkStore (disk k) (dtrace k) D ∅) in *.
  destruct (kwp_returns commit (λ _ d, kcache p x ((s_puts (commit_writes ls B D (disk k)) s) <| s_dirty := ∅ |>) d ∧
    lh_n (klog d) = 0) k) as ([] & k' & d & E & Hd & K' & L').
  { eapply (kwp_commit p x no_switch ls nlog B s); [by split|done..|]. intros k' K' R'. split; [done|].
    change (klog k') with (klog (rest k')). by rewrite R'. }
  keqv_rd Hd. destruct K' as (B' & D' & T' & C'). exists k', (commit_writes ls B D (disk k)).
  rewrite Hdisk, Hdtr, Hbufs, Hlog, Hheld. pose proof (crash_end ls nlog B D (disk k) LO H5) as (_ & EN & _).
  split_and!; [done|done|done|by intros j; apply commit_crash| |by destruct B' as [(_ & -> & _) _]|done|].
  - by rewrite D'.
  - by rewrite D', T'.
Qed.

(** C12: Recovery at boot installs the committed transaction, if there is one, and
    empties the log; and a power failure between any two of its block writes is
    harmless: recovering the disk left behind gives the same files again. *)
Theorem recovery_idempotent `{!Patience} p x k ls nlog :
  let B := hdr_blocks ls (disk k) in
  bctx p x k → cache x (mkStore (disk k) (dtrace k) ∅ ∅) (bufs k) →
  ldev (klog k) = 1 → lstart (klog k) = ls → (NBUF ≤ length (lh_block (klog k)))%nat →
  layout ls nlog B (length (disk k)) → 0 ≤ i32 (arr32 (disk k !!! Z.to_nat ls) 0) →
  length (disk k !!! Z.to_nat ls) = 512%nat →
  ∃ k' ws, recover_from_log k = Ok tt k' ∧ dtrace k' = rev ws ++ dtrace k ∧ disk k' = apply_writes ws (disk k) ∧
    same_files ls nlog (disk k') (recover_disk ls (disk k)) ∧ hdr_blocks ls (disk k') = [] ∧
    (∀ j, same_files ls nlog (recover_disk ls (apply_writes (take j ws) (disk k))) (recover_disk ls (disk k))) ∧
    held k' = [] ∧ lh_n (klog k') = 0.
Proof.
  intros B HB HC E1 E2 HL LO Hn H5. set (s := mkStore (disk k) (dtrace k) ∅ ∅) in *.
  destruct (kwp_returns recover_from_log (λ _ d, kcache p x (s_puts (recovery_writes ls (disk k)) s) d ∧
    lh_n (klog d) = 0) k) as ([] & k' & d & E & Hd & K' & L').
  { eapply (kwp_recover p x no_switch ls nlog s); [by split|done..|]. intros k' K' L' R'. by split. }
  keqv_rd Hd. destruct K' as (B' & D' & T' & C'). exists k', (recovery_writes ls (disk k)).
  rewrite Hdisk, Hdtr, Hlog, Hheld, D', T'.
  change (s_disk (s_puts ?ws s)) with (apply_writes ws (disk k)). change (s_trace (s_puts ?ws s)) with (rev ws ++ dtrace k).
  assert (EH : hdr_blocks ls (apply_writes (recovery_writes ls (disk k)) (disk k)) = []).
  { apply (hdr_blocks_header _ _ [] (disk k !!! Z.to_nat ls)); [|done|unfold NBUF; simpl; lia|by intros ? ?%elem_of_nil].
    unfold recovery_writes. rewrite apply_writes_app. apply list_lookup_total_insert_eq. rewrite apply_writes_length.
    apply (ls_in ls nlog _ _ LO). }
  assert (EC : ∀ j, same_files ls nlog (recover_disk ls (apply_writes (take j (recovery_writes ls (disk k))) (disk k))) (recover_disk ls (disk k)))
    by (intros; by apply recovery_crash).
  split_and!; [done..| |done|done|by destruct B' as [(_ & -> & _) _]|done].
  pose proof (EC (length (recovery_writes ls (disk k)))) as F. rewrite firstn_all in F.
  unfold recover_disk at 1 in F. rewrite EH in F. exact F.
Qed.

(** Block 40 is pinned with new contents, on a disk whose log starts at block 2. *)
Definition new_block : list Z := replicate 512 7.
Definition pin_store : store :=
  s_drop 0 (mkHold 40 new_block true) (s_hold 0 (mkHold 40 new_block true) (s_hold 0 (mkHold 40 new_block false)
    (s_take 0 40 (mkStore (replicate 64 zero_block) [] ∅ ∅)))).
Definition pin_bufs : list buf :=
  alter (λ r, r <| refcnt := 0 |> <| bslp := mkSlk 0 0 |>) 0%nat (alter (λ r, r <| bflags := 6 |>) 0%nat
    (alter (λ r, r <| bdata := new_block |>) 0%nat (alter (load_slot 2 40 zero_block) 0%nat fresh_bufs))).
Definition log_state (n : Z) (bl : list Z) : logst := mkLog 2 30 0 1 1 n bl.
Definition log_kernel : kernel :=
  demo_kernel <| klog := log_state 1 (40 :: replicate 29 0) |> <| disk := replicate 64 zero_block |> <| bufs := pin_bufs |>.

Lemma pin_cache : cache 2 pin_store pin_bufs.
Proof.
  assert (C0 : cache 2 (s_take 0 40 (mkStore (replicate 64 zero_block) [] ∅ ∅)) (alter (load_slot 2 40 zero_block) 0%nat fresh_bufs)).
  { apply (cache_miss 2 _ _ (cache_fresh 2 (replicate 64 zero_block) [])); [done| |unfold NBUF; lia|].
    - intros j Hj [D _]. rewrite fresh_lookup in D by lia. done.
    - unfold is_free. rewrite fresh_lookup by (unfold NBUF; lia). done. }
  pose proof (cache_data 2 _ _ C0 0 (mkHold 40 zero_block false) new_block eq_refl) as C1.
  pose proof (cache_pin 2 _ _ C1 0 (mkHold 40 new_block false) eq_refl) as C2.
  exact (cache_drop 2 _ _ C2 0 (mkHold 40 new_block true) eq_refl ltac:(done)).
Qed.
Lemma demo_layout : layout 2 30 [40] 64.
Proof.
  split; [done..|apply NoDup_singleton| |unfold NBUF; simpl; lia].
  intros blk ->%list_elem_of_singleton. lia.
Qed.

Lemma bctx_klog p x k l : bctx p x k → bctx p x (k <| klog := l |>).
Proof. intros HB. by apply (bctx_data (λ k, k <| klog := l |>)); [apply _| | |]. Qed.

Lemma commit_atomic_witness : ∃ k' ws, commit (H := 0%nat) log_kernel = Ok tt k' ∧
  recover_disk 2 (apply_writes (take 1 ws) (disk log_kernel)) !! 40%nat = Some zero_block ∧
  recover_disk 2 (apply_writes (take 2 ws) (disk log_kernel)) !! 40%nat = Some new_block.
Proof.
  destruct (commit_atomic (H := 0%nat) 1 2 log_kernel {[ 40 := new_block ]} 2 30 [40]) as (k' & ws & E & _ & _ & C & _).
  - apply bctx_disk, bctx_klog, demo_ctx.
  - exact pin_cache.
  - split_and!; done.
  - apply demo_layout.
  - done.
  - intros blk. rewrite list_elem_of_singleton, lookup_singleton. case_decide; subst; [by split|].
    split; [by intros []|congruence].
  - done.
  - done.
  - exists k', ws. split; [done|]. rewrite (C 1%nat 40%nat), (C 2%nat 40%nat) by lia. split; vm_compute; reflexivity.
Defined.

(** A disk with block 40 committed to the log and not yet installed. *)
Definition crashed_disk : list (list Z) :=
  <[2%nat := header [40] zero_block]> (<[3%nat := new_block]> (replicate 64 zero_block)).
Definition crashed_kernel : kernel :=
  demo_kernel <| klog := log_state 0 (replicate 30 0) |> <| disk := crashed_disk |> <| bufs := fresh_bufs |>.
Lemma recovery_idempotent_witness : ∃ k', recover_from_log (H := 0%nat) crashed_kernel = Ok tt k' ∧
  disk k' !! 40%nat = Some new_block.
Proof.
  assert (EH : hdr_blocks 2 (disk crashed_kernel) = [40]) by (vm_compute; reflexivity).
  destruct (recovery_idempotent (H := 0%nat) 1 2 crashed_kernel 2 30) as (k' & ws & E & _ & _ & S & _).
  - apply bctx_disk, bctx_klog, demo_ctx.
  - apply cache_fresh.
  - done.
  - done.
  - done.
  - rewrite EH. apply demo_layout.
  - by vm_compute.
  - by vm_compute.
  - exists k'. split; [done|]. rewrite (S 40%nat) by lia. vm_compute. reflexivity.
Defined.
