(* ===== verification/TxnSpec.v ===== *)
(** * Blocks within a transaction

    Between [begin_op] and [end_op] a process sees the disk as an array of
    blocks: it reads a block into a buffer, changes the buffer, hands it to
    [log_write] and releases it, and everyone who reads the block next sees the
    change, although the disk keeps its old contents until the commit. This file
    proves that view of [bio.c] and [log.c]: the abstract state is the contents
    of all blocks, the list of blocks written so far, and the buffers held. *)
From stdpp Require Import base strings numbers gmap list.
From S2P Require Import Prelude Machine KString Kernel Locks Kalloc Proc ProcSpec Sleeplock Bio BioSpec Log LogSpec.

(** The contents of the blocks with one replaced. *)
Definition vset (V : Z → list Z) (blk : Z) (d : list Z) : Z → list Z := λ b, if decide (b = blk) then d else V b.
Lemma vset_eq V blk d : vset V blk d blk = d.
Proof. unfold vset. by rewrite decide_True. Qed.
Lemma vset_ne V blk d b : b ≠ blk → vset V blk d b = V b.
Proof. intros. unfold vset. by rewrite decide_False. Qed.

(** The blocks of the transaction after another write. *)
Definition add_blk (blk : Z) (B : list Z) : list Z := if decide (blk ∈ B) then B else B ++ [blk].
Lemma elem_of_add_blk b blk B : b ∈ add_blk blk B ↔ b = blk ∨ b ∈ B.
Proof. unfold add_blk. case_decide; set_solver. Qed.
Lemma length_add_blk blk B : (length (add_blk blk B) ≤ S (length B))%nat.
Proof. unfold add_blk. case_decide; rewrite ?length_app; simpl; lia. Qed.

(** The buffers held, as a map from buffers to blocks. *)
Definition has (G : gmap nat Z) (blk : Z) : Prop := blk ∈ (map_to_list G).*2.
#[export] Instance has_dec G blk : Decision (has G blk) := decide (_ ∈ _).
Lemma has_iff G blk : has G blk ↔ ∃ b, G !! b = Some blk.
Proof.
  unfold has. rewrite list_elem_of_fmap. split.
  - intros ([b c] & -> & Hb%elem_of_map_to_list). eauto.
  - intros [b Hb]. exists (b, blk). by rewrite elem_of_map_to_list.
Qed.

Lemma map_of_list (f : Z → list Z) (l : list Z) a :
  (list_to_map ((λ b, (b, f b)) <$> l) : gmap Z (list Z)) !! a = if decide (a ∈ l) then Some (f a) else None.
Proof.
  induction l as [|b l IH]; [done|]. rewrite fmap_cons, list_to_map_cons. destruct (decide (a = b)) as [->|N].
  - rewrite lookup_insert_eq, decide_True by set_solver. done.
  - rewrite lookup_insert_ne, IH by done. do 2 case_decide; set_solver.
Qed.

(** The store of [BioSpec] that corresponds to the abstract state. *)
Definition fstore (D : list (list Z)) (tr : list (nat * list Z)) (V : Z → list Z) (B : list Z) (G : gmap nat Z) : store :=
  mkStore D tr (list_to_map ((λ blk, (blk, V blk)) <$> filter (λ blk, ¬ has G blk) B))
    ((λ blk, mkHold blk (V blk) (bool_decide (blk ∈ B))) <$> G).

Lemma fs_dirty D tr V B G blk : s_dirty (fstore D tr V B G) !! blk =
  if decide (blk ∈ B ∧ ¬ has G blk) then Some (V blk) else None.
Proof. simpl. rewrite map_of_list. do 2 case_decide; rewrite list_elem_of_filter in *; tauto. Qed.
Lemma fs_held D tr V B G b : s_held (fstore D tr V B G) !! b =
  (λ blk, mkHold blk (V blk) (bool_decide (blk ∈ B))) <$> G !! b.
Proof. simpl. by rewrite lookup_fmap. Qed.

(** Everything but the process table, the disk, its buffers and the log. *)
Definition frest (k : kernel) : kernel := (rest k) <| klog := mkLog 0 0 0 0 0 0 [] |>.
Lemma frest_rest k k' : rest k' = rest k → frest k' = frest k.
Proof. unfold frest. by intros ->. Qed.

Section txn.
Context {PAT : Patience} (p : nat) (x : Z) (Y : protocol kernel) `{!Mono Y}.
(** The log area, the number of operations in progress, and the disk as the last
    commit left it. *)
Context (ls nlog o : Z) (D : list (list Z)) (tr : list (nat * list Z)).
Abbreviation nb := (Z.of_nat (length D)).

Record logok (B : list Z) (l : logst) : Prop := {
  lk_n : lh_n l = Z.of_nat (length B);
  lk_blocks : take (length B) (lh_block l) = B;
  lk_len : length (lh_block l) = Z.to_nat LOGSIZE;
  lk_nodup : NoDup B;
  lk_start : lstart l = ls;
  lk_size : lsize l = nlog;
  lk_dev : ldev l = 1;
  lk_out : outstanding l = o;
  lk_com : committing l = 0 }.

Record kfs (V : Z → list Z) (B : list Z) (G : gmap nat Z) (k : kernel) : Prop := {
  kf_cache : kcache p x (fstore D tr V B G) k;
  kf_log : logok B (klog k);
  kf_base : ∀ blk, 0 ≤ blk < nb → blk ∉ B → D !!! Z.to_nat blk = V blk;
  kf_inj : ∀ b b' blk, G !! b = Some blk → G !! b' = Some blk → b = b';
  kf_rng : ∀ blk, blk ∈ B → 0 ≤ blk < nb;
  kf_nb : nb ≤ 2147483648 }.

Lemma fs_take V B G b blk : ¬ has G blk → G !! b = None → (blk ∉ B → D !!! Z.to_nat blk = V blk) →
  s_take b blk (fstore D tr V B G) = fstore D tr V B (<[b := blk]> G).
Proof.
  intros NH Hb HV. apply store_ext; [done|done| |].
  - apply map_eq. intros c. simpl s_dirty at 1. rewrite lookup_delete. rewrite fs_dirty.
    assert (has (<[b := blk]> G) c ↔ c = blk ∨ has G c) as E.
    { rewrite !has_iff. split.
      - intros [b' Hb']. rewrite lookup_insert in Hb'. case_decide; simplify_eq; eauto.
      - intros [->|[b' Hb']]; [exists b; by rewrite lookup_insert_eq|]. exists b'. rewrite lookup_insert_ne; [done|congruence]. }
    case_decide as Hc; [subst c; rewrite decide_False by tauto; done|]. rewrite map_of_list.
    apply decide_ext. rewrite list_elem_of_filter. naive_solver.
  - unfold s_take. simpl s_held. rewrite fmap_insert. f_equal.
    change (list_to_map _ !! blk) with (s_dirty (fstore D tr V B G) !! blk). unfold s_view. rewrite fs_dirty. destruct (decide (blk ∈ B)) as [I|I].
    + by rewrite decide_True, !bool_decide_true by done.
    + rewrite decide_False, !bool_decide_false by (tauto || by intros [? [=]]). simpl. by rewrite <- HV.
Qed.

Lemma has_delete G b blk c : G !! b = Some blk → (∀ b b' blk, G !! b = Some blk → G !! b' = Some blk → b = b') →
  has (delete b G) c ↔ c ≠ blk ∧ has G c.
Proof.
  intros Hb HI. rewrite !has_iff. split.
  - intros [b' [Hn Hb']%lookup_delete_Some]. split; [|eauto]. intros ->. by apply Hn, (HI b b' blk).
  - intros [Hc [b' Hb']]. exists b'. rewrite lookup_delete_ne; [done|]. congruence.
Qed.

Lemma fs_drop V B G b blk : G !! b = Some blk → (∀ b b' blk, G !! b = Some blk → G !! b' = Some blk → b = b') →
  s_drop b (mkHold blk (V blk) (bool_decide (blk ∈ B))) (fstore D tr V B G) = fstore D tr V B (delete b G).
Proof.
  intros Hb HI. apply store_ext; [done|done| |by unfold s_drop; simpl s_held; rewrite fmap_delete].
  apply map_eq. intros c. rewrite fs_dirty. pose proof (has_delete G b blk c Hb HI) as Eh.
  assert (has G blk) as HG by (apply has_iff; eauto).
  unfold s_drop. simpl h_dirty. simpl h_blk. simpl h_data. case_bool_decide as I; simpl s_dirty; rewrite ?lookup_insert, map_of_list.
  - destruct (decide (blk = c)) as [<-|N]; [by rewrite decide_True by naive_solver|].
    apply decide_ext. rewrite list_elem_of_filter. naive_solver.
  - apply decide_ext. rewrite list_elem_of_filter. destruct (decide (c = blk)); naive_solver.
Qed.

Lemma fs_pinned V B G : (pinned (fstore D tr V B G) ≤ length B + size G)%nat.
Proof.
  unfold pinned. simpl s_held. rewrite map_size_fmap. apply Nat.add_le_mono_r.
  apply dirty_size. intros blk [d Hd]. rewrite fs_dirty in Hd. case_decide; [tauto|done].
Qed.

Lemma kfs_held V B G k b blk : kfs V B G k → G !! b = Some blk →
  s_held (fstore D tr V B G) !! b = Some (mkHold blk (V blk) (bool_decide (blk ∈ B))) ∧ 0 ≤ blk < nb ∧
  bdata (bufs k !!! b) = V blk ∧ blockno (bufs k !!! b) = blk.
Proof.
  intros [(_ & _ & _ & C) _ _ _ _ _] Hb. assert (s_held (fstore D tr V B G) !! b = Some (mkHold blk (V blk) (bool_decide (blk ∈ B)))) as E
    by (by rewrite fs_held, Hb).
  destruct (held_slot x _ _ C b _ E) as (_ & R & _ & Eb & Ed & _). done.
Qed.

(** Reading a block into a buffer. *)
Lemma kwp_tread blk V B G (Q : nat → kernel → Prop) k : kfs V B G k → 0 ≤ blk < nb → ¬ has G blk →
  (length B + size G < NBUF)%nat →
  (∀ b k', G !! b = None → kfs V B (<[b := blk]> G) k' → frest k' = frest k → Q b k') →
  kwp (bread 1 blk) Q Y k.
Proof.
  intros HK HR HN HP HQ. pose proof HK as [HC HL HB HI HG H31].
  apply (kwp_bread p x Y blk (fstore D tr V B G)); [done|done| |right; pose proof (fs_pinned V B G); lia|].
  { intros b h Hb. rewrite fs_held in Hb. destruct (G !! b) as [c|] eqn:E; [|done]. injection Hb as <-. simpl.
    intros ->. apply HN, has_iff. eauto. }
  intros b k' Hb K' R'. rewrite fs_held in Hb. destruct (G !! b) eqn:E; [done|].
  rewrite fs_take in K' by auto. apply HQ; [done| |by apply frest_rest]. split; try done.
  - by rewrite (klog_rest _ _ R').
  - intros b1 b2 c. rewrite !lookup_insert. intros H1 H2. repeat case_decide; simplify_eq; try done.
    + destruct HN. apply has_iff. eauto.
    + destruct HN. apply has_iff. eauto.
    + by eapply HI.
Qed.

(** The buffer holds the contents of the block. *)
Lemma kwp_tslot b blk V B G (Q : buf → kernel → Prop) k : kfs V B G k → G !! b = Some blk →
  (∀ r, bdata r = V blk → blockno r = blk → Q r k) → kwp (bget_slot b) Q Y k.
Proof. intros HK Hb HQ. destruct (kfs_held _ _ _ _ _ _ HK Hb) as (_ & _ & E1 & E2). apply kwp_bget_slot. by apply HQ. Qed.

(** Releasing it. *)
Lemma kwp_trelse b blk V B G (Q : unit → kernel → Prop) k : kfs V B G k → G !! b = Some blk →
  (∀ k', kfs V B (delete b G) k' → frest k' = frest k → Q tt k') → kwp (brelse b) Q Y k.
Proof.
  intros HK Hb HQ. pose proof HK as [HC HL HB HI HG H31]. destruct (kfs_held _ _ _ _ _ _ HK Hb) as (E & R & _).
  eapply (kwp_brelse p x Y b); [exact HC|exact E| |].
  { simpl. intros NB%bool_decide_eq_false. symmetry. by apply HB. }
  intros k' K' R'. rewrite fs_drop in K' by done. apply HQ; [|by apply frest_rest]. split; try done.
  - by rewrite (klog_rest _ _ R').
  - intros b1 b2 c [_ H1]%lookup_delete_Some [_ H2]%lookup_delete_Some. by eapply HI.
Qed.

(** The header after [log_write] of [blk]. *)
Definition log_add (blk : Z) (l : logst) : logst :=
  let i := log_slot l blk in
  let l' := l <| lh_block ::= <[i := i32 blk]> |> in
  if Z.of_nat i =? lh_n l then l' <| lh_n := lh_n l' + 1 |> else l'.

Lemma logok_add B l blk : logok B l → (∀ b, b ∈ B → 0 ≤ b < 2147483648) → 0 ≤ blk < 2147483648 →
  (length B < Z.to_nat LOGSIZE)%nat → logok (add_blk blk B) (log_add blk l).
Proof.
  intros [En Eb El ND Es Ez Ed Eo Ec] HB Hb HL. unfold log_add, log_slot. rewrite En, Nat2Z.id, Eb.
  destruct (find_idx (λ b, u32 b =? blk) B) as [i|] eqn:E.
  - apply find_idx_Some in E as (b & Hi & Hp%Z.eqb_eq & _). simpl default.
    assert (b = blk) as -> by (pose proof (HB b (list_elem_of_lookup_2 _ _ _ Hi)); rewrite u32_small in Hp by lia; done).
    assert (blk ∈ B) by (by eapply list_elem_of_lookup_2). pose proof (lookup_lt_Some _ _ _ Hi) as Hl.
    unfold add_blk. rewrite decide_True by done. rewrite (proj2 (Z.eqb_neq _ _)) by lia.
    rewrite i32_small by lia. assert (lh_block l !! i = Some blk) as Hl' by (rewrite <- Eb, lookup_take_lt in Hi by lia; done).
    split; simpl; rewrite ?(list_insert_id _ _ _ Hl'); done.
  - simpl default. rewrite Z.eqb_refl. assert (blk ∉ B) as NB.
    { intros [i Hi]%list_elem_of_lookup. pose proof (proj1 (find_idx_None _ _) E i blk Hi) as Hn. simpl in Hn.
      rewrite u32_small, Z.eqb_refl in Hn by lia. done. }
    unfold add_blk. rewrite decide_False by done. rewrite i32_small by lia. split; simpl; rewrite ?length_app, ?length_insert; simpl; try done.
    + lia.
    + rewrite Nat.add_1_r. erewrite take_S_r by (apply list_lookup_insert_eq; lia). by rewrite take_insert_ge, Eb.
    + apply NoDup_app. split_and!; [done|set_solver|apply NoDup_singleton].
Qed.

Lemma fs_write V B G b blk d : G !! b = Some blk → (∀ b b' blk, G !! b = Some blk → G !! b' = Some blk → b = b') →
  s_hold b (mkHold blk d true) (s_hold b (mkHold blk d (bool_decide (blk ∈ B))) (fstore D tr V B G)) =
  fstore D tr (vset V blk d) (add_blk blk B) G.
Proof.
  intros Hb HI. assert (has G blk) as HG by (apply has_iff; eauto).
  apply store_ext; [done|done| |].
  - apply map_eq. intros c. change (s_dirty (s_hold b _ (s_hold b _ (fstore D tr V B G)))) with (s_dirty (fstore D tr V B G)).
    rewrite !fs_dirty. assert (c ∈ B ∧ ¬ has G c ↔ c ∈ add_blk blk B ∧ ¬ has G c) as E by (rewrite elem_of_add_blk; naive_solver).
    rewrite <- (decide_ext _ _ _ _ E). case_decide; [|done]. rewrite vset_ne; [done|naive_solver].
  - apply map_eq. intros c. rewrite fs_held. simpl. rewrite insert_insert_eq, lookup_insert.
    case_decide as Ec; [subst c; rewrite Hb; simpl; rewrite vset_eq, bool_decide_true by (apply elem_of_add_blk; tauto); done|].
    rewrite lookup_fmap. destruct (G !! c) as [e|] eqn:Hc; [|done]. simpl. assert (e ≠ blk) as Ne by (intros ->; by apply Ec, (HI b c blk)).
    rewrite vset_ne by done. do 2 f_equal. apply bool_decide_ext. rewrite elem_of_add_blk. naive_solver.
Qed.

(** Changing the buffer and handing it to the log. *)
Lemma kwp_twrite {A} b blk g (m : unit → K A) V B G (Q : A → kernel → Prop) k : kfs V B G k → G !! b = Some blk →
  (length B < 29)%nat → 30 ≤ nlog → 1 ≤ o →
  (∀ k', kfs (vset V blk (g (V blk))) (add_blk blk B) G k' → frest k' = frest k → kwp (m tt) Q Y k') →
  kwp (bset b (λ r, r <| bdata ::= g |>)) (λ _, kwp (log_write b ≫= m) Q Y) Y k.
Proof.
  intros HK Hb HL Hn Ho HQ. pose proof HK as [HC HLg HB HI HG H31]. destruct (kfs_held _ _ _ _ _ _ HK Hb) as (E & R & _).
  eapply (kwp_bset_data p x Y b); [exact HC|exact E|]. simpl h_blk. simpl h_data. simpl h_dirty. intros k1 K1 R1.
  pose proof (klog_rest _ _ R1) as EK. pose proof K1 as (HB1 & HD1 & HT1 & C1). pose proof (bctx_wf _ _ _ HB1) as Hwf.
  pose proof (bctx_no_lock p x k1) as HL1.
  destruct (held_slot x _ _ C1 b _ (s_hold_eq _ _ _)) as (Hb' & _ & D1 & B1 & BD1 & _ & FL & _). simpl in B1, BD1, FL.
  apply kwp_bind; [done|]. unfold log_write. kstep. kstep. rewrite EK, (lk_n _ _ HLg), (lk_size _ _ HLg), (lk_out _ _ HLg). unfold LOGSIZE, MAXOPBLOCKS.
  rewrite (proj2 (Z.leb_gt _ _)), (proj2 (Z.leb_gt _ _)), (proj2 (Z.ltb_ge _ _)) by lia. simpl orb. cbv iota. kstep. kstep. kstep. kstep.
  kstep. kstep. kstep. apply kwp_bget_slot. change (bufs (acq Llog k1)) with (bufs k1). rewrite B1. kstep. kstep. unfold lset. kstep. kstep.
  assert (∀ F, DataUpd F → F k1 = k1 <| klog := log_add blk (klog k1) |> → bufs (F (acq Llog k1)) = bufs k1 →
    kwp (bset b (set_flag B_DIRTY);; release Llog) (λ a, kwp (m a) Q Y) Y (F (acq Llog k1))) as Fin.
  { intros F HF EF EB. kstep. apply kwp_bset. rewrite (bup_ext _ (λ r, r <| bflags := 6 |>)).
    2:{ rewrite EB. unfold set_flag. rewrite FL. by case_bool_decide. }
    apply (kwp_release Llog (λ k, bup (λ r, r <| bflags := 6 |>) b (F k))); [|done|auto|].
    { apply (du_bufs (alter (λ r, r <| bflags := 6 |>) b) F), _. }
    rewrite EF. set (k2 := k1 <| klog := log_add blk (klog k1) |>).
    assert (kcache p x (s_hold b (mkHold blk (g (V blk)) (bool_decide (blk ∈ B))) (fstore D tr V B G)) k2) as K2
      by exact (kcache_klog p x (λ _, log_add blk (klog k1)) _ _ K1).
    destruct (kcache_bup p x (λ r, r <| bflags := 6 |>) b _ (s_hold b (mkHold blk (g (V blk)) true)
      (s_hold b (mkHold blk (g (V blk)) (bool_decide (blk ∈ B))) (fstore D tr V B G))) k2 K2) as [K3 R3]; [done|done| |].
    { destruct K2 as (_ & _ & _ & C2). apply (cache_pin x _ _ C2 b _ (s_hold_eq _ _ _)). }
    rewrite fs_write in K3 by done. apply HQ.
    - split; try done.
      + simpl. rewrite EK. apply logok_add; [done| |lia|unfold LOGSIZE, MAXOPBLOCKS; lia]. intros c Hc. pose proof (HG c Hc). lia.
      + intros c Hc Nc. rewrite elem_of_add_blk in Nc. rewrite vset_ne by naive_solver. apply HB; [done|naive_solver].
      + intros c [->|Hc]%elem_of_add_blk; auto.
    - unfold frest. rewrite R3. simpl. by rewrite <- R1. }
  set (i := log_slot (klog k1) blk) in *. set (up := λ l : logst, l <| lh_block ::= <[i := i32 blk]> |>).
  destruct (Z.of_nat i =? lh_n (klog k1)) eqn:Ei; kstep; kstep.
  - apply (Fin (λ k, k <| klog ::= up |> <| klog ::= λ l, l <| lh_n := lh_n l + 1 |> |>)); [apply _| |done].
    unfold log_add. fold i. rewrite Ei. by destruct k1.
  - apply (Fin (λ k, k <| klog ::= up |>)); [apply _| |done]. unfold log_add. fold i. rewrite Ei. by destruct k1.
Qed.
End txn.
