(* ===== verification/Fs.v ===== *)
(** * The file system

    [fs.c]: block allocation, the inode cache, file content, directories and
    path names, on top of the log and the buffer cache. Content read into a
    caller's buffer is returned as a list of bytes next to the C result;
    content to write is given as one. A C string is the list of its bytes
    before the terminating NUL; a name buffer is the list of its [DIRSIZ]
    bytes. *)
From stdpp Require Import base strings numbers gmap list.
From S2P Require Import Prelude Machine KString Kernel Locks Kalloc Proc Console Sleeplock Bio.
From S2P Require Import Log.

(** ** fs.h *)
Definition ROOTINO : Z := 1.
Definition NDIRECT : nat := 12.
Definition NINDIRECT : nat := 128.
Definition MAXFILE : Z := Z.of_nat (NDIRECT + NINDIRECT).
Definition IPB : Z := 8.
Definition BPB : Z := BSIZE * 8.
Definition DIRSIZ : nat := 14.
Definition DIRENT : Z := 16.
Definition T_DIR : Z := 1.
Definition T_FILE : Z := 2.
Definition T_DEV : Z := 3.
Definition IBLOCK (i : Z) (s : superblock) : Z := u32 (i / IPB + sb_inodestart s).
Definition BBLOCK (b : Z) (s : superblock) : Z := u32 (b / BPB + sb_bmapstart s).

(** [struct dinode]: four shorts, the size, [NDIRECT + 1] addresses. *)
Definition dinode_off (inum : Z) : nat := Z.to_nat (inum mod IPB * 64).
Definition enc_dinode (ty mj mn nl sz : Z) (addrs : list Z) : list Z :=
  enc16 ty ++ enc16 mj ++ enc16 mn ++ enc16 nl ++ enc32 sz ++ concat (enc32 <$> addrs).
Definition dinode_addrs (d : list Z) (off : nat) : list Z :=
  (λ i, arr32 d (off + 12 + 4 * i)) <$> seq 0 (S NDIRECT).

(** ** string.c on arrays

    [strncmp], [strncpy] and [safestrcpy] with both arguments in arrays, read
    as 0 past the end. *)
Fixpoint strncmp_arr (n : nat) (p q : list Z) : Z :=
  match n with
  | O => 0
  | S n' => let a := hd 0 p in let b := hd 0 q in
            if istrue a && (a =? b) then strncmp_arr n' (tl p) (tl q) else u8 a - u8 b
  end.

Fixpoint strncpy_arr (n : nat) (t : list Z) : list Z :=
  match n with
  | O => []
  | S n' => let c := hd 0 t in
            if c =? 0 then replicate n 0 else c :: strncpy_arr n' (tl t)
  end.

Definition namecmp (s t : list Z) : Z := strncmp_arr DIRSIZ s t.

(** ** Devices *)

(** [devsw]: the read and write functions of a major device number, which get
    the inode's slot. *)
Class DevSw := {
  dev_read : Z → option (nat → Z → K (Z * list Z));
  dev_write : Z → option (nat → list Z → K Z) }.

Definition iget_slot (i : nat) : K inode := gets (λ k, icache k !!! i).
Definition iset (i : nat) (f : inode → inode) : K unit := modify (λ k, k <| icache ::= alter f i |>).

Section fs.
Context `{!Patience, !DiskDriver, !DevSw}.

(** ** Blocks *)
Definition bzero (dev bno : Z) : K unit :=
  b ← bread dev bno;
  bset b (λ r, r <| bdata := replicate (Z.to_nat BSIZE) 0 |>);;
  log_write b;;
  brelse b.

(** Is bit [bi] of the bitmap block [d] set? *)
Definition bit_used (d : list Z) (bi : Z) : bool :=
  istrue (Z.land (d !!! Z.to_nat (bi / 8)) (Z.shiftl 1 (bi mod 8))).

(** The inner loop of [balloc] from bit [bi] on. *)
Fixpoint free_bit (n : nat) (bi : Z) (d : list Z) : option Z :=
  match n with
  | O => None
  | S n' => if bit_used d bi then free_bit n' (bi + 1) d else Some bi
  end.

Fixpoint balloc_loop (fuel : nat) (dev b : Z) : K Z :=
  match fuel with
  | O => panic "balloc: out of blocks"
  | S f =>
      s ← gets sb;
      if b <? sb_size s then
        bp ← bread dev (BBLOCK b s);
        r ← bget_slot bp;
        match free_bit (Z.to_nat (Z.min BPB (sb_size s - b))) 0 (bdata r) with
        | Some bi =>
            bset bp (λ r, r <| bdata ::= alter (λ x, u8 (Z.lor x (Z.shiftl 1 (bi mod 8))))
                                              (Z.to_nat (bi / 8)) |>);;
            log_write bp;;
            brelse bp;;
            bzero dev (b + bi);;
            mret (b + bi)
        | None => brelse bp;; balloc_loop f dev (b + BPB)
        end
      else panic "balloc: out of blocks"
  end.

Definition balloc (dev : Z) : K Z :=
  s ← gets sb;
  balloc_loop (S (Z.to_nat (sb_size s / BPB + 1))) dev 0.

Definition bfree (dev b : Z) : K unit :=
  s ← gets sb;
  bp ← bread dev (BBLOCK b s);
  let bi := b mod BPB in
  r ← bget_slot bp;
  (if bit_used (bdata r) bi then skip else panic "freeing free block");;
  bset bp (λ r, r <| bdata ::= alter (λ x, Z.land x (Z.lnot (Z.shiftl 1 (bi mod 8))))
                                    (Z.to_nat (bi / 8)) |>);;
  log_write bp;;
  brelse bp.

(** ** Inodes *)
Definition iinit (dev : Z) : K unit :=
  for_up NINODE 0 (λ i, initsleeplock (SInode i));;
  s ← readsb dev;
  modify (λ k, k <| sb := s |>);;
  cprintf ("sb: size %d nblocks %d ninodes %d nlog %d logstart %d inodestart %d bmap start %d" +:+ nl)
    [AInt (sb_size s); AInt (sb_nblocks s); AInt (sb_ninodes s); AInt (sb_nlog s);
     AInt (sb_logstart s); AInt (sb_inodestart s); AInt (sb_bmapstart s)].

(** The search of [iget]: the slot that caches the inode, or the first empty
    one ([inr]). *)
Definition iget_find (t : list inode) (dev num : Z) : option (nat + nat) :=
  match find_idx (λ r, (0 <? iref r) && (idev r =? dev) && (inum r =? num)) t with
  | Some i => Some (inl i)
  | None => inr <$> find_idx (λ r, iref r =? 0) t
  end.

Definition iget (dev num : Z) : K nat :=
  acquire Licache;;
  o ← gets (λ k, iget_find (icache k) dev num);
  match o with
  | Some (inl i) =>
      iset i (λ r, r <| iref := iref r + 1 |>);;
      release Licache;;
      mret i
  | Some (inr i) =>
      iset i (λ r, r <| idev := dev |>);;
      iset i (λ r, r <| inum := num |>);;
      iset i (λ r, r <| iref := 1 |>);;
      iset i (λ r, r <| ivalid := 0 |>);;
      release Licache;;
      mret i
  | None => panic "iget: no inodes"
  end.

Fixpoint ialloc_loop (n : nat) (dev num ty : Z) : K nat :=
  match n with
  | O => panic "ialloc: no inodes"
  | S n' =>
      s ← gets sb;
      if num <? sb_ninodes s then
        bp ← bread dev (IBLOCK num s);
        r ← bget_slot bp;
        if i16 (arr16 (bdata r) (dinode_off num)) =? 0 then
          bset bp (λ r, r <| bdata ::= λ d, splice d (dinode_off num) (replicate 64 0) |>);;
          bset bp (λ r, r <| bdata ::= λ d, splice d (dinode_off num) (enc16 ty) |>);;
          log_write bp;;
          brelse bp;;
          iget dev num
        else brelse bp;; ialloc_loop n' dev (num + 1) ty
      else panic "ialloc: no inodes"
  end.

Definition ialloc (dev ty : Z) : K nat :=
  s ← gets sb;
  ialloc_loop (Z.to_nat (sb_ninodes s)) dev 1 ty.

Definition iupdate (i : nat) : K unit :=
  ip ← iget_slot i;
  s ← gets sb;
  bp ← bread (idev ip) (IBLOCK (inum ip) s);
  bset bp (λ r, r <| bdata ::= λ d, splice d (dinode_off (inum ip))
    (enc_dinode (itype ip) (imajor ip) (iminor ip) (inlink ip) (isize ip) (iaddrs ip)) |>);;
  log_write bp;;
  brelse bp.

Definition idup (i : nat) : K nat :=
  acquire Licache;;
  iset i (λ r, r <| iref := iref r + 1 |>);;
  release Licache;;
  mret i.

Definition ilock (o : option nat) : K unit :=
  i ← (match o with Some i => mret i | None => panic "ilock" end);
  ip ← iget_slot i;
  (if iref ip <? 1 then panic "ilock" else skip);;
  acquiresleep (SInode i);;
  ip ← iget_slot i;
  if ivalid ip =? 0 then
    s ← gets sb;
    bp ← bread (idev ip) (IBLOCK (inum ip) s);
    r ← bget_slot bp;
    let d := bdata r in
    let o := dinode_off (inum ip) in
    iset i (λ ip, ip <| itype := i16 (arr16 d o) |> <| imajor := i16 (arr16 d (o + 2)) |>
                     <| iminor := i16 (arr16 d (o + 4)) |> <| inlink := i16 (arr16 d (o + 6)) |>
                     <| isize := arr32 d (o + 8) |>);;
    iset i (λ ip, ip <| iaddrs := dinode_addrs d o |>);;
    brelse bp;;
    iset i (λ ip, ip <| ivalid := 1 |>);;
    ip ← iget_slot i;
    if itype ip =? 0 then panic "ilock: no type" else skip
  else skip.

Definition iunlock (o : option nat) : K unit :=
  i ← (match o with Some i => mret i | None => panic "iunlock" end);
  h ← holdingsleep (SInode i);
  ip ← iget_slot i;
  (if negb h || (iref ip <? 1) then panic "iunlock" else skip);;
  releasesleep (SInode i).

(** ** Inode content *)
Definition bmap (i : nat) (bn : Z) : K Z :=
  ip ← iget_slot i;
  if bn <? Z.of_nat NDIRECT then
    let addr := iaddrs ip !!! Z.to_nat bn in
    if addr =? 0 then
      a ← balloc (idev ip);
      iset i (λ ip, ip <| iaddrs ::= <[Z.to_nat bn := a]> |>);;
      mret a
    else mret addr
  else
    let bn := bn - Z.of_nat NDIRECT in
    if bn <? Z.of_nat NINDIRECT then
      addr ← (let addr := iaddrs ip !!! NDIRECT in
              if addr =? 0 then
                a ← balloc (idev ip);
                iset i (λ ip, ip <| iaddrs ::= <[NDIRECT := a]> |>);;
                mret a
              else mret addr);
      bp ← bread (idev ip) addr;
      r ← bget_slot bp;
      let off := (4 * Z.to_nat bn)%nat in
      let addr := arr32 (bdata r) off in
      addr ← (if addr =? 0 then
                a ← balloc (idev ip);
                bset bp (λ r, r <| bdata ::= λ d, splice d off (enc32 a) |>);;
                log_write bp;;
                mret a
              else mret addr);
      brelse bp;;
      mret addr
    else panic "bmap: out of range".

Definition itrunc_direct (i : nat) (j : nat) : K unit :=
  ip ← iget_slot i;
  let a := iaddrs ip !!! j in
  if istrue a then
    bfree (idev ip) a;;
    iset i (λ ip, ip <| iaddrs ::= <[j := 0]> |>)
  else skip.

Definition itrunc (i : nat) : K unit :=
  for_up NDIRECT 0 (itrunc_direct i);;
  ip ← iget_slot i;
  let ia := iaddrs ip !!! NDIRECT in
  (if istrue ia then
     bp ← bread (idev ip) ia;
     for_up NINDIRECT 0 (λ j,
       r ← bget_slot bp;
       let a := arr32 (bdata r) (4 * j) in
       if istrue a then bfree (idev ip) a else skip);;
     brelse bp;;
     bfree (idev ip) ia;;
     iset i (λ ip, ip <| iaddrs ::= <[NDIRECT := 0]> |>)
   else skip);;
  iset i (λ ip, ip <| isize := 0 |>);;
  iupdate i.

Definition iput (i : nat) : K unit :=
  acquiresleep (SInode i);;
  ip ← iget_slot i;
  (if istrue (ivalid ip) && (inlink ip =? 0) then
     acquire Licache;;
     ip ← iget_slot i;
     let r := iref ip in
     release Licache;;
     if r =? 1 then
       itrunc i;;
       iset i (λ ip, ip <| itype := 0 |>);;
       iupdate i;;
       iset i (λ ip, ip <| ivalid := 0 |>)
     else skip
   else skip);;
  releasesleep (SInode i);;
  acquire Licache;;
  iset i (λ ip, ip <| iref := iref ip - 1 |>);;
  release Licache.

Definition iunlockput (i : nat) : K unit :=
  iunlock (Some i);;
  iput i.

(** [struct stat] *)
Record stat := mkStat { st_type : Z; st_dev : Z; st_ino : Z; st_nlink : Z; st_size : Z }.
Definition stati (ip : inode) : stat :=
  mkStat (itype ip) (idev ip) (inum ip) (inlink ip) (isize ip).

Fixpoint readi_loop (fuel : nat) (i : nat) (tot off n : Z) (acc : list Z) : K (list Z) :=
  match fuel with
  | O => mret acc
  | S f =>
      if tot <? n then
        ip ← iget_slot i;
        addr ← bmap i (off / BSIZE);
        bp ← bread (idev ip) addr;
        let m := Z.min (n - tot) (BSIZE - off mod BSIZE) in
        r ← bget_slot bp;
        let chunk := slice (bdata r) (Z.to_nat (off mod BSIZE)) (Z.to_nat m) in
        brelse bp;;
        readi_loop f i (tot + m) (off + m) n (acc ++ chunk)
      else mret acc
  end.

Definition readi (i : nat) (off n : Z) : K (Z * list Z) :=
  ip ← iget_slot i;
  if itype ip =? T_DEV then
    (if (imajor ip <? 0) || (NDEV <=? imajor ip) then mret (-1, [])
     else match dev_read (imajor ip) with
          | Some rd => rd i n
          | None => mret (-1, [])
          end)
  else if (isize ip <? off) || (u32 (off + n) <? off) then mret (-1, [])
  else
    let n := if isize ip <? u32 (off + n) then isize ip - off else n in
    bs ← readi_loop (S (Z.to_nat (n / BSIZE + 2))) i 0 off n [];
    mret (n, bs).

Fixpoint writei_loop (fuel : nat) (i : nat) (tot off n : Z) (src : list Z) : K Z :=
  match fuel with
  | O => mret off
  | S f =>
      if tot <? n then
        ip ← iget_slot i;
        addr ← bmap i (off / BSIZE);
        bp ← bread (idev ip) addr;
        let m := Z.min (n - tot) (BSIZE - off mod BSIZE) in
        bset bp (λ r, r <| bdata ::= λ d,
          splice d (Z.to_nat (off mod BSIZE)) (take (Z.to_nat m) src) |>);;
        log_write bp;;
        brelse bp;;
        writei_loop f i (tot + m) (off + m) n (drop (Z.to_nat m) src)
      else mret off
  end.

Definition writei (i : nat) (src : list Z) (off n : Z) : K Z :=
  ip ← iget_slot i;
  if itype ip =? T_DEV then
    (if (imajor ip <? 0) || (NDEV <=? imajor ip) then mret (-1)
     else match dev_write (imajor ip) with
          | Some wr => wr i src
          | None => mret (-1)
          end)
  else if (isize ip <? off) || (u32 (off + n) <? off) then mret (-1)
  else if MAXFILE * BSIZE <? u32 (off + n) then mret (-1)
  else
    off' ← writei_loop (S (Z.to_nat (n / BSIZE + 2))) i 0 off n src;
    ip ← iget_slot i;
    (if (0 <? n) && (isize ip <? off') then
       iset i (λ ip, ip <| isize := off' |>);;
       iupdate i
     else skip);;
    mret n.

(** ** Directories *)
Definition de_inum (de : list Z) : Z := arr16 de 0.
Definition de_name (de : list Z) : list Z := slice de 2 DIRSIZ.

(** The loop of [dirlookup]; the answer is the inode's slot and the offset of
    the entry. *)
Fixpoint dirlookup_loop (fuel : nat) (dp : nat) (nm : list Z) (off : Z) : K (option (nat * Z)) :=
  match fuel with
  | O => mret None
  | S f =>
      ip ← iget_slot dp;
      if off <? isize ip then
        '(r, de) ← readi dp off DIRENT;
        (if r =? DIRENT then skip else panic "dirlookup read");;
        if de_inum de =? 0 then dirlookup_loop f dp nm (off + DIRENT)
        else if namecmp nm (de_name de) =? 0 then
          i ← iget (idev ip) (de_inum de);
          mret (Some (i, off))
        else dirlookup_loop f dp nm (off + DIRENT)
      else mret None
  end.

Definition dirlookup (dp : nat) (nm : list Z) : K (option (nat * Z)) :=
  ip ← iget_slot dp;
  (if itype ip =? T_DIR then skip else panic "dirlookup not DIR");;
  dirlookup_loop (S (Z.to_nat (isize ip / DIRENT + 1))) dp nm 0.

(** The offset of the first empty entry of [dp], or its size. *)
Fixpoint dirlink_slot (fuel : nat) (dp : nat) (off : Z) : K Z :=
  match fuel with
  | O => mret off
  | S f =>
      ip ← iget_slot dp;
      if off <? isize ip then
        '(r, de) ← readi dp off DIRENT;
        (if r =? DIRENT then skip else panic "dirlink read");;
        if de_inum de =? 0 then mret off else dirlink_slot f dp (off + DIRENT)
      else mret off
  end.

Definition dirlink (dp : nat) (nm : list Z) (num : Z) : K Z :=
  o ← dirlookup dp nm;
  match o with
  | Some (i, _) => iput i;; mret (-1)
  | None =>
      ip ← iget_slot dp;
      off ← dirlink_slot (S (Z.to_nat (isize ip / DIRENT + 1))) dp 0;
      r ← writei dp (enc16 num ++ strncpy_arr DIRSIZ nm) off DIRENT;
      (if r =? DIRENT then skip else panic "dirlink");;
      mret 0
  end.

(** ** Paths *)
Definition slash : Z := 47.

Fixpoint skip_slashes (path : list Z) : list Z :=
  match path with
  | c :: p' => if c =? slash then skip_slashes p' else path
  | [] => []
  end.

(** The element at the start of a path, and what follows it. *)
Fixpoint take_elem (path : list Z) : list Z * list Z :=
  match path with
  | c :: p' => if c =? slash then ([], path)
               else let '(e, rest) := take_elem p' in (c :: e, rest)
  | [] => ([], [])
  end.

(** [skipelem]: the remaining path and the new content of [name]. *)
Definition skipelem (path nm : list Z) : option (list Z * list Z) :=
  match skip_slashes path with
  | [] => None
  | p =>
      let '(e, rest) := take_elem p in
      let nm := if decide (DIRSIZ ≤ length e)%nat then splice nm 0 (take DIRSIZ e)
                else splice nm 0 (e ++ [0]) in
      Some (skip_slashes rest, nm)
  end.

Fixpoint namex_loop (fuel : nat) (i : nat) (path nm : list Z) (nameiparent : bool) :
    K (option nat * list Z) :=
  match fuel with
  | O => mret (None, nm)
  | S f =>
      match skipelem path nm with
      | None =>
          if nameiparent then iput i;; mret (None, nm) else mret (Some i, nm)
      | Some (path, nm) =>
          ilock (Some i);;
          ip ← iget_slot i;
          if negb (itype ip =? T_DIR) then iunlockput i;; mret (None, nm)
          else if nameiparent && bool_decide (path = []) then
            iunlock (Some i);; mret (Some i, nm)
          else
            o ← dirlookup i nm;
            match o with
            | None => iunlockput i;; mret (None, nm)
            | Some (next, _) => iunlockput i;; namex_loop f next path nm nameiparent
            end
      end
  end.

Definition namex (path : list Z) (nameiparent : bool) (nm : list Z) : K (option nat * list Z) :=
  i ← (if bool_decide (hd 0 path = slash) then iget ROOTDEV ROOTINO
       else
         q ← myproc;
         p ← deref q;
         r ← pget p;
         c ← deref (cwd r);
         idup c);
  namex_loop (S (length path)) i path nm nameiparent.

Definition namei (path : list Z) : K (option nat) :=
  r ← namex path false (replicate DIRSIZ 0);
  mret r.1.

Definition nameiparent (path : list Z) : K (option nat * list Z) :=
  namex path true (replicate DIRSIZ 0).
End fs.
