(* ===== verification/FsSpec.v ===== *)
(** * Behaviour of the file system

    Within a transaction the disk is an array of blocks ([TxnSpec]); on it, an
    inode stands for a file, a list of bytes. [readi] returns a segment of the
    list and [writei] replaces one, growing the file and allocating blocks as
    needed; a block that belongs to another file is never touched. *)
From stdpp Require Import base strings numbers gmap list.
From S2P Require Import Prelude Machine KString Kernel Locks Kalloc Proc ProcSpec Sleeplock Bio BioSpec Log LogSpec TxnSpec Fs.

(** ** The bitmap *)
Lemma land_bit x k : 0 ≤ k → istrue (Z.land x (Z.shiftl 1 k)) = Z.testbit x k.
Proof.
  intros Hk. unfold istrue. destruct (Z.testbit x k) eqn:E.
  - rewrite (proj2 (Z.eqb_neq _ _)); [done|]. intros H0. apply (f_equal (λ z, Z.testbit z k)) in H0.
    rewrite Z.land_spec, Z.shiftl_spec, Z.sub_diag, E, Z.bits_0 in H0 by lia. done.
  - rewrite (proj2 (Z.eqb_eq _ _)); [done|]. apply Z.bits_inj'. intros j Hj. rewrite Z.land_spec, Z.shiftl_spec, Z.bits_0 by lia.
    destruct (decide (j = k)) as [->|]; [by rewrite E|].
    destruct (decide (j < k)); [rewrite (Z.testbit_neg_r 1) by lia; apply andb_false_r|].
    rewrite (Z.bits_above_log2 1) by (simpl; lia). apply andb_false_r.
Qed.

Lemma u8_testbit x j : 0 ≤ j < 8 → Z.testbit (u8 x) j = Z.testbit x j.
Proof. intros Hj. unfold u8. change 256 with (2 ^ 8). by rewrite Z.mod_pow2_bits_low by lia. Qed.

Lemma bit_used_bit d bi : 0 ≤ bi → bit_used d bi = Z.testbit (d !!! Z.to_nat (bi / 8)) (bi mod 8).
Proof. intros Hb. unfold bit_used. apply land_bit. Z.div_mod_to_equations. lia. Qed.

(** The bitmap block with bit [bi] set. *)
Definition setbit (bi : Z) (d : list Z) : list Z := alter (λ y, u8 (Z.lor y (Z.shiftl 1 (bi mod 8)))) (Z.to_nat (bi / 8)) d.

Lemma setbit_used d bi bj : length d = 512%nat → 0 ≤ bi < 4096 → 0 ≤ bj < 4096 →
  bit_used (setbit bi d) bj = bool_decide (bi = bj) || bit_used d bj.
Proof.
  intros L Hi Hj. rewrite !bit_used_bit by lia. unfold setbit. rewrite list_alter_total by (Z.div_mod_to_equations; lia).
  case_decide as E.
  - assert (bi / 8 = bj / 8) as E' by (Z.div_mod_to_equations; lia).
    rewrite u8_testbit, Z.lor_spec, Z.shiftl_spec by (Z.div_mod_to_equations; lia). rewrite E. rewrite orb_comm. f_equal.
    case_bool_decide as Eb; [subst; by rewrite Z.sub_diag|]. assert (bi mod 8 ≠ bj mod 8) by (Z.div_mod_to_equations; lia).
    destruct (decide (bj mod 8 < bi mod 8)); [by rewrite Z.testbit_neg_r by lia|]. apply Z.bits_above_log2; simpl; lia.
  - rewrite bool_decide_false; [done|]. intros ->. done.
Qed.

Lemma free_bit_Some n bi d b : free_bit n bi d = Some b → bi ≤ b < bi + Z.of_nat n ∧ bit_used d b = false.
Proof.
  revert bi. induction n as [|n IH]; intros bi; cbn; [done|]. destruct (bit_used d bi) eqn:E.
  - intros [? ?]%IH. split; [lia|done].
  - intros [= <-]. split; [lia|done].
Qed.
Lemma free_bit_None n bi d b : free_bit n bi d = None → bi ≤ b < bi + Z.of_nat n → bit_used d b = true.
Proof.
  revert bi. induction n as [|n IH]; intros bi; cbn; [lia|]. destruct (bit_used d bi) eqn:E; [|done].
  intros Hn Hb. destruct (decide (b = bi)) as [->|]; [done|]. apply (IH (bi + 1)); [done|lia].
Qed.

(** ** Segments of a file *)
Lemma divmod_add o t : (o `mod` 512 + t < 512)%nat → ((o + t) `div` 512 = o `div` 512 ∧ (o + t) `mod` 512 = o `mod` 512 + t)%nat.
Proof.
  intros H. pose proof (Nat.div_mod_eq o 512) as E. split; symmetry.
  - apply (Nat.div_unique _ _ _ (o `mod` 512 + t)); lia.
  - apply (Nat.mod_unique _ _ (o `div` 512)); lia.
Qed.

Lemma lookup_slice (l : list Z) off n j : slice l off n !! j = if decide (j < n)%nat then l !! (off + j)%nat else None.
Proof.
  unfold slice. case_decide; [rewrite lookup_take_lt by done; apply lookup_drop|].
  by rewrite lookup_take_ge by lia.
Qed.

Lemma slice_app (l : list Z) off a b : slice l off a ++ slice l (off + a) b = slice l off (a + b).
Proof. unfold slice. rewrite <- drop_drop. apply take_take_drop. Qed.

Lemma lookup_splice (l : list Z) off c j : (off ≤ length l)%nat →
  splice l off c !! j = if decide (off ≤ j < off + length c)%nat then c !! (j - off)%nat else l !! j.
Proof.
  intros Hl. unfold splice. destruct (decide (j < off)%nat).
  - rewrite lookup_app_l, lookup_take_lt, decide_False by (rewrite ?length_take; lia). done.
  - rewrite lookup_app_r by (rewrite length_take; lia). rewrite length_take, Nat.min_l by lia. case_decide.
    + by rewrite lookup_app_l by lia.
    + rewrite lookup_app_r, lookup_drop by lia. f_equal. lia.
Qed.
Lemma splice_length (l : list Z) off c : (off ≤ length l)%nat → length (splice l off c) = Nat.max (length l) (off + length c).
Proof. intros Hl. unfold splice. rewrite !length_app, length_take, length_drop. lia. Qed.
Lemma splice_splice (l : list Z) off a b : (off ≤ length l)%nat →
  splice (splice l off a) (off + length a) b = splice l off (a ++ b).
Proof.
  intros Hl. apply list_eq. intros j. rewrite !lookup_splice by (rewrite ?splice_length; lia). rewrite length_app.
  repeat case_decide; try lia; try done.
  - rewrite lookup_app_r by lia. f_equal. lia.
  - by rewrite lookup_app_l by lia.
Qed.

(** The number of blocks a segment of [n] bytes from [o] on touches. *)
Definition span (o n : nat) : nat := if decide (n = 0)%nat then 0 else ((o `mod` 512 + n + 511) `div` 512)%nat.
Lemma span_step o n : let m := Nat.min n (512 - o `mod` 512) in (0 < n)%nat → span o n = S (span (o + m) (n - m)).
Proof.
  intros m Hn. pose proof (Nat.mod_upper_bound o 512 ltac:(lia)). unfold span. rewrite decide_False by lia.
  destruct (decide (n ≤ 512 - o `mod` 512)%nat).
  - rewrite decide_True by lia. symmetry. apply (Nat.div_unique _ _ _ (o `mod` 512 + n - 1)); lia.
  - rewrite decide_False by lia. assert ((o + m) `mod` 512 = 0)%nat as ->.
    { symmetry. apply (Nat.mod_unique _ _ (S (o `div` 512))); [lia|]. pose proof (Nat.div_mod_eq o 512). lia. }
    replace (o `mod` 512 + n + 511)%nat with ((0 + (n - m) + 511) + 1 * 512)%nat by lia.
    rewrite Nat.div_add by lia. lia.
Qed.
Lemma span_pos o n : (0 < n)%nat → (0 < span o n)%nat.
Proof. intros Hn. rewrite span_step by done. lia. Qed.

Lemma span_fuel o n : (span o n ≤ S (n `div` 512 + 2))%nat.
Proof.
  unfold span. case_decide; [lia|]. pose proof (Nat.mod_upper_bound o 512 ltac:(lia)).
  transitivity ((n + 2 * 512) `div` 512)%nat; [apply Nat.Div0.div_le_mono; lia|]. rewrite Nat.div_add by lia. lia.
Qed.

Lemma span_max o n M : (o + n ≤ 512 * M → o `div` 512 + span o n ≤ M ∨ n = 0)%nat.
Proof.
  intros Hm. unfold span. case_decide; [by right|left]. rewrite (Nat.add_comm (o `div` 512)), <- Nat.div_add by lia.
  pose proof (Nat.div_mod_eq o 512). apply Nat.lt_succ_r, Nat.Div0.div_lt_upper_bound. lia.
Qed.
(** The next block follows, or nothing is left. *)
Lemma span_next o n : let m := Nat.min n (512 - o `mod` 512) in
  ((o + m) `div` 512 = S (o `div` 512) ∨ span (o + m) (n - m) = 0)%nat.
Proof.
  intros m. pose proof (Nat.mod_upper_bound o 512 ltac:(lia)). pose proof (Nat.div_mod_eq o 512).
  destruct (decide (n - m = 0)%nat) as [E|E]; [right; unfold span; by rewrite decide_True|left].
  symmetry. apply (Nat.div_unique _ _ _ 0); lia.
Qed.

(** ** The state within a transaction *)
Lemma icache_icache (k : kernel) I f : k <| icache := I |> <| icache ::= f |> = k <| icache := f I |>.
Proof. by destruct k. Qed.
Lemma frest_icache (k : kernel) f : frest (k <| icache ::= f |>) = (frest k) <| icache ::= f |>.
Proof. by destruct k. Qed.
Section fs.
Context {PAT : Patience} {DEV : DevSw} (p : nat) (x : Z) (Y : protocol kernel) `{!Mono Y}.
Context (ls nlog o : Z) (D : list (list Z)) (tr : list (nat * list Z)).
(** The super block, the first data block, and the rest of the kernel. *)
Context (SB : superblock) (ds : Z) (R : kernel).
Abbreviation nb := (Z.of_nat (length D)).
Abbreviation bm := (BBLOCK 0 SB).

(** A file system as [mkfs] lays it out: one bitmap block, which describes all
    blocks; inodes and bitmap before the data. *)
Record geom : Prop := {
  ge_log : 30 ≤ nlog;
  ge_ds : 0 < ds;
  ge_size : ds ≤ sb_size SB ≤ nb;
  ge_bpb : sb_size SB ≤ BPB;
  ge_area : 0 ≤ ls ∧ ls + nlog ≤ ds;
  ge_bm : 0 ≤ bm < ds;
  ge_bm_log : bm < ls ∨ ls + nlog ≤ bm;
  ge_ib : ∀ i, 0 ≤ i < sb_ninodes SB → 0 ≤ IBLOCK i SB < ds ∧ IBLOCK i SB ≠ bm;
  ge_ib_log : ∀ i, 0 ≤ i < sb_ninodes SB → IBLOCK i SB < ls ∨ ls + nlog ≤ IBLOCK i SB;
  ge_sb : sb R = SB }.
Context (GE : geom).

(** A block outside the log. *)
Definition home (blk : Z) : Prop := blk < ls ∨ ls + nlog ≤ blk.
Lemma home_data blk : ds ≤ blk → home blk.
Proof. pose proof (ge_area GE). unfold home. lia. Qed.

(** Blocks [V], written [B], held [G], and the inode cache [I]. *)
Definition fsst (V : Z → list Z) (B : list Z) (G : gmap nat Z) (I : list inode) (k : kernel) : Prop :=
  kfs p x ls nlog o D tr V B G k ∧ frest k = (frest R) <| icache := I |> ∧ ∀ b, b ∈ B → home b.

Lemma fsst_icache V B G I k : fsst V B G I k → icache k = I.
Proof. intros (_ & E & _). by apply (f_equal icache) in E. Qed.
Lemma fsst_sb V B G I k : fsst V B G I k → sb k = SB.
Proof. intros (_ & E & _). apply (f_equal sb) in E. simpl in E. by rewrite E, (ge_sb GE). Qed.

Lemma kwp_rd blk V B G I (Q : nat → kernel → Prop) k : fsst V B G I k → 0 ≤ blk < nb → ¬ has G blk →
  (length B + size G < NBUF)%nat →
  (∀ b k', G !! b = None → fsst V B (<[b := blk]> G) I k' → Q b k') → kwp (bread 1 blk) Q Y k.
Proof.
  intros (HK & HR & HH) Hb HG HP HQ. eapply kwp_tread; [done|exact HK|done|done|done|].
  intros b k' Hn K' R'. apply HQ; [done|]. split_and!; [done|congruence|done].
Qed.
Lemma kwp_slot b blk V B G I (Q : buf → kernel → Prop) k : fsst V B G I k → G !! b = Some blk →
  (∀ r, bdata r = V blk → Q r k) → kwp (bget_slot b) Q Y k.
Proof. intros (HK & HR & HH) Hb HQ. eapply kwp_tslot; [exact HK|exact Hb|]. auto. Qed.
Lemma kwp_rel b blk V B G I (Q : unit → kernel → Prop) k : fsst V B G I k → G !! b = Some blk →
  (∀ k', fsst V B (delete b G) I k' → Q tt k') → kwp (brelse b) Q Y k.
Proof.
  intros (HK & HR & HH) Hb HQ. eapply kwp_trelse; [done|exact HK|exact Hb|]. intros k' K' R'. apply HQ. split_and!; [done|congruence|done].
Qed.
Lemma kwp_wr {A} b blk g (m : unit → K A) V B G I (Q : A → kernel → Prop) k : 1 ≤ o → fsst V B G I k → G !! b = Some blk →
  home blk → (length B < 29)%nat →
  (∀ k', fsst (vset V blk (g (V blk))) (add_blk blk B) G I k' → kwp (m tt) Q Y k') →
  kwp (bset b (λ r, r <| bdata ::= g |>)) (λ _, kwp (log_write b ≫= m) Q Y) Y k.
Proof.
  intros Ho (HK & HR & HH) Hb Hh HL HQ. eapply kwp_twrite; [done|exact HK|exact Hb|done|apply GE|exact Ho|].
  intros k' K' R'. apply HQ. split_and!; [done|congruence|]. intros c [->|Hc]%elem_of_add_blk; auto.
Qed.
Lemma kwp_islot i V B G I (Q : inode → kernel → Prop) k : fsst V B G I k → Q (I !!! i) k → kwp (iget_slot i) Q Y k.
Proof.
  intros HK HQ. unfold iget_slot. apply (kwp_gets _ _ (I !!! i)); [solve_reads| |done]. by rewrite (fsst_icache _ _ _ _ _ HK).
Qed.
Lemma kwp_sb V B G I (Q : superblock → kernel → Prop) k : fsst V B G I k → Q SB k → kwp (gets sb) Q Y k.
Proof. intros HK HQ. apply (kwp_gets _ _ SB); [solve_reads| |done]. by rewrite (fsst_sb _ _ _ _ _ HK). Qed.
Lemma kwp_iset i f V B G I (Q : unit → kernel → Prop) k : fsst V B G I k →
  (∀ k', fsst V B G (alter f i I) k' → Q tt k') → kwp (iset i f) Q Y k.
Proof.
  intros HK HQ. pose proof (fsst_icache _ _ _ _ _ HK) as EI. destruct HK as ([HC HL H1 H2 H3 H4] & HR & HH).
  unfold iset. kstep. apply HQ. split_and!.
  - by split.
  - rewrite frest_icache, HR. apply icache_icache.
  - done.
Qed.

(** ** Allocation *)

(** Block [a] is marked in the bitmap. *)
Definition used (V : Z → list Z) (a : Z) : bool := bit_used (V bm) a.
Record sane (V : Z → list Z) : Prop := {
  sn_len : ∀ blk, 0 ≤ blk < nb → home blk → length (V blk) = 512%nat;
  sn_used : ∀ a, 0 ≤ a < ds → used V a = true }.

Definition zeros : list Z := replicate 512 0.
Lemma kwp_bzero a V B G I (Q : unit → kernel → Prop) k : 1 ≤ o → fsst V B G I k → ds ≤ a < nb → ¬ has G a →
  (length B < 29)%nat → (length B + size G < NBUF)%nat →
  (∀ k', fsst (vset V a zeros) (add_blk a B) G I k' → Q tt k') → kwp (bzero 1 a) Q Y k.
Proof.
  intros Ho HK Ha HG HB HP HQ. pose proof (ge_ds GE). unfold bzero. kstep. eapply kwp_rd; [exact HK|lia|done|done|]. intros b k1 Hb K1.
  kstep. eapply (kwp_wr b a (λ _, zeros)); [exact Ho|exact K1|apply lookup_insert_eq|apply home_data; lia|done|]. intros k2 K2.
  eapply (kwp_rel b a); [exact K2|apply lookup_insert_eq|]. intros k3 K3. rewrite delete_insert_id in K3 by done. by apply HQ.
Qed.

(** The blocks after [balloc] has returned [a]. *)
Definition balloc_view (V : Z → list Z) (a : Z) : Z → list Z := vset (vset V bm (setbit a (V bm))) a zeros.

Lemma kwp_balloc V B G I (Q : Z → kernel → Prop) k : 1 ≤ o → fsst V B G I k → sane V → ¬ has G bm →
  (∀ a, has G a → used V a = true) → (∃ a, 0 ≤ a < sb_size SB ∧ used V a = false) →
  (length B < 28)%nat → (length B + size G < 29)%nat →
  (∀ a k', ds ≤ a < sb_size SB → used V a = false →
    fsst (balloc_view V a) (add_blk a (add_blk bm B)) G I k' → Q a k') →
  kwp (balloc 1) Q Y k.
Proof.
  intros Ho HK HS HGb HGu (a0 & Ha0 & Hf) HB HP HQ. pose proof (ge_size GE). pose proof (ge_bpb GE) as Hbpb. pose proof (ge_bm GE).
  unfold balloc. kstep. eapply kwp_sb; [exact HK|]. cbn [balloc_loop]. kstep. eapply kwp_sb; [exact HK|].
  rewrite (proj2 (Z.ltb_lt _ _)) by lia. kstep. eapply kwp_rd; [exact HK|lia|done|unfold NBUF; lia|]. intros b k1 Hb K1.
  kstep. eapply kwp_slot; [exact K1|apply lookup_insert_eq|]. intros r Er. rewrite Er, Z.min_r by lia.
  destruct (free_bit _ _ _) as [bi|] eqn:E.
  2:{ pose proof (free_bit_None _ _ _ a0 E) as Hn. unfold used in Hf. rewrite Hn in Hf; [done|lia]. }
  apply free_bit_Some in E as [Hbi Hu]. replace (0 + bi) with bi by lia.
  assert (ds ≤ bi) as Hds by (destruct (decide (bi < ds)); [pose proof (sn_used _ HS bi ltac:(lia)) as Hx; unfold used in Hx; congruence|lia]).
  unfold BPB, BSIZE in Hbpb.
  kstep. eapply (kwp_wr b bm (setbit bi)); [exact Ho|exact K1|apply lookup_insert_eq|apply GE|lia|]. intros k2 K2.
  kstep. eapply (kwp_rel b bm); [exact K2|apply lookup_insert_eq|]. intros k3 K3. rewrite delete_insert_id in K3 by done.
  pose proof (length_add_blk bm B). kstep. eapply kwp_bzero; [exact Ho|exact K3|lia| |lia|unfold NBUF; lia|].
  { intros Hg%HGu. unfold used in Hg. congruence. }
  intros k4 K4. kstep. apply HQ; [lia|done|done].
Qed.

Lemma bv_zero V a : balloc_view V a a = zeros.
Proof. apply vset_eq. Qed.
Lemma bv_same V a c : c ≠ a → c ≠ bm → balloc_view V a c = V c.
Proof. intros. unfold balloc_view. by rewrite !vset_ne. Qed.
Lemma bv_used V a c : sane V → ds ≤ a < sb_size SB → 0 ≤ c < sb_size SB →
  used (balloc_view V a) c = bool_decide (a = c) || used V c.
Proof.
  intros HS Ha Hc. pose proof (ge_size GE). pose proof (ge_bpb GE) as Hb. pose proof (ge_bm GE). unfold BPB, BSIZE in Hb.
  unfold used, balloc_view. rewrite vset_ne, vset_eq by lia. apply setbit_used; [apply (sn_len _ HS); [lia|apply GE]|lia|lia].
Qed.
Lemma bv_sane V a : sane V → ds ≤ a < sb_size SB → sane (balloc_view V a).
Proof.
  intros HS Ha. pose proof (ge_size GE). pose proof (ge_bm GE). split.
  - intros c Hc Hh. unfold balloc_view, vset. repeat case_decide; [done| |by apply HS].
    unfold setbit. rewrite length_alter. apply HS; [lia|apply GE].
  - intros c Hc. rewrite bv_used by (done || lia). rewrite (sn_used _ HS c Hc). apply orb_true_r.
Qed.

(** The number of free blocks. *)
Definition nfree (V : Z → list Z) : nat := length (filter (λ a, used V a = false) (seqZ 0 (sb_size SB))).
Lemma nfree_pos V : (0 < nfree V)%nat → ∃ a, 0 ≤ a < sb_size SB ∧ used V a = false.
Proof.
  unfold nfree. destruct (filter _ _) as [|a l] eqn:E; simpl; [lia|]. intros _.
  assert (a ∈ filter (λ a, used V a = false) (seqZ 0 (sb_size SB))) as Ha by (rewrite E; by left).
  apply list_elem_of_filter in Ha as [Hu Ha%elem_of_seqZ]. exists a. split; [lia|done].
Qed.
Lemma nfree_bv V a : sane V → ds ≤ a < sb_size SB → used V a = false → nfree V = S (nfree (balloc_view V a)).
Proof.
  intros HS Ha Hu. pose proof (ge_ds GE). unfold nfree.
  assert (filter (λ c, used V c = false) (seqZ 0 (sb_size SB)) ≡ₚ
    a :: filter (λ c, used (balloc_view V a) c = false) (seqZ 0 (sb_size SB))) as ->; [|done].
  apply NoDup_Permutation.
  - apply NoDup_filter, NoDup_seqZ.
  - constructor; [|apply NoDup_filter, NoDup_seqZ]. rewrite list_elem_of_filter. intros [Hx _].
    rewrite bv_used, bool_decide_true in Hx by (done || lia). done.
  - intros c. rewrite elem_of_cons, !list_elem_of_filter, elem_of_seqZ. destruct (decide (c = a)) as [->|N].
    + split; [by left|]. intros _. split; [done|lia].
    + split.
      * intros [Hc Hr]. right. split; [|done]. rewrite bv_used, bool_decide_false by (done || lia). done.
      * intros [?|[Hc Hr]]; [done|]. split; [|done]. rewrite bv_used, bool_decide_false in Hc by (done || lia). done.
Qed.

Lemma nfree_ext V V' : (∀ c, used V' c = used V c) → nfree V' = nfree V.
Proof. intros EU. unfold nfree. f_equal. apply list_filter_iff. intros c. by rewrite EU. Qed.

(** ** The blocks of a file *)

(** The address of the indirect block, and of block [bn] of the file; 0 is none. *)
Definition ind (A : list Z) : Z := A !!! NDIRECT.
Definition blk_of (V : Z → list Z) (A : list Z) (bn : nat) : Z :=
  if decide (bn < NDIRECT)%nat then A !!! bn
  else if decide (ind A = 0) then 0 else arr32 (V (ind A)) (4 * (bn - NDIRECT)).
Definition isblk (V : Z → list Z) (a : Z) : Prop := ds ≤ a < sb_size SB ∧ used V a = true.
Abbreviation maxbn := (NDIRECT + NINDIRECT)%nat.

Record file_ok (V : Z → list Z) (A : list Z) : Prop := {
  fo_len : length A = S NDIRECT;
  fo_ind : ind A = 0 ∨ isblk V (ind A);
  fo_blk : ∀ bn, (bn < maxbn)%nat → blk_of V A bn = 0 ∨ isblk V (blk_of V A bn);
  fo_inj : ∀ bn bn', (bn < maxbn)%nat → (bn' < maxbn)%nat → blk_of V A bn = blk_of V A bn' → blk_of V A bn ≠ 0 → bn = bn';
  fo_sep : ∀ bn, (bn < maxbn)%nat → blk_of V A bn ≠ 0 → blk_of V A bn ≠ ind A }.

(** Block [a], free before, has become block [bn] of the file. *)
Lemma file_ok_add V A V' A' bn a : file_ok V A → (bn < maxbn)%nat → ds ≤ a < sb_size SB → used V a = false →
  (∀ c, 0 ≤ c < sb_size SB → used V' c = bool_decide (a = c) || used V c) →
  length A' = S NDIRECT → ind A' = ind A →
  (∀ bn', (bn' < maxbn)%nat → blk_of V' A' bn' = if decide (bn' = bn) then a else blk_of V A bn') → file_ok V' A'.
Proof.
  intros [HL HI HB HJ HS] Hbn Ha Hu HU HL' HI' HB'. pose proof (ge_ds GE). pose proof (ge_size GE).
  assert (∀ c, isblk V c → isblk V' c) as Hm.
  { intros c [Hc Hcu]. split; [done|]. rewrite HU, Hcu by lia. apply orb_true_r. }
  assert (isblk V' a) as Ia by (split; [done|]; rewrite HU, bool_decide_true by (done || lia); done).
  assert (∀ c, isblk V c → c ≠ a) as Hne by (intros c [_ Hc] ->; congruence).
  split; [done|rewrite HI'; naive_solver| | |].
  - intros bn' Hb'. rewrite HB' by done. case_decide; [by right|]. destruct (HB bn' Hb'); [by left|right; auto].
  - intros b1 b2 Hb1 Hb2. rewrite !HB' by done. do 2 case_decide; [congruence| | |auto].
    + intros E _. destruct (HB b2 Hb2) as [E0|Hi%Hne]; [lia|congruence].
    + intros E Hn. destruct (HB b1 Hb1) as [E0|Hi%Hne]; [lia|congruence].
  - intros bn' Hb'. rewrite HI', HB' by done. case_decide; [|auto]. intros _ E.
    destruct HI as [E0|Hi%Hne]; [lia|congruence].
Qed.

(** How many more blocks a new indirect block takes. *)
Definition nind (A : list Z) : nat := if decide (ind A = 0) then 1 else 0.

(** Block [bn] of the file is [a] now, and was allocated if it did not exist. *)
Record grown (V : Z → list Z) (A : list Z) (V' : Z → list Z) (A' : list Z) (bn : nat) (a : Z) : Prop := {
  gw_ok : file_ok V' A';
  gw_sane : sane V';
  gw_blk : blk_of V' A' bn = a;
  gw_nz : a ≠ 0;
  gw_other : ∀ bn', (bn' < maxbn)%nat → bn' ≠ bn → blk_of V' A' bn' = blk_of V A bn';
  gw_old : blk_of V A bn ≠ 0 → V' = V ∧ A' = A;
  gw_new : blk_of V A bn = 0 → used V a = false ∧ V' a = zeros;
  gw_ind : ind A ≠ 0 → ind A' = ind A;
  gw_ind_new : ind A = 0 → ind A' ≠ 0 → used V (ind A') = false;
  gw_used : ∀ c, 0 ≤ c < sb_size SB → used V c = true → used V' c = true;
  gw_frame : ∀ c, c ≠ bm → (c ≠ 0 → c ≠ ind A) → (0 ≤ c < sb_size SB → used V c = true) → V' c = V c;
  gw_free : ∀ n, (S n + nind A ≤ nfree V → n + nind A' ≤ nfree V')%nat }.

Lemma grown_refl V A bn : file_ok V A → sane V → (bn < maxbn)%nat → blk_of V A bn ≠ 0 → grown V A V A bn (blk_of V A bn).
Proof. intros HF HS Hbn Hnz. split; try done. intros n Hn. lia. Qed.

Lemma used_ind V A : file_ok V A → ind A ≠ 0 → ds ≤ ind A < sb_size SB ∧ used V (ind A) = true.
Proof. intros HF Hi. destruct (fo_ind _ _ HF) as [|[? ?]]; [done|]. by split. Qed.

(** A direct block. *)
Lemma grown_direct V A bn a : file_ok V A → sane V → (bn < NDIRECT)%nat → A !!! bn = 0 → ds ≤ a < sb_size SB →
  used V a = false → grown V A (balloc_view V a) (<[bn := a]> A) bn a.
Proof.
  intros HF HS Hbn H0 Ha Hu. pose proof (ge_ds GE). pose proof (ge_bm GE). pose proof (fo_len _ _ HF) as HL.
  assert (ind (<[bn := a]> A) = ind A) as EI by (unfold ind; apply list_lookup_total_insert_ne; lia).
  assert (∀ bn', blk_of (balloc_view V a) (<[bn := a]> A) bn' = if decide (bn' = bn) then a else blk_of V A bn') as EB.
  { intros bn'. unfold blk_of. rewrite EI. destruct (decide (bn' < NDIRECT)%nat) as [Hl|Hl].
    - case_decide as E; [subst bn'; apply list_lookup_total_insert_eq; lia|]. by apply list_lookup_total_insert_ne.
    - rewrite (decide_False (P := bn' = bn)) by lia. case_decide as Ei; [done|].
      destruct (used_ind V A HF Ei) as [? Hiu]. rewrite bv_same; [done|congruence|lia]. }
  assert (blk_of V A bn = 0) as Eb by (unfold blk_of; by rewrite decide_True).
  split.
  - apply (file_ok_add V A _ _ bn a); try done; [lia| |by rewrite length_insert].
    intros c Hc. by apply bv_used.
  - by apply bv_sane.
  - rewrite EB. by rewrite decide_True.
  - lia.
  - intros bn' _ Hn. rewrite EB. by rewrite decide_False.
  - done.
  - intros _. split; [done|apply bv_zero].
  - done.
  - congruence.
  - intros c Hc Hcu. rewrite bv_used, Hcu by done. apply orb_true_r.
  - intros c Hb _ Hcu. apply bv_same; [|done]. intros ->. rewrite Hcu in Hu by lia. done.
  - intros n. unfold nind. rewrite EI, (nfree_bv V a) by done. lia.
Qed.

Lemma arr32_zeros off : (off + 4 ≤ 512)%nat → arr32 zeros off = 0.
Proof.
  intros Ho. unfold arr32, dec32. rewrite !lookup_total_drop. unfold zeros. rewrite !lookup_total_replicate_2 by lia. done.
Qed.

(** The indirect block. *)
Lemma indirect_new V A a : file_ok V A → sane V → ind A = 0 → ds ≤ a < sb_size SB → used V a = false →
  let A1 := <[NDIRECT := a]> A in
  file_ok (balloc_view V a) A1 ∧ ind A1 = a ∧ ∀ bn, (bn < maxbn)%nat → blk_of (balloc_view V a) A1 bn = blk_of V A bn.
Proof.
  intros HF HS Hi Ha Hu A1. pose proof (ge_ds GE). pose proof (ge_bm GE). pose proof (fo_len _ _ HF) as HL.
  assert (ind A1 = a) as EI by (unfold ind, A1; apply list_lookup_total_insert_eq; rewrite HL; lia).
  assert (∀ bn, (bn < maxbn)%nat → blk_of (balloc_view V a) A1 bn = blk_of V A bn) as EB.
  { intros bn Hbn. unfold blk_of. rewrite EI, Hi. case_decide; [apply list_lookup_total_insert_ne; lia|].
    rewrite decide_False, (decide_True (P := 0 = 0)), bv_zero by lia. apply arr32_zeros. unfold NDIRECT, NINDIRECT in *. lia. }
  assert (∀ c, isblk V c → isblk (balloc_view V a) c) as Hm.
  { intros c [Hc Hcu]. split; [done|]. rewrite bv_used, Hcu by (done || lia). apply orb_true_r. }
  split_and!; [|done|done]. split.
  - unfold A1. by rewrite length_insert.
  - right. rewrite EI. split; [done|]. rewrite bv_used, bool_decide_true by (done || lia). done.
  - intros bn Hbn. rewrite EB by done. destruct (fo_blk _ _ HF bn Hbn); [by left|right; auto].
  - intros bn bn' Hb Hb'. rewrite !EB by done. by apply (fo_inj _ _ HF).
  - intros bn Hb. rewrite EB, EI by done. intros Hn E. destruct (fo_blk _ _ HF bn Hb) as [?|[_ ?]]; congruence.
Qed.

(** The blocks after entry [bn] of the indirect block has been set to the new
    block [a]. *)
Definition entry_view (V : Z → list Z) (A : list Z) (bn : nat) (a : Z) : Z → list Z :=
  vset (balloc_view V a) (ind A) (splice (balloc_view V a (ind A)) (4 * (bn - NDIRECT)) (enc32 a)).

Lemma grown_entry V A bn a : file_ok V A → sane V → ind A ≠ 0 → (NDIRECT ≤ bn < maxbn)%nat → blk_of V A bn = 0 →
  ds ≤ a < sb_size SB → used V a = false → grown V A (entry_view V A bn a) A bn a.
Proof.
  intros HF HS Hi Hbn H0 Ha Hu. pose proof (ge_ds GE). pose proof (ge_bm GE). pose proof (ge_size GE). pose proof (ge_bpb GE) as Hb.
  unfold BPB, BSIZE in Hb. destruct (used_ind V A HF Hi) as [Hir Hiu]. unfold NDIRECT, NINDIRECT in Hbn.
  assert (ind A ≠ a) as Hia by congruence.
  assert (Ei : balloc_view V a (ind A) = V (ind A)) by (apply bv_same; [done|lia]).
  assert (length (V (ind A)) = 512%nat) as L by (apply HS; [lia|apply home_data; lia]).
  assert (∀ c, c ≠ ind A → entry_view V A bn a c = balloc_view V a c) as EV by (intros c Hc; by apply vset_ne).
  assert (∀ c, used (entry_view V A bn a) c = used (balloc_view V a) c) as EU by (intros c; unfold used; rewrite EV by lia; done).
  assert (∀ bn', (bn' < maxbn)%nat → blk_of (entry_view V A bn a) A bn' = if decide (bn' = bn) then a else blk_of V A bn') as EB.
  { intros bn' Hb'. unfold blk_of, NDIRECT, NINDIRECT in Hb' |- *. destruct (decide (bn' < 12)%nat); [by rewrite decide_False by lia|].
    rewrite decide_False by done. unfold entry_view. rewrite vset_eq, Ei. destruct (decide (bn' = bn)) as [->|E].
    - rewrite arr32_splice_eq, u32_small by (unfold NDIRECT; lia). done.
    - rewrite (decide_False (P := ind A = 0)) by done. apply arr32_splice_ne; unfold NDIRECT, enc32; simpl; lia. }
  split.
  - apply (file_ok_add V A _ _ bn a); try done; [unfold NDIRECT, NINDIRECT; lia| |apply HF].
    intros c Hc. rewrite EU. by apply bv_used.
  - pose proof (bv_sane V a HS Ha) as [S1 S2]. split.
    + intros c Hc Hh. unfold entry_view, vset at 1. case_decide; [|by apply S1].
      rewrite length_splice, Ei; [done|]. rewrite Ei. unfold NDIRECT, enc32. simpl. lia.
    + intros c Hc. rewrite EU. by apply S2.
  - rewrite EB by (unfold NDIRECT, NINDIRECT; lia). by rewrite decide_True.
  - lia.
  - intros bn' Hb' Hn. rewrite EB by done. by rewrite decide_False.
  - done.
  - intros _. split; [done|]. rewrite EV by done. apply bv_zero.
  - done.
  - done.
  - intros c Hc Hcu. rewrite EU, bv_used, Hcu by done. apply orb_true_r.
  - intros c Hc Hci Hcu. rewrite EV by (intros ->; by apply Hci). apply bv_same; [|done]. intros ->. rewrite Hcu in Hu by lia. done.
  - intros n. rewrite (nfree_bv V a) by done. rewrite (nfree_ext (balloc_view V a) (entry_view V A bn a)) by done. lia.
Qed.

(** After the allocation of the indirect block. *)
Lemma grown_indirect V A a V' bn a' : file_ok V A → sane V → ind A = 0 → (NDIRECT ≤ bn < maxbn)%nat →
  ds ≤ a < sb_size SB → used V a = false →
  grown (balloc_view V a) (<[NDIRECT := a]> A) V' (<[NDIRECT := a]> A) bn a' → grown V A V' (<[NDIRECT := a]> A) bn a'.
Proof.
  intros HF HS Hi Hbn Ha Hu HG. pose proof (ge_ds GE). pose proof (ge_bm GE).
  destruct (indirect_new V A a HF HS Hi Ha Hu) as (HF1 & EI & EB). set (A1 := <[NDIRECT := a]> A) in *.
  assert (blk_of V A bn = 0) as E0 by (unfold blk_of; rewrite decide_False, decide_True by (done || lia); done).
  assert (∀ c, 0 ≤ c < sb_size SB → used V c = true → used (balloc_view V a) c = true) as HU.
  { intros c Hc Hcu. rewrite bv_used, Hcu by done. apply orb_true_r. }
  assert (blk_of (balloc_view V a) A1 bn = 0) as E1 by (rewrite EB; [done|lia]).
  pose proof (gw_new _ _ _ _ _ _ HG E1) as [Hn Hz].
  assert (0 ≤ a' < sb_size SB) as Ra'.
  { destruct (fo_blk _ _ (gw_ok _ _ _ _ _ _ HG) bn) as [Ex|[Hx _]]; [lia| |]; rewrite (gw_blk _ _ _ _ _ _ HG) in *.
    - by destruct (gw_nz _ _ _ _ _ _ HG).
    - lia. }
  split.
  - apply HG.
  - apply HG.
  - apply HG.
  - apply HG.
  - intros bn' Hb' Hn'. rewrite <- EB by done. by apply HG.
  - done.
  - intros _. split; [|done]. destruct (used V a') eqn:E; [|done]. rewrite HU in Hn by done. done.
  - done.
  - intros _ _. by rewrite EI.
  - intros c Hc Hcu. apply (gw_used _ _ _ _ _ _ HG); [done|]. by apply HU.
  - intros c Hc _ Hcu. assert (c ≠ a) as Hca by (intros ->; rewrite Hcu in Hu by lia; done).
    rewrite (gw_frame _ _ _ _ _ _ HG c); [by apply bv_same|done|by rewrite EI|]. intros Hr. by apply HU, Hcu.
  - intros n Hn'. apply (gw_free _ _ _ _ _ _ HG). rewrite (nfree_bv V a) in Hn' by done. unfold nind in *.
    rewrite Hi, decide_True in Hn' by done. rewrite EI, decide_False by lia. lia.
Qed.

Definition set_addrs (A : list Z) (ip : inode) : inode := ip <| iaddrs := A |>.
Lemma set_addrs_id i (I : list inode) : alter (set_addrs (iaddrs (I !!! i))) i I = I.
Proof.
  rewrite (list_alter_ext _ id) by (by destruct (I !!! i)). apply list_eq. intros j.
  destruct (decide (i = j)) as [<-|]; [rewrite list_lookup_alter_eq; by destruct (I !! i)|by rewrite list_lookup_alter_ne].
Qed.

(** What the blocks written since [B] may be. *)
Definition wrote (B B' : list Z) (A' : list Z) (a : Z) : Prop :=
  ∀ b, b ∈ B' → b ∈ B ∨ b = bm ∨ b = a ∨ (b = ind A' ∧ ind A' ≠ 0).

Lemma has_empty c : ¬ has ∅ c.
Proof. rewrite has_iff. intros [b Hb]. by rewrite lookup_empty in Hb. Qed.
Lemma has_single b a c : has {[ b := a ]} c → c = a.
Proof. rewrite has_iff. intros [b' Hb]. apply lookup_singleton_Some in Hb. by destruct Hb. Qed.

(** The entry of the indirect block. *)
Lemma kwp_bmap_entry bn V A B I (Q : Z → kernel → Prop) k : fsst V B ∅ I k → sane V → file_ok V A → ind A ≠ 0 →
  (NDIRECT ≤ bn < maxbn)%nat → (blk_of V A bn = 0 → 1 ≤ o ∧ (1 ≤ nfree V)%nat) → (length B ≤ 26)%nat →
  (∀ a V' B' k', fsst V' B' ∅ I k' → grown V A V' A bn a → wrote B B' A a → (blk_of V A bn ≠ 0 → B' = B) → Q a k') →
  kwp (bp ← bread 1 (ind A);
       r ← bget_slot bp;
       let off := (4 * (bn - NDIRECT))%nat in
       let addr := arr32 (bdata r) off in
       addr ← (if addr =? 0 then
                 a ← balloc 1;
                 bset bp (λ r, r <| bdata ::= λ d, splice d off (enc32 a) |>);;
                 log_write bp;;
                 mret a
               else mret addr);
       brelse bp;;
       mret addr) Q Y k.
Proof.
  intros HK HS HF Hi Hbn Hfree HB HQ. destruct (used_ind V A HF Hi) as [Hir Hiu]. pose proof (ge_size GE). pose proof (ge_bm GE).
  assert (blk_of V A bn = arr32 (V (ind A)) (4 * (bn - NDIRECT))) as EB.
  { unfold blk_of. by rewrite decide_False, decide_False by (done || lia). }
  kstep. eapply kwp_rd; [exact HK|lia|apply has_empty|rewrite map_size_empty; unfold NBUF; lia|]. intros b k1 _ K1.
  kstep. eapply kwp_slot; [exact K1|apply lookup_insert_eq|]. intros r Er. rewrite Er. cbv zeta. rewrite <- EB.
  kstep. destruct (Z.eqb_spec (blk_of V A bn) 0) as [E0|E0].
  - kstep. destruct (Hfree E0) as [Ho Hf]. eapply kwp_balloc; [exact Ho|exact K1|done| | |apply nfree_pos; lia|lia|rewrite map_size_insert_None, map_size_empty by done; lia|].
    { intros Hh%has_single. lia. }
    { intros c ->%has_single. done. }
    intros a k2 Ha Hu K2. pose proof (length_add_blk bm B). pose proof (length_add_blk a (add_blk bm B)).
    kstep. eapply (kwp_wr b (ind A) (λ d, splice d _ (enc32 a))); [exact Ho|exact K2|apply lookup_insert_eq|apply home_data; lia|lia|]. intros k3 K3. kstep.
    kstep. eapply (kwp_rel b (ind A)); [exact K3|apply lookup_insert_eq|]. intros k4 K4. rewrite delete_insert_id in K4 by done. kstep.
    eapply HQ; [exact K4|by apply grown_entry| |done].
    intros c. rewrite !elem_of_add_blk. tauto.
  - kstep. kstep. eapply (kwp_rel b (ind A)); [exact K1|apply lookup_insert_eq|]. intros k4 K4. rewrite delete_insert_id in K4 by done. kstep.
    eapply HQ; [exact K4|apply grown_refl; done || lia| |done]. intros c Hc. by left.
Qed.

(** [bmap]: the block is there, or is allocated with the blocks on the way to it. *)
Lemma kwp_bmap i bn V B I (Q : Z → kernel → Prop) k : let A := iaddrs (I !!! i) in
  fsst V B ∅ I k → (i < length I)%nat → idev (I !!! i) = 1 → sane V → file_ok V A → (bn < maxbn)%nat →
  (blk_of V A bn = 0 → 1 ≤ o ∧ (1 + nind A ≤ nfree V)%nat) → (length B + 2 * nind A ≤ 26)%nat →
  (∀ a V' A' B' k', fsst V' B' ∅ (alter (set_addrs A') i I) k' → grown V A V' A' bn a → wrote B B' A' a →
    (blk_of V A bn ≠ 0 → B' = B) → Q a k') →
  kwp (bmap i (Z.of_nat bn)) Q Y k.
Proof.
  intros A HK HL HV HS HF Hbn Hfree HB HQ. pose proof (ge_bm GE).
  unfold bmap. kstep. eapply kwp_islot; [exact HK|]. fold A.
  destruct (Z.ltb_spec (Z.of_nat bn) (Z.of_nat NDIRECT)) as [Hd|Hd].
  - rewrite Nat2Z.id, HV. assert (blk_of V A bn = A !!! bn) as EB by (unfold blk_of; by rewrite decide_True by lia).
    destruct (Z.eqb_spec (A !!! bn) 0) as [E0|E0].
    + rewrite EB in Hfree. destruct (Hfree E0) as [Ho Hf]. kstep. eapply kwp_balloc; [exact Ho|exact HK|done|apply has_empty|by intros c ?%has_empty|apply nfree_pos; lia|lia|rewrite map_size_empty; lia|].
      intros a k1 Ha Hu K1. kstep. eapply (kwp_iset i); [exact K1|]. intros k2 K2. kstep.
      rewrite (list_alter_ext _ (set_addrs (<[bn := a]> A))) in K2 by done.
      eapply HQ; [exact K2|apply grown_direct; done || lia| |congruence]. intros c. rewrite !elem_of_add_blk. tauto.
    + kstep. rewrite <- EB. eapply (HQ _ _ A); [unfold A; rewrite set_addrs_id; exact HK|apply grown_refl; done || congruence| |done].
      intros c Hc. by left.
  - rewrite (proj2 (Z.ltb_lt _ _)) by lia. replace (Z.to_nat (Z.of_nat bn - Z.of_nat NDIRECT)) with (bn - NDIRECT)%nat by lia.
    fold (ind A). rewrite HV. kstep. destruct (Z.eqb_spec (ind A) 0) as [E0|E0].
    + assert (blk_of V A bn = 0) as EB by (unfold blk_of; rewrite decide_False, decide_True by (done || lia); done).
      destruct (Hfree EB) as [Ho Hf]. clear Hfree. rename Hf into Hfree. unfold nind in Hfree, HB. rewrite E0, decide_True in Hfree, HB by done.
      kstep. eapply kwp_balloc; [exact Ho|exact HK|done|apply has_empty|by intros c ?%has_empty|apply nfree_pos; lia|lia|rewrite map_size_empty; lia|].
      intros a k1 Ha Hu K1. kstep. eapply (kwp_iset i); [exact K1|]. intros k2 K2. kstep.
      rewrite (list_alter_ext _ (set_addrs (<[NDIRECT := a]> A))) in K2 by done.
      destruct (indirect_new V A a HF HS E0 Ha Hu) as (HF1 & EI & EB1). set (A1 := <[NDIRECT := a]> A) in *.
      pose proof (length_add_blk bm B). pose proof (length_add_blk a (add_blk bm B)). pose proof (ge_ds GE).
      rewrite (nfree_bv V a) in Hfree by done. rewrite <- EI. unfold A1.
      eapply (kwp_bmap_entry bn (balloc_view V a) A1); [exact K2|by apply bv_sane|done|lia|lia|split; [done|lia]|lia|].
      intros a' V' B' k' K' HG HW _. eapply HQ; [exact K'|apply (grown_indirect V A a); done || lia| |done].
      intros c Hc. destruct (HW c Hc) as [Hx|Hx]; [|tauto]. rewrite !elem_of_add_blk in Hx. rewrite <- EI in Hx. intuition lia.
    + kstep. eapply (kwp_bmap_entry bn V A); [exact HK|done|done|done|lia| |lia|].
      { intros Hx. destruct (Hfree Hx). split; [done|lia]. }
      intros a' V' B' k' K' HG HW HE. eapply (HQ _ _ A); [unfold A; rewrite set_addrs_id; exact K'|done|done|done].
Qed.

(** ** The contents of a file *)

(** The bytes [F] are the contents of the file with the addresses [A]. *)
Record frep (V : Z → list Z) (A : list Z) (F : list Z) : Prop := {
  fr_ok : file_ok V A;
  fr_max : (length F ≤ 512 * maxbn)%nat;
  fr_data : ∀ j v, F !! j = Some v → blk_of V A (j `div` 512) ≠ 0 ∧ V (blk_of V A (j `div` 512)) !! (j `mod` 512)%nat = Some v }.

(** A segment within one block. *)
Lemma frep_chunk V A F q m : frep V A F → (q + m ≤ length F)%nat → (q `mod` 512 + m ≤ 512)%nat →
  slice (V (blk_of V A (q `div` 512))) (q `mod` 512) m = slice F q m.
Proof.
  intros HF Hl Hm. apply list_eq. intros j. rewrite !lookup_slice. case_decide as Hj; [|done].
  destruct (lookup_lt_is_Some_2 F (q + j)) as [v Hv]; [lia|]. destruct (divmod_add q j) as [E1 E2]; [lia|].
  destruct (fr_data _ _ _ HF _ _ Hv) as [_ Hd]. rewrite E1, E2 in Hd. by rewrite Hd, Hv.
Qed.


Lemma frep_blk V A F q : frep V A F → (q < length F)%nat → (q `div` 512 < maxbn)%nat ∧ blk_of V A (q `div` 512) ≠ 0 ∧
  isblk V (blk_of V A (q `div` 512)).
Proof.
  intros HF Hq. destruct (lookup_lt_is_Some_2 F q Hq) as [v Hv]. destruct (fr_data _ _ _ HF _ _ Hv) as [Hn _].
  pose proof (fr_max _ _ _ HF). assert (q `div` 512 < maxbn)%nat as Hb by (apply Nat.Div0.div_lt_upper_bound; lia).
  split_and!; [done|done|]. by destruct (fo_blk _ _ (fr_ok _ _ _ HF) _ Hb).
Qed.

(** The position of the loops of [readi] and [writei] within the block. *)
Lemma loop_pos q r (tot : Z) : let m := Nat.min r (512 - q `mod` 512) in
  Z.of_nat q / BSIZE = Z.of_nat (q `div` 512) ∧ Z.to_nat (Z.of_nat q mod BSIZE) = (q `mod` 512)%nat ∧
  Z.min (tot + Z.of_nat r - tot) (BSIZE - Z.of_nat q mod BSIZE) = Z.of_nat m.
Proof.
  unfold BSIZE. change 512 with (Z.of_nat 512). rewrite <- Nat2Z.inj_div, <- Nat2Z.inj_mod, Nat2Z.id.
  pose proof (Nat.mod_upper_bound q 512 ltac:(lia)). split_and!; [done|done|lia].
Qed.

Section readi.
Context (i : nat) (V : Z → list Z) (B : list Z) (I : list inode) (F : list Z).
Abbreviation A := (iaddrs (I !!! i)).
Context (HL : (i < length I)%nat) (HV : idev (I !!! i) = 1) (HS : sane V) (HF : frep V A F).
Context (HB : (length B + 2 * nind A ≤ 26)%nat).

Lemma kwp_readi_loop fuel : ∀ q r tot acc (Q : list Z → kernel → Prop) k, fsst V B ∅ I k → (q + r ≤ length F)%nat →
  (span q r ≤ fuel)%nat → (∀ k', fsst V B ∅ I k' → Q (acc ++ slice F q r) k') →
  kwp (readi_loop fuel i tot (Z.of_nat q) (tot + Z.of_nat r) acc) Q Y k.
Proof.
  induction fuel as [|fuel IH]; intros q r tot acc Q k HK Hl Hf HQ.
  - destruct (decide (r = 0)%nat) as [->|]; [|pose proof (span_pos q r); lia]. cbn [readi_loop]. kstep.
    rewrite <- (app_nil_r acc). by apply HQ.
  - cbn [readi_loop]. destruct (decide (r = 0)%nat) as [->|Hr].
    { rewrite (proj2 (Z.ltb_ge _ _)) by lia. kstep. rewrite <- (app_nil_r acc). by apply HQ. }
    rewrite (proj2 (Z.ltb_lt _ _)) by lia. destruct (loop_pos q r tot) as (E1 & E2 & E3). set (m := Nat.min r (512 - q `mod` 512)) in *.
    pose proof (Nat.mod_upper_bound q 512 ltac:(lia)). destruct (frep_blk V A F q HF) as (Hb & Hn & [Ha _]); [lia|].
    kstep. eapply kwp_islot; [exact HK|]. rewrite HV, E1, E2, E3. kstep.
    eapply (kwp_bmap i (q `div` 512)); [exact HK|done|done|done|apply HF|done|by intros ?|done|].
    intros a V' A' B' k1 K1 HG _ HB'. destruct (gw_old _ _ _ _ _ _ HG Hn) as [-> ->]. rewrite HB', set_addrs_id in K1 by done.
    pose proof (gw_blk _ _ _ _ _ _ HG) as <-. pose proof (ge_size GE). pose proof (ge_ds GE).
    kstep. eapply kwp_rd; [exact K1|lia|apply has_empty|rewrite map_size_empty; unfold NBUF; lia|]. intros b k2 _ K2.
    kstep. eapply kwp_slot; [exact K2|apply lookup_insert_eq|]. intros rr Er. rewrite Er, Nat2Z.id.
    rewrite (frep_chunk V A F q m HF) by lia. kstep. eapply kwp_rel; [exact K2|apply lookup_insert_eq|]. intros k3 K3.
    rewrite delete_insert_id in K3 by done.
    replace (Z.of_nat q + Z.of_nat m) with (Z.of_nat (q + m)) by lia.
    replace (tot + Z.of_nat r) with (tot + Z.of_nat m + Z.of_nat (r - m)) by lia.
    apply IH; [done|lia| |].
    + rewrite (span_step q r) in Hf by lia. fold m in Hf. lia.
    + intros k4 K4. rewrite <- app_assoc, slice_app. replace (m + (r - m))%nat with r by lia. by apply HQ.
Qed.

Context (HT : itype (I !!! i) ≠ T_DEV) (HZ : isize (I !!! i) = Z.of_nat (length F)).

Lemma kwp_readi q n (Q : Z * list Z → kernel → Prop) k : fsst V B ∅ I k → (q ≤ length F)%nat →
  Z.of_nat q + Z.of_nat n < 4294967296 →
  (let m := Nat.min n (length F - q) in ∀ k', fsst V B ∅ I k' → Q (Z.of_nat m, slice F q m) k') →
  kwp (readi i (Z.of_nat q) (Z.of_nat n)) Q Y k.
Proof.
  intros HK Hq Hn HQ. set (m := Nat.min n (length F - q)) in *. unfold readi. kstep. eapply kwp_islot; [exact HK|].
  rewrite (proj2 (Z.eqb_neq _ _)) by done. rewrite u32_small, HZ by lia.
  rewrite (proj2 (Z.ltb_ge _ _)), (proj2 (Z.ltb_ge _ _)) by lia. cbn [orb]. cbv zeta.
  replace (if Z.of_nat (length F) <? Z.of_nat q + Z.of_nat n then Z.of_nat (length F) - Z.of_nat q else Z.of_nat n) with (0 + Z.of_nat m)
    by (destruct (Z.ltb_spec (Z.of_nat (length F)) (Z.of_nat q + Z.of_nat n)); lia).
  kstep. apply kwp_readi_loop; [done|lia| |].
  - replace (0 + Z.of_nat m) with (Z.of_nat m) by lia. unfold BSIZE. change 512 with (Z.of_nat 512).
    rewrite <- Nat2Z.inj_div. replace (Z.to_nat (Z.of_nat (m `div` 512) + 2)) with (m `div` 512 + 2)%nat by lia. apply span_fuel.
  - intros k' K'. kstep. simpl app. replace (0 + Z.of_nat m) with (Z.of_nat m) by lia. by apply HQ.
Qed.
End readi.

(** ** Writing *)

(** The blocks of the file. *)
Definition mine (V : Z → list Z) (A : list Z) (c : Z) : Prop :=
  c ≠ 0 ∧ (c = ind A ∨ ∃ bn, (bn < maxbn)%nat ∧ blk_of V A bn = c).

(** A change to the file leaves the rest alone: only its own blocks, the bitmap and
    blocks that were free change, and it takes blocks that were free. *)
Record keeps (V : Z → list Z) (A : list Z) (V' : Z → list Z) (A' : list Z) : Prop := {
  kp_used : ∀ c, 0 ≤ c < sb_size SB → used V c = true → used V' c = true;
  kp_frame : ∀ c, c ≠ bm → (0 ≤ c < sb_size SB → used V c = true) → ¬ mine V A c → V' c = V c;
  kp_mine : ∀ c, mine V' A' c → mine V A c ∨ (0 ≤ c < sb_size SB ∧ used V c = false) }.

Lemma keeps_refl V A : keeps V A V A.
Proof. split; auto. Qed.
Lemma keeps_trans V A V' A' V'' A'' : keeps V A V' A' → keeps V' A' V'' A'' → keeps V A V'' A''.
Proof.
  intros [U1 F1 M1] [U2 F2 M2]. split.
  - auto.
  - intros c Hb Hc Hm. rewrite F2; [by apply F1|done|auto|]. intros [?|[Hr Hu]]%M1; [done|]. rewrite Hc in Hu; done.
  - intros c [Hm|[Hr Hu]]%M2; [by apply M1|]. right. split; [done|]. destruct (used V c) eqn:E; [|done]. by rewrite U1 in Hu.
Qed.

Lemma mine_blk V A bn : file_ok V A → (bn < maxbn)%nat → blk_of V A bn ≠ 0 → mine V A (blk_of V A bn) ∧ isblk V (blk_of V A bn).
Proof. intros HF Hb Hn. split; [split; eauto|]. by destruct (fo_blk _ _ HF bn Hb). Qed.

(** Filling a block of the file that has just been mapped. *)
Lemma fill_view V A V1 A1 bn a d : grown V A V1 A1 bn a → (bn < maxbn)%nat → length d = 512%nat →
  let V2 := vset V1 a d in
  (∀ bn', (bn' < maxbn)%nat → blk_of V2 A1 bn' = blk_of V1 A1 bn') ∧ (∀ c, used V2 c = used V1 c) ∧ sane V2 ∧ file_ok V2 A1.
Proof.
  intros HG Hbn Hd V2. pose proof (gw_ok _ _ _ _ _ _ HG) as HF. pose proof (gw_blk _ _ _ _ _ _ HG) as Ea.
  pose proof (gw_nz _ _ _ _ _ _ HG) as Hn. pose proof (ge_bm GE).
  destruct (mine_blk V1 A1 bn HF Hbn) as [_ [Ha _]]; [congruence|]. rewrite Ea in Ha.
  assert (∀ bn', (bn' < maxbn)%nat → blk_of V2 A1 bn' = blk_of V1 A1 bn') as EB.
  { intros bn' Hb'. unfold blk_of. repeat case_decide; [done|done|]. unfold V2. rewrite vset_ne; [done|].
    intros E. apply (fo_sep _ _ HF bn Hbn); [congruence|]. by rewrite Ea. }
  assert (∀ c, used V2 c = used V1 c) as EU by (intros c; unfold used, V2; by rewrite vset_ne by lia).
  split_and!; [done|done| |].
  - pose proof (gw_sane _ _ _ _ _ _ HG) as [S1 S2]. split.
    + intros c Hc Hh. unfold V2, vset. case_decide; [done|by apply S1].
    + intros c Hc. rewrite EU. by apply S2.
  - destruct HF as [O1 O2 O3 O4 O5]. split; [done| | | |].
    + destruct O2 as [|[? ?]]; [by left|right]. split; [done|]. by rewrite EU.
    + intros bn' Hb'. rewrite EB by done. destruct (O3 bn' Hb') as [|[? ?]]; [by left|right]. split; [done|]. by rewrite EU.
    + intros b1 b2 Hb1 Hb2. rewrite !EB by done. auto.
    + intros b1 Hb1. rewrite EB by done. auto.
Qed.

Lemma fill_keeps V A V1 A1 bn a d : file_ok V A → grown V A V1 A1 bn a → (bn < maxbn)%nat → length d = 512%nat →
  keeps V A (vset V1 a d) A1.
Proof.
  intros HF HG Hbn Hd. destruct (fill_view V A V1 A1 bn a d HG Hbn Hd) as (EB & EU & _ & HF2). pose proof (ge_ds GE).
  pose proof (gw_blk _ _ _ _ _ _ HG) as Ea. pose proof (gw_nz _ _ _ _ _ _ HG) as Hn.
  assert (a = blk_of V A bn ∨ used V a = false) as Ha.
  { destruct (decide (blk_of V A bn = 0)) as [E|E]; [right; by apply (gw_new _ _ _ _ _ _ HG)|left].
    destruct (gw_old _ _ _ _ _ _ HG E) as [-> ->]. done. }
  assert (∀ c, mine (vset V1 a d) A1 c → 0 ≤ c < sb_size SB) as Hr.
  { intros c (Hc & [->|(b & Hb & <-)]).
    - destruct (used_ind _ _ HF2 Hc). lia.
    - destruct (mine_blk _ _ b HF2 Hb Hc) as [_ [? _]]. lia. }
  split.
  - intros c Hc Hu. rewrite EU. by apply (gw_used _ _ _ _ _ _ HG).
  - intros c Hb Hc Hm. assert (c ≠ a) as Hca.
    { intros ->. destruct Ha as [E|E]; [apply Hm; rewrite E; apply mine_blk; congruence|].
      assert (mine (vset V1 a d) A1 a) as Hx by (split; [done|right; exists bn; by rewrite EB]). rewrite (Hc (Hr a Hx)) in E. done. }
    rewrite vset_ne by done. apply (gw_frame _ _ _ _ _ _ HG); [done| |done]. intros Hz E. apply Hm. split; [done|by left].
  - intros c Hx. pose proof (Hr c Hx) as Hcr. destruct Hx as (Hc & [->|(b & Hb & E)]).
    + destruct (decide (ind A = 0)) as [E|E].
      * right. split; [done|]. by apply (gw_ind_new _ _ _ _ _ _ HG).
      * left. rewrite (gw_ind _ _ _ _ _ _ HG E) in *. split; [done|by left].
    + rewrite EB in E by done. destruct (decide (b = bn)) as [->|Nb].
      * rewrite Ea in E. subst c. destruct Ha as [E|E]; [left|by right]. rewrite E. apply mine_blk; congruence.
      * rewrite (gw_other _ _ _ _ _ _ HG) in E by done. left. rewrite <- E. apply mine_blk; congruence.
Qed.

(** The contents after the bytes [c] have been put into that block. *)
Lemma frep_fill V A F q c V1 A1 a : frep V A F → (q ≤ length F)%nat → (q `mod` 512 + length c ≤ 512)%nat → c ≠ [] →
  (q + length c ≤ 512 * maxbn)%nat → grown V A V1 A1 (q `div` 512) a →
  frep (vset V1 a (splice (V1 a) (q `mod` 512) c)) A1 (splice F q c).
Proof.
  intros HF Hq Hm Hc Hmax HG. set (d := splice (V1 a) (q `mod` 512) c). pose proof (gw_blk _ _ _ _ _ _ HG) as Ea. pose proof (ge_ds GE).
  pose proof (ge_size GE). pose proof (gw_ok _ _ _ _ _ _ HG) as HF1. pose proof (gw_nz _ _ _ _ _ _ HG) as Hn.
  assert (0 < length c)%nat as Hc' by (destruct c; simpl; [done|lia]).
  assert (q `div` 512 < maxbn)%nat as Hbn by (apply Nat.Div0.div_lt_upper_bound; lia).
  destruct (mine_blk V1 A1 _ HF1 Hbn) as [_ [Har _]]; [congruence|]. rewrite Ea in Har.
  assert (length (V1 a) = 512%nat) as L1 by (apply (gw_sane _ _ _ _ _ _ HG); [lia|apply home_data; lia]).
  assert (length d = 512%nat) as Ld by (unfold d; rewrite splice_length; lia).
  destruct (fill_view V A V1 A1 _ a d HG Hbn Ld) as (EB & _ & _ & HF2).
  split; [done|pose proof (fr_max _ _ _ HF); rewrite splice_length; lia|].
  intros j v Hj. rewrite lookup_splice in Hj by done. case_decide as Hr.
  - destruct (divmod_add q (j - q)) as [E1 E2]; [lia|]. replace (q + (j - q))%nat with j in * by lia.
    rewrite E1, E2, EB, Ea, vset_eq by done. split; [done|]. unfold d. rewrite lookup_splice, decide_True by lia.
    by replace (q `mod` 512 + (j - q) - q `mod` 512)%nat with (j - q)%nat by lia.
  - destruct (fr_data _ _ _ HF j v Hj) as [Hn0 Hd]. pose proof (lookup_lt_Some _ _ _ Hj). pose proof (fr_max _ _ _ HF).
    assert (j `div` 512 < maxbn)%nat as Hbj by (apply Nat.Div0.div_lt_upper_bound; lia). rewrite EB by done.
    destruct (decide (j `div` 512 = q `div` 512)%nat) as [E|E].
    + rewrite E in *. destruct (gw_old _ _ _ _ _ _ HG Hn0) as [-> ->]. rewrite Ea in *. rewrite vset_eq. split; [done|].
      unfold d. rewrite lookup_splice, decide_False; [done| |lia]. pose proof (Nat.div_mod_eq j 512). pose proof (Nat.div_mod_eq q 512). lia.
    + rewrite (gw_other _ _ _ _ _ _ HG) by done. split; [done|]. rewrite vset_ne.
      * destruct (mine_blk V A _ (fr_ok _ _ _ HF) Hbj Hn0) as [_ [Hjr Hju]]. pose proof (ge_bm GE).
        rewrite (gw_frame _ _ _ _ _ _ HG); [done|lia| |done]. intros _. by apply (fo_sep _ _ (fr_ok _ _ _ HF)).
      * intros E'. apply E. apply (fo_inj _ _ HF1); [done|done| |].
        { rewrite (gw_other _ _ _ _ _ _ HG) by done. congruence. } { by rewrite (gw_other _ _ _ _ _ _ HG). }
Qed.

(** The blocks that a write of [n] blocks from [b] on must allocate. *)
Definition missing (V : Z → list Z) (A : list Z) (b n : nat) : nat := length (filter (λ bn, blk_of V A bn = 0) (seq b n)).
Definition room_for (V : Z → list Z) (A : list Z) (b n : nat) : Prop :=
  missing V A b n = 0%nat ∨ (missing V A b n + nind A ≤ nfree V)%nat.

Lemma missing_S V A b n : missing V A b (S n) = (if decide (blk_of V A b = 0) then S (missing V A (S b) n) else missing V A (S b) n).
Proof. unfold missing. cbn [seq]. rewrite filter_cons. by case_decide. Qed.
Lemma missing_le V A b n : (missing V A b n ≤ n)%nat.
Proof. unfold missing. etransitivity; [apply length_filter|]. by rewrite length_seq. Qed.
Lemma missing_ext V A V' A' b n : (b + n ≤ maxbn)%nat → (∀ bn, (b ≤ bn < maxbn)%nat → blk_of V' A' bn = blk_of V A bn) →
  missing V' A' b n = missing V A b n.
Proof.
  intros Hb HE. unfold missing. revert b Hb HE. induction n as [|n IH]; intros b Hb HE; [done|]. cbn [seq].
  rewrite !filter_cons, HE by lia. specialize (IH (S b) ltac:(lia) ltac:(intros; apply HE; lia)). case_decide; simpl; lia.
Qed.

Lemma room_step V A V1 A1 b n a d : grown V A V1 A1 b a → (b + S n ≤ maxbn)%nat → length d = 512%nat →
  room_for V A b (S n) → room_for (vset V1 a d) A1 (S b) n.
Proof.
  intros HG Hb Hd HR. destruct (fill_view V A V1 A1 b a d HG ltac:(lia) Hd) as (EB & EU & _).
  assert (missing (vset V1 a d) A1 (S b) n = missing V A (S b) n) as E.
  { apply missing_ext; [lia|]. intros bn Hbn. rewrite EB by lia. apply (gw_other _ _ _ _ _ _ HG); lia. }
  assert (nfree (vset V1 a d) = nfree V1) as EF by (by apply nfree_ext).
  unfold room_for in *. rewrite E, EF. rewrite missing_S in HR. case_decide as E0.
  - right. apply (gw_free _ _ _ _ _ _ HG). lia.
  - destruct (gw_old _ _ _ _ _ _ HG E0) as [-> ->]. destruct HR; [by left|by right].
Qed.

(** The blocks written since [B0]: the bitmap, the indirect block, and [w] others. *)
Definition budget (B0 B A : list Z) (w : nat) : Prop :=
  ∃ W, (length W ≤ w)%nat ∧ ∀ b, b ∈ B → b ∈ B0 ∨ b = bm ∨ (b = ind A ∧ ind A ≠ 0) ∨ b ∈ W.

Lemma budget_length B0 B A w V G I k : fsst V B G I k → budget B0 B A w → (length B + nind A ≤ length B0 + 2 + w)%nat.
Proof.
  intros ([_ HL _ _ _ _] & _ & _) (W & HW & HB). pose proof (lk_nodup _ _ _ _ _ HL) as ND.
  set (L := B0 ++ bm :: (if decide (ind A = 0) then [] else [ind A]) ++ W).
  assert (B ⊆+ L) as Hsub.
  { apply NoDup_submseteq; [done|]. intros b Hb. unfold L. rewrite elem_of_app, elem_of_cons, elem_of_app.
    destruct (HB b Hb) as [?|[?|[[-> Hn]|?]]]; [tauto|tauto| |tauto]. rewrite decide_False by done. set_solver. }
  apply submseteq_length in Hsub. unfold L in Hsub. rewrite length_app in Hsub. simpl in Hsub. rewrite length_app in Hsub.
  unfold nind. case_decide; simpl in *; lia.
Qed.

Lemma budget_step B0 B A w V V1 A1 B1 bn a : budget B0 B A w → grown V A V1 A1 bn a → wrote B B1 A1 a →
  budget B0 (add_blk a B1) A1 (S w).
Proof.
  intros (W & HW & HB) HG Hw. exists (a :: W). split; [simpl; lia|].
  assert (a ∈ a :: W) as Ha by by left. assert (∀ c, c ∈ W → c ∈ a :: W) as HW' by (intros c ?; by right).
  intros b [->|[Hx|[?|[->|?]]]%Hw]%elem_of_add_blk; [tauto| |tauto|tauto|tauto].
  destruct (HB b Hx) as [?|[?|[[-> Hn]|?]]]; [tauto|tauto| |auto]. rewrite (gw_ind _ _ _ _ _ _ HG Hn). tauto.
Qed.

Lemma set_addrs_at A i (I : list inode) : (i < length I)%nat → alter (set_addrs A) i I !!! i = set_addrs A (I !!! i).
Proof. intros Hi. by rewrite list_alter_total, decide_True. Qed.
Lemma set_addrs_twice A A' i (I : list inode) : alter (set_addrs A') i (alter (set_addrs A) i I) = alter (set_addrs A') i I.
Proof. rewrite alter_alter. by apply list_alter_ext. Qed.

(** What writing [c] at [q], within one block, has done. *)
Record wrote_block (V : Z → list Z) (A F : list Z) (q : nat) (c : list Z) (V' : Z → list Z) (A' : list Z) : Prop := {
  wb_file : frep V' A' (splice F q c);
  wb_sane : sane V';
  wb_keeps : keeps V A V' A';
  wb_other : ∀ bn, (bn < maxbn)%nat → bn ≠ (q `div` 512)%nat → blk_of V' A' bn = blk_of V A bn;
  wb_old : blk_of V A (q `div` 512) ≠ 0 → A' = A;
  wb_free : ∀ n, (S n + nind A ≤ nfree V → n + nind A' ≤ nfree V')%nat;
  wb_room : ∀ n, (q `div` 512 + S n ≤ maxbn)%nat → room_for V A (q `div` 512) (S n) → room_for V' A' (S (q `div` 512)) n }.

Context (Ho : 1 ≤ o).
Lemma kwp_write_block {T} i B0 q c w V B I F (m : K T) (Q : T → kernel → Prop) k : let A := iaddrs (I !!! i) in
  (length B0 ≤ 20)%nat → (w ≤ 3)%nat →
  fsst V B ∅ I k → (i < length I)%nat → idev (I !!! i) = 1 → sane V → frep V A F → (q ≤ length F)%nat → c ≠ [] →
  (q `mod` 512 + length c ≤ 512)%nat → (q + length c ≤ 512 * maxbn)%nat → room_for V A (q `div` 512) 1 → budget B0 B A w →
  (∀ V' A' B' k', fsst V' B' ∅ (alter (set_addrs A') i I) k' → wrote_block V A F q c V' A' → budget B0 B' A' (S w) → kwp m Q Y k') →
  kwp (addr ← bmap i (Z.of_nat (q `div` 512));
       bp ← bread 1 addr;
       bset bp (λ r, r <| bdata ::= λ d, splice d (q `mod` 512) c |>);;
       log_write bp;;
       brelse bp;;
       m) Q Y k.
Proof.
  intros A HB0 Hw3 HK HL HV HS HF Hq Hc Hm Hmax HR HB HQ. pose proof (budget_length _ _ _ _ _ _ _ _ HK HB) as HLB.
  pose proof (Nat.mod_upper_bound q 512 ltac:(lia)). pose proof (ge_size GE). pose proof (ge_ds GE).
  assert (0 < length c)%nat as Hc' by (destruct c; simpl; [done|lia]).
  assert (q `div` 512 < maxbn)%nat as Hbn by (apply Nat.Div0.div_lt_upper_bound; lia).
  kstep. eapply (kwp_bmap i (q `div` 512)); [exact HK|done|done|done|apply HF|done| |fold A; unfold nind in *; case_decide; lia|].
  { fold A. intros E0. split; [exact Ho|]. destruct HR as [HR|HR]; rewrite missing_S, decide_True in HR by done; lia. }
  fold A. intros a V1 A1 B1 k1 K1 HG HW1 _.
  destruct (mine_blk V1 A1 _ (gw_ok _ _ _ _ _ _ HG) Hbn) as [_ [Ha _]]; [rewrite (gw_blk _ _ _ _ _ _ HG); apply HG|].
  rewrite (gw_blk _ _ _ _ _ _ HG) in Ha. pose proof (budget_step _ _ _ _ _ _ _ _ _ _ HB HG HW1) as HB2.
  assert (budget B0 B1 A1 (S w)) as HB1.
  { destruct HB2 as (W & HW & HB2). exists W. split; [done|]. intros b Hb. apply HB2, elem_of_add_blk. by right. }
  pose proof (budget_length _ _ _ _ _ _ _ _ K1 HB1) as HL1.
  kstep. eapply kwp_rd; [exact K1|lia|apply has_empty|rewrite map_size_empty; unfold NBUF; lia|]. intros b k2 _ K2.
  kstep. eapply (kwp_wr b a (λ d, splice d (q `mod` 512) c)); [exact Ho|exact K2|apply lookup_insert_eq|apply home_data; lia|lia|]. intros k3 K3.
  kstep. eapply kwp_rel; [exact K3|apply lookup_insert_eq|]. intros k4 K4. rewrite delete_insert_id in K4 by done.
  assert (length (V1 a) = 512%nat) as L1 by (apply (gw_sane _ _ _ _ _ _ HG); [lia|apply home_data; lia]).
  set (d := splice (V1 a) (q `mod` 512) c) in *. assert (length d = 512%nat) as Ld by (unfold d; rewrite splice_length; lia).
  destruct (fill_view V A V1 A1 _ a d HG Hbn Ld) as (EB & EU & HS2 & _).
  eapply HQ; [exact K4| |done]. split; [by apply (frep_fill V A)|done|by apply (fill_keeps V A V1 A1 _ a d (fr_ok _ _ _ HF) HG Hbn Ld)| | | |].
  - intros bn Hb Hn. rewrite EB by done. by apply (gw_other _ _ _ _ _ _ HG).
  - intros Hn. by apply (gw_old _ _ _ _ _ _ HG).
  - intros n Hn. rewrite (nfree_ext V1 (vset V1 a d)) by done. by apply (gw_free _ _ _ _ _ _ HG).
  - intros n Hn. by apply room_step.
Qed.

Lemma kwp_writei_loop i B0 : (length B0 ≤ 20)%nat → ∀ fuel q src tot w V B I F (Q : Z → kernel → Prop) k,
  let A := iaddrs (I !!! i) in let r := length src in
  fsst V B ∅ I k → (i < length I)%nat → idev (I !!! i) = 1 → sane V → frep V A F → (q ≤ length F)%nat →
  (q + r ≤ 512 * maxbn)%nat → (span q r ≤ fuel)%nat → room_for V A (q `div` 512) (span q r) →
  budget B0 B A w → (w + span q r ≤ 4)%nat →
  (∀ V' A' B' k', fsst V' B' ∅ (alter (set_addrs A') i I) k' → frep V' A' (splice F q src) → sane V' → keeps V A V' A' →
    budget B0 B' A' (w + span q r) → (missing V A (q `div` 512) (span q r) = 0%nat → A' = A) →
    (∀ m, (m + span q r + nind A ≤ nfree V → m + nind A' ≤ nfree V')%nat) → Q (Z.of_nat (q + r)) k') →
  kwp (writei_loop fuel i tot (Z.of_nat q) (tot + Z.of_nat r) src) Q Y k.
Proof.
  intros HB0. induction fuel as [|fuel IH]; intros q src tot w V B I F Q k A r HK HL HV HS HF Hq Hmax Hf HR HB Hw HQ.
  all: destruct (decide (r = 0)%nat) as [Er|Er].
  2:{ pose proof (span_pos q r). lia. }
  1,2: assert (span q r = 0)%nat as Es by (unfold span; by rewrite decide_True).
  1,2: cbn [writei_loop]; rewrite ?(proj2 (Z.ltb_ge _ _)) by lia; kstep; replace (Z.of_nat q) with (Z.of_nat (q + r)) by lia.
  1,2: apply length_zero_iff_nil in Er; apply (HQ V A B); [unfold A; by rewrite set_addrs_id| |done|apply keeps_refl|by rewrite Es, Nat.add_0_r|done|intros m; rewrite Es; lia].
  1,2: rewrite Er; unfold splice; simpl; rewrite Nat.add_0_r, take_drop; done.
  cbn [writei_loop]. rewrite (proj2 (Z.ltb_lt _ _)) by lia. destruct (loop_pos q r tot) as (E1 & E2 & E3).
  pose proof (span_step q r ltac:(lia)) as Esp. pose proof (span_next q r) as Hnx. destruct (span_max q r maxbn Hmax) as [Hsm|?]; [|done].
  set (m := Nat.min r (512 - q `mod` 512)) in *. rewrite Esp in *. set (n := span (q + m) (r - m)) in *.
  pose proof (Nat.mod_upper_bound q 512 ltac:(lia)).
  kstep. eapply kwp_islot; [exact HK|]. rewrite HV, E1, E2, E3, Nat2Z.id.
  assert (length (take m src) = m) as Lc by (rewrite length_take; lia).
  assert (room_for V A (q `div` 512) 1) as HR1.
  { unfold room_for in *. rewrite !missing_S in *. change (missing V A (S (q `div` 512)) 0) with 0%nat. case_decide; lia. }
  eapply (kwp_write_block i B0 q (take m src) w V B I F); [done|lia|exact HK|done|done|done|done|done| |lia|lia|done|done|].
  { intros E. rewrite E in Lc. simpl in Lc. lia. }
  fold A. intros V1 A1 B1 k1 K1 [F1 S1 P1 O1 A1o N1 R1] HB1. pose proof (set_addrs_at A1 i I HL) as EI.
  replace (Z.of_nat q + Z.of_nat m) with (Z.of_nat (q + m)) by lia.
  replace (tot + Z.of_nat r) with (tot + Z.of_nat m + Z.of_nat (length (drop m src))) by (rewrite length_drop; fold r; lia).
  assert (span (q + m) (length (drop m src)) = n) as En by (unfold n; f_equal; rewrite length_drop; fold r; lia).
  assert (∀ V A, n ≠ 0%nat → missing V A ((q + m) `div` 512) n = missing V A (S (q `div` 512)) n) as Em.
  { intros V0 A0 Hn. destruct Hnx as [Hx|Hx]; [by rewrite Hx|by destruct (Hn Hx)]. }
  apply (IH (q + m)%nat (drop m src) _ (S w) V1 B1 (alter (set_addrs A1) i I) (splice F q (take m src))); rewrite ?EI, ?En; simpl iaddrs.
  - done.
  - by rewrite length_alter.
  - done.
  - done.
  - done.
  - rewrite splice_length; lia.
  - rewrite length_drop. fold r. lia.
  - lia.
  - destruct (decide (n = 0)%nat) as [->|Hn]; [by left|]. unfold room_for. rewrite Em by done. apply R1; [lia|done].
  - done.
  - lia.
  - intros V2 A2 B2 k2 K2 F2 S2 P2 HB2 HA2 HN2. rewrite set_addrs_twice in K2.
    replace (q + m + length (drop m src))%nat with (q + r)%nat by (rewrite length_drop; fold r; lia).
    apply (HQ V2 A2 B2); [done| |done|by eapply keeps_trans|by replace (w + S n)%nat with (S w + n)%nat by lia| |].
    + pose proof (splice_splice F q (take m src) (drop m src) Hq) as ES. rewrite Lc, take_drop in ES. by rewrite <- ES.
    + rewrite missing_S. case_decide as E0; [done|]. intros Hm0. rewrite (A1o E0) in *. apply HA2.
      destruct (decide (n = 0)%nat) as [->|Hn]; [done|]. rewrite Em by done. etransitivity; [|exact Hm0]. apply missing_ext; [lia|]. intros bn Hbn. apply O1; lia.
    + intros j Hj. apply HN2, N1. lia.
Qed.

(** ** The inode on the disk *)
Definition dinode_of (ip : inode) : list Z :=
  enc_dinode (itype ip) (imajor ip) (iminor ip) (inlink ip) (isize ip) (iaddrs ip).
Abbreviation ib ip := (IBLOCK (inum ip) SB).

Lemma dinode_length ip : length (iaddrs ip) = S NDIRECT → length (dinode_of ip) = 64%nat.
Proof.
  intros HL. unfold dinode_of, enc_dinode, enc16, enc32 at 1. rewrite !length_app. cbn [length].
  assert (∀ l, length (concat (enc32 <$> l)) = 4 * length l)%nat as -> by (induction l; [done|]; cbn; rewrite ?length_app; simpl; lia).
  rewrite HL. done.
Qed.
Lemma dinode_off_le n : (dinode_off n + 64 ≤ 512)%nat.
Proof. unfold dinode_off, IPB. pose proof (Z.mod_pos_bound n 8 ltac:(lia)). lia. Qed.

(** The block of inodes after [iupdate]. *)
Definition inode_view (V : Z → list Z) (ip : inode) : Z → list Z :=
  vset V (ib ip) (splice (V (ib ip)) (dinode_off (inum ip)) (dinode_of ip)).

Lemma kwp_iupdate i V B I (Q : unit → kernel → Prop) k : let ip := I !!! i in
  fsst V B ∅ I k → idev ip = 1 → 0 ≤ inum ip < sb_ninodes SB → (length B < 29)%nat →
  (∀ k', fsst (inode_view V ip) (add_blk (ib ip) B) ∅ I k' → Q tt k') → kwp (iupdate i) Q Y k.
Proof.
  intros ip HK HV Hi HB HQ. destruct (ge_ib GE _ Hi) as [Hr _]. pose proof (ge_size GE).
  unfold iupdate. kstep. eapply kwp_islot; [exact HK|]. fold ip. kstep. eapply kwp_sb; [exact HK|]. rewrite HV.
  kstep. eapply kwp_rd; [exact HK|lia|apply has_empty|rewrite map_size_empty; unfold NBUF; lia|]. intros b k1 _ K1.
  kstep. eapply (kwp_wr b (ib ip) (λ d, splice d (dinode_off (inum ip)) (dinode_of ip))); [exact Ho|exact K1|apply lookup_insert_eq|by apply GE|done|].
  intros k2 K2. eapply kwp_rel; [exact K2|apply lookup_insert_eq|]. intros k3 K3. rewrite delete_insert_id in K3 by done. by apply HQ.
Qed.

(** The dinode agrees with the inode in memory. *)
Definition synced (V : Z → list Z) (ip : inode) : Prop := slice (V (ib ip)) (dinode_off (inum ip)) 64 = dinode_of ip.

(** A change to the inode [ip] and its file leaves everything else alone. *)
Record updated (V : Z → list Z) (ip : inode) (V' : Z → list Z) (ip' : inode) : Prop := {
  up_used : ∀ c, 0 ≤ c < sb_size SB → used V c = true → used V' c = true;
  up_frame : ∀ c, 0 ≤ c < nb → home c → c ≠ bm → c ≠ ib ip → (c < sb_size SB → used V c = true) → ¬ mine V (iaddrs ip) c → V' c = V c;
  up_mine : ∀ c, mine V' (iaddrs ip') c → mine V (iaddrs ip) c ∨ (0 ≤ c < sb_size SB ∧ used V c = false);
  up_dinodes : ∀ j, (j < dinode_off (inum ip) ∨ dinode_off (inum ip) + 64 ≤ j)%nat → V' (ib ip) !! j = V (ib ip) !! j;
  up_sync : synced V ip → synced V' ip' }.

Lemma inode_view_ok V ip A F : sane V → frep V A F → 0 ≤ inum ip < sb_ninodes SB → length (iaddrs ip) = S NDIRECT →
  sane (inode_view V ip) ∧ frep (inode_view V ip) A F ∧ (∀ c, used (inode_view V ip) c = used V c) ∧
  (∀ bn, (bn < maxbn)%nat → blk_of (inode_view V ip) A bn = blk_of V A bn) ∧ synced (inode_view V ip) ip.
Proof.
  intros HS HF Hi HL. destruct (ge_ib GE _ Hi) as [Hr Hnb]. pose proof (ge_size GE). pose proof (dinode_off_le (inum ip)) as Hd.
  pose proof (dinode_length ip HL) as Ld. assert (length (V (ib ip)) = 512%nat) as LV by (apply HS; [lia|by apply GE]).
  assert (∀ c, ds ≤ c ∨ c = bm → inode_view V ip c = V c) as EV by (intros c Hc; apply vset_ne; lia).
  assert (∀ c, used (inode_view V ip) c = used V c) as EU by (intros c; unfold used; by rewrite EV by by right).
  assert (∀ bn, blk_of (inode_view V ip) A bn = blk_of V A bn) as EB.
  { intros bn. unfold blk_of. repeat case_decide; [done|done|]. destruct (used_ind V A (fr_ok _ _ _ HF)) as [? _]; [done|]. by rewrite EV by lia. }
  split_and!; [| |done|auto|].
  - split; [|intros c Hc; rewrite EU; by apply HS]. intros c Hc Hh. unfold inode_view, vset. case_decide; [|by apply HS].
    rewrite splice_length; lia.
  - destruct HF as [[O1 O2 O3 O4 O5] Hm Hdt]. split; [split|done|].
    + done.
    + destruct O2 as [|[? ?]]; [by left|right]. split; [done|]. by rewrite EU.
    + intros bn Hb. rewrite EB. destruct (O3 bn Hb) as [|[? ?]]; [by left|right]. split; [done|]. by rewrite EU.
    + intros b1 b2 Hb1 Hb2. rewrite !EB. auto.
    + intros b1 Hb1. rewrite EB. auto.
    + intros j v Hj. rewrite EB. destruct (Hdt j v Hj) as [Hn Hv]. split; [done|]. rewrite EV; [done|left].
      destruct (O3 (j `div` 512)%nat) as [?|[? _]]; [|done|lia]. apply lookup_lt_Some in Hj. apply Nat.Div0.div_lt_upper_bound. lia.
  - unfold synced, inode_view. rewrite vset_eq. unfold slice. rewrite drop_splice_eq by lia. by rewrite <- Ld, take_app_length.
Qed.

(** Bytes that exist need no new blocks. *)
Lemma missing_old V A F q n : frep V A F → (q + n ≤ length F)%nat → missing V A (q `div` 512) (span q n) = 0%nat.
Proof.
  intros HF Hl. unfold missing. rewrite filter_none; [done|]. apply Forall_forall. intros bn [Hb1 Hb2]%elem_of_seq E0.
  assert (∃ j, (j < length F)%nat ∧ (j `div` 512 = bn)%nat) as (j & Hj & E).
  { pose proof (Nat.div_mod_eq q 512). pose proof (Nat.mod_upper_bound q 512 ltac:(lia)).
    destruct (decide (bn = q `div` 512)%nat) as [->|Hn].
    - exists q. split; [|done]. unfold span in Hb2. case_decide; lia.
    - exists (512 * bn)%nat. split; [|by rewrite Nat.mul_comm, Nat.div_mul by lia]. unfold span in Hb2. case_decide; [lia|].
      pose proof (Nat.div_mod_eq (q `mod` 512 + n + 511) 512). pose proof (Nat.mod_upper_bound (q `mod` 512 + n + 511) 512 ltac:(lia)). lia. }
  destruct (frep_blk V A F j HF Hj) as (_ & Hn & _). congruence.
Qed.

Definition set_file (A : list Z) (sz : Z) (ip : inode) : inode := ip <| iaddrs := A |> <| isize := sz |>.

Lemma mine_range V A c : file_ok V A → mine V A c → ds ≤ c < sb_size SB.
Proof.
  intros HF (Hc & [->|(b & Hb & <-)]); [by apply (used_ind V A HF)|]. by destruct (mine_blk _ _ b HF Hb Hc) as [_ [? _]].
Qed.

(** Writing the blocks of the file does not touch the inodes. *)
Lemma keeps_ib V ip V1 A1 : keeps V (iaddrs ip) V1 A1 → file_ok V (iaddrs ip) → sane V → 0 ≤ inum ip < sb_ninodes SB →
  V1 (ib ip) = V (ib ip).
Proof.
  intros HK HF HS Hi. destruct (ge_ib GE _ Hi) as [Hr Hn]. apply (kp_frame _ _ _ _ HK); [done|intros _; by apply HS|].
  intros Hm%mine_range; [lia|done].
Qed.

Lemma updated_same V ip V1 : keeps V (iaddrs ip) V1 (iaddrs ip) → file_ok V (iaddrs ip) → sane V → 0 ≤ inum ip < sb_ninodes SB →
  updated V ip V1 ip.
Proof.
  intros HK HF HS Hi. pose proof (keeps_ib V ip V1 _ HK HF HS Hi) as E. destruct HK as [U1 U2 U3].
  split; [done| |done|by intros; rewrite E|unfold synced; by rewrite E].
  intros c _ _ Hb _ Hu. apply U2; [done|]. intros [? ?]. auto.
Qed.

Lemma updated_inode V ip V1 ip' F' : keeps V (iaddrs ip) V1 (iaddrs ip') → file_ok V (iaddrs ip) → sane V → sane V1 →
  frep V1 (iaddrs ip') F' → 0 ≤ inum ip < sb_ninodes SB → inum ip' = inum ip →
  updated V ip (inode_view V1 ip') ip'.
Proof.
  intros HK HF HS HS1 HF1 Hi En. pose proof (keeps_ib V ip V1 _ HK HF HS Hi) as E. rewrite <- En in Hi.
  pose proof (fo_len _ _ (fr_ok _ _ _ HF1)) as HL. destruct (inode_view_ok V1 ip' (iaddrs ip') F' HS1 HF1 Hi HL) as (_ & _ & EU & EB & Sy).
  destruct (ge_ib GE _ Hi) as [Hr Hn]. pose proof (ge_size GE). pose proof (dinode_off_le (inum ip')). pose proof (dinode_length ip' HL).
  assert (length (V1 (ib ip')) = 512%nat) as L1 by (apply HS1; [lia|by apply GE]). destruct HK as [U1 U2 U3]. split.
  - intros c Hc Hu. rewrite EU. auto.
  - intros c _ _ Hb Hc Hu Hm. unfold inode_view. rewrite En, vset_ne by done. apply U2; [done| |done]. intros [? ?]. auto.
  - intros c (Hc & Hx). apply U3. split; [done|]. destruct Hx as [Hx|(b & Hb & Hx)]; [by left|right]. exists b. split; [done|]. by rewrite <- EB.
  - intros j Hj. unfold inode_view. rewrite <- En in *. rewrite vset_eq, <- E. rewrite lookup_splice, decide_False; [done|lia|lia].
  - done.
Qed.

(** [writei] of at most four blocks: the file is the old one with the bytes put in,
    the inode on the disk is brought up to date, and nothing else changes. *)
Lemma kwp_writei i q src V B I F (Q : Z → kernel → Prop) k : let ip := I !!! i in let A := iaddrs ip in
  let F' := splice F q src in
  fsst V B ∅ I k → (i < length I)%nat → idev ip = 1 → itype ip ≠ T_DEV → 0 ≤ inum ip < sb_ninodes SB →
  isize ip = Z.of_nat (length F) → sane V → frep V A F → (q ≤ length F)%nat → (q + length src ≤ 512 * maxbn)%nat →
  (span q (length src) ≤ 4)%nat → room_for V A (q `div` 512) (span q (length src)) → (length B ≤ 20)%nat →
  (∀ V' A' B' k', let ip' := set_file A' (Z.of_nat (length F')) ip in
    fsst V' B' ∅ (alter (λ _, ip') i I) k' → frep V' A' F' → sane V' → updated V ip V' ip' →
    (length B' ≤ length B + 7)%nat →
    (∀ m, (m + span q (length src) + nind A ≤ nfree V → m + nind A' ≤ nfree V')%nat) → Q (Z.of_nat (length src)) k') →
  kwp (writei i src (Z.of_nat q) (Z.of_nat (length src))) Q Y k.
Proof.
  intros ip A F' HK HL HV HT Hi HZ HS HF Hq Hmax Hsp HR HB HQ. set (n := length src) in *. unfold NDIRECT, NINDIRECT in Hmax.
  unfold writei. kstep. eapply kwp_islot; [exact HK|]. fold ip. rewrite (proj2 (Z.eqb_neq _ _)) by done.
  rewrite u32_small, HZ by lia. rewrite (proj2 (Z.ltb_ge _ _)), (proj2 (Z.ltb_ge _ _)) by lia. cbn [orb].
  rewrite (proj2 (Z.ltb_ge _ _)) by (unfold MAXFILE, BSIZE, NDIRECT, NINDIRECT; lia).
  kstep. change (Z.of_nat n) with (0 + Z.of_nat n) at 2.
  apply (kwp_writei_loop i B HB _ q src 0 0 V B I F); fold n; [done..| | |done| |lia|].
  { unfold NDIRECT, NINDIRECT. lia. }
  { unfold BSIZE. change 512 with (Z.of_nat 512). rewrite <- Nat2Z.inj_div.
    replace (Z.to_nat (Z.of_nat (n `div` 512) + 2)) with (n `div` 512 + 2)%nat by lia. apply span_fuel. }
  { exists []. split; [done|]. auto. }
  fold ip A F'. intros V1 A1 B1 k1 K1 F1 S1 P1 HB1 HA1 HN1.
  pose proof (budget_length _ _ _ _ _ _ _ _ K1 HB1) as HLB. assert (length F' = Nat.max (length F) (q + n)) as LF by (by apply splice_length).
  assert ((alter (set_addrs A1) i I) !!! i = set_addrs A1 ip) as EI by (by apply set_addrs_at).
  kstep. eapply kwp_islot; [exact K1|]. rewrite EI. change (isize (set_addrs A1 ip)) with (isize ip). rewrite HZ.
  kstep. destruct (decide (0 < n ∧ length F < q + n)%nat) as [[Hn Hg]|Hg].
  - rewrite (proj2 (Z.ltb_lt _ _)), (proj2 (Z.ltb_lt _ _)) by lia. cbn [andb].
    kstep. eapply (kwp_iset i); [exact K1|]. intros k2 K2. rewrite alter_alter in K2.
    set (ip' := set_file A1 (Z.of_nat (length F')) ip).
    rewrite (list_alter_ext _ (λ _, ip')) in K2.
    2:{ fold ip. unfold ip', set_file, set_addrs. simpl. by replace (Z.of_nat (length F')) with (Z.of_nat (q + n)) by lia. }
    assert ((alter (λ _, ip') i I) !!! i = ip') as EI' by (rewrite list_alter_total, decide_True by done; done).
    apply (kwp_iupdate i V1 B1 (alter (λ _, ip') i I)); rewrite ?EI'; [done|done|done|lia|]. intros k3 K3. kstep.
    destruct (inode_view_ok V1 ip' A1 F' S1 F1 Hi (fo_len _ _ (fr_ok _ _ _ F1))) as (S2 & F2 & EU2 & _).
    eapply HQ; [exact K3|done|done| |etransitivity; [apply length_add_blk|lia]|intros j; rewrite (nfree_ext V1 (inode_view V1 ip')) by done; apply HN1]. fold ip'. eapply updated_inode; [done|apply HF|done..].
  - replace ((0 <? Z.of_nat n) && (Z.of_nat (length F) <? Z.of_nat (q + n))) with false
      by (destruct (Z.ltb_spec 0 (Z.of_nat n)), (Z.ltb_spec (Z.of_nat (length F)) (Z.of_nat (q + n))); simpl; done || lia).
    kstep. kstep. assert (length F' = length F) as LF' by (destruct (decide (n = 0)%nat); lia).
    assert (A1 = A) as -> by (apply HA1; destruct (decide (n = 0)%nat) as [E|]; [by rewrite E|apply (missing_old V A F); [done|lia]]).
    assert (set_file A (Z.of_nat (length F')) ip = ip) as Eip by (rewrite LF', <- HZ; by destruct ip).
    eapply (HQ V1 A B1); [rewrite Eip|done|done|rewrite Eip; by apply updated_same; [|apply HF|..]|lia|done].
    rewrite (list_alter_ext _ (set_addrs A)) by (fold ip; by destruct ip). exact K1.
Qed.
End fs.
