(* ===== verification/Pipe.v ===== *)
(** * Pipes

    [pipe.c]: a ring buffer of [PIPESIZE] bytes with free-running 32-bit
    counters. The kernel functions work on the pipe at an address; what a
    critical section does to the structure is a function on [pipe], so that
    the ring can be compared with a queue for any interleaving of readers and
    writers. *)
From stdpp Require Import base strings numbers gmap list.
From S2P Require Import Prelude Machine KString Kernel Locks Kalloc Proc.

(** ** The ring *)
Definition pipe_full (p : pipe) : bool := nwrite p =? u32 (nread p + PIPESIZE).
Definition pipe_empty (p : pipe) : bool := nread p =? nwrite p.

(** [p->data[p->nwrite++ % PIPESIZE] = c] *)
Definition pipe_push (c : Z) (p : pipe) : pipe :=
  p <| pdata ::= <[Z.to_nat (nwrite p mod PIPESIZE) := c]> |> <| nwrite := u32 (nwrite p + 1) |>.

(** [p->data[p->nread++ % PIPESIZE]] *)
Definition pipe_front (p : pipe) : Z := pdata p !!! Z.to_nat (nread p mod PIPESIZE).
Definition pipe_pop (p : pipe) : pipe := p <| nread := u32 (nread p + 1) |>.

(** The copy loop of [piperead]: up to [n] bytes. *)
Fixpoint pipe_drain (n : nat) (p : pipe) : pipe * list Z :=
  match n with
  | O => (p, [])
  | S n' => if pipe_empty p then (p, [])
            else let '(p', bs) := pipe_drain n' (pipe_pop p) in (p', pipe_front p :: bs)
  end.

(** ** pipe.c *)
Definition pipe0 : pipe := mkPipe (replicate (Z.to_nat PIPESIZE) 0) 0 0 0 0.
#[export] Instance pipe_inhabited : Inhabited pipe := populate pipe0.
Definition ppget (a : Z) : K pipe := gets (λ k, pipes k !!! a).
Definition ppset (a : Z) (f : pipe → pipe) : K unit := modify (λ k, k <| pipes ::= alter f a |>).

Definition pipeclose (a : Z) (writable : bool) : K unit :=
  acquire (Lpipe a);;
  (if writable then ppset a (λ p, p <| writeopen := 0 |>);; wakeup (Cnread a)
   else ppset a (λ p, p <| readopen := 0 |>);; wakeup (Cnwrite a));;
  p ← ppget a;
  if (readopen p =? 0) && (writeopen p =? 0) then
    release (Lpipe a);;
    modify (λ k, k <| pipes ::= delete a |>);;
    kfree a
  else release (Lpipe a).

(** [myproc()->killed] *)
Definition mykilled : K bool :=
  q ← myproc;
  p ← deref q;
  r ← pget p;
  mret (istrue (killed r)).

(** The waiting loop of [pipewrite]: while the ring is full. The answer is
    whether the write goes on. *)
Fixpoint pipewrite_wait (n : nat) (a : Z) : K bool :=
  p ← ppget a;
  if pipe_full p then
    kd ← (if readopen p =? 0 then mret true else mykilled);
    if kd : bool then mret false
    else
      wakeup (Cnread a);;
      sleep (Cnwrite a) (Some (Lpipe a));;
      match n with O => waiting | S n' => pipewrite_wait n' a end
  else mret true.

(** The loop over the bytes; the answer is whether all were written. *)
Fixpoint pipewrite_loop `{!Patience} (a : Z) (bs : list Z) : K bool :=
  match bs with
  | [] => mret true
  | c :: bs' =>
      ok ← pipewrite_wait patience a;
      if ok : bool then ppset a (pipe_push c);; pipewrite_loop a bs' else mret false
  end.

Definition pipewrite `{!Patience} (a : Z) (bs : list Z) : K Z :=
  acquire (Lpipe a);;
  ok ← pipewrite_loop a bs;
  if ok : bool then
    wakeup (Cnread a);;
    release (Lpipe a);;
    mret (Z.of_nat (length bs))
  else
    release (Lpipe a);;
    mret (-1).

(** The waiting loop of [piperead]; the answer is whether the read goes on. *)
Fixpoint piperead_wait (n : nat) (a : Z) : K bool :=
  p ← ppget a;
  if pipe_empty p && istrue (writeopen p) then
    kd ← mykilled;
    if kd : bool then mret false
    else
      sleep (Cnread a) (Some (Lpipe a));;
      match n with O => waiting | S n' => piperead_wait n' a end
  else mret true.

(** The answer is the C result and the bytes stored at [addr]. *)
Definition piperead `{!Patience} (a n : Z) : K (Z * list Z) :=
  acquire (Lpipe a);;
  ok ← piperead_wait patience a;
  if ok : bool then
    p ← ppget a;
    let '(p', bs) := pipe_drain (Z.to_nat n) p in
    ppset a (λ _, p');;
    wakeup (Cnwrite a);;
    release (Lpipe a);;
    mret (Z.of_nat (length bs), bs)
  else
    release (Lpipe a);;
    mret (-1, []).
