(* ===== verification/PipeSpec.v ===== *)
(** * Pipes: specification

    The ring buffer with its free-running counters is a bounded queue of bytes,
    under every interleaving of the critical sections of readers and writers;
    [pipewrite] and [piperead] put bytes into that queue and take them out, or
    wait with the right processes woken. *)
From stdpp Require Import base strings numbers gmap list.
From S2P Require Import Prelude Machine KString Kernel Locks Kalloc Proc ProcSpec Pipe.

(** ** The ring holds a queue *)
Record ring (p : pipe) (q : list Z) : Prop := {
  ring_size : length (pdata p) = 512%nat;
  ring_nread : 0 ≤ nread p < 4294967296;
  ring_nwrite : nwrite p = u32 (nread p + Z.of_nat (length q));
  ring_fits : Z.of_nat (length q) ≤ 512;
  ring_data i c : q !! i = Some c →
    pdata p !! Z.to_nat ((nread p + Z.of_nat i) mod 512) = Some c }.

Lemma u32_mod512 x : u32 x mod 512 = x mod 512.
Proof. unfold u32. rewrite Z.mod_mod_divide; [done|]. by exists 8388608. Qed.
Lemma u32_add_u32 x y : u32 (u32 x + y) = u32 (x + y).
Proof. unfold u32. by rewrite Zplus_mod_idemp_l. Qed.

Lemma ring_full p q : ring p q → pipe_full p = (Z.of_nat (length q) =? 512).
Proof.
  intros [_ Hr Hw Hf _]. unfold pipe_full, PIPESIZE. rewrite Hw. apply eq_iff_eq_true.
  rewrite !Z.eqb_eq. unfold u32. split; [Z.div_mod_to_equations; lia|by intros ->].
Qed.

Lemma ring_empty p q : ring p q → pipe_empty p = bool_decide (q = []).
Proof.
  intros [_ Hr Hw Hf _]. unfold pipe_empty. rewrite Hw. destruct q as [|c q].
  - rewrite bool_decide_eq_true_2 by done. cbn. rewrite Z.add_0_r, u32_small by lia. apply Z.eqb_refl.
  - rewrite bool_decide_eq_false_2 by done. apply Z.eqb_neq. cbn [length] in *. unfold u32.
    Z.div_mod_to_equations. lia.
Qed.

Lemma ring_push c p q : ring p q → Z.of_nat (length q) < 512 → ring (pipe_push c p) (q ++ [c]).
Proof.
  intros [Hs Hr Hw Hf Hd] Hlt. unfold pipe_push, PIPESIZE. rewrite Hw, u32_mod512.
  split; cbn; rewrite ?length_insert, ?length_app; cbn; [done|done| |lia|].
  - rewrite u32_add_u32. f_equal. lia.
  - intros i c' Hi. assert ((i ≤ length q)%nat).
    { apply lookup_lt_Some in Hi. rewrite length_app in Hi. cbn in Hi. lia. }
    destruct (decide (i = length q)) as [->|Hne].
    + rewrite list_lookup_middle in Hi by done. injection Hi as <-. apply list_lookup_insert_eq. rewrite Hs.
      pose proof (Z.mod_pos_bound (nread p + Z.of_nat (length q)) 512). lia.
    + rewrite lookup_app_l in Hi by lia. rewrite list_lookup_insert_ne; [by apply Hd|].
      intros E. apply Z2Nat.inj in E; [|apply Z.mod_pos_bound; lia..]. Z.div_mod_to_equations. lia.
Qed.

Lemma ring_front c p q : ring p (c :: q) → pipe_front p = c.
Proof.
  intros H. unfold pipe_front, PIPESIZE. pose proof (ring_data _ _ H 0 c eq_refl) as Hd.
  rewrite Z.add_0_r in Hd. by rewrite list_lookup_total_alt, Hd.
Qed.

Lemma ring_pop c p q : ring p (c :: q) → ring (pipe_pop p) q.
Proof.
  intros [Hs Hr Hw Hf Hd]. cbn [length] in *. split; cbn; [done|apply u32_range| |lia|].
  - rewrite u32_add_u32, Hw. f_equal. lia.
  - intros i c' Hi. rewrite Zplus_mod, u32_mod512, <- Zplus_mod.
    specialize (Hd (S i) c' Hi). by replace (nread p + 1 + Z.of_nat i) with (nread p + Z.of_nat (S i)) by lia.
Qed.

(** What a reader and a writer see of the other fields. *)
Definition same_ends (p p' : pipe) : Prop := readopen p' = readopen p ∧ writeopen p' = writeopen p.

Lemma ring_drain n p q : ring p q →
  ring (pipe_drain n p).1 (drop n q) ∧ (pipe_drain n p).2 = take n q ∧ same_ends p (pipe_drain n p).1.
Proof.
  revert p q. induction n as [|n IH]; intros p q H; [done|]. cbn [pipe_drain]. rewrite (ring_empty _ _ H).
  destruct q as [|c q]; [done|]. rewrite bool_decide_eq_false_2 by done.
  rewrite (ring_front c _ _ H). destruct (IH _ _ (ring_pop _ _ _ H)) as (H1 & H2 & H3).
  destruct (pipe_drain n (pipe_pop p)) as [p' bs]. cbn in *. by rewrite H2.
Qed.

(** ** Every interleaving *)

(** What the critical sections of writers and readers do: a writer adds a byte
    unless the ring is full, in which case it waits; a reader takes up to [n]
    bytes. *)
Inductive pipeop := Put (c : Z) | Get (n : nat).
Definition do_pipeop (op : pipeop) (p : pipe) : pipe * list Z :=
  match op with
  | Put c => (if pipe_full p then p else pipe_push c p, [])
  | Get n => pipe_drain n p
  end.
Fixpoint do_pipeops (ops : list pipeop) (p : pipe) : pipe * list Z :=
  match ops with
  | [] => (p, [])
  | op :: ops' =>
      let '(p1, out1) := do_pipeop op p in
      let '(p2, out2) := do_pipeops ops' p1 in (p2, out1 ++ out2)
  end.

(** The specification: a queue of at most [PIPESIZE] bytes. *)
Definition do_queueop (op : pipeop) (q : list Z) : list Z * list Z :=
  match op with
  | Put c => (if Z.of_nat (length q) =? PIPESIZE then q else q ++ [c], [])
  | Get n => (drop n q, take n q)
  end.
Fixpoint do_queueops (ops : list pipeop) (q : list Z) : list Z * list Z :=
  match ops with
  | [] => (q, [])
  | op :: ops' =>
      let '(q1, out1) := do_queueop op q in
      let '(q2, out2) := do_queueops ops' q1 in (q2, out1 ++ out2)
  end.

Lemma do_pipeop_ring op p q : ring p q →
  ring (do_pipeop op p).1 (do_queueop op q).1 ∧ (do_pipeop op p).2 = (do_queueop op q).2.
Proof.
  intros H. destruct op as [c|n]; cbn.
  - rewrite (ring_full _ _ H). unfold PIPESIZE. destruct (Z.eqb_spec (Z.of_nat (length q)) 512); [done|].
    split; [|done]. apply ring_push; [done|]. pose proof (ring_fits _ _ H). lia.
  - destruct (ring_drain n p q H) as (H1 & H2 & _). done.
Qed.

Lemma do_pipeops_ring ops : ∀ p q, ring p q →
  ring (do_pipeops ops p).1 (do_queueops ops q).1 ∧ (do_pipeops ops p).2 = (do_queueops ops q).2.
Proof.
  induction ops as [|op ops IH]; intros p q H; [done|]. cbn [do_pipeops do_queueops].
  destruct (do_pipeop_ring op p q H) as [H1 H2].
  destruct (do_pipeop op p) as [p1 o1], (do_queueop op q) as [q1 o1']. cbn in H1, H2.
  destruct (IH _ _ H1) as [H3 H4]. destruct (do_pipeops ops p1), (do_queueops ops q1). cbn in *. by subst.
Qed.

(** The bytes that writers got into the ring, in order. *)
Fixpoint accepted (ops : list pipeop) (p : pipe) : list Z :=
  match ops with
  | [] => []
  | op :: ops' =>
      (match op with Put c => if pipe_full p then [] else [c] | Get _ => [] end) ++
      accepted ops' (do_pipeop op p).1
  end.

Lemma accepted_fifo ops : ∀ p q, ring p q →
  q ++ accepted ops p = (do_queueops ops q).2 ++ (do_queueops ops q).1.
Proof.
  induction ops as [|op ops IH]; intros p q H; [apply app_nil_r|]. cbn [accepted do_queueops].
  destruct (do_pipeop_ring op p q H) as [H1 _]. specialize (IH _ _ H1).
  assert (Hop : q ++ match op with Put c => if pipe_full p then [] else [c] | Get _ => [] end
    = (do_queueop op q).2 ++ (do_queueop op q).1).
  { destruct op as [c|n]; cbn; [|by rewrite app_nil_r, take_drop].
    rewrite (ring_full _ _ H). unfold PIPESIZE. by destruct (_ =? 512); rewrite ?app_nil_r. }
  destruct (do_queueop op q) as [q1 o1]. cbn in *. destruct (do_queueops ops q1) as [q2 o2]. cbn in *.
  rewrite app_assoc, Hop, <- !app_assoc. by rewrite <- IH.
Qed.

(** C24: a pipe is a first-in first-out queue of at most 512 bytes. From the pipe
    [pipealloc] makes, under any interleaving of the critical sections of writers
    and readers, the readers get what the readers of a bounded queue would get;
    the bytes that got in are those the readers have had, in the same order,
    followed by those still in the ring; and none is lost when the 32-bit counters
    wrap around. *)
Theorem pipe_fifo d ops : length d = 512%nat →
  let '(p, out) := do_pipeops ops (mkPipe d 0 0 1 1) in
  let '(q, out') := do_queueops ops [] in
  out = out' ∧ ring p q ∧ accepted ops (mkPipe d 0 0 1 1) = out ++ q ∧ (length q ≤ 512)%nat.
Proof.
  intros Hd. assert (H0 : ring (mkPipe d 0 0 1 1) []) by (split; cbn; [done|lia|done|lia|done]).
  destruct (do_pipeops_ring ops _ _ H0) as [H1 H2]. pose proof (accepted_fifo ops _ _ H0) as H3.
  destruct (do_pipeops ops _) as [p out], (do_queueops ops []) as [q out']. cbn in *. subst.
  split_and!; [done..|]. pose proof (ring_fits _ _ H1). lia.
Qed.
Lemma pipe_fifo_witness :
  (do_pipeops [Put 7; Put 8; Get 1; Put 9; Get 5] (mkPipe (replicate 512 0) 0 0 1 1)).2 = [7; 8; 9].
Proof.
  pose proof (pipe_fifo (replicate 512 0) [Put 7; Put 8; Get 1; Put 9; Get 5] eq_refl) as H.
  destruct (do_pipeops _ _) as [p out]. cbn in H |- *. by destruct H as [-> _].
Defined.

(** ** pipewrite and piperead *)

(** Pipe [a] of [k] holds the queue [q]. *)
Definition pipe_at (a : Z) (q : list Z) (k : kernel) : Prop :=
  ∃ p, pipes k !! a = Some p ∧ ring p q.
Definition pipe_pushes (bs : list Z) (p : pipe) : pipe := foldl (λ p c, pipe_push c p) p bs.

Lemma ring_pushes bs : ∀ p q, ring p q → (length q + length bs ≤ 512)%nat →
  ring (pipe_pushes bs p) (q ++ bs) ∧ same_ends p (pipe_pushes bs p).
Proof.
  induction bs as [|c bs IH]; intros p q H Hl; cbn in *; [by rewrite app_nil_r|].
  destruct (IH (pipe_push c p) (q ++ [c])) as [H1 H2].
  - apply ring_push; [done|lia].
  - rewrite length_app. cbn. lia.
  - by rewrite <- app_assoc in H1.
Qed.

Lemma pipes_total a p k : pipes k !! a = Some p → pipes k !!! a = p.
Proof. intros H. by rewrite lookup_total_alt, H. Qed.

Lemma pipes_pipes f g k : k <| pipes ::= g |> <| pipes ::= f |> = k <| pipes ::= λ m, f (g m) |>.
Proof. done. Qed.
Lemma pipes_at f a k p : pipes k !! a = Some p → pipes (k <| pipes ::= alter f a |>) !! a = Some (f p).
Proof. intros H. cbn. by rewrite lookup_alter_eq, H. Qed.

Section kernel.
Context `{!Patience}.

Lemma kwp_mykilled p Q Y k `{!Mono Y} : cpu_wf k → cproc (kcpu k) = Some p →
  Q (istrue (killed (ptable k !!! p))) k → kwp mykilled Q Y k.
Proof. intros Hwf Hc HQ. unfold mykilled. do 2 pstep. rewrite Hc. by psteps. Qed.

(** The readers of pipe [a] are woken. *)
Definition wake_readers (a : Z) (k : kernel) : kernel :=
  k <| ptable ::= fmap (wake_slot (Some (Cnread a)) (ticks k)) |>.
Definition wake_writers (a : Z) (k : kernel) : kernel :=
  k <| ptable ::= fmap (wake_slot (Some (Cnwrite a)) (ticks k)) |>.

Lemma running_fmap f pr L k : running pr L k → running pr L (k <| ptable ::= fmap f |>).
Proof. apply (running_data (λ k, k <| ptable ::= _ |>)); [apply _| |done]. cbn. apply length_fmap. Qed.
Lemma running_pipes f pr L k : running pr L k → running pr L (k <| pipes ::= f |>).
Proof. by apply (running_data (λ k, k <| pipes ::= f |>)); [apply _| |]. Qed.
Lemma pipes_skip a k : k <| pipes ::= alter (pipe_pushes []) a |> = k.
Proof. unfold upd, pipe_pushes. cbn. rewrite (alter_id (λ p, p)) by done. by destruct k. Qed.
Lemma pipes_pushes c bs a k :
  k <| pipes ::= alter (pipe_push c) a |> <| pipes ::= alter (pipe_pushes bs) a |>
  = k <| pipes ::= alter (pipe_pushes (c :: bs)) a |>.
Proof. rewrite pipes_pipes. unfold upd. cbn. f_equal. by rewrite alter_alter_eq. Qed.

(** The waiting loop ends at once when there is room; otherwise the writer
    sleeps, with the readers woken. *)
Lemma kwp_pipewrite_room n a p q Q Y k `{!Mono Y} : pipes k !! a = Some p → ring p q →
  (length q < 512)%nat → Q true k → kwp (pipewrite_wait n a) Q Y k.
Proof.
  intros Hp Hr Hl HQ. destruct n; cbn [pipewrite_wait]; unfold ppget; do 2 kstep;
    rewrite (pipes_total a p), (ring_full _ _ Hr) by done;
    (replace (Z.of_nat (length q) =? 512) with false by lia); by kstep.
Qed.
Lemma kwp_pipewrite_full n pr a p q Q R k : running pr [Lpipe a] k → killed (ptable k !!! pr) = 0 →
  readopen p ≠ 0 → pipes k !! a = Some p → ring p q → length q = 512%nat →
  R (sleep_st pr (Cnwrite a) (wake_readers a k)) → kwp (pipewrite_wait n a) Q (at_switch R) k.
Proof.
  intros Hrun Hk Ho Hp Hr Hl HR. pose proof Hrun as (Hwf & Hh & Hc & Hlt).
  destruct n; cbn [pipewrite_wait]; unfold ppget; do 2 kstep;
    rewrite (pipes_total a p), (ring_full _ _ Hr) by done;
    (replace (Z.of_nat (length q) =? 512) with true by lia);
    rewrite (proj2 (Z.eqb_neq _ _) Ho); (apply kwp_bind; [apply _|]);
    (apply (kwp_mykilled pr); [apply _|done|done|]); rewrite Hk;
    (apply kwp_bind; [apply _|]); (apply kwp_wakeup; [apply _|done|rewrite Hh; set_solver|]);
    (apply kwp_bind; [apply _|]);
    (apply (kwp_sleep pr); [apply _|by apply running_fmap|exact HR]).
Qed.

(** Bytes that fit are written without a wait. *)
Lemma kwp_pipewrite_fits a bs Q Y `{!Mono Y} : ∀ k p q, pipes k !! a = Some p → ring p q →
  (length q + length bs ≤ 512)%nat → Q true (k <| pipes ::= alter (pipe_pushes bs) a |>) →
  kwp (pipewrite_loop a bs) Q Y k.
Proof.
  induction bs as [|c bs IH]; intros k p q Hp Hr Hl HQ; cbn [pipewrite_loop].
  - kstep. by rewrite pipes_skip in HQ.
  - cbn in Hl. kstep. apply (kwp_pipewrite_room _ _ p q); [done|done|done|lia|].
    unfold ppset. do 2 kstep. eapply (IH _ (pipe_push c p) (q ++ [c])).
    + by apply pipes_at.
    + apply ring_push; [done|lia].
    + rewrite length_app. cbn. lia.
    + by rewrite pipes_pushes.
Qed.

(** A byte that does not fit makes the writer wait. *)
Lemma kwp_pipewrite_blocks pr a c bs1 bs2 Q R : ∀ k p q, running pr [Lpipe a] k →
  killed (ptable k !!! pr) = 0 → readopen p ≠ 0 → pipes k !! a = Some p → ring p q →
  (length q + length bs1 = 512)%nat →
  R (sleep_st pr (Cnwrite a) (wake_readers a (k <| pipes ::= alter (pipe_pushes bs1) a |>))) →
  kwp (pipewrite_loop a (bs1 ++ c :: bs2)) Q (at_switch R) k.
Proof.
  induction bs1 as [|c1 bs1 IH]; intros k p q Hrun Hk Ho Hp Hr Hl HR; cbn [pipewrite_loop app]; cbn in Hl; kstep.
  - apply (kwp_pipewrite_full _ pr a p q); [done..|lia|]. by rewrite pipes_skip in HR.
  - apply (kwp_pipewrite_room _ _ p q); [apply _|done|done|lia|].
    unfold ppset. do 2 kstep. eapply (IH _ (pipe_push c1 p) (q ++ [c1])).
    + by apply running_pipes.
    + done.
    + done.
    + by apply pipes_at.
    + apply ring_push; [done|lia].
    + rewrite length_app. cbn. lia.
    + by rewrite pipes_pushes.
Qed.

Lemma kwp_piperead_ready n a p q Q Y k `{!Mono Y} : pipes k !! a = Some p → ring p q →
  q ≠ [] ∨ writeopen p = 0 → Q true k → kwp (piperead_wait n a) Q Y k.
Proof.
  intros Hp Hr Hq HQ. assert (E : pipe_empty p && istrue (writeopen p) = false).
  { rewrite (ring_empty _ _ Hr). destruct Hq as [Hq| ->]; [by rewrite bool_decide_eq_false_2|apply andb_false_r]. }
  destruct n; cbn [piperead_wait]; unfold ppget; do 2 kstep; rewrite (pipes_total a p), E by done; by kstep.
Qed.
Lemma kwp_piperead_empty n pr a p Q R k : running pr [Lpipe a] k → killed (ptable k !!! pr) = 0 →
  writeopen p ≠ 0 → pipes k !! a = Some p → ring p [] →
  R (sleep_st pr (Cnread a) k) → kwp (piperead_wait n a) Q (at_switch R) k.
Proof.
  intros Hrun Hk Ho Hp Hr HR. pose proof Hrun as (Hwf & Hh & Hc & Hlt).
  assert (E : pipe_empty p && istrue (writeopen p) = true).
  { rewrite (ring_empty _ _ Hr). unfold istrue. by rewrite (proj2 (Z.eqb_neq _ _) Ho). }
  destruct n; cbn [piperead_wait]; unfold ppget; do 2 kstep; rewrite (pipes_total a p), E by done;
    (apply kwp_bind; [apply _|]); (apply (kwp_mykilled pr); [apply _|done|done|]); rewrite Hk;
    (apply kwp_bind; [apply _|]); (apply (kwp_sleep pr); [apply _|done|exact HR]).
Qed.

(** [pipewrite] into an open pipe that holds [q]: bytes that fit are added
    behind [q], the readers are woken and the count is returned with no lock
    held; otherwise the ring is filled with as many bytes as fit, the readers are
    woken, and the writer sleeps on the pipe's [nwrite]. *)
Theorem pipewrite_spec pr a bs k p q : running pr [] k → killed (ptable k !!! pr) = 0 →
  pipes k !! a = Some p → readopen p ≠ 0 → ring p q →
  if decide (length q + length bs ≤ 512)%nat then
    ∃ k', pipewrite a bs k = Ok (Z.of_nat (length bs)) k' ∧ pipe_at a (q ++ bs) k' ∧
      ptable k' = wake_slot (Some (Cnread a)) (ticks k) <$> ptable k ∧ held k' = []
  else
    ∃ k' resume, pipewrite a bs k = Swtch k' resume ∧
      pipe_at a (q ++ take (512 - length q) bs) k' ∧ held k' = [Lptable] ∧
      ptable k' = alter (sleep_slot (Cnwrite a) (ticks k)) pr
        (wake_slot (Some (Cnread a)) (ticks k) <$> ptable k).
Proof.
  intros Hrun Hk Hp Ho Hr. pose proof Hrun as (Hwf & Hh & Hc & Hlt). pose proof (ring_fits _ _ Hr).
  assert (∀ l, l ∉ held k) as Hl by (intros; rewrite Hh; apply not_elem_of_nil).
  case_decide as Hfit.
  - destruct (kwp_returns (pipewrite a bs) (λ v d, v = Z.of_nat (length bs) ∧
      d = (wake_readers a (k <| pipes ::= alter (pipe_pushes bs) a |>))) k) as (v & k' & d & E & Hd & -> & ->).
    { unfold pipewrite. do 2 kstep. kstep. apply (kwp_pipewrite_fits _ _ _ _ _ p q); [done|done|done|].
      kstep. apply kwp_wakeup; [apply _|kside|kside|]. by ksteps. }
    exists k'. refine (conj E _). keqv_rd Hd. rewrite Hpt, Hheld. split_and!; [|done|done].
    exists (pipe_pushes bs p). rewrite Hpipes. split; [by apply pipes_at|]. apply ring_pushes; [done|lia].
  - assert (Hn : (512 - length q < length bs)%nat) by lia.
    destruct (lookup_lt_is_Some_2 _ _ Hn) as [c Hc'].
    destruct (kwp_switches (pipewrite a bs) (λ d, d = sleep_st pr (Cnwrite a) (wake_readers a
      ((acq (Lpipe a) k) <| pipes ::= alter (pipe_pushes (take (512 - length q) bs)) a |>))) k)
      as (k' & r & d & E & Hd & ->).
    { unfold pipewrite. do 3 kstep. rewrite <- (take_drop_middle _ _ _ Hc') at 1.
      apply (kwp_pipewrite_blocks pr _ _ _ _ _ _ _ p q); [by apply running_acq|done..| |done].
      rewrite length_take. lia. }
    exists k', r. refine (conj E _). keqv_rd Hd. rewrite Hpt, Hheld. split_and!; [|done|done].
    exists (pipe_pushes (take (512 - length q) bs) p). rewrite Hpipes. split; [by apply pipes_at|].
    apply ring_pushes; [done|rewrite length_take; lia].
Qed.

(** [piperead] of up to [n] bytes from a pipe that holds [q]: with bytes in
    the ring, or with no writer left, it returns the first bytes of [q] (none at
    the end of the data), leaves the rest, and wakes the writers; from an empty
    pipe with a writer it sleeps on the pipe's [nread]. *)
Theorem piperead_spec pr a n k p q : running pr [] k → killed (ptable k !!! pr) = 0 →
  pipes k !! a = Some p → ring p q → 0 ≤ n →
  if decide (q ≠ [] ∨ writeopen p = 0) then
    ∃ k', piperead a n k = Ok (Z.of_nat (length (take (Z.to_nat n) q)), take (Z.to_nat n) q) k' ∧
      pipe_at a (drop (Z.to_nat n) q) k' ∧
      ptable k' = wake_slot (Some (Cnwrite a)) (ticks k) <$> ptable k ∧ held k' = []
  else
    ∃ k' resume, piperead a n k = Swtch k' resume ∧ held k' = [Lptable] ∧ pipe_at a q k' ∧
      ptable k' = alter (sleep_slot (Cnread a) (ticks k)) pr (ptable k).
Proof.
  intros Hrun Hk Hp Hr Hn. pose proof Hrun as (Hwf & Hh & Hc & Hlt).
  assert (∀ l, l ∉ held k) as Hl by (intros; rewrite Hh; apply not_elem_of_nil).
  destruct (ring_drain (Z.to_nat n) p q Hr) as (Hr' & Eb & _). case_decide as Hq.
  - destruct (pipe_drain (Z.to_nat n) p) as [p' bs] eqn:Ed. cbn in Hr', Eb.
    destruct (kwp_returns (piperead a n) (λ v d, v = (Z.of_nat (length bs), bs) ∧
      d = (wake_writers a (k <| pipes ::= alter (λ _, p') a |>))) k) as (v & k' & d & E & Hd & -> & ->).
    { unfold piperead. do 3 kstep. apply (kwp_piperead_ready _ _ p q); [apply _|done|done|done|].
      unfold ppget, ppset. do 2 kstep. rewrite (pipes_total a p), Ed by done. do 3 kstep.
      apply kwp_wakeup; [apply _|kside|kside|]. by ksteps. }
    exists k'. rewrite <- Eb. refine (conj E _). keqv_rd Hd. rewrite Hpt, Hheld. split_and!; [|done|done].
    exists p'. rewrite Hpipes. split; [by apply (pipes_at (λ _, p') a _ p)|done].
  - assert (q = []) as -> by (destruct q; naive_solver).
    destruct (kwp_switches (piperead a n) (λ d, d = sleep_st pr (Cnread a) (acq (Lpipe a) k)) k)
      as (k' & r & d & E & Hd & ->).
    { unfold piperead. do 3 kstep. apply (kwp_piperead_empty _ pr a p); [by apply running_acq|done| |done..].
      naive_solver. }
    exists k', r. refine (conj E _). keqv_rd Hd. rewrite Hpt, Hheld. split_and!; [done| |done].
    exists p. by rewrite Hpipes.
Qed.
End kernel.

(** A fresh pipe at an address, for process 1 of [demo_kernel]. *)
Definition demo_pipe : pipe := mkPipe (replicate 512 0) 0 0 1 1.
Definition pipe_kernel : kernel := demo_kernel <| pipes := {[ 0x8dff0000 := demo_pipe ]} |>.
Lemma demo_ring : ring demo_pipe [].
Proof. split; cbn; [done|lia|done|lia|done]. Qed.
Lemma pipe_kernel_running : running 1 [] pipe_kernel.
Proof. apply running_pipes, demo_running. Qed.

Lemma pipewrite_spec_witness :
  ∃ k', pipewrite (H := 0%nat) 0x8dff0000 [104; 105] pipe_kernel = Ok 2 k' ∧ pipe_at 0x8dff0000 [104; 105] k'.
Proof.
  destruct (pipewrite_spec (H := 0%nat) 1 0x8dff0000 [104; 105] pipe_kernel demo_pipe []) as (k' & H1 & H2 & _);
    [apply pipe_kernel_running|done|apply lookup_singleton_eq|done|apply demo_ring|].
  exists k'. exact (conj H1 H2).
Defined.
Lemma piperead_spec_witness :
  ∃ k' r, piperead (H := 0%nat) 0x8dff0000 10 pipe_kernel = Swtch k' r ∧
    state (ptable k' !!! 1%nat) = SLEEPING.
Proof.
  pose proof (piperead_spec (H := 0%nat) 1 0x8dff0000 10 pipe_kernel demo_pipe []) as H.
  rewrite decide_False in H by (by intros [[]|]).
  destruct H as (k' & r & H1 & _ & _ & H2);
    [apply pipe_kernel_running|done|apply lookup_singleton_eq|apply demo_ring|done|].
  exists k', r. refine (conj H1 _). by rewrite H2.
Defined.
