(* ===== verification/Kbd.v ===== *)
(** * The keyboard

    [kbd.c] with the tables of [kbd.h]: the state machine that turns the scan
    codes of the keyboard controller into characters, and [kbdintr], which
    hands them to the console. The controller is the list of the bytes waiting
    in it; a read of its status port tells whether there is one. *)
From Stdlib Require Import FunctionalExtensionality.
From stdpp Require Import base strings numbers gmap list.
From S2P Require Import Prelude Machine KString Kernel Locks Kalloc Proc Console.

(** ** kbd.h *)
Definition NO : Z := 0.
Definition SHIFT : Z := Z.shiftl 1 0.
Definition CTL : Z := Z.shiftl 1 1.
Definition ALT : Z := Z.shiftl 1 2.
Definition CAPSLOCK : Z := Z.shiftl 1 3.
Definition NUMLOCK : Z := Z.shiftl 1 4.
Definition SCROLLLOCK : Z := Z.shiftl 1 5.
Definition E0ESC : Z := Z.shiftl 1 6.
Definition KEY_HOME : Z := 0xE0.
Definition KEY_END : Z := 0xE1.
Definition KEY_UP : Z := 0xE2.
Definition KEY_DN : Z := 0xE3.
Definition KEY_LF : Z := 0xE4.
Definition KEY_RT : Z := 0xE5.
Definition KEY_PGUP : Z := 0xE6.
Definition KEY_PGDN : Z := 0xE7.
Definition KEY_INS : Z := 0xE8.
Definition KEY_DEL : Z := 0xE9.

(** An array of 256 bytes given by its first elements and by designated ones. *)
Definition table256 (first : list Z) (designated : list (Z * Z)) : list Z :=
  foldl (λ t e, <[Z.to_nat e.1 := e.2]> t) (first ++ replicate (256 - length first) 0) designated.
Definition tab (t : list Z) (i : Z) : Z := t !!! Z.to_nat i.

Definition shiftcode : list Z :=
  table256 [] [(0x1D, CTL); (0x2A, SHIFT); (0x36, SHIFT); (0x38, ALT); (0x9D, CTL); (0xB8, ALT)].
Definition togglecode : list Z := table256 [] [(0x3A, CAPSLOCK); (0x45, NUMLOCK); (0x46, SCROLLLOCK)].

(** The keys with an [0xE0] prefix are the same in the three maps, but for the
    Enter and division keys of the number pad. *)
Definition extended (enter div : Z) : list (Z * Z) :=
  [(0x9C, enter); (0xB5, div); (0xC8, KEY_UP); (0xD0, KEY_DN); (0xC9, KEY_PGUP); (0xD1, KEY_PGDN);
   (0xCB, KEY_LF); (0xCD, KEY_RT); (0x97, KEY_HOME); (0xCF, KEY_END); (0xD2, KEY_INS); (0xD3, KEY_DEL)].
Definition numpad : list Z := lit "789-456+1230.".
Definition normalmap : list Z :=
  table256 ([NO; 0x1B] ++ lit "1234567890-=" ++ [8; 9] ++ lit "qwertyuiop[]" ++ [10; NO] ++
    lit "asdfghjkl;'`" ++ [NO] ++ lit "\zxcvbnm,./" ++ [NO] ++ lit "*" ++ [NO] ++ lit " " ++
    replicate 13 NO ++ numpad) (extended 10 47).
Definition shiftmap : list Z :=
  table256 ([NO; 27] ++ lit "!@#$%^&*()_+" ++ [8; 9] ++ lit "QWERTYUIOP{}" ++ [10; NO] ++
    lit "ASDFGHJKL:" ++ [34] ++ lit "~" ++ [NO] ++ lit "|ZXCVBNM<>?" ++ [NO] ++ lit "*" ++ [NO] ++ lit " " ++
    replicate 13 NO ++ numpad) (extended 10 47).
Definition C (x : Z) : Z := u8 (x - 64).
Definition ctlmap : list Z :=
  table256 (replicate 16 NO ++ map C (lit "QWERTYUIOP") ++ [NO; NO; 13; NO] ++ map C (lit "ASDFGHJKL") ++
    replicate 4 NO ++ map C (lit "\ZXCVBNM") ++ [NO; NO] ++ [C 47]) (extended 13 (C 47)).

(** ** kbd.c *)
Definition charcode (i : Z) : list Z :=
  if i =? 0 then normalmap else if i =? 1 then shiftmap else ctlmap.

(** [kbdgetc] with the value of its static [shift] and the bytes waiting: the
    character, 0 or -1, and both after the call. *)
Definition kbdgetc (shift : Z) (q : list Z) : Z * Z * list Z :=
  match q with
  | [] => (-1, shift, [])
  | data :: q =>
      if data =? 0xE0 then (0, Z.lor shift E0ESC, q)
      else if istrue (Z.land data 0x80) then
        let data := if istrue (Z.land shift E0ESC) then data else Z.land data 0x7F in
        (0, Z.ldiff shift (Z.lor (tab shiftcode data) E0ESC), q)
      else
        let e0 := istrue (Z.land shift E0ESC) in
        let data := if e0 then Z.lor data 0x80 else data in
        let shift := if e0 then Z.ldiff shift E0ESC else shift in
        let shift := Z.lor shift (tab shiftcode data) in
        let shift := Z.lxor shift (tab togglecode data) in
        let c := tab (charcode (Z.land shift (Z.lor CTL SHIFT))) data in
        let c := if istrue (Z.land shift CAPSLOCK) then
                   if (97 <=? c) && (c <=? 122) then c + (65 - 97)
                   else if (65 <=? c) && (c <=? 90) then c + (97 - 65) else c
                 else c in
        (c, shift, q)
  end.

(** What [consoleintr]'s loop gets from [kbdgetc] before the -1, and the value
    of [shift] at the end. Every call takes a byte. *)
Fixpoint kbd_drain (n : nat) (shift : Z) (q : list Z) : list Z * Z :=
  match n with
  | O => ([], shift)
  | S n' =>
      let '(c, shift', q') := kbdgetc shift q in
      if c <? 0 then ([], shift')
      else let '(cs, s) := kbd_drain n' shift' q' in (c :: cs, s)
  end.
Definition kbdintr (shift : Z) (q : list Z) : K Z :=
  let '(cs, shift') := kbd_drain (S (length q)) shift q in
  consoleintr cs;;
  mret shift'.

(** ** Typing *)

(** The keys of a US keyboard: the scan code of each and the characters on its
    cap, without and with shift. Nothing here is taken from the driver. *)
Definition keys : list (Z * list Z) :=
  [(0x29, lit "`~"); (0x02, lit "1!"); (0x03, lit "2@"); (0x04, lit "3#"); (0x05, lit "4$"); (0x06, lit "5%");
   (0x07, lit "6^"); (0x08, lit "7&"); (0x09, lit "8*"); (0x0A, lit "9("); (0x0B, lit "0)"); (0x0C, lit "-_"); (0x0D, lit "=+");
   (0x10, lit "qQ"); (0x11, lit "wW"); (0x12, lit "eE"); (0x13, lit "rR"); (0x14, lit "tT"); (0x15, lit "yY");
   (0x16, lit "uU"); (0x17, lit "iI"); (0x18, lit "oO"); (0x19, lit "pP"); (0x1A, lit "[{"); (0x1B, lit "]}"); (0x2B, lit "\|");
   (0x1E, lit "aA"); (0x1F, lit "sS"); (0x20, lit "dD"); (0x21, lit "fF"); (0x22, lit "gG"); (0x23, lit "hH");
   (0x24, lit "jJ"); (0x25, lit "kK"); (0x26, lit "lL"); (0x27, lit ";:"); (0x28, [39; 34]);
   (0x2C, lit "zZ"); (0x2D, lit "xX"); (0x2E, lit "cC"); (0x2F, lit "vV"); (0x30, lit "bB"); (0x31, lit "nN");
   (0x32, lit "mM"); (0x33, lit ",<"); (0x34, lit ".>"); (0x35, lit "/?");
   (0x39, lit "  "); (0x1C, [10; 10]); (0x0E, [8; 8]); (0x0F, [9; 9]); (0x01, [27; 27])].
(** The key with a character at place [i] of its cap. *)
Definition key_of (i : nat) (c : Z) : option Z :=
  fst <$> head (filter (λ e, e.2 !! i = Some c) keys).
(** The printable characters, backspace, tab, newline and escape. *)
Definition typable (c : Z) : bool := (32 <=? c) && (c <=? 126) || bool_decide (c ∈ [8; 9; 10; 27]).

(** The scan codes of pressing and releasing the key of a character, within a
    press and release of the shift key [sh] if it needs one. A key that is
    released sends its code with the top bit set. *)
Definition LEFT_SHIFT : Z := 0x2A.
Definition RIGHT_SHIFT : Z := 0x36.
Definition strokes (sh c : Z) : list Z :=
  match key_of 0 c, key_of 1 c with
  | Some i, _ => [i; i + 0x80]
  | None, Some i => [sh; i; i + 0x80; sh + 0x80]
  | None, None => []
  end.

(** The character that comes out: caps lock swaps the case of letters. *)
Definition cased (shift c : Z) : Z :=
  if istrue (Z.land shift CAPSLOCK) then
    if (97 <=? c) && (c <=? 122) then c - 32 else if (65 <=? c) && (c <=? 90) then c + 32 else c
  else c.

(** No shift, control or prefix key is down. *)
Definition at_rest (shift : Z) : bool :=
  (0 <=? shift) && (shift <? 64) && (Z.land shift (Z.lor SHIFT CTL) =? 0).

(** One byte, and several. *)
Definition kbd_byte (s d : Z) : Z * Z := (kbdgetc s [d]).1.
Fixpoint kbd_bytes (s : Z) (ds : list Z) : list Z * Z :=
  match ds with
  | [] => ([], s)
  | d :: ds => let '(c, s1) := kbd_byte s d in let '(cs, s2) := kbd_bytes s1 ds in (c :: cs, s2)
  end.

Lemma kbdgetc_cons s d q : kbdgetc s (d :: q) = (kbd_byte s d, q).
Proof. unfold kbd_byte, kbdgetc. by destruct (d =? 0xE0), (istrue (Z.land d 0x80)). Qed.

Lemma kbd_bytes_app s d1 d2 :
  kbd_bytes s (d1 ++ d2) =
  ((kbd_bytes s d1).1 ++ (kbd_bytes (kbd_bytes s d1).2 d2).1, (kbd_bytes (kbd_bytes s d1).2 d2).2).
Proof.
  revert s. induction d1 as [|d d1 IH]; intros s; cbn; [by destruct (kbd_bytes s d2)|].
  destruct (kbd_byte s d) as [c s1]. rewrite IH. by destruct (kbd_bytes s1 d1).
Qed.

Lemma kbd_drain_bytes ds : ∀ n s, (length ds < n)%nat → Forall (λ c, 0 ≤ c) (kbd_bytes s ds).1 →
  kbd_drain n s ds = kbd_bytes s ds.
Proof.
  induction ds as [|d ds IH]; intros [|n] s Hn H; cbn [length] in Hn; try lia; [done|].
  cbn [kbd_drain kbd_bytes] in *. rewrite kbdgetc_cons. destruct (kbd_byte s d) as [c s1].
  specialize (IH n s1 ltac:(lia)). destruct (kbd_bytes s1 ds) as [cs s2]. cbn in H.
  apply Forall_cons in H as [Hc Hcs]. rewrite (proj2 (Z.ltb_ge c 0) Hc). by rewrite IH.
Qed.

(** A typed character comes out once, among zeros. *)
Definition stroke_ok (sh s c : Z) : bool :=
  let '(cs, s') := kbd_bytes s (strokes sh c) in
  (s' =? s) && forallb (λ c, 0 <=? c) cs && bool_decide (filter (λ c, c ≠ 0) cs = [cased s c]).

Lemma byte_range (P : Z → bool) n : forallb P (map Z.of_nat (seq 0 n)) = true → ∀ z, 0 ≤ z < Z.of_nat n → P z = true.
Proof.
  rewrite forallb_forall. intros H z Hz. apply H, in_map_iff. exists (Z.to_nat z). split; [lia|]. apply in_seq. lia.
Qed.

Definition is_shift (sh : Z) : Prop := sh = LEFT_SHIFT ∨ sh = RIGHT_SHIFT.
Lemma stroke_ok_all sh s c : is_shift sh → at_rest s = true → typable c = true → stroke_ok sh s c = true.
Proof.
  intros Hsh Hs Hc. assert (0 ≤ s < 64) as Hr by (unfold at_rest in Hs; lia).
  assert (0 ≤ c < 128) as Hr'.
  { apply orb_true_iff in Hc as [Hc|Hc%bool_decide_eq_true_1]; [lia|]. rewrite !elem_of_cons, elem_of_nil in Hc. lia. }
  pose proof (byte_range (λ s, implb (at_rest s) (forallb (λ c, implb (typable c)
    (stroke_ok LEFT_SHIFT s c && stroke_ok RIGHT_SHIFT s c)) (map Z.of_nat (seq 0 128)))) 64
    ltac:(vm_compute; exact eq_refl) s ltac:(lia)) as H1. cbv beta in H1. rewrite Hs in H1. cbn [implb] in H1.
  pose proof (byte_range _ 128 H1 c ltac:(lia)) as H2. cbv beta in H2. rewrite Hc in H2.
  apply andb_true_iff in H2 as [H2 H3]. by destruct Hsh as [->| ->].
Qed.

Lemma strokes_bytes sh s text : is_shift sh → at_rest s = true → forallb typable text = true →
  let r := kbd_bytes s (concat (map (strokes sh) text)) in
  r.2 = s ∧ Forall (λ c, 0 ≤ c) r.1 ∧ filter (λ c, c ≠ 0) r.1 = map (cased s) text.
Proof.
  intros Hsh Hs. induction text as [|c text IH]; intros Ht; [by split_and!|].
  cbn [forallb] in Ht. apply andb_true_iff in Ht as [Hc Ht]. destruct (IH Ht) as (I1 & I2 & I3).
  pose proof (stroke_ok_all sh s c Hsh Hs Hc) as H. unfold stroke_ok in H. cbn [concat map]. cbv zeta.
  rewrite kbd_bytes_app. destruct (kbd_bytes s (strokes sh c)) as [cs s'].
  apply andb_true_iff in H as [[->%Z.eqb_eq H1]%andb_true_iff H2%bool_decide_eq_true_1]. cbn [fst snd].
  split_and!; [done| |by rewrite filter_app, H2, I3].
  apply Forall_app. split; [|done]. apply Forall_forall. intros x Hx%list_elem_of_In.
  apply Z.leb_le. by eapply forallb_forall in H1.
Qed.

(** The loop of [consoleintr] passes over the zeros. *)
Lemma console_chars_zeros cs : Forall (λ c, 0 ≤ c) cs →
  ∀ d, console_chars cs d = console_chars (filter (λ c, c ≠ 0) cs) d.
Proof.
  induction 1 as [|c cs Hc Hcs IH]; intros d; [done|].
  destruct (decide (c = 0)) as [->|Hn].
  - rewrite filter_cons_False by naive_solver. rewrite <- IH. cbn [console_chars]. extensionality k. by destruct d.
  - rewrite filter_cons_True by done. cbn [console_chars]. destruct (c <? 0); [done|].
    f_equal. extensionality b. apply IH.
Qed.

(** C29: typing works on a US keyboard. From any state of the driver with no
    modifier key down, the interrupts for pressing and releasing the keys of a
    text of printable characters, backspaces, tabs, newlines and escapes, with
    either shift key around the characters that need it, do to the console
    exactly what the text itself does (its letters in the other case under
    caps lock), and leave the modifiers as they were. The scan codes are those
    of [keys], the layout of the keyboard, and not of the driver's tables. *)
Theorem kbd_types sh s text k : is_shift sh → at_rest s = true → forallb typable text = true →
  kbdintr s (concat (map (strokes sh) text)) k = (consoleintr (map (cased s) text);; mret s) k.
Proof.
  intros Hsh Hs Ht. destruct (strokes_bytes sh s text Hsh Hs Ht) as (E2 & E1 & E3). unfold kbdintr.
  rewrite kbd_drain_bytes; [|lia|done]. destruct (kbd_bytes s _) as [cs s']. cbn in E1, E2, E3. subst s'.
  unfold consoleintr. by rewrite (console_chars_zeros cs E1), E3.
Qed.

Definition typing_kernel : kernel := boot_state (mkLinker 0x80115000 0x80108000 0x80105000 0x80103000 [0]) [].
Lemma kbd_types_witness :
  kbdintr CAPSLOCK [0x10; 0x90; 0x36; 0x11; 0x91; 0xB6; 0x1C; 0x9C] typing_kernel =
  (consoleintr (lit "Qw" ++ [10]);; mret CAPSLOCK) typing_kernel.
Proof. apply (kbd_types RIGHT_SHIFT CAPSLOCK (lit "qW" ++ [10])); [by right|by vm_compute|by vm_compute]. Defined.

(** The two shift keys share one bit of [shift]: with both of them down,
    releasing either one ends the shifted state. *)
Lemma two_shifts_one_bit : kbd_bytes 0 [0x2A; 0x36; 0x1E; 0xAA; 0x1E] = ([0; 0; 65; 0; 97], 0).
Proof. by vm_compute. Qed.
