(* ===== verification/ConsoleDev.v ===== *)
(** * The console device

    [consoleread] and [consolewrite] of [console.c], entry [CONSOLE] of the
    device table. *)
From stdpp Require Import base strings numbers gmap list.
From S2P Require Import Prelude Machine KString Kernel Locks Kalloc Proc Console Sleeplock Bio.
From S2P Require Import Log Fs Pipe.

Definition CONSOLE : Z := 1.

Section console_dev.
Context `{!Patience, !DiskDriver}.

(** The waiting loop of [consoleread]; the answer is whether the read goes on. *)
Fixpoint consoleread_wait (n : nat) : K bool :=
  s ← gets kcons;
  if ir s =? iw s then
    kd ← mykilled;
    if kd : bool then mret false
    else
      sleep Cinput (Some Lcons);;
      match n with O => waiting | S n' => consoleread_wait n' end
  else mret true.

(** The loop of [consoleread] with [n] bytes still to read, [acc] being what it
    has stored at [dst]; the answer is [None] when the process was killed. *)
Fixpoint consoleread_loop (n : nat) (acc : list Z) : K (option (list Z)) :=
  match n with
  | O => mret (Some acc)
  | S n' =>
      ok ← consoleread_wait patience;
      if ok : bool then
        s ← gets kcons;
        let c := ibuf s !!! Z.to_nat (ir s mod INPUT_BUF) in
        cset (λ s, s <| ir := u32 (ir s + 1) |>);;
        if c =? ctrl 68 then
          (if bool_decide (acc ≠ []) then cset (λ s, s <| ir := u32 (ir s - 1) |>) else skip);;
          mret (Some acc)
        else if c =? NL then mret (Some (acc ++ [c]))
        else consoleread_loop n' (acc ++ [c])
      else mret None
  end.

(** The answer is the C result and the bytes stored at [dst]. *)
Definition consoleread (ip : nat) (n : Z) : K (Z * list Z) :=
  iunlock (Some ip);;
  acquire Lcons;;
  o ← consoleread_loop (Z.to_nat n) [];
  release Lcons;;
  ilock (Some ip);;
  match o with
  | Some bs => mret (Z.of_nat (length bs), bs)
  | None => mret (-1, [])
  end.

Definition consolewrite (ip : nat) (bs : list Z) : K Z :=
  iunlock (Some ip);;
  acquire Lcons;;
  putchars (map (λ c, Z.land c 0xff) bs);;
  release Lcons;;
  ilock (Some ip);;
  mret (Z.of_nat (length bs)).

(** [devsw] after [consoleinit]. *)
#[export] Instance console_devsw : DevSw := {|
  dev_read := λ mj, if mj =? CONSOLE then Some consoleread else None;
  dev_write := λ mj, if mj =? CONSOLE then Some consolewrite else None |}.
End console_dev.
