(* ===== verification/File.v ===== *)
(** * Open files

    [file.c] and [pipealloc] of [pipe.c]: the table of open files with its
    reference counts, and reading and writing through it. *)
From stdpp Require Import base strings numbers gmap list.
From S2P Require Import Prelude Machine KString Kernel Locks Kalloc Proc Sleeplock Bio Log Fs.
From S2P Require Import Pipe.

Definition fget (f : nat) : K file := gets (λ k, ftable k !!! f).
Definition fset (f : nat) (g : file → file) : K unit := modify (λ k, k <| ftable ::= alter g f |>).

Definition filealloc : K (option nat) :=
  acquire Lftable;;
  o ← gets (λ k, find_idx (λ r, fref r =? 0) (ftable k));
  match o with
  | Some f => fset f (λ r, r <| fref := 1 |>);; release Lftable;; mret (Some f)
  | None => release Lftable;; mret None
  end.

Definition filedup (f : nat) : K nat :=
  acquire Lftable;;
  r ← fget f;
  (if fref r <? 1 then panic "filedup" else skip);;
  fset f (λ r, r <| fref := fref r + 1 |>);;
  release Lftable;;
  mret f.

Section file.
Context `{!Patience, !DiskDriver, !DevSw}.

Definition fileclose (f : nat) : K unit :=
  acquire Lftable;;
  r ← fget f;
  (if fref r <? 1 then panic "fileclose" else skip);;
  fset f (λ r, r <| fref := fref r - 1 |>);;
  r ← fget f;
  if 0 <? fref r then release Lftable
  else
    let ff := r in
    fset f (λ r, r <| fref := 0 |>);;
    fset f (λ r, r <| ftype := FD_NONE |>);;
    release Lftable;;
    match ftype ff with
    | FD_PIPE => pipeclose (fpipe ff) (istrue (fwritable ff))
    | FD_INODE => begin_op;; ip ← deref (fip ff); iput ip;; end_op
    | FD_NONE => skip
    end.

Definition filestat (f : nat) : K (Z * option stat) :=
  r ← fget f;
  match ftype r with
  | FD_INODE =>
      ilock (fip r);;
      i ← deref (fip r);
      ip ← iget_slot i;
      iunlock (fip r);;
      mret (0, Some (stati ip))
  | _ => mret (-1, None)
  end.

Definition fileread (f : nat) (n : Z) : K (Z * list Z) :=
  r ← fget f;
  if freadable r =? 0 then mret (-1, [])
  else match ftype r with
  | FD_PIPE => piperead (fpipe r) n
  | FD_INODE =>
      ilock (fip r);;
      i ← deref (fip r);
      '(c, bs) ← readi i (foff r) n;
      (if 0 <? c then fset f (λ r, r <| foff := u32 (foff r + c) |>) else skip);;
      iunlock (fip r);;
      mret (c, bs)
  | FD_NONE => panic "fileread"
  end.

(** [max] of [filewrite]: the bytes one transaction may write. *)
Definition WRITE_MAX : Z := ((MAXOPBLOCKS - 1 - 1 - 2) / 2) * 512.

(** The loop of [filewrite] with [i] bytes written; the answer is the final
    [i]. Every turn but a failing one writes at least a byte. *)
Fixpoint filewrite_loop (fuel : nat) (f : nat) (addr : list Z) (i n : Z) : K Z :=
  match fuel with
  | O => mret i
  | S fu =>
      if i <? n then
        let n1 := Z.min (n - i) WRITE_MAX in
        begin_op;;
        r ← fget f;
        ilock (fip r);;
        ip ← deref (fip r);
        c ← writei ip (slice addr (Z.to_nat i) (Z.to_nat n1)) (foff r) n1;
        (if 0 <? c then fset f (λ r, r <| foff := u32 (foff r + c) |>) else skip);;
        iunlock (fip r);;
        end_op;;
        if c <? 0 then mret i
        else
          (if c =? n1 then skip else panic "short filewrite");;
          filewrite_loop fu f addr (i + c) n
      else mret i
  end.

Definition filewrite (f : nat) (addr : list Z) (n : Z) : K Z :=
  r ← fget f;
  if fwritable r =? 0 then mret (-1)
  else match ftype r with
  | FD_PIPE => pipewrite (fpipe r) (take (Z.to_nat n) addr)
  | FD_INODE =>
      i ← filewrite_loop (S (Z.to_nat n)) f addr 0 n;
      mret (if i =? n then n else -1)
  | FD_NONE => panic "filewrite"
  end.

(** ** pipe.c: pipealloc *)
Definition pipealloc : K (option (nat * nat)) :=
  f0 ← filealloc;
  f1 ← (match f0 with Some _ => filealloc | None => mret None end);
  p ← (match f1 with Some _ => kalloc | None => mret 0 end);
  match f0, f1 with
  | Some g0, Some g1 =>
      if istrue p then
        modify (λ k, k <| pipes ::= <[p := mkPipe (load_bytes (mem k) (p + 52) 512) 0 0 1 1]> |>);;
        fset g0 (λ r, r <| ftype := FD_PIPE |> <| freadable := 1 |> <| fwritable := 0 |> <| fpipe := p |>);;
        fset g1 (λ r, r <| ftype := FD_PIPE |> <| freadable := 0 |> <| fwritable := 1 |> <| fpipe := p |>);;
        mret (Some (g0, g1))
      else fileclose g0;; fileclose g1;; mret None
  | Some g0, None => fileclose g0;; mret None
  | None, _ => mret None
  end.
End file.
