(* ===== verification/FileSpec.v ===== *)
(** * Files as byte sequences

    [filewrite] and [fileread] on an open file: each chunk of a write is one
    transaction of the log, from [begin_op] to the commit in [end_op], and when the
    call returns its bytes are on the disk. Any sequence of reads and writes
    through open files of one inode behaves as on a list of bytes with one offset
    per open file, and leaves other files alone. *)
From stdpp Require Import base strings numbers gmap list.
From S2P Require Import Prelude Machine KString Kernel Locks Kalloc Proc ProcSpec Sleeplock Bio BioSpec Log LogSpec TxnSpec Fs FsSpec.
From S2P Require Import Pipe File.

(** The blocks of a disk. *)
Definition V_of (D : list (list Z)) : Z → list Z := λ blk, D !!! Z.to_nat blk.

Lemma fstore_empty D tr V : fstore D tr V [] ∅ = mkStore D tr ∅ ∅.
Proof. apply store_ext; [done|done|done|]. simpl. apply fmap_empty. Qed.

Lemma new_disk_view B (V : Z → list Z) Dm (D : list (list Z)) blk : NoDup B → (∀ b, b ∈ B → 0 ≤ b < Z.of_nat (length D)) →
  (∀ b, b ∈ B → Dm !!! b = V b) → (∀ b, 0 ≤ b < Z.of_nat (length D) → b ∉ B → D !!! Z.to_nat b = V b) →
  0 ≤ blk < Z.of_nat (length D) → new_disk B Dm D !!! Z.to_nat blk = V blk.
Proof.
  intros ND HR HV HD Hb. unfold new_disk. destruct (decide (blk ∈ B)) as [Hi|Hi].
  - apply list_lookup_total_correct, apply_writes_hit; [|rewrite <- HV by done; apply list_elem_of_fmap; by exists blk|lia].
    rewrite <- list_fmap_compose. apply NoDup_fmap_2_strong; [|done]. intros a b Ha Hb' E. simpl in E.
    pose proof (HR a Ha). pose proof (HR b Hb'). lia.
  - rewrite <- HD by done. rewrite !list_lookup_total_alt, apply_writes_other; [done|]. apply Forall_fmap, Forall_forall.
    intros b Hb' E. simpl in E. pose proof (HR b Hb'). assert (b = blk) as -> by lia. done.
Qed.

Section file.
Context {PAT : Patience} {DEV : DevSw} (p : nat) (x : Z) (Y : protocol kernel) `{!Mono Y}.
Context (ls nlog : Z) (SB : superblock) (ds : Z).

(** Between transactions: no buffer held or dirty, the log empty. *)
Record idle (D : list (list Z)) (tr : list (nat * list Z)) (k : kernel) : Prop := {
  id_cache : kcache p x (mkStore D tr ∅ ∅) k;
  id_n : lh_n (klog k) = 0;
  id_len : length (lh_block (klog k)) = Z.to_nat LOGSIZE;
  id_start : lstart (klog k) = ls;
  id_size : lsize (klog k) = nlog;
  id_dev : ldev (klog k) = 1;
  id_out : outstanding (klog k) = 0;
  id_com : committing (klog k) = 0;
  id_head : length (D !!! Z.to_nat ls) = 512%nat;
  id_empty : i32 (arr32 (D !!! Z.to_nat ls) 0) = 0;
  id_nb : Z.of_nat (length D) ≤ 2147483648 }.

Lemma frest_klog f k : frest (k <| klog ::= f |>) = frest k.
Proof. by destruct k. Qed.
Lemma klog_set (k : kernel) f l : k <| klog ::= f |> <| klog := l |> = k <| klog := l |>.
Proof. by destruct k. Qed.
Lemma frest_of_rest k k' f : rest k' = (rest k) <| klog ::= f |> → frest k' = frest k.
Proof. unfold frest. intros ->. apply klog_set. Qed.
Lemma frest_ptable f k : frest (k <| ptable ::= f |>) = frest k.
Proof. by destruct k. Qed.
Lemma kcache_wake s k c t : kcache p x s k → kcache p x s (k <| ptable ::= fmap (wake_slot c t) |>).
Proof.
  intros (HB & E). split; [|done]. apply bctx_wake; [|done]. intros r. unfold wake_slot. by destruct (decide _).
Qed.

Lemma kwp_begin_op D tr R I (Q : unit → kernel → Prop) k : idle D tr k → frest k = (frest R) <| icache := I |> →
  (∀ k', fsst p x ls nlog 1 D tr R (V_of D) [] ∅ I k' → Q tt k') → kwp begin_op Q Y k.
Proof.
  intros [HC En El Es Ez Ed Eo Ec Eh Ee Hn] HR HQ. pose proof HC as (HB & _). pose proof (bctx_wf _ _ _ HB) as Hwf.
  pose proof (bctx_no_lock p x k) as HL. unfold begin_op. kstep. kstep.
  assert (∀ n, kwp (begin_op_loop n) Q Y (acq Llog k)) as W; [|apply W].
  intros n. assert (Q tt (k <| klog ::= λ l, l <| outstanding := outstanding l + 1 |> |>)) as Fin.
  { apply HQ. split_and!; [|by rewrite frest_klog|by intros b ?%elem_of_nil]. split.
    - rewrite fstore_empty. by apply kcache_klog.
    - split; simpl; rewrite ?En, ?Eo; done || constructor.
    - done.
    - done.
    - by intros b ?%elem_of_nil.
    - done. }
  destruct n as [|n]; cbn [begin_op_loop]; kstep; kstep; rewrite En, Eo, Ec;
    change (istrue 0 || _) with false; cbv iota; kstep; unfold lset; kstep; by kstep.
Qed.

Abbreviation fsst0 D tr R I := (FsSpec.fsst p x ls nlog 0 D tr R (V_of D) [] ∅ I).
Lemma idle_fsst D tr R I k : idle D tr k → frest k = (frest R) <| icache := I |> → fsst0 D tr R I k.
Proof.
  intros [HC En El Es Ez Ed Eo Ec Eh Ee Hn] HR. split_and!; [|done|by intros b ?%elem_of_nil]. split.
  - by rewrite fstore_empty.
  - split; simpl; rewrite ?En; done || constructor.
  - done.
  - done.
  - by intros b ?%elem_of_nil.
  - done.
Qed.
Lemma fsst_idle D tr R I k k' : idle D tr k → fsst0 D tr R I k' → idle D tr k' ∧ frest k' = (frest R) <| icache := I |>.
Proof.
  intros [_ _ _ _ _ _ _ _ Eh Ee Hn] ([HC HL _ _ _ _] & HR & _). destruct HL. rewrite fstore_empty in HC. by split.
Qed.

Abbreviation geom D R := (geom ls nlog D SB ds R).
Abbreviation fsst o D tr R := (fsst p x ls nlog o D tr R).
Abbreviation home := (home ls nlog).

(** What a transaction has left on the disk. *)
Definition installed (V : Z → list Z) (D D' : list (list Z)) : Prop :=
  length D' = length D ∧ ∀ blk, 0 ≤ blk < Z.of_nat (length D) → home blk → D' !!! Z.to_nat blk = V blk.

Lemma kwp_commit_idle D tr R I V B (Q : unit → kernel → Prop) k k0 :
  geom D R → fsst 1 D tr R V B ∅ I k0 → (length B ≤ 27)%nat →
  length (D !!! Z.to_nat ls) = 512%nat → i32 (arr32 (D !!! Z.to_nat ls) 0) = 0 →
  k = k0 <| klog ::= λ l, l <| outstanding := 0 |> <| committing := 1 |> |> →
  (∀ D' tr' k', kcache p x (mkStore D' tr' ∅ ∅) k' → klog k' = (klog k) <| lh_n := 0 |> → frest k' = frest k →
    installed V D D' → length (D' !!! Z.to_nat ls) = 512%nat → i32 (arr32 (D' !!! Z.to_nat ls) 0) = 0 → Q tt k') →
  kwp commit Q Y k.
Proof.
  intros GE (HK & HR & HH) HB Hh He -> HQ. pose proof HK as [HC HL HV _ HG H31]. pose proof HL as [Ln Lb Ll Lnd Ls Lz Ld Lo Lc].
  apply (kcache_klog p x (λ l, l <| outstanding := 0 |> <| committing := 1 |>)) in HC.
  pose proof (ge_area _ _ _ _ _ _ GE). pose proof (ge_size _ _ _ _ _ _ GE). pose proof (ge_log _ _ _ _ _ _ GE).
  destruct (decide (B = [])) as [->|NB].
  - unfold commit. kstep. kstep. simpl lh_n. rewrite Ln. change (0 <? Z.of_nat (length [])) with false. cbv iota. kstep.
    rewrite fstore_empty in HC. apply (HQ D tr); [done|simpl; destruct (klog k0); simpl in *; by subst|done| |done|done].
    split; [done|]. intros blk Hb _. apply HV; [done|apply not_elem_of_nil].
  - assert (layout ls nlog B (length D)) as LO.
    { split; [lia|lia|lia|done|done| |unfold NBUF; lia]. intros blk Hb. split; [by apply HG|]. by apply HH. }
    eapply (kwp_commit p x Y ls nlog B (fstore D tr V B ∅)); [exact HC|apply fmap_empty|done|exact LO|done| |].
    { intros blk. rewrite fs_dirty. case_decide as E; [split; [tauto|eauto]|]. split; [by intros []|]. intros Hb. destruct E. split; [done|apply has_empty]. }
    intros k' K' R'. change (s_disk (fstore D tr V B ∅)) with D in K'. set (ws := commit_writes ls B (s_dirty (fstore D tr V B ∅)) D) in *.
    destruct (crash_end ls nlog B (s_dirty (fstore D tr V B ∅)) D LO Hh) as (_ & SF & Em).
    assert (klog k' = (klog k0) <| outstanding := 0 |> <| committing := 1 |> <| lh_n := 0 |>) as EK.
    { apply (f_equal klog) in R'. exact R'. }
    eapply (HQ (apply_writes ws D) (rev ws ++ tr)); [|exact EK| | |by apply (commit_head ls nlog)|exact Em].
    + match type of K' with kcache _ _ ?s _ => replace s with (mkStore (apply_writes ws D) (rev ws ++ tr) ∅ ∅) in K' end; [done|].
      apply store_ext; [done|done|done|]. simpl. symmetry. apply fmap_empty.
    + by apply (frest_of_rest _ _ _ R').
    + split; [apply apply_writes_length|]. intros blk Hb Hx. rewrite list_lookup_total_alt.
      change (commit_writes ls B (s_dirty (fstore D tr V B ∅)) D) with ws in SF. rewrite SF by (unfold FsSpec.home in Hx; lia). rewrite <- list_lookup_total_alt.
      apply new_disk_view; [done|done| |done|done]. intros b Hb'. unfold lookup_total, map_lookup_total. rewrite fs_dirty, decide_True; [done|].
      split; [done|apply has_empty].
Qed.

Lemma kwp_end_op D tr R I V B (Q : unit → kernel → Prop) k : geom D R → fsst 1 D tr R V B ∅ I k → (length B ≤ 27)%nat →
  length (D !!! Z.to_nat ls) = 512%nat → i32 (arr32 (D !!! Z.to_nat ls) 0) = 0 →
  (∀ D' tr' k', idle D' tr' k' → frest k' = (frest R) <| icache := I |> → installed V D D' → Q tt k') →
  kwp end_op Q Y k.
Proof.
  intros GE HK HB Hh He HQ. pose proof HK as ([HC HL _ _ _ H31] & HR & _). pose proof HL as [Ln Lb Ll Lnd Ls Lz Ld Lo Lc].
  pose proof HC as (HBc & _). pose proof (bctx_wf _ _ _ HBc) as Hwf. pose proof (bctx_no_lock p x k) as HNL.
  unfold end_op. kstep. kstep. kstep. unfold lset. kstep. kstep. kstep. simpl committing. rewrite Lc.
  change (istrue 0) with false. cbv iota. kstep. kstep. kstep. simpl outstanding. rewrite Lo. change (1 - 1 =? 0) with true. cbv iota.
  kstep. kstep. kstep. kstep. kstep. kstep.
  set (k1 := k <| klog ::= _ |> <| klog ::= _ |>).
  assert (k1 = k <| klog ::= λ l, l <| outstanding := 0 |> <| committing := 1 |> |>) as E1.
  { unfold k1. destruct k. simpl in Lo. unfold upd. simpl. by rewrite Lo. }
  eapply (kwp_commit_idle D tr R I V B _ k1 k); [done|done|done|done|done|exact E1|]. intros D' tr' k2 K2 L2 R2 HI Hh2 He2.
  pose proof K2 as (HB2 & _). pose proof (bctx_wf _ _ _ HB2) as Hwf2. pose proof (bctx_no_lock p x k2) as HNL2.
  kstep. kstep. kstep. kstep. kstep. apply kwp_wakeup; [apply _|kside|kside|]. kstep.
  apply (HQ D' tr'); [|rewrite frest_ptable, frest_klog, R2, E1, frest_klog; done|done].
  split; simpl; rewrite ?L2, ?E1; simpl; try done.
  - by apply (kcache_wake _ _ (Some Clog)), kcache_klog.
  - destruct HI as [-> _]. done.
Qed.

(** ** Locking the inode *)
Lemma fsst_iup o D tr R V B G I k i f : fsst o D tr R V B G I k → fsst o D tr R V B G (alter f i I) (k <| icache ::= alter f i |>).
Proof.
  intros ([HC HL H1 H2 H3 H4] & HR & HH). split_and!; [by split| |done]. rewrite frest_icache, HR. apply icache_icache.
Qed.
Lemma fsst_bctx o D tr R V B G I k : fsst o D tr R V B G I k → bctx p x k.
Proof. intros ([(HB & _) _ _ _ _ _] & _). exact HB. Qed.
Lemma fsst_wake o D tr R V B G I k c t : fsst o D tr R V B G I k → fsst o D tr R V B G I (k <| ptable ::= fmap (wake_slot c t) |>).
Proof.
  intros ([HC HL H1 H2 H3 H4] & HR & HH). split_and!; [|by rewrite frest_ptable|done]. split; try done. by apply kcache_wake.
Qed.

Definition lock_inode (ip : inode) : inode := ip <| islp := mkSlk 1 x |>.
Definition unlock_inode (ip : inode) : inode := ip <| islp := mkSlk 0 0 |>.

Lemma kwp_ilock o D tr R V B I i (Q : unit → kernel → Prop) k : fsst o D tr R V B ∅ I k → (i < length I)%nat → 1 ≤ iref (I !!! i) →
  slocked (islp (I !!! i)) = 0 → ivalid (I !!! i) = 1 →
  (∀ k', fsst o D tr R V B ∅ (alter lock_inode i I) k' → Q tt k') → kwp (ilock (Some i)) Q Y k.
Proof.
  intros HK Hi Hr Hs Hv HQ. pose proof (fsst_icache _ _ _ _ _ _ _ _ _ _ _ _ _ HK) as EI.
  unfold ilock. kstep. kstep. kstep. eapply kwp_islot; [exact HK|]. rewrite (proj2 (Z.ltb_ge _ _)) by lia. kstep. kstep.
  kstep. apply (kwp_acquiresleep p x Y); [by eapply fsst_bctx|unfold get_slp; by rewrite EI|].
  pose proof (fsst_iup _ _ _ _ _ _ _ _ _ i lock_inode HK) as K1. change (slp_up _ (SInode i) k) with (k <| icache ::= alter lock_inode i |>).
  kstep. eapply kwp_islot; [exact K1|]. rewrite list_alter_total, decide_True by done. unfold lock_inode at 1. simpl ivalid. rewrite Hv.
  change (1 =? 0) with false. cbv iota. kstep. by apply HQ.
Qed.

Lemma kwp_iunlock o D tr R V B I i (Q : unit → kernel → Prop) k : fsst o D tr R V B ∅ I k → (i < length I)%nat → 1 ≤ iref (I !!! i) →
  islp (I !!! i) = mkSlk 1 x →
  (∀ k', fsst o D tr R V B ∅ (alter unlock_inode i I) k' → Q tt k') → kwp (iunlock (Some i)) Q Y k.
Proof.
  intros HK Hi Hr Hs HQ. pose proof (fsst_icache _ _ _ _ _ _ _ _ _ _ _ _ _ HK) as EI. pose proof (fsst_bctx _ _ _ _ _ _ _ _ _ HK) as HB.
  unfold iunlock. kstep. kstep. kstep. apply (kwp_holdingsleep p x Y); [done|unfold get_slp; by rewrite EI|].
  kstep. eapply kwp_islot; [exact HK|]. rewrite (proj2 (Z.ltb_ge _ _)) by lia. cbn [negb orb]. kstep. kstep.
  apply (kwp_releasesleep p x Y); [done|]. apply HQ.
  change (slp_up _ (SInode i) k) with (k <| icache ::= alter unlock_inode i |>). by apply fsst_wake, fsst_iup.
Qed.

(** ** Views that agree outside the log *)
Abbreviation frep := (frep SB ds).
Abbreviation sane D := (sane ls nlog D SB ds).
Abbreviation used := (used SB).
Abbreviation nfree := (nfree SB).

Section view.
Context (D : list (list Z)) (R : kernel) (GE : geom D R) (V V' : Z → list Z).
Context (HV : ∀ blk, 0 ≤ blk < Z.of_nat (length D) → home blk → V' blk = V blk).

Lemma view_data c : ds ≤ c < sb_size SB → V' c = V c.
Proof.
  intros Hc. pose proof (ge_size _ _ _ _ _ _ GE). pose proof (ge_ds _ _ _ _ _ _ GE). apply HV; [lia|].
  by eapply home_data; [exact GE|lia].
Qed.
Lemma view_used c : used V' c = used V c.
Proof.
  unfold FsSpec.used. rewrite HV; [done| |apply GE]. pose proof (ge_bm _ _ _ _ _ _ GE). pose proof (ge_size _ _ _ _ _ _ GE). lia.
Qed.
Lemma view_sane : sane D V → sane D V'.
Proof. intros [S1 S2]. split; [intros blk Hb Hh; rewrite HV by done; auto|intros a Ha; rewrite view_used; auto]. Qed.
Lemma view_blk A bn : file_ok SB ds V A → blk_of V' A bn = blk_of V A bn.
Proof.
  intros HF. unfold blk_of. repeat case_decide; [done|done|]. rewrite view_data; [done|]. by apply (used_ind SB ds V A HF).
Qed.
Lemma view_file A : file_ok SB ds V A → file_ok SB ds V' A.
Proof.
  intros HF. pose proof HF as [O1 O2 O3 O4 O5]. split.
  - done.
  - destruct O2 as [|[? ?]]; [by left|right]. split; [done|]. by rewrite view_used.
  - intros bn Hb. rewrite view_blk by done. destruct (O3 bn Hb) as [|[? ?]]; [by left|right]. split; [done|]. by rewrite view_used.
  - intros b1 b2 Hb1 Hb2. rewrite !view_blk by done. auto.
  - intros b1 Hb1. rewrite view_blk by done. auto.
Qed.
Lemma view_frep A F : frep V A F → frep V' A F.
Proof.
  intros [HF Hm Hd]. split; [by apply view_file|done|]. intros j v Hj. destruct (Hd j v Hj) as [Hn Hx]. rewrite view_blk by done.
  split; [done|]. rewrite view_data; [done|]. apply (mine_range SB ds V A); [done|]. split; [done|right]. exists (j `div` 512)%nat.
  split; [|done]. apply lookup_lt_Some in Hj. apply Nat.Div0.div_lt_upper_bound. lia.
Qed.
Lemma view_mine A c : file_ok SB ds V A → mine V' A c ↔ mine V A c.
Proof.
  intros HF. assert (∀ bn, blk_of V' A bn = blk_of V A bn) as E by (intros bn; by apply view_blk).
  unfold mine. by setoid_rewrite E.
Qed.
End view.

(** Other files keep their contents and stay apart from this one. *)
Definition isolated (V : Z → list Z) (A : list Z) (V' : Z → list Z) (A' : list Z) : Prop :=
  ∀ A2 F2, frep V A2 F2 → (∀ c, mine V A2 c → ¬ mine V A c) →
    frep V' A2 F2 ∧ ∀ c, mine V' A2 c → ¬ mine V' A' c.

Lemma isolated_refl V A : isolated V A V A.
Proof. intros A2 F2 HF HD. by split. Qed.
Lemma isolated_trans V A V' A' V'' A'' : isolated V A V' A' → isolated V' A' V'' A'' → isolated V A V'' A''.
Proof. intros I1 I2 A2 F2 HF HD. destruct (I1 A2 F2 HF HD) as [HF' HD']. by apply I2. Qed.

Lemma updated_isolated D R V ip V' ip' : geom D R → file_ok SB ds V (iaddrs ip) → 0 ≤ inum ip < sb_ninodes SB →
  updated ls nlog D SB V ip V' ip' → isolated V (iaddrs ip) V' (iaddrs ip').
Proof.
  intros GE HF Hi [UU UF UM _ _] A2 F2 HF2 HD. pose proof (ge_size _ _ _ _ _ _ GE). pose proof (ge_ds _ _ _ _ _ _ GE).
  pose proof (ge_bm _ _ _ _ _ _ GE). destruct (ge_ib _ _ _ _ _ _ GE _ Hi) as [Hib _]. pose proof (fr_ok _ _ _ _ _ HF2) as HK2.
  assert (∀ c, mine V A2 c → ds ≤ c < sb_size SB ∧ used V c = true) as HM.
  { intros c (Hc & [->|(b & Hb & <-)]); [by apply (used_ind SB ds V A2 HK2)|]. by destruct (mine_blk SB ds _ _ b HK2 Hb Hc) as [_ [? ?]]. }
  assert (∀ c, mine V A2 c → V' c = V c) as HV.
  { intros c Hc. destruct (HM c Hc) as [Hr Hu]. apply UF; [lia|eapply home_data; [exact GE|lia]|lia|lia|done|by apply HD]. }
  assert (∀ bn, blk_of V' A2 bn = blk_of V A2 bn) as EB.
  { intros bn. unfold blk_of. repeat case_decide; [done|done|]. rewrite HV; [done|]. split; [done|by left]. }
  assert (∀ c, isblk SB ds V c → isblk SB ds V' c) as HI by (intros c [Hr Hu]; split; [done|apply UU; [lia|done]]).
  pose proof HF2 as [[O1 O2 O3 O4 O5] Hm Hd]. split; [split; [split|done|]|].
  - done.
  - destruct O2; [by left|right; auto].
  - intros bn Hb. rewrite EB. destruct (O3 bn Hb); [by left|right; auto].
  - intros b1 b2 Hb1 Hb2. rewrite !EB. auto.
  - intros b1 Hb1. rewrite EB. auto.
  - intros j v Hj. rewrite EB. destruct (Hd j v Hj) as [Hn Hx]. split; [done|]. rewrite HV; [done|]. split; [done|right].
    exists (j `div` 512)%nat. split; [|done]. apply lookup_lt_Some in Hj. apply Nat.Div0.div_lt_upper_bound. lia.
  - intros c Hc. assert (mine V A2 c) as Hc2 by (unfold mine in *; by setoid_rewrite EB in Hc). destruct (HM c Hc2) as [Hr Hu].
    intros [?|[_ ?]]%UM; [by apply (HD c)|congruence].
Qed.

(** ** Open files *)

(** The file table entry [f] is open on the inode in slot [i] at offset [q]. *)
Record opened (R : kernel) (f i q : nat) : Prop := {
  op_len : (f < length (ftable R))%nat;
  op_type : ftype (ftable R !!! f) = FD_INODE;
  op_ip : fip (ftable R !!! f) = Some i;
  op_read : freadable (ftable R !!! f) ≠ 0;
  op_write : fwritable (ftable R !!! f) ≠ 0;
  op_off : foff (ftable R !!! f) = Z.of_nat q }.

(** The inode [ip], referenced and unlocked, stands for the contents [F]. *)
Record inode_ok (D : list (list Z)) (ip : inode) (F : list Z) : Prop := {
  io_ref : 1 ≤ iref ip;
  io_lock : slocked (islp ip) = 0;
  io_valid : ivalid ip = 1;
  io_dev : idev ip = 1;
  io_type : itype ip ≠ T_DEV;
  io_num : 0 ≤ inum ip < sb_ninodes SB;
  io_size : isize ip = Z.of_nat (length F);
  io_sane : sane D (V_of D);
  io_file : frep (V_of D) (iaddrs ip) F;
  io_sync : synced SB (V_of D) ip }.

Lemma ftable_icache (k : kernel) g I : (k <| icache := I |>) <| ftable ::= g |> = (k <| ftable ::= g |>) <| icache := I |>.
Proof. by destruct k. Qed.
Lemma frest_ftable (k : kernel) g : frest (k <| ftable ::= g |>) = (frest k) <| ftable ::= g |>.
Proof. by destruct k. Qed.
Lemma fsst_ftable o D tr R V B G I k g : fsst o D tr R V B G I k →
  fsst o D tr (R <| ftable ::= g |>) V B G I (k <| ftable ::= g |>).
Proof.
  intros ([HC HL H1 H2 H3 H4] & HR & HH). split_and!; [by split| |done]. rewrite !frest_ftable, HR, ftable_icache. exact eq_refl.
Qed.
Lemma geom_ftable D R g : geom D R → geom D (R <| ftable ::= g |>).
Proof. intros []. by split. Qed.
Lemma fsst_rftable o D tr R V B G I k : fsst o D tr R V B G I k → ftable k = ftable R.
Proof. intros (_ & E & _). by apply (f_equal ftable) in E. Qed.

Lemma sane_length D D' V : length D' = length D → sane D V → sane D' V.
Proof. intros E [S1 S2]. split; [by rewrite E|done]. Qed.
Lemma geom_length D D' R : length D' = length D → geom D R → geom D' R.
Proof. intros E []. split; try done. by rewrite E. Qed.

(** The inode and the file table after a write of the bytes [src] at [q]. *)
Definition wrote_inode (A' F' : list Z) (ip : inode) : inode := set_file A' (Z.of_nat (length F')) ip <| islp := mkSlk 0 0 |>.
Definition move_off (q : nat) (r : file) : file := r <| foff := Z.of_nat q |>.

(** What the transaction leaves. *)
Lemma installed_ok D D' R V V' ip A' F' : geom D R → file_ok SB ds V (iaddrs ip) → 0 ≤ inum ip < sb_ninodes SB →
  let ip' := set_file A' (Z.of_nat (length F')) ip in
  frep V' A' F' → sane D V' → updated ls nlog D SB V ip V' ip' → synced SB V ip → installed V' D D' →
  sane D' (V_of D') ∧ frep (V_of D') A' F' ∧ isolated V (iaddrs ip) (V_of D') A' ∧ synced SB (V_of D') ip' ∧
  nfree (V_of D') = nfree V'.
Proof.
  intros GE HF Hi ip' HF' HS' HU HY [EL HV]. pose proof (ge_size _ _ _ _ _ _ GE).
  assert (∀ blk, 0 ≤ blk < Z.of_nat (length D) → home blk → V_of D' blk = V' blk) as HV' by (intros; by apply HV).
  split_and!.
  - apply (sane_length D); [done|]. by eapply view_sane.
  - by eapply view_frep.
  - intros A2 F2 HF2 HD. destruct (updated_isolated D R V ip V' ip' GE HF Hi HU A2 F2 HF2 HD) as [H1 H2]. split.
    + by eapply view_frep.
    + intros c. rewrite (view_mine D R GE V' (V_of D') HV' A2), (view_mine D R GE V' (V_of D') HV' A') by (apply HF' || apply H1). apply H2.
  - unfold synced. rewrite HV'; [by apply HU| |by apply GE]. destruct (ge_ib _ _ _ _ _ _ GE _ Hi). simpl. lia.
  - apply nfree_ext. intros c. by eapply view_used.
Qed.

Lemma kwp_fget o D tr R V B I f (Q : file → kernel → Prop) k : fsst o D tr R V B ∅ I k → Q (ftable R !!! f) k → kwp (fget f) Q Y k.
Proof. intros HK HQ. unfold fget. apply (kwp_gets _ _ (ftable R !!! f)); [solve_reads|by rewrite (fsst_rftable _ _ _ _ _ _ _ _ _ HK)|done]. Qed.

(** The inode, locked and written. *)
Lemma wrote_inode_alter i (I : list inode) A' F' : (i < length I)%nat →
  let ip1 := set_file A' (Z.of_nat (length F')) (lock_inode (I !!! i)) in
  alter (λ _, ip1) i (alter lock_inode i I) !!! i = ip1 ∧
  alter unlock_inode i (alter (λ _, ip1) i (alter lock_inode i I)) = alter (wrote_inode A' F') i I.
Proof.
  intros Hi ip1. split; [rewrite list_alter_total by (by rewrite length_alter); by rewrite decide_True|]. rewrite !alter_alter. by apply list_alter_ext.
Qed.

Lemma ftable_alter_ext (R : kernel) g h f : g (ftable R !!! f) = h (ftable R !!! f) →
  R <| ftable ::= alter g f |> = R <| ftable ::= alter h f |>.
Proof. intros E. unfold upd. simpl. by rewrite (list_alter_ext g h). Qed.

Lemma ftable_alter_id (R : kernel) f : R <| ftable ::= alter id f |> = R.
Proof. destruct R. unfold upd. simpl. f_equal. apply list_alter_id. done. Qed.

(** One turn of the loop of [filewrite]: a transaction. *)
Lemma kwp_chunk {T} f i q src D tr R I F (m : Z → K T) (Q : T → kernel → Prop) k : let A := iaddrs (I !!! i) in let F' := splice F q src in
  idle D tr k → frest k = (frest R) <| icache := I |> → geom D R → opened R f i q → (i < length I)%nat → inode_ok D (I !!! i) F →
  src ≠ [] → (length src ≤ 1536)%nat → (q ≤ length F)%nat → (q + length src ≤ 512 * (NDIRECT + NINDIRECT))%nat →
  (4 + nind A ≤ nfree (V_of D))%nat →
  (∀ D' tr' A' k', idle D' tr' k' →
    frest k' = (frest (R <| ftable ::= alter (move_off (q + length src)) f |>)) <| icache := alter (wrote_inode A' F') i I |> →
    length D' = length D → inode_ok D' (wrote_inode A' F' (I !!! i)) F' → isolated (V_of D) A (V_of D') A' →
    (∀ n, (n + 4 + nind A ≤ nfree (V_of D) → n + nind A' ≤ nfree (V_of D'))%nat) → kwp (m (Z.of_nat (length src))) Q Y k') →
  kwp (begin_op;;
       r ← fget f;
       ilock (fip r);;
       ip ← deref (fip r);
       c ← writei ip src (foff r) (Z.of_nat (length src));
       (if 0 <? c then fset f (λ r, r <| foff := u32 (foff r + c) |>) else skip);;
       iunlock (fip r);;
       end_op;;
       m c) Q Y k.
Proof.
  intros A F' HI HR GE HO Hi HN Hsrc Hlen Hq Hmax Hfree HQ. destruct HO as [OL OT OI _ _ OO]. destruct HN as [NR NL NV ND NT NN NZ NS NF NY].
  assert (0 < length src)%nat as Hl0 by (destruct src; simpl; [done|lia]).
  kstep. eapply kwp_begin_op; [exact HI|exact HR|]. intros k1 K1.
  kstep. eapply kwp_fget; [exact K1|]. rewrite OI, OO. kstep. eapply kwp_ilock; [exact K1|done|done|done|done|]. intros k2 K2.
  assert (EI : alter lock_inode i I !!! i = lock_inode (I !!! i)) by (by rewrite list_alter_total, decide_True). pose proof (fr_ok _ _ _ _ _ NF) as OKF.
  assert (span q (length src) ≤ 4)%nat as Hsp.
  { unfold span. case_decide; [lia|]. pose proof (Nat.mod_upper_bound q 512 ltac:(lia)). apply Nat.lt_succ_r, Nat.Div0.div_lt_upper_bound. lia. }
  kstep. cbn [deref]. kstep. kstep. eapply (kwp_writei p x Y ls nlog 1 D tr SB ds R GE ltac:(lia) i q src (V_of D) [] _ F);
    [exact K2|rewrite length_alter; exact Hi|rewrite EI; exact ND|rewrite EI; exact NT|rewrite EI; exact NN|rewrite EI; exact NZ
    |exact NS|rewrite EI; exact NF|exact Hq|exact Hmax|exact Hsp|rewrite EI|simpl; lia|].
  { right. change (iaddrs (lock_inode (I !!! i))) with A. pose proof (missing_le (V_of D) A (q `div` 512) (span q (length src))). lia. }
  rewrite EI. fold F'. intros V3 A3 B3 k3 ip3 K3 F3 S3 U3 L3 N3. change (iaddrs (lock_inode (I !!! i))) with A in *.
  destruct (wrote_inode_alter i I A3 F' Hi) as [E1 E2]. fold ip3 in E1, E2. unfold NDIRECT, NINDIRECT in Hmax.
  kstep. rewrite (proj2 (Z.ltb_lt _ _)) by lia. unfold fset. kstep.
  apply (fsst_ftable _ _ _ _ _ _ _ _ _ (alter (λ r, r <| foff := u32 (foff r + Z.of_nat (length src)) |>) f)) in K3.
  rewrite (ftable_alter_ext R _ (move_off (q + length src)) f) in K3.
  2:{ unfold move_off. rewrite OO, u32_small by lia. by replace (Z.of_nat q + Z.of_nat (length src)) with (Z.of_nat (q + length src)) by lia. }
  kstep. eapply kwp_iunlock; [exact K3|by rewrite !length_alter|by rewrite E1|by rewrite E1|]. rewrite E2. intros k4 K4.
  destruct HI as [_ _ _ _ _ _ _ _ Hh He _].
  kstep. eapply kwp_end_op; [by apply geom_ftable|exact K4|simpl in L3; lia|done|done|]. intros D5 tr5 k5 HI5 HR5 HD5.
  destruct (installed_ok D D5 R (V_of D) V3 (lock_inode (I !!! i)) A3 F' GE OKF NN F3 S3 U3 NY HD5) as (S5 & F5 & O5 & Y5 & N5).
  eapply HQ; [exact HI5|exact HR5|apply HD5| |exact O5|].
  - split; try done.
  - intros n Hn. rewrite N5. apply N3. lia.
Qed.

(** ** The state as clients of the file table see it *)

(** The inode in slot [i] stands for [F], at the addresses [A] of the disk [D], and
    the entries [offs] of the file table are open on it at their offsets. *)
Definition fstate (i : nat) (F : list Z) (offs : gmap nat nat) (D : list (list Z)) (A : list Z) (k : kernel) : Prop :=
  ∃ tr R I, idle D tr k ∧ frest k = (frest R) <| icache := I |> ∧ geom D R ∧ (i < length I)%nat ∧ inode_ok D (I !!! i) F ∧
    iaddrs (I !!! i) = A ∧ ∀ f q, offs !! f = Some q → opened R f i q ∧ (q ≤ length F)%nat.

(** The blocks left are enough for [n] blocks and an indirect one. *)
Definition enough (n : nat) (D : list (list Z)) (A : list Z) : Prop := (n + nind A ≤ nfree (V_of D))%nat.

Lemma opened_move R f i q f' q' m : opened R f i q → opened R f' i q' →
  opened (R <| ftable ::= alter (move_off m) f |>) f' i (if decide (f = f') then m else q').
Proof.
  intros [L1 T1 P1 R1 W1 O1] [L2 T2 P2 R2 W2 O2]. assert (∀ T, ftable (R <| ftable ::= T |>) = T (ftable R)) as E by done.
  split; rewrite E, ?length_alter, ?list_alter_total by done; [done|..]; by case_decide; subst.
Qed.

Lemma opens_move R (offs : gmap nat nat) i l l' f q n : (∀ f q, offs !! f = Some q → opened R f i q ∧ (q ≤ l)%nat) → offs !! f = Some q →
  (n ≤ l')%nat → (l ≤ l')%nat → ∀ f' q', <[f := n]> offs !! f' = Some q' →
  opened (R <| ftable ::= alter (move_off n) f |>) f' i q' ∧ (q' ≤ l')%nat.
Proof.
  intros HO Hf Hn Hl f' q' Hf'. destruct (HO f q Hf) as [Hop Hq]. destruct (decide (f = f')) as [<-|Hne].
  - rewrite lookup_insert_eq in Hf'. injection Hf' as <-. split; [|lia]. pose proof (opened_move R f i q f q n Hop Hop) as Hx.
    by rewrite decide_True in Hx.
  - rewrite lookup_insert_ne in Hf' by done. destruct (HO f' q' Hf') as [Hop' Hq']. split; [|lia].
    pose proof (opened_move R f i q f' q' n Hop Hop') as Hx. by rewrite decide_False in Hx.
Qed.

Lemma kwp_turn {T} f i q src F offs D A (m : Z → K T) (Q : T → kernel → Prop) k : fstate i F offs D A k → offs !! f = Some q →
  src ≠ [] → (length src ≤ 1536)%nat → (q + length src ≤ 512 * (NDIRECT + NINDIRECT))%nat → enough 4 D A →
  (∀ D' A' k', fstate i (splice F q src) (<[f := (q + length src)%nat]> offs) D' A' k' → isolated (V_of D) A (V_of D') A' →
    (∀ n, enough (n + 4) D A → enough n D' A') → kwp (m (Z.of_nat (length src))) Q Y k') →
  kwp (begin_op;;
       r ← fget f;
       ilock (fip r);;
       ip ← deref (fip r);
       c ← writei ip src (foff r) (Z.of_nat (length src));
       (if 0 <? c then fset f (λ r, r <| foff := u32 (foff r + c) |>) else skip);;
       iunlock (fip r);;
       end_op;;
       m c) Q Y k.
Proof.
  intros (tr & R & I & HI & HR & GE & Hi & HN & <- & HO) Hf Hs Hl Hmax He HQ. destruct (HO f q Hf) as [Hop Hq].
  eapply (kwp_chunk f i q src D tr R I F); [exact HI|exact HR|exact GE|exact Hop|exact Hi|exact HN|exact Hs|exact Hl|exact Hq|exact Hmax|exact He|].
  intros D' tr' A' k' HI' HR' EL HN' Hiso Hfree. eapply (HQ D' A'); [|exact Hiso|exact Hfree].
  assert (alter (wrote_inode A' (splice F q src)) i I !!! i = wrote_inode A' (splice F q src) (I !!! i)) as EI by (by rewrite list_alter_total, decide_True).
  eexists tr', _, _. split_and!; [exact HI'|exact HR'|by apply geom_ftable, (geom_length D)|by rewrite length_alter|by rewrite EI|by rewrite EI|].
  eapply opens_move; [exact HO|exact Hf|rewrite splice_length by done; lia..].
Qed.

(** The transactions of a write of [n] bytes, at most four blocks each. *)
Definition chunks (n : nat) : nat := Z.to_nat ((Z.of_nat n + 1535) / 1536).
Lemma chunks_step n m : (0 < n)%nat → Z.of_nat m = Z.min (Z.of_nat n) 1536 → chunks n = S (chunks (n - m)).
Proof. intros Hn Hm. unfold chunks. Z.div_mod_to_equations. lia. Qed.

Lemma fstate_off i F offs D A k f q : fstate i F offs D A k → offs !! f = Some q → (q ≤ length F)%nat.
Proof. intros (tr & R & I & _ & _ & _ & _ & _ & _ & HO) Hf. by apply (HO f q). Qed.

Lemma kwp_filewrite_loop f i addr fuel : ∀ t F offs D A q (Q : Z → kernel → Prop) k, let r := (length addr - t)%nat in
  fstate i F offs D A k → offs !! f = Some q → (t ≤ length addr)%nat → (r ≤ fuel)%nat →
  (q + r ≤ 512 * (NDIRECT + NINDIRECT))%nat → enough (4 * chunks r) D A →
  (∀ D' A' k', fstate i (splice F q (drop t addr)) (<[f := (q + r)%nat]> offs) D' A' k' → isolated (V_of D) A (V_of D') A' →
    (∀ n, enough (n + 4 * chunks r) D A → enough n D' A') → Q (Z.of_nat (length addr)) k') →
  kwp (filewrite_loop fuel f addr (Z.of_nat t) (Z.of_nat (length addr))) Q Y k.
Proof.
  induction fuel as [|fuel IH]; intros t F offs D A q Q k r HK Hf Ht Hr Hmax He HQ.
  all: pose proof (fstate_off _ _ _ _ _ _ _ _ HK Hf) as Hq; destruct (decide (r = 0)%nat) as [Er|Er]; [|].
  2: lia.
  1,2: assert (t = length addr) as -> by lia; cbn [filewrite_loop]; rewrite ?(proj2 (Z.ltb_ge _ _)) by lia; kstep.
  1,2: apply (HQ D A); [|apply isolated_refl|intros n; rewrite Er; unfold enough; change (chunks 0) with 0%nat; lia].
  1,2: rewrite drop_all, Er, Nat.add_0_r, insert_id by done; unfold splice; simpl; by rewrite Nat.add_0_r, take_drop.
  set (src := slice addr t (Z.to_nat (Z.min (Z.of_nat r) WRITE_MAX))). change WRITE_MAX with 1536 in src.
  assert (Z.of_nat (length src) = Z.min (Z.of_nat r) 1536) as El by (unfold src, slice; rewrite length_take, length_drop; lia).
  cbn [filewrite_loop]. rewrite (proj2 (Z.ltb_lt _ _)) by lia. cbv zeta.
  replace (Z.of_nat (length addr) - Z.of_nat t) with (Z.of_nat r) by lia. change WRITE_MAX with 1536. rewrite Nat2Z.id. fold src. rewrite <- El.
  rewrite (chunks_step r (length src)) in * by lia.
  eapply (kwp_turn f i q src F offs D A); [exact HK|exact Hf|intros E; rewrite E in El; simpl in El; lia|lia|lia|unfold enough in *; lia|].
  intros D1 A1 k1 K1 O1 N1. cbv beta. rewrite (proj2 (Z.ltb_ge _ _)), Z.eqb_refl by lia. kstep. kstep.
  replace (Z.of_nat t + Z.of_nat (length src)) with (Z.of_nat (t + length src)) by lia.
  assert (length addr - (t + length src) = r - length src)%nat as Er2 by lia.
  apply (IH (t + length src)%nat (splice F q src) (<[f := (q + length src)%nat]> offs) D1 A1 (q + length src)%nat); rewrite ?Er2.
  - exact K1.
  - apply lookup_insert_eq.
  - lia.
  - lia.
  - lia.
  - apply N1. unfold enough in *. lia.
  - intros D2 A2 k2 K2 O2 N2. rewrite splice_splice, insert_insert_eq in K2 by done.
    assert (src ++ drop (t + length src) addr = drop t addr) as Es.
    { unfold src at 1. unfold slice. rewrite <- drop_drop. assert (length src = Z.to_nat (Z.min (Z.of_nat r) 1536)) as -> by lia. apply take_drop. }
    rewrite Es in K2. replace (q + length src + (r - length src))%nat with (q + r)%nat in K2 by lia.
    apply (HQ D2 A2); [exact K2|by eapply isolated_trans|]. intros n Hn. apply N2, N1. unfold enough in *. lia.
Qed.

Lemma kwp_filewrite f i q addr F offs D A (Q : Z → kernel → Prop) k : fstate i F offs D A k → offs !! f = Some q →
  (q + length addr ≤ 512 * (NDIRECT + NINDIRECT))%nat → enough (4 * chunks (length addr)) D A →
  (∀ D' A' k', fstate i (splice F q addr) (<[f := (q + length addr)%nat]> offs) D' A' k' → isolated (V_of D) A (V_of D') A' →
    (∀ n, enough (n + 4 * chunks (length addr)) D A → enough n D' A') → Q (Z.of_nat (length addr)) k') →
  kwp (filewrite f addr (Z.of_nat (length addr))) Q Y k.
Proof.
  intros HK Hf Hmax He HQ. pose proof HK as (tr & R & I & HI & HR & _ & _ & _ & _ & HO). destruct (HO f q Hf) as [[OL OT OI _ OW OO] _].
  unfold filewrite. kstep. eapply kwp_fget; [by apply idle_fsst|]. rewrite (proj2 (Z.eqb_neq _ _)) by done. rewrite OT.
  kstep. apply (kwp_filewrite_loop f i addr _ 0 F offs D A q); rewrite ?Nat.sub_0_r; [done|done|lia|lia|done|done|].
  intros D' A' k' K' HS HN. kstep. rewrite Z.eqb_refl. by apply (HQ D' A').
Qed.

(** ** Reading *)
Lemma kwp_bump o D tr R V B I f q m (Q : unit → kernel → Prop) k : fsst o D tr R V B ∅ I k → foff (ftable R !!! f) = Z.of_nat q →
  Z.of_nat (q + m) < 4294967296 →
  (∀ k', fsst o D tr (R <| ftable ::= alter (move_off (q + m)) f |>) V B ∅ I k' → Q tt k') →
  kwp (if 0 <? Z.of_nat m then fset f (λ r, r <| foff := u32 (foff r + Z.of_nat m) |>) else skip) Q Y k.
Proof.
  intros HK OO Hm HQ. set (g := λ r, r <| foff := u32 (foff r + Z.of_nat m) |>).
  assert (move_off (q + m) (ftable R !!! f) = g (ftable R !!! f)) as E.
  { unfold move_off, g. rewrite OO, u32_small by lia. by replace (Z.of_nat q + Z.of_nat m) with (Z.of_nat (q + m)) by lia. }
  rewrite (ftable_alter_ext R _ g f E) in HQ. destruct (Z.ltb_spec 0 (Z.of_nat m)) as [H0|H0].
  - unfold fset. kstep. apply HQ. by apply fsst_ftable.
  - kstep. apply HQ. rewrite (ftable_alter_ext R _ id f); [by rewrite ftable_alter_id|]. rewrite <- E. unfold move_off.
    assert (m = 0)%nat as -> by lia. rewrite Nat.add_0_r, <- OO. by destruct (ftable R !!! f).
Qed.

Lemma kwp_fileread f i q n F offs D A (Q : Z * list Z → kernel → Prop) k : fstate i F offs D A k → offs !! f = Some q →
  Z.of_nat q + Z.of_nat n < 4294967296 →
  (let m := Nat.min n (length F - q) in ∀ k', fstate i F (<[f := (q + m)%nat]> offs) D A k' → Q (Z.of_nat m, slice F q m) k') →
  kwp (fileread f (Z.of_nat n)) Q Y k.
Proof.
  intros (tr & R & I & HI & HR & GE & Hi & HN & HA & HO) Hf Hn HQ. set (m := Nat.min n (length F - q)) in *.
  destruct (HO f q Hf) as [Hop Hq]. pose proof Hop as [OL OT OI OR _ OO]. pose proof HN as [NR NL NV ND NT NN NZ NS NF NY].
  pose proof (idle_fsst D tr R I k HI HR) as K0. assert (EI : alter lock_inode i I !!! i = lock_inode (I !!! i)) by (by rewrite list_alter_total, decide_True).
  unfold fileread. kstep. eapply kwp_fget; [exact K0|]. rewrite (proj2 (Z.eqb_neq _ _)) by done. rewrite OT, OI, OO.
  kstep. eapply kwp_ilock; [exact K0|done|done|done|done|]. intros k1 K1. kstep. cbn [deref]. kstep. kstep.
  eapply (kwp_readi p x Y ls nlog 0 D tr SB ds R GE i (V_of D) [] _ F);
    [by rewrite length_alter|by rewrite EI|exact NS|rewrite EI; exact NF|unfold nind; case_decide; simpl; lia|by rewrite EI|by rewrite EI|exact K1|exact Hq|exact Hn|].
  intros m' k2 K2. change m' with m. clear m'. kstep. eapply (kwp_bump _ _ _ _ _ _ _ f q m); [exact K2|exact OO|lia|]. intros k3 K3.
  kstep. eapply kwp_iunlock; [exact K3|by rewrite length_alter|by rewrite EI|by rewrite EI|]. intros k4 K4. kstep. apply HQ.
  rewrite alter_alter, (list_alter_ext _ unlock_inode) in K4 by done. destruct (fsst_idle _ _ _ _ _ _ HI K4) as [HI4 HR4].
  assert (EU : alter unlock_inode i I !!! i = unlock_inode (I !!! i)) by (by rewrite list_alter_total, decide_True).
  eexists tr, _, _. split_and!; [exact HI4|exact HR4|by apply geom_ftable|by rewrite length_alter|rewrite EU; by split|by rewrite EU|].
  eapply opens_move; [exact HO|exact Hf|lia|lia].
Qed.
End file.

(** ** Clients of the file table *)

(** A sequence of calls through open files, and what they answer. *)
Inductive fop := FWrite (f : nat) (data : list Z) | FRead (f : nat) (n : nat).
Inductive freply := Wrote (n : Z) | Got (n : Z) (bytes : list Z).

Definition do_fop {PAT : Patience} {DEV : DevSw} (op : fop) : K freply :=
  match op with
  | FWrite f data => n ← filewrite f data (Z.of_nat (length data)); mret (Wrote n)
  | FRead f n => '(c, bs) ← fileread f (Z.of_nat n); mret (Got c bs)
  end.
Fixpoint do_fops {PAT : Patience} {DEV : DevSw} (ops : list fop) : K (list freply) :=
  match ops with
  | [] => mret []
  | op :: ops => r ← do_fop op; rs ← do_fops ops; mret (r :: rs)
  end.

(** The same on a list of bytes and the offset of each open file; [None] when a file
    is not open or a length is out of range. *)
Definition fm_op (op : fop) (s : list Z * gmap nat nat) : option ((list Z * gmap nat nat) * freply) :=
  let '(F, offs) := s in
  match op with
  | FWrite f data =>
      match offs !! f with
      | Some q =>
          if Z.of_nat (q + length data) <=? MAXFILE * BSIZE
          then Some ((splice F q data, <[f := (q + length data)%nat]> offs), Wrote (Z.of_nat (length data)))
          else None
      | None => None
      end
  | FRead f n =>
      match offs !! f with
      | Some q =>
          let m := Nat.min n (length F - q) in
          if Z.of_nat n <? 2147483648 then Some ((F, <[f := (q + m)%nat]> offs), Got (Z.of_nat m) (slice F q m)) else None
      | None => None
      end
  end.
Fixpoint fm_ops (ops : list fop) (s : list Z * gmap nat nat) : option ((list Z * gmap nat nat) * list freply) :=
  match ops with
  | [] => Some (s, [])
  | op :: ops =>
      match fm_op op s with
      | Some (s1, r) => match fm_ops ops s1 with Some (s2, rs) => Some (s2, r :: rs) | None => None end
      | None => None
      end
  end.

(** The blocks the transactions of the writes may take. *)
Definition fop_cost (op : fop) : nat := match op with FWrite _ data => 4 * chunks (length data) | FRead _ _ => 0 end.
Definition fops_cost (ops : list fop) : nat := sum_list_with fop_cost ops.

Section clients.
Context {PAT : Patience} {DEV : DevSw} (p : nat) (x : Z) (ls nlog : Z) (SB : superblock) (ds : Z) (i : nat).
Abbreviation fstate := (fstate p x ls nlog SB ds i).
Abbreviation enough0 := enough.
Abbreviation enough := (enough SB).
Abbreviation isolated := (isolated SB ds).

Lemma kwp_do_fop op F offs F' offs' r D A (Q : freply → kernel → Prop) k : fstate F offs D A k →
  fm_op op (F, offs) = Some ((F', offs'), r) → enough (fop_cost op) D A →
  (∀ D' A' k', fstate F' offs' D' A' k' → isolated (V_of D) A (V_of D') A' →
    (∀ n, enough (n + fop_cost op) D A → enough n D' A') → Q r k') →
  kwp (do_fop op) Q no_switch k.
Proof.
  intros HK HM HE HQ. destruct op as [f data|f n]; cbn [fm_op do_fop fop_cost] in *; destruct (offs !! f) as [q|] eqn:Hf; [|done| |done].
  - destruct (Z.leb_spec (Z.of_nat (q + length data)) (MAXFILE * BSIZE)) as [Hl|]; [|done]. injection HM as <- <- <-.
    kstep. eapply (kwp_filewrite p x no_switch ls nlog SB ds f i q data F offs D A); [exact HK|exact Hf| |exact HE|].
    { unfold MAXFILE, BSIZE in Hl. lia. }
    intros D' A' k' K' HS HN. kstep. by apply (HQ D' A').
  - destruct (Z.ltb_spec (Z.of_nat n) 2147483648) as [Hl|]; [|done]. injection HM as <- <- <-.
    pose proof (fstate_off _ _ _ _ _ _ _ _ _ _ _ _ _ _ HK Hf) as Hq. pose proof HK as (_ & _ & I & _ & _ & _ & _ & HN & _).
    pose proof (fr_max _ _ _ _ _ (io_file _ _ _ _ _ _ _ HN)) as Hm. unfold NDIRECT, NINDIRECT in Hm.
    kstep. eapply (kwp_fileread p x no_switch ls nlog SB ds f i q n F offs D A); [exact HK|exact Hf|lia|].
    intros m k' K'. kstep. apply (HQ D A); [exact K'|apply isolated_refl|]. intros n'. by rewrite Nat.add_0_r.
Qed.

Lemma kwp_do_fops ops : ∀ F offs s' rs D A (Q : list freply → kernel → Prop) k, fstate F offs D A k →
  fm_ops ops (F, offs) = Some (s', rs) → enough (fops_cost ops) D A →
  (∀ D' A' k', fstate s'.1 s'.2 D' A' k' → isolated (V_of D) A (V_of D') A' → Q rs k') →
  kwp (do_fops ops) Q no_switch k.
Proof.
  induction ops as [|op ops IH]; intros F offs s' rs D A Q k HK HM HE HQ; cbn [fm_ops do_fops] in *.
  - injection HM as <- <-. kstep. apply (HQ D A); [exact HK|apply isolated_refl].
  - destruct (fm_op op (F, offs)) as [[[F1 offs1] r]|] eqn:E1; [|done]. destruct (fm_ops ops (F1, offs1)) as [[s2 rs2]|] eqn:E2; [|done].
    injection HM as -> <-. unfold fops_cost in HE. cbn [sum_list_with] in HE. fold (fops_cost ops) in HE.
    kstep. apply (kwp_do_fop op F offs F1 offs1 r D A); [exact HK|exact E1|unfold enough0 in *; lia|]. intros D1 A1 k1 K1 S1 N1.
    kstep. apply (IH F1 offs1 s' rs2 D1 A1); [exact K1|exact E2|apply N1; by rewrite Nat.add_comm|]. intros D2 A2 k2 K2 S2.
    kstep. apply (HQ D2 A2); [exact K2|by eapply isolated_trans].
Qed.

(** C3: Files are byte sequences. Any sequence of [filewrite] and [fileread] calls
    through any open files of one inode answers what it would on a list of bytes with
    one offset per open file, in spite of direct and indirect blocks, the bitmap, the
    chunks of a write, the log and the buffer cache: no call panics, blocks or fails as
    long as the file stays within its largest size and the disk has blocks left. When the last call has returned, the bytes and
    the inode are on the disk and the log is empty, and every other file whose blocks
    were disjoint from this one's has its contents, on blocks still disjoint. *)
Theorem files_refine ops F offs F' offs' rs A k : fstate F offs (disk k) A k →
  fm_ops ops (F, offs) = Some ((F', offs'), rs) → enough (fops_cost ops) (disk k) A →
  ∃ k' d A', do_fops ops k = Ok rs k' ∧ k' ≃ d ∧ disk k' = disk d ∧ fstate F' offs' (disk d) A' d ∧
    isolated (V_of (disk k)) A (V_of (disk d)) A'.
Proof.
  intros HK HM HE. destruct (kwp_returns (do_fops ops) (λ v d, v = rs ∧ ∃ D' A', fstate F' offs' D' A' d ∧
    isolated (V_of (disk k)) A (V_of D') A') k) as (v & k' & d & E & Hd & -> & D' & A' & K' & HS).
  { apply (kwp_do_fops ops F offs _ rs _ _ _ _ HK HM HE). intros D' A' k' K' HS. split; [done|]. by exists D', A'. }
  assert (disk d = D') as <- by (destruct K' as (tr & R & I & HI & _); by destruct (id_cache _ _ _ _ _ _ _ HI) as (_ & -> & _)).
  exists k', d, A'. keqv_rd Hd. done.
Qed.
End clients.

(** ** A small file system: 96 blocks, the log at 2, inodes at 32, the bitmap at 33;
    inode 1 is an empty file, open twice. *)
Definition demo_sb : superblock := mkSb 96 62 8 30 2 32 33.
Definition demo_inode : inode := mkInode 1 1 1 (mkSlk 0 0) 1 2 0 0 1 0 (replicate 13 0).
Definition demo_bitmap : list Z := replicate 4 255 ++ [3] ++ replicate 507 0.
Definition demo_iblock : list Z := splice zero_block 64 (dinode_of demo_inode).
Definition demo_disk : list (list Z) := <[32%nat := demo_iblock]> (<[33%nat := demo_bitmap]> (replicate 96 zero_block)).
Definition demo_file : file := mkFile FD_INODE 1 1 1 0 (Some 0%nat) 0.
Definition file_kernel : kernel :=
  demo_kernel <| sb := demo_sb |> <| icache := demo_inode :: replicate 49 inode0 |> <| ftable := demo_file :: demo_file :: replicate 98 file0 |>
    <| klog := mkLog 2 30 0 0 1 0 (replicate 30 0) |> <| disk := demo_disk |> <| bufs := fresh_bufs |>.
Definition no_dev : DevSw := {| dev_read := λ _, None; dev_write := λ _, None |}.
Definition demo_offs : gmap nat nat := {[ 0%nat := 0%nat; 1%nat := 0%nat ]}.

Lemma bctx_files p x k s I T : bctx p x k → bctx p x (k <| sb := s |> <| icache := I |> <| ftable := T |>).
Proof. intros HB. by apply (bctx_data (λ k, k <| sb := s |> <| icache := I |> <| ftable := T |>)); [apply _| | |]. Qed.
Lemma frest_self (k : kernel) : frest k = (frest k) <| icache := icache k |>.
Proof. by destruct k. Qed.
Lemma demo_geom : geom 2 30 demo_disk demo_sb 34 file_kernel.
Proof.
  assert (length demo_disk = 96%nat) as EL by (unfold demo_disk; by rewrite !length_insert, length_replicate).
  split; rewrite ?EL; [done|done|done|done|done|by vm_compute|right; vm_compute; done|..|exact eq_refl].
  all: intros i Hi; assert (IBLOCK i demo_sb = 32) as -> by (unfold IBLOCK, IPB; simpl in *; rewrite Z.div_small by (simpl; lia); done).
  - done.
  - right. done.
Qed.
Lemma demo_sane : sane 2 30 demo_disk demo_sb 34 (V_of demo_disk).
Proof.
  split.
  - intros blk Hb _. unfold V_of. assert (Forall (λ b, length b = 512%nat) demo_disk) as HF.
    { apply Forall_insert; [apply Forall_insert; [by apply Forall_replicate|by vm_compute]|by vm_compute]. }
    apply (Forall_lookup_1 (λ b, length b = 512%nat) demo_disk (Z.to_nat blk)); [exact HF|]. apply list_lookup_lookup_total_lt. lia.
  - intros a Ha. assert (Forall (λ a, used demo_sb (V_of demo_disk) a = true) (seqZ 0 34)) as HF by (apply (bool_decide_unpack _); by vm_compute).
    rewrite Forall_forall in HF. apply HF, elem_of_seqZ. lia.
Qed.
Lemma empty_blk V bn : (bn < NDIRECT + NINDIRECT)%nat → blk_of V (replicate 13 0) bn = 0.
Proof.
  intros Hb. unfold blk_of. case_decide; [|done]. apply list_lookup_total_correct, lookup_replicate_2. unfold NDIRECT in *. lia.
Qed.
Lemma demo_frep V : frep demo_sb 34 V (replicate 13 0) [].
Proof.
  split; [split|apply Nat.le_0_l|intros j v Hj; by rewrite lookup_nil in Hj].
  - done.
  - by left.
  - intros bn Hb. left. by apply empty_blk.
  - intros b1 b2 Hb1 Hb2 _ Hn. by rewrite empty_blk in Hn.
  - intros bn Hb Hn. by rewrite empty_blk in Hn.
Qed.
Lemma demo_fstate : fstate 1 2 2 30 demo_sb 34 0 [] demo_offs demo_disk (replicate 13 0) file_kernel.
Proof.
  exists [], file_kernel, (icache file_kernel). split_and!.
  - split; [|vm_compute; done..]. split; [|split; [exact eq_refl|split; [exact eq_refl|apply cache_fresh]]].
    apply bctx_disk, bctx_klog, bctx_files, demo_ctx.
  - apply frest_self.
  - exact demo_geom.
  - vm_compute. lia.
  - split; try done; [exact demo_sane|apply demo_frep].
  - done.
  - intros f q Hf. split; [|].
    + unfold demo_offs in Hf. apply lookup_insert_Some in Hf as [[<- <-]|[_ [<- <-]%lookup_singleton_Some]]; split; try done; vm_compute; lia.
    + unfold demo_offs in Hf. apply lookup_insert_Some in Hf as [[<- <-]|[_ [<- <-]%lookup_singleton_Some]]; simpl; lia.
Qed.

Lemma files_refine_witness : ∃ k', do_fops (PAT := 0%nat) (DEV := no_dev)
    [FWrite 0 [104; 105; 33]; FRead 1 2; FWrite 1 [63]; FRead 0 9] file_kernel = Ok [Wrote 3; Got 2 [104; 105]; Wrote 1; Got 0 []] k'.
Proof.
  destruct (files_refine (PAT := 0%nat) (DEV := no_dev) 1 2 2 30 demo_sb 34 0 [FWrite 0 [104; 105; 33]; FRead 1 2; FWrite 1 [63]; FRead 0 9]
    [] demo_offs [104; 105; 63] {[ 0%nat := 3%nat; 1%nat := 3%nat ]} [Wrote 3; Got 2 [104; 105]; Wrote 1; Got 0 []] (replicate 13 0) file_kernel)
    as (k' & d & A' & E & _).
  - exact demo_fstate.
  - vm_compute. reflexivity.
  - unfold enough. apply Nat.leb_le. vm_compute. reflexivity.
  - exists k'. exact E.
Defined.
