(* ===== verification/Life.v ===== *)
(** * Process creation and termination

    [userinit], [growproc], [fork], [exit], [wait] and [forkret] of [proc.c],
    which use memory, files and the log. *)
From stdpp Require Import base strings numbers gmap list.
From S2P Require Import Prelude Machine KString Kernel Locks Kalloc Proc Vm Sleeplock Bio Log.
From S2P Require Import Fs Pipe File.

(** [safestrcpy] into an array: the bytes written, for a count of [n + 1]. *)
Fixpoint safestrcpy_bytes (n : nat) (t : list Z) : list Z :=
  match n with
  | O => [0]
  | S n' => let c := hd 0 t in
            if c =? 0 then [0; 0] else c :: safestrcpy_bytes n' (tl t)
  end.
Definition safestrcpy_arr (dst t : list Z) (n : Z) : list Z :=
  if n <=? 0 then dst else splice dst 0 (safestrcpy_bytes (Z.to_nat (n - 1)) t).

(** Byte offsets in [struct trapframe], which has 76 bytes. *)
Definition TF_SIZE : Z := 76.
Definition tf_eax : Z := 28.
Definition tf_es : Z := 40.
Definition tf_ds : Z := 44.
Definition tf_eip : Z := 56.
Definition tf_cs : Z := 60.
Definition tf_eflags : Z := 64.
Definition tf_esp : Z := 68.
Definition tf_ss : Z := 72.
Definition wr16 (a v : Z) : K unit := modify (λ k, k <| mem ::= λ m, st16 m a v |>).

Section life.
Context `{!Patience, !DiskDriver, !DevSw}.

Definition userinit : K unit :=
  o ← allocproc;
  p ← deref o;
  modify (λ k, k <| initproc := Some p |>);;
  pg ← setupkvm;
  pset p (λ r, r <| pgdir := pg |>);;
  (if pg =? 0 then panic "userinit: out of memory?" else skip);;
  img ← gets image;
  inituvm pg (l_initcode img);;
  pset p (λ r, r <| sz := PGSIZE |>);;
  r ← pget p;
  let t := tf r in
  kmemset t 0 TF_SIZE;;
  wr16 (t + tf_cs) (Z.lor (Z.shiftl SEG_UCODE 3) DPL_USER);;
  wr16 (t + tf_ds) (Z.lor (Z.shiftl SEG_UDATA 3) DPL_USER);;
  ds ← gets (λ k, ld16 (mem k) (t + tf_ds));
  wr16 (t + tf_es) ds;;
  wr16 (t + tf_ss) ds;;
  wr32 (t + tf_eflags) FL_IF;;
  wr32 (t + tf_esp) PGSIZE;;
  wr32 (t + tf_eip) 0;;
  pset p (λ r, r <| name ::= λ d, safestrcpy_arr d (lit "initcode") 16 |>);;
  c ← namei (lit "/");
  pset p (λ r, r <| cwd := c |>);;
  acquire Lptable;;
  pset p (λ r, r <| state := RUNNABLE |>);;
  release Lptable.

Definition growproc (n : Z) : K Z :=
  q ← myproc;
  cur ← deref q;
  r ← pget cur;
  let s := sz r in
  o ← (if 0 <? n then
         s' ← allocuvm (pgdir r) s (u32 (s + n));
         mret (if s' =? 0 then None else Some s')
       else if n <? 0 then
         s' ← deallocuvm (pgdir r) s (u32 (s + n));
         mret (if s' =? 0 then None else Some s')
       else mret (Some s));
  match o with
  | None => mret (-1)
  | Some s' =>
      pset cur (λ r, r <| sz := s' |>);;
      switchuvm cur;;
      mret 0
  end.

(** [if(curproc->ofile[i]) np->ofile[i] = filedup(curproc->ofile[i])] *)
Definition fork_dup (cur np : nat) (i : nat) : K unit :=
  r ← pget cur;
  match ofile r !!! i with
  | Some f => f' ← filedup f; pset np (λ r, r <| ofile ::= <[i := Some f']> |>)
  | None => skip
  end.

Definition fork : K Z :=
  q ← myproc;
  cur ← deref q;
  o ← allocproc;
  match o with
  | None => mret (-1)
  | Some np =>
      c ← pget cur;
      pg ← copyuvm (pgdir c) (sz c);
      pset np (λ r, r <| pgdir := pg |>);;
      if pg =? 0 then
        r ← pget np;
        kfree (kstack r);;
        pset np (λ r, r <| kstack := 0 |>);;
        pset np (λ r, r <| state := UNUSED |>);;
        mret (-1)
      else
        c ← pget cur;
        pset np (λ r, r <| sz := sz c |>);;
        pset np (λ r, r <| parent := Some cur |>);;
        r ← pget np;
        kmemmove (tf r) (tf c) TF_SIZE;;
        pset np (λ r, r <| tickets := tickets c |>);;
        wr32 (tf r + tf_eax) 0;;
        for_up NOFILE 0 (fork_dup cur np);;
        d ← deref (cwd c);
        d' ← idup d;
        pset np (λ r, r <| cwd := Some d' |>);;
        pset np (λ r, r <| name ::= λ dst, safestrcpy_arr dst (name c) 16 |>);;
        r ← pget np;
        let x := pid r in
        acquire Lptable;;
        acquire Lticks;;
        t ← gets ticks;
        pset np (λ r, r <| enqueue_time := i32 t |>);;
        release Lticks;;
        pset np (λ r, r <| state := RUNNABLE |>);;
        release Lptable;;
        mret x
  end.

(** The storing block of [exit]: the process's metrics are made final and
    recorded. *)
Definition exit_metrics (cur : nat) : K unit :=
  acquire Lptable;;
  t ← gets ticks;
  pset cur (finalize t);;
  acquire Lperf;;
  r ← pget cur;
  perf_store r;;
  release Lperf;;
  release Lptable.

Definition exit_close (cur fd : nat) : K unit :=
  r ← pget cur;
  match ofile r !!! fd with
  | Some f => fileclose f;; pset cur (λ r, r <| ofile ::= <[fd := None]> |>)
  | None => skip
  end.

(** The loop of [exit] that hands the children of [cur] to init, slot [i]. *)
Definition exit_reparent (cur i : nat) : K unit :=
  r ← pget i;
  if decide (parent r = Some cur) then
    ip ← gets initproc;
    pset i (λ r, r <| parent := ip |>);;
    if decide (state r = ZOMBIE) then
      wakeup1 (Cproc <$> ip)
    else skip
  else skip.

Definition exit : K unit :=
  q ← myproc;
  ip ← gets initproc;
  (if decide (q = ip) then panic "init exiting" else skip);;
  cur ← deref q;
  exit_metrics cur;;
  for_up NOFILE 0 (exit_close cur);;
  begin_op;;
  r ← pget cur;
  d ← deref (cwd r);
  iput d;;
  end_op;;
  pset cur (λ r, r <| cwd := None |>);;
  acquire Lptable;;
  r ← pget cur;
  wakeup1 (Cproc <$> parent r);;
  for_up NPROC 0 (exit_reparent cur);;
  pset cur (λ r, r <| state := ZOMBIE |>);;
  sched;;
  panic "zombie exit".

(** ** wait *)

(** [wait] on a zombie child [p]: the pid once the child is cleaned up, or
    [None] when there was no free entry for its metrics. *)
Definition wait_reap (p : nat) : K (option Z) :=
  r ← pget p;
  let x := pid r in
  t ← gets ticks;
  pset p (finalize t);;
  acquire Lperf;;
  r ← pget p;
  stored ← perf_store r;
  release Lperf;;
  if negb stored then mret None
  else
    kfree (kstack r);;
    pset p (λ r, r <| kstack := 0 |>);;
    freevm (pgdir r);;
    pset p (λ r, r <| pid := 0 |>);;
    pset p (λ r, r <| parent := None |>);;
    pset p (λ r, r <| name ::= <[0%nat := 0]> |>);;
    pset p (λ r, r <| killed := 0 |>);;
    pset p (λ r, r <| state := UNUSED |>);;
    mret (Some x).

(** The scan of the table from slot [i]: [inr] is the reaped child's pid,
    [inl] the final value of [havekids]. *)
Fixpoint wait_scan (n i cur : nat) (havekids : bool) : K (bool + Z) :=
  match n with
  | O => mret (inl havekids)
  | S n' =>
      r ← pget i;
      if decide (parent r = Some cur) then
        if decide (state r = ZOMBIE) then
          o ← wait_reap i;
          match o with
          | Some x => mret (inr x)
          | None => wait_scan n' (S i) cur true
          end
        else wait_scan n' (S i) cur true
      else wait_scan n' (S i) cur havekids
  end.

(** [wait]'s loop, with [ptable.lock] held. *)
Fixpoint wait_loop (n cur : nat) : K Z :=
  o ← wait_scan NPROC 0 cur false;
  match o with
  | inr x => release Lptable;; mret x
  | inl havekids =>
      r ← pget cur;
      if negb havekids || istrue (killed r) then release Lptable;; mret (-1)
      else
        sleep (Cproc cur) (Some Lptable);;
        match n with O => waiting | S n' => wait_loop n' cur end
  end.

Definition wait : K Z :=
  q ← myproc;
  cur ← deref q;
  acquire Lptable;;
  wait_loop patience cur.

Definition forkret : K unit :=
  release Lptable;;
  f ← gets first;
  if istrue f then
    modify (λ k, k <| first := 0 |>);;
    iinit ROOTDEV;;
    initlog ROOTDEV
  else skip.
End life.
