(* ===== verification/LifeSpec.v ===== *)
(** * Parents and children

    [wait] when the table of performance records is full. *)
From stdpp Require Import base strings numbers gmap list.
From S2P Require Import Prelude Machine KString Kernel Locks Kalloc Proc ProcSpec Console Vm Sleeplock Bio Log Fs Pipe File Life.

(** A table of processes in which only metrics have changed. *)
Definition same_proc (r r' : proc) : Prop :=
  state r' = state r ∧ parent r' = parent r ∧ killed r' = killed r ∧ pid r' = pid r.
Definition settled : list proc → list proc → Prop := Forall2 same_proc.
#[export] Instance same_proc_preorder : PreOrder same_proc.
Proof. split; [done|]. intros r1 r2 r3 (? & ? & ? & ?) (? & ? & ? & ?). repeat split; congruence. Qed.
Lemma same_finalize t r : same_proc r (finalize t r).
Proof. unfold finalize, add_ready, same_proc. repeat case_match; done. Qed.
Lemma settled_alter f i T : (∀ r, same_proc r (f r)) → settled T (alter f i T).
Proof.
  intros Hf. apply Forall2_same_length_lookup_2; [by rewrite length_alter|]. intros j r r' Hr Hr'.
  destruct (decide (j = i)) as [->|Hn]; [rewrite list_lookup_alter_eq, Hr in Hr'; injection Hr' as <-; apply Hf|].
  rewrite list_lookup_alter_ne, Hr in Hr' by done. by injection Hr' as <-.
Qed.

(** A child of [cur] among the slots from [i] to [i + n]. *)
Definition has_child (cur : nat) (T : list proc) : bool := existsb (λ r, bool_decide (parent r = Some cur)) T.
Lemma has_child_settled cur T T' : settled T T' → has_child cur T' = has_child cur T.
Proof. intros H. induction H as [|r r' T T' (_ & Hp & _) _ IH]; [done|]. unfold has_child in *. cbn. by rewrite Hp, IH. Qed.

Lemma perf_put_full d k : perf_full (perf_data k) = true → k = k <| perf_data ::= perf_put d |>.
Proof.
  rewrite find_invalid. intros Hf. destruct k. unfold perf_put, upd in *. cbn in *. by destruct (find_idx _ _).
Qed.

Lemma has_child_true cur T : (∃ i, i < length T ∧ parent (T !!! i) = Some cur)%nat → has_child cur T = true.
Proof.
  intros (i & Hi & Hp). apply existsb_exists. exists (T !!! i). split; [|by apply bool_decide_eq_true_2].
  apply list_elem_of_In, list_elem_of_lookup. exists i. by apply list_lookup_lookup_total_lt.
Qed.

Section full.
Context {PAT : Patience}.

(** With every record in use a zombie is finalised and left in its slot. *)
Lemma kwp_wait_reap_full i Q Y k `{!Mono Y} : cpu_wf k → Lperf ∉ held k → perf_full (perf_data k) = true →
  Q None (k <| ptable ::= alter (finalize (ticks k)) i |>) → kwp (wait_reap i) Q Y k.
Proof.
  intros Hwf Hl Hf HQ. unfold wait_reap. psteps. apply kwp_perf_store; [apply _|]. cbn [perf_data upd acq].
  rewrite Hf. cbn [negb]. psteps. eapply eq_rect; [exact HQ|]. by apply perf_put_full.
Qed.

Lemma settled_length T T' : settled T T' → length T' = length T.
Proof. intros H. symmetry. by eapply Forall2_length. Qed.
Lemma settled_trans T1 T2 T3 : settled T1 T2 → settled T2 T3 → settled T1 T3.
Proof. apply transitivity. Qed.

Lemma kwp_wait_scan_full n : ∀ i cur hk Q Y k, Mono Y → cpu_wf k → Lperf ∉ held k → perf_full (perf_data k) = true →
  (i + n = length (ptable k))%nat →
  (∀ T', settled (ptable k) T' → Q (inl (hk || has_child cur (drop i (ptable k)))) (k <| ptable := T' |>)) →
  kwp (wait_scan n i cur hk) Q Y k.
Proof.
  induction n as [|n IH]; intros i cur hk Q Y k HY Hwf Hl Hf Hn HQ; cbn [wait_scan].
  - kstep. rewrite drop_ge, orb_false_r in HQ by lia. specialize (HQ (ptable k) ltac:(apply reflexivity)). by destruct k.
  - destruct (lookup_lt_is_Some_2 (ptable k) i) as [r Hr]; [lia|].
    pose proof (list_lookup_total_correct _ _ _ Hr) as E. rewrite (drop_S _ _ _ Hr) in HQ.
    unfold has_child in HQ. cbn [existsb] in HQ. fold (has_child cur (drop (S i) (ptable k))) in HQ.
    do 2 pstep. rewrite E. destruct (decide (parent r = Some cur)) as [Hc|Hc];
      [rewrite (bool_decide_eq_true_2 _ Hc), orb_true_r in HQ; destruct (decide (state r = ZOMBIE)) as [Hz|Hz]|
      rewrite (bool_decide_eq_false_2 _ Hc) in HQ]; [|by apply IH; [..|lia|]|by apply IH; [..|lia|]].
    kstep. apply kwp_wait_reap_full; [done..|].
    apply IH; [done..|cbn; rewrite length_alter; lia|]. cbn. intros T' HT.
    assert (settled (ptable k) (alter (finalize (ticks k)) i (ptable k))) as HS by apply settled_alter, same_finalize.
    eapply eq_rect; [apply (HQ T'); by eapply settled_trans|]. by destruct k.
Qed.

(** Process [p], with [ptable.lock], has a child and has not been killed, and
    every record is in use. *)
Definition stuck_parent (p : nat) (k : kernel) : Prop :=
  running p [Lptable] k ∧ length (ptable k) = NPROC ∧ perf_full (perf_data k) = true ∧
  killed (ptable k !!! p) = 0 ∧ has_child p (ptable k) = true.

Lemma settled_lookup T T' i : settled T T' → same_proc (T !!! i) (T' !!! i).
Proof.
  intros H. rewrite !list_lookup_total_alt.
  destruct (T !! i) as [r|] eqn:E.
  - by destruct (Forall2_lookup_l _ _ _ _ _ H E) as (r' & -> & ?).
  - apply lookup_ge_None in E. rewrite <- (settled_length _ _ H) in E. by rewrite (proj2 (lookup_ge_None T' i) E).
Qed.

(** A round of the loop reaches [swtch] asleep. *)
Lemma kwp_wait_round n p Q Y k `{!Mono Y} : stuck_parent p k →
  (∀ T', settled (ptable k) T' → Y (sleep_st p (Cproc p) (k <| ptable := T' |>))
     (Some (λ k', kwp (sleep_rest p Lptable) (λ _, kwp (match n with O => waiting | S n' => wait_loop n' p end) Q Y) Y
                      (resumed (intena (kcpu k)) k')))) →
  kwp (wait_loop n p) Q Y k.
Proof.
  intros (R & Hlen & Hf & Hk & Hc) HY. pose proof R as (Hwf & Hh & _ & Hp).
  assert (E : wait_loop n p = (o ← wait_scan NPROC 0 p false;
    match o with
    | inr x => release Lptable;; mret x
    | inl havekids =>
        r ← pget p;
        if negb havekids || istrue (killed r) then release Lptable;; mret (-1)
        else sleep (Cproc p) (Some Lptable);; match n with O => waiting | S n' => wait_loop n' p end
    end)) by (destruct n; cbn [wait_loop]; exact eq_refl).
  rewrite E. kstep. apply kwp_wait_scan_full; [done|done|rewrite Hh; apply not_elem_of_cons; split; [done|apply not_elem_of_nil]|done|symmetry; exact Hlen|].
  intros T' HT. rewrite drop_0, Hc. cbn [orb]. do 2 pstep. cbn [ptable upd].
  destruct (settled_lookup _ _ p HT) as (_ & _ & -> & _). rewrite Hk. cbn [negb istrue Z.eqb orb]. kstep.
  apply (kwp_sleep p); [done| |by apply HY].
  apply (running_data (λ k, k <| ptable := T' |>)); [apply _|by apply settled_length|done|done].
Qed.

(** Giving the processor away asleep on oneself, to be resumed only while
    stuck. *)
Definition asleep_on_self (p : nat) (k : kernel) : Prop :=
  state (ptable k !!! p) = SLEEPING ∧ pchan (ptable k !!! p) = Some (Cproc p) ∧ held k = [Lptable].
Definition stuck (p : nat) : protocol kernel := λ k o,
  match o with Some P => asleep_on_self p k ∧ ∀ k', stuck_parent p k' → P k' | None => True end.
#[local] Instance stuck_mono p : Mono (stuck p).
Proof. intros k P P' H [? HP]. split; [done|]. auto. Qed.

Lemma sleep_st_asleep p k : (p < length (ptable k))%nat → asleep_on_self p (sleep_st p (Cproc p) k).
Proof. intros Hp. unfold asleep_on_self, sleep_st. cbn. by rewrite alter_lookup_total. Qed.

Lemma stuck_resumed p b k : stuck_parent p k → stuck_parent p ((resumed b k) <| ptable ::= alter (λ r, r <| pchan := None |>) p |>).
Proof.
  intros (R & Hlen & Hf & Hk & Hc). pose proof R as (_ & _ & _ & Hp). split_and!; [|by cbn; rewrite length_alter|done| |].
  - by apply running_pset.
  - cbn. by rewrite alter_lookup_total.
  - cbn. rewrite <- Hc. by apply has_child_settled, settled_alter.
Qed.

Lemma kwp_wait_stuck p n : ∀ k, stuck_parent p k → kwp (wait_loop n p) (λ _ _, False) (stuck p) k.
Proof.
  induction n as [|n IH]; intros k Hs; (apply kwp_wait_round; [apply _|done|]); intros T' HT; split.
  1, 3: apply sleep_st_asleep; cbn; rewrite (settled_length _ _ HT); by apply Hs.
  - intros k' Hs'. unfold sleep_rest. rewrite decide_True by done. psteps. intros s E. by exists s.
  - intros k' Hs'. unfold sleep_rest. rewrite decide_True by done. psteps. by apply IH, stuck_resumed.
Qed.

(** From a specification modulo the bookkeeping of the locks to the outcome. *)
Lemma stuck_owp {A} p (o : outcome kernel A) :
  owp (upto (λ _ _, False)) (upto_switch (stuck p)) o → owp (λ _ _, False) (stuck p) o.
Proof.
  induction o as [a s|e s|s r IH|s]; cbn [owp]; [by intros (d & _ & [])|done| |].
  - intros (d & E & (H1 & H2 & H3) & HP). keqv_rd E.
    split; [split_and!; congruence|]. intros k' Hs. by apply IH, (HP k' Hs k').
  - done.
Qed.

Lemma kwp_wait p Q Y k `{!Mono Y} : running p [] k → kwp (wait_loop patience p) Q Y (acq Lptable k) → kwp wait Q Y k.
Proof.
  intros (Hwf & Hh & Hcp & _) H. assert (Lptable ∉ held k) by (rewrite Hh; apply not_elem_of_nil).
  unfold wait. do 2 pstep. rewrite Hcp. by do 4 pstep.
Qed.

(** C39: [wait] never reaps a child once every performance record is in use
    (no operation frees a record).  A process that has a child and is not
    killed gives up the processor asleep on itself, with every other slot,
    zombies included, keeping its state, parent, pid and killed flag, and the
    records unchanged; and whenever it is resumed while it still has a child,
    is not killed and the records are in use, it goes back to sleep: it
    neither returns nor panics. *)
Theorem wait_stuck p k : running p [] k → length (ptable k) = NPROC → perf_full (perf_data k) = true →
  killed (ptable k !!! p) = 0 → has_child p (ptable k) = true →
  ∃ k' resume, wait k = Swtch k' resume ∧ asleep_on_self p k' ∧ perf_data k' = perf_data k ∧
    (∀ i, i ≠ p → same_proc (ptable k !!! i) (ptable k' !!! i)) ∧
    ∀ k2, stuck_parent p k2 → owp (λ _ _, False) (stuck p) (resume k2).
Proof.
  intros R Hlen Hf Hk Hc. assert (stuck_parent p (acq Lptable k)) as Hs by (split; [by apply running_acq|done]).
  assert (owp (λ _ _, False) (stuck p) (wait k)) as Ho.
  { apply stuck_owp. by refine (kwp_wait p _ _ k R (kwp_wait_stuck p _ _ Hs) k _). }
  destruct (kwp_switches wait (λ d, ∃ T', settled (ptable k) T' ∧
    d = sleep_st p (Cproc p) (acq Lptable k <| ptable := T' |>)) k) as (k' & r & d & E & Eq & T' & HT & ->).
  { apply (kwp_wait p); [apply _|done|]. apply kwp_wait_round; [apply _|done|]. intros T' HT. by exists T'. }
  rewrite E in Ho. destruct Ho as [Ha Hr]. exists k', r. keqv_rd Eq.
  split_and!; [done|done|by rewrite Hpf| |done].
  intros i Hi. rewrite Hpt. cbn. rewrite list_lookup_total_alter_ne by done. by apply settled_lookup.
Qed.
End full.

(** The zombie of slot 2 is not reaped when the 64 records are in use. *)
Definition full_kernel : kernel :=
  demo_kernel <| ptable ::= <[2%nat := (run_proc 3) <| state := ZOMBIE |> <| parent := Some 1%nat |>]> |>
    <| perf_data ::= fmap (λ d, d <| pf_valid := 1 |>) |>.

Lemma wait_stuck_witness : ∃ k' resume, @wait 3%nat full_kernel = Swtch k' resume ∧
  asleep_on_self 1 k' ∧ state (ptable k' !!! 2%nat) = ZOMBIE.
Proof.
  destruct (wait_stuck (PAT := 3%nat) 1 full_kernel) as (k' & r & H1 & H2 & _ & H3 & _).
  - split_and!; [|done|done|by apply Nat.ltb_lt]. split_and!; [done|apply NoDup_nil_2|done].
  - by vm_compute.
  - by vm_compute.
  - by vm_compute.
  - by vm_compute.
  - exists k', r. destruct (H3 2%nat) as (H & _); [done|]. refine (conj H1 (conj H2 _)). rewrite H. by vm_compute.
Defined.
