(* ===== verification/Arg.v ===== *)
(** * User memory and system-call arguments

    [fetchint], [fetchstr] and the [arg...] functions of [syscall.c], with the
    access to user memory they make through the page table in [cr3]. *)
From stdpp Require Import base strings numbers gmap list.
From S2P Require Import Prelude Machine KString Kernel Locks Kalloc Proc Console Vm Life.

(** The page-table walk of the processor: the kernel address of the byte that
    [va] maps to. *)
Definition xlate (m : memory) (pgdir va : Z) : option Z :=
  let pde := ld32 m (pgdir + 4 * PDX va) in
  if istrue (Z.land pde PTE_P) then
    let pte := ld32 m (P2V (PTE_ADDR pde) + 4 * PTX va) in
    if istrue (Z.land pte PTE_P) then Some (P2V (PTE_ADDR pte) + va mod PGSIZE) else None
  else None.

(** Loads and stores at user addresses; a missing page faults in the kernel. *)
Definition uld8 (va : Z) : K Z :=
  o ← gets (λ k, xlate (mem k) (P2V (cr3 k)) va);
  match o with
  | Some a => gets (λ k, ld8 (mem k) a)
  | None => panic "trap"
  end.
Definition ust8 (va v : Z) : K unit :=
  o ← gets (λ k, xlate (mem k) (P2V (cr3 k)) va);
  match o with
  | Some a => modify (λ k, k <| mem ::= λ m, st8 m a v |>)
  | None => panic "trap"
  end.

Definition uld32 (va : Z) : K Z :=
  b0 ← uld8 va; b1 ← uld8 (va + 1); b2 ← uld8 (va + 2); b3 ← uld8 (va + 3);
  mret (dec32 [b0; b1; b2; b3]).

Fixpoint ustore (va : Z) (bs : list Z) : K unit :=
  match bs with
  | [] => skip
  | b :: bs' => ust8 va b;; ustore (va + 1) bs'
  end.
Fixpoint uload (va : Z) (n : nat) : K (list Z) :=
  match n with
  | O => mret []
  | S n' => b ← uld8 va; bs ← uload (va + 1) n'; mret (b :: bs)
  end.

(** [myproc()], dereferenced. *)
Definition curproc : K proc :=
  q ← myproc;
  p ← deref q;
  pget p.

(** The answers are [None] for a C result below 0. *)
Definition fetchint (addr : Z) : K (option Z) :=
  r ← curproc;
  if (sz r <=? addr) || (sz r <? u32 (addr + 4)) then mret None
  else v ← uld32 addr; mret (Some (i32 v)).

(** [for(s = *pp; s < ep; s++) if( *s == 0) return s - *pp] *)
Fixpoint fetchstr_loop (fuel : nat) (s ep : Z) (acc : list Z) : K (option (list Z)) :=
  match fuel with
  | O => mret None
  | S f =>
      if s <? ep then
        c ← uld8 s;
        if c =? 0 then mret (Some acc) else fetchstr_loop f (s + 1) ep (acc ++ [c])
      else mret None
  end.

(** The string at [addr]; the C result is its length. *)
Definition fetchstr (addr : Z) : K (option (list Z)) :=
  r ← curproc;
  if sz r <=? addr then mret None
  else fetchstr_loop (S (Z.to_nat (sz r - addr))) addr (sz r) [].

Definition argint (n : Z) : K (option Z) :=
  r ← curproc;
  m ← gets mem;
  fetchint (u32 (ld32 m (tf r + tf_esp) + 4 + 4 * n)).

Definition argptr (n size : Z) : K (option Z) :=
  o ← argint n;
  match o with
  | None => mret None
  | Some i =>
      r ← curproc;
      if (size <? 0) || (sz r <=? u32 i) || (sz r <? u32 (u32 i + size)) then mret None
      else mret (Some (u32 i))
  end.

Definition argstr (n : Z) : K (option (list Z)) :=
  o ← argint n;
  match o with
  | None => mret None
  | Some addr => fetchstr (u32 addr)
  end.
