(* ===== verification/Sysfile.v ===== *)
(** * File system calls

    [sysfile.c]: argument checks, descriptors, and the calls into [file.c] and
    [fs.c]. A C result is returned as the number the process sees. *)
From stdpp Require Import base strings numbers gmap list.
From S2P Require Import Prelude Machine KString Kernel Locks Kalloc Proc Console Vm Sleeplock.
From S2P Require Import Bio Log Fs Pipe ConsoleDev File Life Arg.

(** fcntl.h *)
Definition O_RDONLY : Z := 0x000.
Definition O_WRONLY : Z := 0x001.
Definition O_RDWR : Z := 0x002.
Definition O_CREATE : Z := 0x200.

(** The descriptor and the open file. *)
Definition argfd (n : Z) : K (option (Z * nat)) :=
  o ← argint n;
  match o with
  | None => mret None
  | Some fd =>
      r ← curproc;
      if (fd <? 0) || (Z.of_nat NOFILE <=? fd) then mret None
      else match ofile r !!! Z.to_nat fd with
           | None => mret None
           | Some f => mret (Some (fd, f))
           end
  end.

Definition cur_set (g : proc → proc) : K unit :=
  q ← myproc;
  p ← deref q;
  pset p g.

Definition fdalloc (f : nat) : K Z :=
  r ← curproc;
  match find_idx (λ o : option nat, bool_decide (o = None)) (take NOFILE (ofile r)) with
  | Some fd => cur_set (λ r, r <| ofile ::= <[fd := Some f]> |>);; mret (Z.of_nat fd)
  | None => mret (-1)
  end.

Definition sys_dup : K Z :=
  o ← argfd 0;
  match o with
  | None => mret (-1)
  | Some (_, f) =>
      fd ← fdalloc f;
      if fd <? 0 then mret (-1) else filedup f;; mret fd
  end.

Section sysfile.
Context `{!Patience, !DiskDriver, !DevSw}.

Definition sys_read : K Z :=
  o ← argfd 0;
  match o with
  | None => mret (-1)
  | Some (_, f) =>
      o ← argint 2;
      match o with
      | None => mret (-1)
      | Some n =>
          o ← argptr 1 n;
          match o with
          | None => mret (-1)
          | Some p => '(c, bs) ← fileread f n; ustore p bs;; mret c
          end
      end
  end.

Definition sys_write : K Z :=
  o ← argfd 0;
  match o with
  | None => mret (-1)
  | Some (_, f) =>
      o ← argint 2;
      match o with
      | None => mret (-1)
      | Some n =>
          o ← argptr 1 n;
          match o with
          | None => mret (-1)
          | Some p => bs ← uload p (Z.to_nat n); filewrite f bs n
          end
      end
  end.

Definition sys_close : K Z :=
  o ← argfd 0;
  match o with
  | None => mret (-1)
  | Some (fd, f) =>
      cur_set (λ r, r <| ofile ::= <[Z.to_nat fd := None]> |>);;
      fileclose f;;
      mret 0
  end.

(** The fields of [struct stat] at their offsets; it has 20 bytes. *)
Definition store_stat (p : Z) (st : stat) : K unit :=
  ustore p (enc16 (st_type st));;
  ustore (p + 4) (enc32 (st_dev st));;
  ustore (p + 8) (enc32 (st_ino st));;
  ustore (p + 12) (enc16 (st_nlink st));;
  ustore (p + 16) (enc32 (st_size st)).

Definition sys_fstat : K Z :=
  o ← argfd 0;
  match o with
  | None => mret (-1)
  | Some (_, f) =>
      o ← argptr 1 20;
      match o with
      | None => mret (-1)
      | Some p =>
          '(c, st) ← filestat f;
          (match st with Some st => store_stat p st | None => skip end);;
          mret c
      end
  end.

Definition sys_link : K Z :=
  o ← argstr 0;
  match o with
  | None => mret (-1)
  | Some old =>
      o ← argstr 1;
      match o with
      | None => mret (-1)
      | Some new =>
          begin_op;;
          o ← namei old;
          match o with
          | None => end_op;; mret (-1)
          | Some i =>
              ilock (Some i);;
              ip ← iget_slot i;
              if itype ip =? T_DIR then iunlockput i;; end_op;; mret (-1)
              else
                iset i (λ ip, ip <| inlink := i16 (inlink ip + 1) |>);;
                iupdate i;;
                iunlock (Some i);;
                '(o, nm) ← nameiparent new;
                ok ← (match o with
                      | None => mret false
                      | Some d =>
                          ilock (Some d);;
                          dp ← iget_slot d;
                          ip ← iget_slot i;
                          bad ← (if negb (idev dp =? idev ip) then mret true
                                 else c ← dirlink d nm (inum ip); mret (c <? 0));
                          iunlockput d;;
                          mret (negb bad)
                      end);
                if ok : bool then iput i;; end_op;; mret 0
                else
                  ilock (Some i);;
                  iset i (λ ip, ip <| inlink := i16 (inlink ip - 1) |>);;
                  iupdate i;;
                  iunlockput i;;
                  end_op;;
                  mret (-1)
          end
      end
  end.

(** [isdirempty] from entry [off] on. *)
Fixpoint isdirempty_loop (fuel : nat) (dp : nat) (off : Z) : K bool :=
  match fuel with
  | O => mret true
  | S f =>
      ip ← iget_slot dp;
      if off <? isize ip then
        '(r, de) ← readi dp off DIRENT;
        (if r =? DIRENT then skip else panic "isdirempty: readi");;
        if negb (de_inum de =? 0) then mret false else isdirempty_loop f dp (off + DIRENT)
      else mret true
  end.
Definition isdirempty (dp : nat) : K bool :=
  ip ← iget_slot dp;
  isdirempty_loop (S (Z.to_nat (isize ip / DIRENT + 1))) dp (2 * DIRENT).

Definition sys_unlink : K Z :=
  o ← argstr 0;
  match o with
  | None => mret (-1)
  | Some path =>
      begin_op;;
      '(o, nm) ← nameiparent path;
      match o with
      | None => end_op;; mret (-1)
      | Some d =>
          ilock (Some d);;
          if (namecmp nm (lit ".") =? 0) || (namecmp nm (lit "..") =? 0) then
            iunlockput d;; end_op;; mret (-1)
          else
            o ← dirlookup d nm;
            match o with
            | None => iunlockput d;; end_op;; mret (-1)
            | Some (i, off) =>
                ilock (Some i);;
                ip ← iget_slot i;
                (if inlink ip <? 1 then panic "unlink: nlink < 1" else skip);;
                e ← (if itype ip =? T_DIR then isdirempty i else mret true);
                if negb e then iunlockput i;; iunlockput d;; end_op;; mret (-1)
                else
                  c ← writei d (replicate 16 0) off DIRENT;
                  (if c =? DIRENT then skip else panic "unlink: writei");;
                  (if itype ip =? T_DIR then
                     iset d (λ dp, dp <| inlink := i16 (inlink dp - 1) |>);;
                     iupdate d
                   else skip);;
                  iunlockput d;;
                  iset i (λ ip, ip <| inlink := i16 (inlink ip - 1) |>);;
                  iupdate i;;
                  iunlockput i;;
                  end_op;;
                  mret 0
            end
      end
  end.

Definition create (path : list Z) (ty mj mn : Z) : K (option nat) :=
  '(o, nm) ← nameiparent path;
  match o with
  | None => mret None
  | Some d =>
      ilock (Some d);;
      o ← dirlookup d nm;
      match o with
      | Some (i, _) =>
          iunlockput d;;
          ilock (Some i);;
          ip ← iget_slot i;
          if (ty =? T_FILE) && (itype ip =? T_FILE) then mret (Some i)
          else iunlockput i;; mret None
      | None =>
          dp ← iget_slot d;
          i ← ialloc (idev dp) ty;
          ilock (Some i);;
          iset i (λ ip, ip <| imajor := mj |> <| iminor := mn |> <| inlink := 1 |>);;
          iupdate i;;
          ip ← iget_slot i;
          (if ty =? T_DIR then
             iset d (λ dp, dp <| inlink := i16 (inlink dp + 1) |>);;
             iupdate d;;
             c ← dirlink i (lit ".") (inum ip);
             (if c <? 0 then panic "create dots" else skip);;
             c ← dirlink i (lit "..") (inum dp);
             (if c <? 0 then panic "create dots" else skip)
           else skip);;
          c ← dirlink d nm (inum ip);
          (if c <? 0 then panic "create: dirlink" else skip);;
          iunlockput d;;
          mret (Some i)
      end
  end.

(** The tail of [sys_open] once the inode is found and locked. *)
Definition open_inode (i : nat) (omode : Z) : K Z :=
  o ← filealloc;
  match o with
  | None => iunlockput i;; end_op;; mret (-1)
  | Some f =>
      fd ← fdalloc f;
      if fd <? 0 then fileclose f;; iunlockput i;; end_op;; mret (-1)
      else
        iunlock (Some i);;
        end_op;;
        fset f (λ r, r <| ftype := FD_INODE |> <| fip := Some i |> <| foff := 0 |>
          <| freadable := b2z (negb (istrue (Z.land omode O_WRONLY))) |>
          <| fwritable := b2z (istrue (Z.land omode O_WRONLY) || istrue (Z.land omode O_RDWR)) |>);;
        mret fd
  end.

Definition sys_open : K Z :=
  o ← argstr 0;
  match o with
  | None => mret (-1)
  | Some path =>
      o ← argint 1;
      match o with
      | None => mret (-1)
      | Some omode =>
          begin_op;;
          if istrue (Z.land omode O_CREATE) then
            o ← create path T_FILE 0 0;
            match o with
            | None => end_op;; mret (-1)
            | Some i => open_inode i omode
            end
          else
            o ← namei path;
            match o with
            | None => end_op;; mret (-1)
            | Some i =>
                ilock (Some i);;
                ip ← iget_slot i;
                if (itype ip =? T_DIR) && negb (omode =? O_RDONLY) then
                  iunlockput i;; end_op;; mret (-1)
                else open_inode i omode
            end
      end
  end.

(** The common tail of [sys_mkdir] and [sys_mknod]. *)
Definition finish_create (o : option nat) : K Z :=
  match o with
  | None => end_op;; mret (-1)
  | Some i => iunlockput i;; end_op;; mret 0
  end.

Definition sys_mkdir : K Z :=
  begin_op;;
  o ← argstr 0;
  o ← (match o with None => mret None | Some path => create path T_DIR 0 0 end);
  finish_create o.

Definition sys_mknod : K Z :=
  begin_op;;
  o ← argstr 0;
  o ← (match o with
       | None => mret None
       | Some path =>
           o ← argint 1;
           match o with
           | None => mret None
           | Some mj =>
               o ← argint 2;
               match o with
               | None => mret None
               | Some mn => create path T_DEV (i16 mj) (i16 mn)
               end
           end
       end);
  finish_create o.

Definition sys_chdir : K Z :=
  begin_op;;
  o ← argstr 0;
  o ← (match o with None => mret None | Some path => namei path end);
  match o with
  | None => end_op;; mret (-1)
  | Some i =>
      ilock (Some i);;
      ip ← iget_slot i;
      if negb (itype ip =? T_DIR) then iunlockput i;; end_op;; mret (-1)
      else
        iunlock (Some i);;
        r ← curproc;
        c ← deref (cwd r);
        iput c;;
        end_op;;
        cur_set (λ r, r <| cwd := Some i |>);;
        mret 0
  end.

Definition sys_pipe : K Z :=
  o ← argptr 0 8;
  match o with
  | None => mret (-1)
  | Some fdp =>
      o ← pipealloc;
      match o with
      | None => mret (-1)
      | Some (rf, wf) =>
          fd0 ← fdalloc rf;
          fd1 ← (if fd0 <? 0 then mret (-1) else fdalloc wf);
          if (fd0 <? 0) || (fd1 <? 0) then
            (if 0 <=? fd0 then cur_set (λ r, r <| ofile ::= <[Z.to_nat fd0 := None]> |>) else skip);;
            fileclose rf;;
            fileclose wf;;
            mret (-1)
          else
            ustore fdp (enc32 fd0);;
            ustore (fdp + 4) (enc32 fd1);;
            mret 0
      end
  end.
End sysfile.
