(* ===== verification/Exec.v ===== *)
(** * Program loading

    [exec.c], [loaduvm] of [vm.c] and [sys_exec] of [sysfile.c]. A [goto bad]
    is the answer [None] of the part that takes it. *)
From stdpp Require Import base strings numbers gmap list.
From S2P Require Import Prelude Machine KString Kernel Locks Kalloc Proc Console Vm Sleeplock.
From S2P Require Import Bio Log Fs Pipe ConsoleDev File Life Arg Sysfile.

(** elf.h *)
Definition ELF_MAGIC : Z := 0x464C457F.
Definition ELF_PROG_LOAD : Z := 1.
Definition ELFHDR : Z := 52.
Definition PROGHDR : Z := 32.
Record elfhdr := mkElf { e_magic : Z; e_entry : Z; e_phoff : Z; e_phnum : Z }.
Definition dec_elf (b : list Z) : elfhdr :=
  mkElf (dec32 (slice b 0 4)) (dec32 (slice b 24 4)) (dec32 (slice b 28 4)) (dec16 (slice b 44 2)).
Record proghdr := mkPh { ph_type : Z; ph_off : Z; ph_vaddr : Z; ph_filesz : Z; ph_memsz : Z }.
Definition dec_ph (b : list Z) : proghdr :=
  mkPh (dec32 (slice b 0 4)) (dec32 (slice b 4 4)) (dec32 (slice b 8 4)) (dec32 (slice b 16 4))
    (dec32 (slice b 20 4)).

Section exec.
Context `{!Patience, !DiskDriver, !DevSw}.

Fixpoint loaduvm_loop (fuel : nat) (pgdir addr : Z) (ip : nat) (offset size i : Z) : K Z :=
  match fuel with
  | O => mret 0
  | S f =>
      if i <? size then
        pte ← walkpgdir pgdir (u32 (addr + i)) false;
        (if pte =? 0 then panic "loaduvm: address should exist" else skip);;
        e ← rd32 pte;
        let pa := PTE_ADDR e in
        let n := if size - i <? PGSIZE then size - i else PGSIZE in
        '(r, bs) ← readi ip (u32 (offset + i)) n;
        modify (λ k, k <| mem ::= λ m, store_bytes m (P2V pa) bs |>);;
        if negb (r =? n) then mret (-1)
        else loaduvm_loop f pgdir addr ip offset size (u32 (i + PGSIZE))
      else mret 0
  end.

Definition loaduvm (pgdir addr : Z) (ip : nat) (offset size : Z) : K Z :=
  (if negb (addr mod PGSIZE =? 0) then panic "loaduvm: addr must be page aligned" else skip);;
  loaduvm_loop (S (Z.to_nat (size / PGSIZE + 1))) pgdir addr ip offset size 0.

(** One program header: the new size. *)
Definition exec_segment (pg : Z) (ip : nat) (s : Z) (ph : proghdr) : K (option Z) :=
  if negb (ph_type ph =? ELF_PROG_LOAD) then mret (Some s)
  else if ph_memsz ph <? ph_filesz ph then mret None
  else if u32 (ph_vaddr ph + ph_memsz ph) <? ph_vaddr ph then mret None
  else
    s' ← allocuvm pg s (u32 (ph_vaddr ph + ph_memsz ph));
    if s' =? 0 then mret None
    else if negb (ph_vaddr ph mod PGSIZE =? 0) then mret None
    else
      r ← loaduvm pg (ph_vaddr ph) ip (ph_off ph) (ph_filesz ph);
      if r <? 0 then mret None else mret (Some s').

Fixpoint exec_load (n : nat) (pg : Z) (ip : nat) (s off : Z) : K (option Z) :=
  match n with
  | O => mret (Some s)
  | S n' =>
      '(r, b) ← readi ip (u32 off) PROGHDR;
      if negb (r =? PROGHDR) then mret None
      else
        o ← exec_segment pg ip s (dec_ph b);
        match o with
        | None => mret None
        | Some s' => exec_load n' pg ip s' (i32 (off + PROGHDR))
        end
  end.

(** The argument strings: the stack pointer after them and [ustack[3..]]. *)
Fixpoint exec_args (argv : list (list Z)) (pg : Z) (argc : nat) (sp : Z) (ustack : list Z)
    : K (option (Z * list Z)) :=
  match argv with
  | [] => mret (Some (sp, ustack))
  | a :: argv' =>
      if (MAXARG <=? argc)%nat then mret None
      else
        let sp := Z.land (u32 (sp - (Z.of_nat (length a) + 1))) (u32 (Z.lnot 3)) in
        r ← copyout pg sp (a ++ [0]);
        if r <? 0 then mret None else exec_args argv' pg (S argc) sp (ustack ++ [sp])
  end.

(** The user stack of a new image of size [s]: the stack pointer. *)
Definition exec_stack (pg s : Z) (argv : list (list Z)) : K (option Z) :=
  o ← exec_args argv pg 0 s [];
  match o with
  | None => mret None
  | Some (sp, ustack) =>
      let argc := Z.of_nat (length ustack) in
      let frame := [0xffffffff; argc; u32 (sp - (argc + 1) * 4)] ++ ustack ++ [0] in
      let sp := u32 (sp - (3 + argc + 1) * 4) in
      r ← copyout pg sp (concat (map enc32 frame));
      if r <? 0 then mret None else mret (Some sp)
  end.

(** The characters after the last '/'. *)
Fixpoint last_elem (last s : list Z) : list Z :=
  match s with
  | [] => last
  | c :: s' => last_elem (if c =? 47 then s' else last) s'
  end.

Definition exec_bad (pg : Z) (ip : option nat) : K Z :=
  (if pg =? 0 then skip else freevm pg);;
  (match ip with Some i => iunlockput i;; end_op | None => skip end);;
  mret (-1).

Definition exec_commit (path : list Z) (pg s sp entry : Z) : K Z :=
  q ← myproc;
  cur ← deref q;
  pset cur (λ r, r <| name ::= λ d, safestrcpy_arr d (last_elem path path) 16 |>);;
  r ← pget cur;
  pset cur (λ r, r <| pgdir := pg |>);;
  pset cur (λ r, r <| sz := s |>);;
  wr32 (tf r + tf_eip) entry;;
  wr32 (tf r + tf_esp) sp;;
  switchuvm cur;;
  freevm (pgdir r);;
  mret 0.

Definition exec (path : list Z) (argv : list (list Z)) : K Z :=
  begin_op;;
  o ← namei path;
  match o with
  | None => end_op;; cprintf ("exec: fail" +:+ nl) [];; mret (-1)
  | Some ip =>
      ilock (Some ip);;
      '(r, b) ← readi ip 0 ELFHDR;
      if negb (r =? ELFHDR) then exec_bad 0 (Some ip)
      else
        let elf := dec_elf b in
        if negb (e_magic elf =? ELF_MAGIC) then exec_bad 0 (Some ip)
        else
          pg ← setupkvm;
          if pg =? 0 then exec_bad 0 (Some ip)
          else
            o ← exec_load (Z.to_nat (e_phnum elf)) pg ip 0 (i32 (e_phoff elf));
            match o with
            | None => exec_bad pg (Some ip)
            | Some s =>
                iunlockput ip;;
                end_op;;
                let s := PGROUNDUP s in
                s ← allocuvm pg s (u32 (s + 2 * PGSIZE));
                if s =? 0 then exec_bad pg None
                else
                  clearpteu pg (u32 (s - 2 * PGSIZE));;
                  o ← exec_stack pg s argv;
                  match o with
                  | None => exec_bad pg None
                  | Some sp => exec_commit path pg s sp (e_entry elf)
                  end
            end
  end.

(** The argument vector of [sys_exec], from index [i] on. *)
Fixpoint sys_exec_args (n : nat) (uargv i : Z) (acc : list (list Z)) : K (option (list (list Z))) :=
  match n with
  | O => mret None
  | S n' =>
      o ← fetchint (u32 (uargv + 4 * i));
      match o with
      | None => mret None
      | Some uarg =>
          if uarg =? 0 then mret (Some acc)
          else
            o ← fetchstr (u32 uarg);
            match o with
            | None => mret None
            | Some s => sys_exec_args n' uargv (i + 1) (acc ++ [s])
            end
      end
  end.

Definition sys_exec : K Z :=
  o ← argstr 0;
  match o with
  | None => mret (-1)
  | Some path =>
      o ← argint 1;
      match o with
      | None => mret (-1)
      | Some uargv =>
          o ← sys_exec_args MAXARG (u32 uargv) 0 [];
          match o with
          | None => mret (-1)
          | Some argv => exec path argv
          end
      end
  end.
End exec.
