(* ===== verification/Syscall.v ===== *)
(** * System calls and traps

    [sysproc.c], the ticket calls of [proc.c], the dispatcher of [syscall.c]
    and [trap] of [trap.c]. *)
From stdpp Require Import base strings numbers gmap list.
From S2P Require Import Prelude Machine KString Kernel Locks Kalloc Proc Console Vm Sleeplock.
From S2P Require Import Bio Log Fs Pipe ConsoleDev File Life Arg Sysfile Exec.

(** A call that only passes its first argument on. *)
Definition with_pid (f : Z → K Z) : K Z :=
  o ← argint 0;
  match o with None => mret (-1) | Some x => f x end.

Definition sys_kill : K Z := with_pid kill.
Definition sys_getpid : K Z := r ← curproc; mret (pid r).
Definition sys_job_position : K Z := with_pid job_position.
Definition sys_get_creation_time : K Z := with_pid get_creation_time.
Definition sys_get_start_time : K Z := with_pid get_start_time.
Definition sys_get_completion_time : K Z := with_pid get_completion_time.
Definition sys_get_total_run_time : K Z := with_pid get_total_run_time.
Definition sys_get_total_ready_time : K Z := with_pid get_total_ready_time.
Definition sys_ticks_run : K Z := with_pid getrunticks.
Definition sys_get_tickets : K Z := with_pid gettickets.

Definition sys_set_tickets : K Z :=
  o ← argint 0;
  match o with
  | None => mret (-1)
  | Some t =>
      if t <=? 0 then mret (-1)
      else
        q ← myproc;
        match q with
        | None => mret (-1)
        | Some p =>
            acquire Lptable;;
            pset p (λ r, r <| tickets := t |>);;
            release Lptable;;
            mret 0
        end
  end.

Definition sys_sbrk : K Z :=
  o ← argint 0;
  match o with
  | None => mret (-1)
  | Some n =>
      r ← curproc;
      let addr := i32 (sz r) in
      c ← growproc n;
      if c <? 0 then mret (-1) else mret addr
  end.

(** The loop of [sys_sleep]; the comparison is unsigned. *)
Fixpoint sys_sleep_loop (fuel : nat) (n ticks0 : Z) : K Z :=
  t ← gets ticks;
  if u32 (t - ticks0) <? u32 n then
    r ← curproc;
    if istrue (killed r) then release Lticks;; mret (-1)
    else
      sleep Cticks (Some Lticks);;
      match fuel with O => waiting | S f => sys_sleep_loop f n ticks0 end
  else release Lticks;; mret 0.

Definition sys_sleep `{!Patience} : K Z :=
  o ← argint 0;
  match o with
  | None => mret (-1)
  | Some n =>
      acquire Lticks;;
      ticks0 ← gets ticks;
      sys_sleep_loop patience n ticks0
  end.

Definition sys_uptime : K Z :=
  acquire Lticks;;
  xticks ← gets ticks;
  release Lticks;;
  mret (i32 xticks).

Section syscall.
Context `{!Patience, !DiskDriver, !DevSw}.

Definition sys_fork : K Z := fork.
Definition sys_exit : K Z := exit;; mret 0.
Definition sys_wait : K Z := wait.

(** The table [syscalls], indexed from 1 as in [syscall.h]. *)
Definition syscalls : list (K Z) :=
  [ sys_fork; sys_exit; sys_wait; sys_pipe; sys_read; sys_kill; sys_exec; sys_fstat; sys_chdir;
    sys_dup; sys_getpid; sys_sbrk; sys_sleep; sys_uptime; sys_open; sys_write; sys_mknod;
    sys_unlink; sys_link; sys_mkdir; sys_close; sys_ticks_run; sys_set_tickets; sys_get_tickets;
    sys_job_position; sys_get_creation_time; sys_get_start_time; sys_get_completion_time;
    sys_get_total_run_time; sys_get_total_ready_time ].

(** [syscalls[num]], when [num] is in the table. *)
Definition syscall_entry (num : Z) : option (K Z) :=
  if (0 <? num) && (num <? 31) then syscalls !! Z.to_nat (num - 1) else None.

Definition syscall : K unit :=
  q ← myproc;
  cur ← deref q;
  r ← pget cur;
  num ← gets (λ k, i32 (ld32 (mem k) (tf r + tf_eax)));
  match syscall_entry num with
  | Some f =>
      v ← f;
      r ← pget cur;
      wr32 (tf r + tf_eax) (u32 v)
  | None =>
      cprintf ("%d %s: unknown sys call %d" +:+ nl) [AInt (pid r); AStr (Some (cstr (name r))); AInt num];;
      r ← pget cur;
      wr32 (tf r + tf_eax) (u32 (-1))
  end.

(** ** trap.c *)
Definition T_SYSCALL : Z := 64.
Definition T_IRQ0 : Z := 32.
Definition IRQ_TIMER : Z := 0.
Definition IRQ_KBD : Z := 1.
Definition IRQ_COM1 : Z := 4.
Definition IRQ_IDE : Z := 14.
Definition IRQ_SPURIOUS : Z := 31.
Definition tf_trapno : Z := 48.
Definition tf_err : Z := 52.

(** [myproc()->killed], for a process that exists. *)
Definition exit_if_killed : K unit :=
  r ← curproc;
  if istrue (killed r) then exit else skip.

(** [if(myproc() && myproc()->killed && (tf->cs&3) == DPL_USER) exit();] *)
Definition exit_if_killed_user (cs : Z) : K unit :=
  q ← myproc;
  match q with
  | None => skip
  | Some p =>
      r ← pget p;
      if istrue (killed r) && (Z.land cs 3 =? DPL_USER) then exit else skip
  end.

(** The clock interrupt on processor [id]. *)
Definition trap_timer (id : Z) : K unit :=
  (if id =? 0 then
     acquire Lticks;;
     modify (λ k, k <| ticks ::= λ t, u32 (t + 1) |>);;
     wakeup Cticks;;
     release Lticks
   else skip);;
  q ← myproc;
  match q with
  | None => skip
  | Some p =>
      r ← pget p;
      if decide (state r = RUNNING) then pset p (λ r, r <| runticks := i32 (runticks r + 1) |>)
      else skip
  end.

(** An unexpected trap. *)
Definition trap_fault (id trapno err eip cs cr2 : Z) : K unit :=
  q ← myproc;
  match q with
  | Some p =>
      if Z.land cs 3 =? 0 then
        cprintf ("unexpected trap %d from cpu %d eip %x (cr2=0x%x)" +:+ nl)
          [AInt trapno; AInt id; AInt eip; AInt cr2];;
        panic "trap"
      else
        r ← pget p;
        cprintf ("pid %d %s: trap %d err %d on cpu %d eip 0x%x addr 0x%x--kill proc" +:+ nl)
          [AInt (pid r); AStr (Some (cstr (name r))); AInt trapno; AInt err; AInt id; AInt eip; AInt cr2];;
        pset p (λ r, r <| killed := 1 |>)
  | None =>
      cprintf ("unexpected trap %d from cpu %d eip %x (cr2=0x%x)" +:+ nl)
        [AInt trapno; AInt id; AInt eip; AInt cr2];;
      panic "trap"
  end.

(** The dispatch on [trapno]; [chars] are the characters a device delivers. The
    acknowledgement of the interrupt, [lapiceoi], is left out: it is a write to the
    interrupt controller ([Apic.v]) and no state of the kernel. *)
Definition trap_irq (id trapno err eip cs cr2 : Z) (chars : list Z) : K unit :=
  if trapno =? T_IRQ0 + IRQ_TIMER then trap_timer id
  else if trapno =? T_IRQ0 + IRQ_IDE then ideintr
  else if trapno =? T_IRQ0 + IRQ_IDE + 1 then skip
  else if trapno =? T_IRQ0 + IRQ_KBD then consoleintr chars
  else if trapno =? T_IRQ0 + IRQ_COM1 then consoleintr chars
  else if (trapno =? T_IRQ0 + 7) || (trapno =? T_IRQ0 + IRQ_SPURIOUS) then
    cprintf ("cpu%d: spurious interrupt at %x:%x" +:+ nl) [AInt id; AInt cs; AInt eip]
  else trap_fault id trapno err eip cs cr2.

(** [trap] on processor [id], with [cr2] the faulting address. *)
Definition trap (t id cr2 : Z) (chars : list Z) : K unit :=
  trapno ← rd32 (t + tf_trapno);
  if trapno =? T_SYSCALL then
    exit_if_killed;;
    q ← myproc;
    p ← deref q;
    pset p (λ r, r <| tf := t |>);;
    syscall;;
    exit_if_killed
  else
    err ← rd32 (t + tf_err);
    eip ← rd32 (t + tf_eip);
    cs ← gets (λ k, ld16 (mem k) (t + tf_cs));
    trap_irq id trapno err eip cs cr2 chars;;
    exit_if_killed_user cs;;
    q ← myproc;
    (match q with
     | None => skip
     | Some p =>
         r ← pget p;
         if bool_decide (state r = RUNNING) && (trapno =? T_IRQ0 + IRQ_TIMER) then yield else skip
     end);;
    exit_if_killed_user cs.
End syscall.
