(* ===== verification/Apic.v ===== *)
(** * Interrupt controllers and the clock

    [lapic.c], [ioapic.c] and [picirq.c]. A controller is the registers the
    code reads and writes: of the local APIC and of the ports the writes are
    kept in order, of the I/O APIC the register file behind its index and data
    words. What a device answers to a read at some time is a parameter. *)
From stdpp Require Import base strings numbers gmap list.
From S2P Require Import Prelude Machine KString Syscall.

Definition IRQ_ERROR : Z := 19.

(** ** lapic.c: registers *)
Definition ID : Z := 0x0020 / 4.
Definition VER : Z := 0x0030 / 4.
Definition TPR : Z := 0x0080 / 4.
Definition EOI : Z := 0x00B0 / 4.
Definition SVR : Z := 0x00F0 / 4.
Definition ENABLE : Z := 0x00000100.
Definition ESR : Z := 0x0280 / 4.
Definition ICRLO : Z := 0x0300 / 4.
Definition INIT : Z := 0x00000500.
Definition STARTUP : Z := 0x00000600.
Definition DELIVS : Z := 0x00001000.
Definition ASSERT : Z := 0x00004000.
Definition LEVEL : Z := 0x00008000.
Definition BCAST : Z := 0x00080000.
Definition ICRHI : Z := 0x0310 / 4.
Definition TIMER : Z := 0x0320 / 4.
Definition X1 : Z := 0x0000000B.
Definition PERIODIC : Z := 0x00020000.
Definition PCINT : Z := 0x0340 / 4.
Definition LINT0 : Z := 0x0350 / 4.
Definition LINT1 : Z := 0x0360 / 4.
Definition ERROR : Z := 0x0370 / 4.
Definition MASKED : Z := 0x00010000.
Definition TICR : Z := 0x0380 / 4.
Definition TDCR : Z := 0x03E0 / 4.

(** Writes to the local APIC, in order: an index and a value each. *)
Definition lapicw (index value : Z) (w : list (Z * Z)) : list (Z * Z) := w ++ [(index, value)].

(** The loop that polls [ICRLO]: [icr] is what the polls answer. *)
Fixpoint lapic_poll (n : nat) (icr : nat → Z) (i : nat) : option unit :=
  match n with
  | O => None
  | S n' => if istrue (Z.land (icr i) DELIVS) then lapic_poll n' icr (S i) else Some tt
  end.

Definition lapicinit (n : nat) (lapic : Z) (ver : Z) (icr : nat → Z) (w : list (Z * Z)) : option (list (Z * Z)) :=
  if negb (istrue lapic) then Some w
  else
    let w := lapicw SVR (Z.lor ENABLE (T_IRQ0 + IRQ_SPURIOUS)) w in
    let w := lapicw TDCR X1 w in
    let w := lapicw TIMER (Z.lor PERIODIC (T_IRQ0 + IRQ_TIMER)) w in
    let w := lapicw TICR 10000000 w in
    let w := lapicw LINT0 MASKED w in
    let w := lapicw LINT1 MASKED w in
    let w := if 4 <=? Z.land (Z.shiftr ver 16) 0xFF then lapicw PCINT MASKED w else w in
    let w := lapicw ERROR (T_IRQ0 + IRQ_ERROR) w in
    let w := lapicw ESR 0 w in
    let w := lapicw ESR 0 w in
    let w := lapicw EOI 0 w in
    let w := lapicw ICRHI 0 w in
    let w := lapicw ICRLO (Z.lor (Z.lor BCAST INIT) LEVEL) w in
    _ ← lapic_poll n icr 0;
    Some (lapicw TPR 0 w).

Definition lapicid (lapic id : Z) : Z := if negb (istrue lapic) then 0 else Z.shiftr id 24.
Definition lapiceoi (lapic : Z) (w : list (Z * Z)) : list (Z * Z) := if istrue lapic then lapicw EOI 0 w else w.

Definition CMOS_PORT : Z := 0x70.
(** The warm reset vector, [P2V(0x40<<4 | 0x67)]. *)
Definition WRV : Z := P2V (Z.lor (Z.shiftl 0x40 4) 0x67).

(** [lapicstartap]: the bytes sent to ports, the memory, and the writes to the
    local APIC. *)
Definition lapicstartap (apicid addr : Z) (m : memory) (w : list (Z * Z)) : list (Z * Z) * memory * list (Z * Z) :=
  let ports := [(CMOS_PORT, 0xF); (CMOS_PORT + 1, 0x0A)] in
  let m := st16 m WRV 0 in
  let m := st16 m (WRV + 2) (Z.shiftr addr 4) in
  let w := lapicw ICRHI (u32 (Z.shiftl apicid 24)) w in
  let w := lapicw ICRLO (Z.lor (Z.lor INIT LEVEL) ASSERT) w in
  let w := lapicw ICRLO (Z.lor INIT LEVEL) w in
  let startup w := lapicw ICRLO (Z.lor STARTUP (Z.shiftr addr 12)) (lapicw ICRHI (u32 (Z.shiftl apicid 24)) w) in
  (ports, m, startup (startup w)).

(** ** The real-time clock *)
Record rtcdate := mkDate { second : Z; minute : Z; hour : Z; day : Z; month : Z; year : Z }.
#[export] Instance rtcdate_eq_dec : EqDecision rtcdate.
Proof. solve_decision. Defined.
Definition CMOS_STATA : Z := 0x0a.
Definition CMOS_STATB : Z := 0x0b.
Definition CMOS_UIP : Z := Z.shiftl 1 7.
Definition SECS : Z := 0x00.
Definition MINS : Z := 0x02.
Definition HOURS : Z := 0x04.
Definition DAY : Z := 0x07.
Definition MONTH : Z := 0x08.
Definition YEAR : Z := 0x09.

Section rtc.
(** What the clock answers for a register at the [t]th read. *)
Variable rtc : Z → nat → Z.

Definition cmos_read (reg : Z) (t : nat) : Z * nat := (rtc reg t, S t).
Definition fill_rtcdate (t : nat) : rtcdate * nat :=
  let '(s, t) := cmos_read SECS t in
  let '(mi, t) := cmos_read MINS t in
  let '(h, t) := cmos_read HOURS t in
  let '(d, t) := cmos_read DAY t in
  let '(mo, t) := cmos_read MONTH t in
  let '(y, t) := cmos_read YEAR t in
  (mkDate s mi h d mo y, t).

Fixpoint cmos_loop (n : nat) (t : nat) : option (rtcdate * nat) :=
  match n with
  | O => None
  | S n' =>
      let '(t1, t) := fill_rtcdate t in
      let '(a, t) := cmos_read CMOS_STATA t in
      if istrue (Z.land a CMOS_UIP) then cmos_loop n' t
      else
        let '(t2, t) := fill_rtcdate t in
        if decide (t1 = t2) then Some (t1, t) else cmos_loop n' t
  end.

Definition CONV (x : Z) : Z := Z.shiftr x 4 * 10 + Z.land x 0xf.
Definition conv_date (d : rtcdate) : rtcdate :=
  mkDate (CONV (second d)) (CONV (minute d)) (CONV (hour d)) (CONV (day d)) (CONV (month d)) (CONV (year d)).

(** [cmostime] with [n] turns for its loop, from the [t]th read on. *)
Definition cmostime (n t : nat) : option (rtcdate * nat) :=
  let '(sb, t) := cmos_read CMOS_STATB t in
  let bcd := Z.land sb (Z.shiftl 1 2) =? 0 in
  '(t1, t) ← cmos_loop n t;
  let t1 := if bcd then conv_date t1 else t1 in
  Some (mkDate (second t1) (minute t1) (hour t1) (day t1) (month t1) (year t1 + 2000), t).
End rtc.

(** ** ioapic.c *)
Definition REG_ID : Z := 0x00.
Definition REG_VER : Z := 0x01.
Definition REG_TABLE : Z := 0x10.
Definition INT_DISABLED : Z := 0x00010000.

(** The I/O APIC: the word [reg] and the registers it selects. *)
Record ioapic := mkIoapic { io_reg : Z; io_regs : gmap Z Z }.
#[export] Instance eta_ioapic : Eta ioapic := λ r, mkIoapic (io_reg r) (io_regs r).
Definition ioapicread (reg : Z) (d : ioapic) : Z * ioapic :=
  let d := d <| io_reg := reg |> in (default 0 (io_regs d !! io_reg d), d).
Definition ioapicwrite (reg data : Z) (d : ioapic) : ioapic :=
  let d := d <| io_reg := reg |> in d <| io_regs ::= <[io_reg d := u32 data]> |>.

Fixpoint ioapic_mask (n : nat) (i : Z) (d : ioapic) : ioapic :=
  match n with
  | O => d
  | S n' =>
      let d := ioapicwrite (REG_TABLE + 2 * i) (Z.lor INT_DISABLED (T_IRQ0 + i)) d in
      let d := ioapicwrite (REG_TABLE + 2 * i + 1) 0 d in
      ioapic_mask n' (i + 1) d
  end.

(** [ioapicinit]: whether it prints its warning, and the device after it. The
    loop runs from 0 to [maxintr]. *)
Definition ioapicinit (ioapicid : Z) (d : ioapic) : bool * ioapic :=
  let '(ver, d) := ioapicread REG_VER d in
  let maxintr := Z.land (Z.shiftr ver 16) 0xFF in
  let '(id, d) := ioapicread REG_ID d in
  (negb (Z.shiftr id 24 =? ioapicid), ioapic_mask (Z.to_nat (maxintr + 1)) 0 d).

Definition ioapicenable (irq cpunum : Z) (d : ioapic) : ioapic :=
  let d := ioapicwrite (REG_TABLE + 2 * irq) (T_IRQ0 + irq) d in
  ioapicwrite (REG_TABLE + 2 * irq + 1) (Z.shiftl cpunum 24) d.

(** ** picirq.c *)
Definition IO_PIC1 : Z := 0x20.
Definition IO_PIC2 : Z := 0xA0.
Definition picinit : list (Z * Z) := [(IO_PIC1 + 1, 0xFF); (IO_PIC2 + 1, 0xFF)].

(** ** The time is never torn *)

(** The bytes of a date as the clock keeps them. *)
Definition rtc_byte (bcd : bool) (x : Z) : Z := if bcd then 16 * (x / 10) + x mod 10 else x.
Definition date_ok (d : rtcdate) : Prop :=
  0 ≤ second d < 60 ∧ 0 ≤ minute d < 60 ∧ 0 ≤ hour d < 24 ∧ 1 ≤ day d < 32 ∧ 1 ≤ month d < 13 ∧ 2000 ≤ year d < 2100.
Definition raw_date (bcd : bool) (d : rtcdate) : rtcdate :=
  mkDate (rtc_byte bcd (second d)) (rtc_byte bcd (minute d)) (rtc_byte bcd (hour d))
    (rtc_byte bcd (day d)) (rtc_byte bcd (month d)) (rtc_byte bcd (year d - 2000)).

(** At the [t]th read the clock shows [d]. *)
Definition shows (rtc : Z → nat → Z) (d : rtcdate) (t : nat) : Prop :=
  rtc SECS t = second d ∧ rtc MINS t = minute d ∧ rtc HOURS t = hour d ∧
  rtc DAY t = day d ∧ rtc MONTH t = month d ∧ rtc YEAR t = year d.

Lemma CONV_bcd x : 0 ≤ x < 100 → CONV (rtc_byte true x) = x.
Proof.
  intros Hx. unfold CONV, rtc_byte. change 0xf with (Z.ones 4).
  rewrite Z.land_ones, Z.shiftr_div_pow2 by lia. change (2 ^ 4) with 16. Z.div_mod_to_equations. lia.
Qed.

Lemma conv_raw d : date_ok d →
  conv_date (raw_date true d) = mkDate (second d) (minute d) (hour d) (day d) (month d) (year d - 2000).
Proof. intros (?&?&?&?&?&?). unfold conv_date, raw_date. cbn [second minute hour day month year]. by rewrite !CONV_bcd by lia. Qed.

Section torn.
Context (rtc : Z → nat → Z) (d d' : rtcdate) (n0 n1 : nat).
(** The clock steps once, from [d] to [d'], at read [n0]; from read [n1] on it
    reports no update in progress. *)
Hypothesis Hold : ∀ t, (t < n0)%nat → shows rtc d t.
Hypothesis Hnew : ∀ t, (n0 ≤ t)%nat → shows rtc d' t.
Hypothesis Huip : ∀ t, (n1 ≤ t)%nat → Z.land (rtc CMOS_STATA t) CMOS_UIP = 0.

Lemma fill_old t : (t + 5 < n0)%nat → fill_rtcdate rtc t = (d, t + 6)%nat.
Proof.
  intros H. unfold fill_rtcdate, cmos_read. destruct (Hold t) as (-> & _); [lia|].
  destruct (Hold (S t)) as (_ & -> & _); [lia|]. destruct (Hold (S (S t))) as (_ & _ & -> & _); [lia|].
  destruct (Hold (S (S (S t)))) as (_ & _ & _ & -> & _); [lia|].
  destruct (Hold (S (S (S (S t))))) as (_ & _ & _ & _ & -> & _); [lia|].
  destruct (Hold (S (S (S (S (S t)))))) as (_ & _ & _ & _ & _ & ->); [lia|]. f_equal; [by destruct d|lia].
Qed.
Lemma fill_new t : (n0 ≤ t)%nat → fill_rtcdate rtc t = (d', t + 6)%nat.
Proof.
  intros H. unfold fill_rtcdate, cmos_read. destruct (Hnew t) as (-> & _); [lia|].
  destruct (Hnew (S t)) as (_ & -> & _); [lia|]. destruct (Hnew (S (S t))) as (_ & _ & -> & _); [lia|].
  destruct (Hnew (S (S (S t)))) as (_ & _ & _ & -> & _); [lia|].
  destruct (Hnew (S (S (S (S t))))) as (_ & _ & _ & _ & -> & _); [lia|].
  destruct (Hnew (S (S (S (S (S t)))))) as (_ & _ & _ & _ & _ & ->); [lia|]. f_equal; [by destruct d'|lia].
Qed.
Lemma fill_time t : (fill_rtcdate rtc t).2 = (t + 6)%nat.
Proof. cbn. lia. Qed.

(** Two equal readings are one of the two dates, wherever the step falls. *)
Lemma fill_twice t t1 t2 : fill_rtcdate rtc t = (t1, t + 6)%nat → fill_rtcdate rtc (t + 7) = (t2, t + 13)%nat →
  t1 = t2 → t1 = d ∨ t1 = d'.
Proof.
  intros E1 E2 E. destruct (decide (n0 ≤ t + 7)%nat).
  - right. rewrite fill_new in E2 by lia. congruence.
  - left. rewrite fill_old in E1 by lia. congruence.
Qed.

Lemma cmos_loop_step n t : ∃ t1 t2,
  fill_rtcdate rtc t = (t1, t + 6)%nat ∧ fill_rtcdate rtc (t + 7) = (t2, t + 13)%nat ∧
  cmos_loop rtc (S n) t =
    if istrue (Z.land (rtc CMOS_STATA (t + 6)%nat) CMOS_UIP) then cmos_loop rtc n (t + 7)%nat
    else if decide (t1 = t2) then Some (t1, t + 13)%nat else cmos_loop rtc n (t + 13)%nat.
Proof.
  destruct (fill_rtcdate rtc t) as [t1 u] eqn:E1. destruct (fill_rtcdate rtc (t + 7)) as [t2 v] eqn:E2.
  pose proof (fill_time t) as F1. pose proof (fill_time (t + 7)) as F2. rewrite E1 in F1. rewrite E2 in F2. cbn in F1, F2.
  exists t1, t2. subst u v. replace (t + 7 + 6)%nat with (t + 13)%nat in * by lia. split_and!; [done..|].
  cbn [cmos_loop]. rewrite E1. unfold cmos_read. replace (S (t + 6)) with (t + 7)%nat by lia. by rewrite E2.
Qed.

Lemma cmos_loop_sound n : ∀ t, (n0 `max` n1 ≤ t + n)%nat →
  ∃ r t', cmos_loop rtc (S n) t = Some (r, t') ∧ (r = d ∨ r = d').
Proof.
  induction n as [|n IH]; intros t Hn.
  - destruct (cmos_loop_step 0 t) as (t1 & t2 & E1 & E2 & E). rewrite E. rewrite (Huip (t + 6)) by lia. cbn [istrue Z.eqb negb].
    rewrite fill_new in E1, E2 by lia. injection E1 as <-. injection E2 as <-. rewrite decide_True by done. eauto.
  - destruct (cmos_loop_step (S n) t) as (t1 & t2 & E1 & E2 & E). rewrite E. destruct (istrue _); [apply IH; lia|].
    case_decide as Ht; [|apply IH; lia]. eauto using fill_twice.
Qed.
End torn.

(** C30: [cmostime] is not torn by the clock's update. When the clock steps at
    most once during the call, at any of its reads, and reports updates in
    progress for a bounded time, the call ends and answers exactly the old or
    exactly the new date, from binary as well as from decimal registers. *)
Theorem cmostime_untorn rtc bcd d d' n0 n1 n t : date_ok d → date_ok d' →
  (∀ u, (u < n0)%nat → shows rtc (raw_date bcd d) u) → (∀ u, (n0 ≤ u)%nat → shows rtc (raw_date bcd d') u) →
  (∀ u, (n1 ≤ u)%nat → Z.land (rtc CMOS_STATA u) CMOS_UIP = 0) →
  (∀ u, (Z.land (rtc CMOS_STATB u) 4 =? 0) = bcd) → (n0 `max` n1 < n)%nat →
  ∃ r t', cmostime rtc n t = Some (r, t') ∧ (r = d ∨ r = d').
Proof.
  intros Hd Hd' Ho Hn Hu Hb Hf. destruct n as [|n]; [lia|]. unfold cmostime, cmos_read.
  destruct (cmos_loop_sound rtc _ _ n0 n1 Ho Hn Hu n (S t)) as (r & t' & E & Hr); [lia|].
  rewrite E. cbn [mbind option_bind]. change (Z.shiftl 1 2) with 4. rewrite (Hb t). eexists _, _. split; [done|].
  assert (Hc : ∀ x, date_ok x → (let t1 := if bcd then conv_date (raw_date bcd x) else raw_date bcd x in
    mkDate (second t1) (minute t1) (hour t1) (day t1) (month t1) (year t1 + 2000)) = x).
  { intros x Hx. destruct bcd; [rewrite conv_raw by done|]; destruct x; cbn; f_equal; lia. }
  destruct Hr as [->| ->]; [left|right]; by apply Hc.
Qed.

(** A new year in the middle of a reading. *)
Definition eve : rtcdate := mkDate 59 59 23 31 12 2024.
Definition newyear : rtcdate := mkDate 0 0 0 1 1 2025.
Definition demo_rtc (r : Z) (t : nat) : Z :=
  let d := raw_date true (if decide (t < 3)%nat then eve else newyear) in
  if r =? SECS then second d else if r =? MINS then minute d else if r =? HOURS then hour d
  else if r =? DAY then day d else if r =? MONTH then month d else if r =? YEAR then year d
  else if r =? CMOS_STATA then (if decide (t < 8)%nat then 0x80 else 0) else 0.
Lemma cmostime_untorn_witness :
  (∃ r t, cmostime demo_rtc 9 0 = Some (r, t) ∧ (r = eve ∨ r = newyear)) ∧ (fill_rtcdate demo_rtc 1).1 ≠ raw_date true eve.
Proof.
  split; [|by vm_compute].
  apply (cmostime_untorn demo_rtc true eve newyear 3 8 9 0); [by vm_compute|by vm_compute| | | |done|lia].
  - intros u Hu. unfold shows, demo_rtc. by rewrite decide_True by done.
  - intros u Hu. unfold shows, demo_rtc. by rewrite decide_False by lia.
  - intros u Hu. unfold demo_rtc. by rewrite (decide_False (P := (u < 8)%nat)) by lia.
Defined.

(** ** Interrupt routing *)

(** The two words of entry [i] of the redirection table. *)
Definition io_low (d : ioapic) (i : Z) : Z := default 0 (io_regs d !! (REG_TABLE + 2 * i)).
Definition io_high (d : ioapic) (i : Z) : Z := default 0 (io_regs d !! (REG_TABLE + 2 * i + 1)).

Lemma io_set i lo hi d j :
  let d' := ioapicwrite (REG_TABLE + 2 * i + 1) hi (ioapicwrite (REG_TABLE + 2 * i) lo d) in
  io_low d' j = (if decide (j = i) then u32 lo else io_low d j) ∧
  io_high d' j = (if decide (j = i) then u32 hi else io_high d j).
Proof.
  cbv zeta. unfold io_low, io_high, ioapicwrite, upd, REG_TABLE. cbn [io_regs io_reg].
  rewrite !lookup_insert. repeat case_decide; (done || lia).
Qed.

Lemma ioapic_mask_spec n : ∀ i d j,
  io_low (ioapic_mask n i d) j =
    (if decide (i ≤ j < i + Z.of_nat n) then u32 (Z.lor INT_DISABLED (T_IRQ0 + j)) else io_low d j) ∧
  io_high (ioapic_mask n i d) j = if decide (i ≤ j < i + Z.of_nat n) then 0 else io_high d j.
Proof.
  induction n as [|n IH]; intros i d j; cbn [ioapic_mask]; [by repeat (case_decide; [lia|])|].
  destruct (IH (i + 1) (ioapicwrite (REG_TABLE + 2 * i + 1) 0 (ioapicwrite (REG_TABLE + 2 * i) (Z.lor INT_DISABLED (T_IRQ0 + i)) d)) j)
    as [-> ->]. destruct (io_set i (Z.lor INT_DISABLED (T_IRQ0 + i)) 0 d j) as [-> ->].
  repeat case_decide; subst; (done || lia).
Qed.

Lemma lor_disjoint x : 0 ≤ x < 65536 → Z.lor 0x10000 x = 0x10000 + x.
Proof.
  intros Hx. rewrite <- Z.add_lor_land. replace (Z.land 0x10000 x) with 0; [lia|]. symmetry.
  apply Z.bits_inj'. intros n Hn. rewrite Z.land_spec, Z.bits_0. change 0x10000 with (2 ^ 16).
  rewrite Z.pow2_bits_eqb by lia. destruct (Z.eqb_spec 16 n) as [<-|]; [|done]. cbn [andb].
  apply Z.testbit_false; [lia|]. rewrite Z.div_small by lia. done.
Qed.

(** The entry the code means for interrupt [i] to have once it was routed to
    the processors [l], the last one counting, or to none. *)
Definition routed (l : list (Z * Z)) (i : Z) : option Z := snd <$> last (filter (λ e, e.1 = i) l).
Definition enable_all (l : list (Z * Z)) (d : ioapic) : ioapic := foldl (λ d e, ioapicenable e.1 e.2 d) d l.

Lemma enable_all_spec l d i :
  io_low (enable_all l d) i = (if routed l i then u32 (T_IRQ0 + i) else io_low d i) ∧
  io_high (enable_all l d) i = match routed l i with Some c => u32 (Z.shiftl c 24) | None => io_high d i end.
Proof.
  induction l as [|[irq c] l IH] using rev_ind; [done|]. unfold enable_all in *. rewrite foldl_app. cbn [foldl fst snd].
  destruct (io_set irq (T_IRQ0 + irq) (Z.shiftl c 24) (foldl (λ d e, ioapicenable e.1 e.2 d) d l) i) as [E1 E2].
  unfold ioapicenable at 1 3. cbv zeta. rewrite E1, E2. unfold routed. rewrite filter_app, filter_cons. cbn [fst].
  destruct (decide (i = irq)) as [->|Hn].
  - rewrite decide_True by done. rewrite filter_nil, last_snoc. done.
  - rewrite decide_False by done. rewrite filter_nil, app_nil_r. apply IH.
Qed.

(** C31: after [ioapicinit] and any calls of [ioapicenable], every interrupt of
    the controller is masked and routed nowhere, except those that were
    enabled, which arrive as vector [T_IRQ0 + irq] at the processor named last. *)
Theorem ioapic_routes id d l i : 
  let maxintr := Z.land (Z.shiftr (default 0 (io_regs d !! REG_VER)) 16) 0xFF in
  let d' := enable_all l (ioapicinit id d).2 in
  0 ≤ i ≤ maxintr →
  match routed l i with
  | Some c => io_low d' i = T_IRQ0 + i ∧ io_high d' i = u32 (Z.shiftl c 24)
  | None => io_low d' i = INT_DISABLED + T_IRQ0 + i ∧ io_high d' i = 0
  end.
Proof.
  intros maxintr d' Hi. assert (maxintr ≤ 255).
  { unfold maxintr. generalize (Z.shiftr (default 0 (io_regs d !! REG_VER)) 16) as x. intros x.
    change (Z.land x 0xFF) with (Z.land x (Z.ones 8)). rewrite Z.land_ones by lia.
    pose proof (Z.mod_pos_bound x (2 ^ 8) ltac:(lia)). lia. }
  destruct (enable_all_spec l (ioapicinit id d).2 i) as [E1 E2]. fold d' in E1, E2.
  destruct (ioapic_mask_spec (Z.to_nat (maxintr + 1)) 0 (d <| io_reg := REG_VER |> <| io_reg := REG_ID |>) i) as [M1 M2].
  assert (Hu : ∀ x, 0 ≤ x < 1000000 → u32 x = x) by (intros; unfold u32; apply Z.mod_small; lia).
  rewrite decide_True in M1, M2 by lia. change (ioapicinit id d).2 with
    (ioapic_mask (Z.to_nat (maxintr + 1)) 0 (d <| io_reg := REG_VER |> <| io_reg := REG_ID |>)) in E1, E2.
  rewrite M1 in E1. rewrite M2 in E2. unfold T_IRQ0, INT_DISABLED in *.
  destruct (routed l i) as [c|]; split; [rewrite E1; apply Hu; lia|done| |done].
  rewrite E1, lor_disjoint by lia. rewrite Hu; lia.
Qed.

(** The interrupts the kernel enables: keyboard, serial line and disk. *)
Definition demo_ioapic : ioapic := mkIoapic 0 {[ REG_VER := 0x170011 ]}.
Lemma ioapic_routes_witness :
  let d := enable_all [(IRQ_KBD, 0); (IRQ_COM1, 0); (IRQ_IDE, 1)] (ioapicinit 0 demo_ioapic).2 in
  (io_low d 14 = 46 ∧ io_high d 14 = 0x1000000) ∧ (io_low d 3 = 0x10023 ∧ io_high d 3 = 0).
Proof.
  split.
  - by apply (ioapic_routes 0 demo_ioapic [(IRQ_KBD, 0); (IRQ_COM1, 0); (IRQ_IDE, 1)] 14).
  - by apply (ioapic_routes 0 demo_ioapic [(IRQ_KBD, 0); (IRQ_COM1, 0); (IRQ_IDE, 1)] 3).
Defined.

(** ** Starting a processor *)

Lemma byte_lor x : 0 ≤ x < 256 → Z.lor STARTUP x = STARTUP + x.
Proof.
  intros Hx. rewrite <- Z.add_lor_land. replace (Z.land STARTUP x) with 0; [lia|].
  rewrite <- (Z.mod_small x (2 ^ 8)) by lia. rewrite <- Z.land_ones, (Z.land_comm x), Z.land_assoc by lia.
  change (Z.land STARTUP (Z.ones 8)) with 0. by rewrite Z.land_0_l.
Qed.

(** The commands the local APIC sends: each write of [ICRLO] is one, to the
    processor of the last write of [ICRHI]. *)
Fixpoint commands (dest : Z) (w : list (Z * Z)) : list (Z * Z) :=
  match w with
  | [] => []
  | (i, v) :: w =>
      if i =? ICRHI then commands (Z.shiftr v 24) w
      else if i =? ICRLO then (dest, v) :: commands dest w
      else commands dest w
  end.

(** [lapicstartap] sends the processor an INIT, its de-assertion and two
    STARTUPs whose vector is the page of the code; and the warm reset vector
    points to the same address. *)
Theorem startap_starts id addr m : 0 ≤ id < 256 → 0 ≤ addr < 0x100000 → addr mod 4096 = 0 →
  let '(ports, m', w) := lapicstartap id addr m [] in
  commands 0 w = [(id, INIT + LEVEL + ASSERT); (id, INIT + LEVEL); (id, STARTUP + addr / 4096); (id, STARTUP + addr / 4096)] ∧
  ld16 m' WRV + 16 * ld16 m' (WRV + 2) = addr.
Proof.
  intros Hid Ha Hm. unfold lapicstartap. cbv zeta. rewrite Z.shiftl_mul_pow2, !Z.shiftr_div_pow2 by lia.
  change (2 ^ 24) with 16777216. change (2 ^ 12) with 4096. change (2 ^ 4) with 16.
  assert (Hd : ∀ w, commands 0 ((ICRHI, u32 (id * 16777216)) :: w) = commands id w).
  { intros w. cbn [commands]. change (ICRHI =? ICRHI) with true. cbv iota. f_equal.
    unfold u32. rewrite Z.mod_small, Z.shiftr_div_pow2 by lia. change (2 ^ 24) with 16777216. apply Z.div_mul. lia. }
  assert (Hl : Z.lor STARTUP (addr / 4096) = STARTUP + addr / 4096).
  { assert (0 ≤ addr / 4096 < 256) by (Z.div_mod_to_equations; lia).
    pose proof (byte_lor (addr / 4096) ltac:(lia)) as ->. done. }
  split.
  - unfold lapicw. cbn [app]. rewrite Hd, Hl. cbn [commands].
    change (ICRLO =? ICRHI) with false. change (ICRLO =? ICRLO) with true. change (ICRHI =? ICRHI) with true. cbv iota.
    unfold u32. rewrite Z.mod_small, Z.shiftr_div_pow2, Z.div_mul by lia. done.
  - unfold ld16, st16. rewrite !ld8_st8. repeat case_decide; try lia.
    rewrite !u8_idem. unfold u8. Z.div_mod_to_equations. lia.
Qed.

(** ** The timer *)

(** The last value written to each register. *)
Definition written (w : list (Z * Z)) (i : Z) : option Z := snd <$> last (filter (λ e, e.1 = i) w).

Lemma lapic_poll_ends icr j : ∀ n i, (j < n)%nat → istrue (Z.land (icr (i + j)%nat) DELIVS) = false →
  lapic_poll n icr i = Some tt.
Proof.
  induction j as [|j IH]; intros [|n] i Hn Hj; try lia; cbn [lapic_poll].
  - rewrite Nat.add_0_r in Hj. by rewrite Hj.
  - case_match; [|done]. apply IH; [lia|]. by replace (S i + j)%nat with (i + S j)%nat by lia.
Qed.

(** [lapicinit] ends once the de-assertion was delivered; the timer then counts
    periodically from 10000000 and raises the vector that [trap] takes for the
    clock, the local interrupt lines are masked and no priority blocks an
    interrupt. *)
Theorem lapicinit_timer n j lapic ver icr : lapic ≠ 0 → (j < n)%nat → istrue (Z.land (icr j) DELIVS) = false →
  ∃ w, lapicinit n lapic ver icr [] = Some w ∧
    written w TIMER = Some (PERIODIC + T_IRQ0 + IRQ_TIMER) ∧ written w TICR = Some 10000000 ∧ written w TDCR = Some X1 ∧
    written w SVR = Some (ENABLE + T_IRQ0 + IRQ_SPURIOUS) ∧ written w LINT0 = Some MASKED ∧ written w LINT1 = Some MASKED ∧
    written w ERROR = Some (T_IRQ0 + IRQ_ERROR) ∧ written w TPR = Some 0.
Proof.
  intros Hl Hn Hj. unfold lapicinit. unfold istrue at 1. rewrite (proj2 (Z.eqb_neq lapic 0) Hl). cbn [negb].
  rewrite (lapic_poll_ends icr j) by done. cbn [mbind option_bind].
  eexists. split; [done|]. destruct (4 <=? _); by vm_compute.
Qed.
