(* ===== verification/Spinlock.v ===== *)
(** * Spin locks between processors

    [acquire] and [release] of [spinlock.c] one memory access at a time, on any
    number of processors that share the locks: the atomic exchange, the two
    reads of [holding], and the interrupt nesting of [pushcli] and [popcli].
    [Locks.v] is what one processor sees between its switches. The other parts
    take the lock operations of kernel code as a sequence of events that
    processors interleave: the order in which [sleep] exchanges its locks loses
    no wakeup, and two orders of [ptable.lock] and [tickslock] block each other. *)
From stdpp Require Import base strings numbers gmap list.
From S2P Require Import Prelude Machine KString Kernel Locks Kalloc Proc ProcSpec Console Vm Random Sched.
From S2P Require Import Sleeplock Bio Log Fs Pipe ConsoleDev File Life Arg Sysfile Exec Syscall.

Module Smp.

Record spinlock := mkSpin { locked : Z; lcpu : option nat }.

(** Where a processor is: in code outside of this file, or before the named
    access of [acquire] or [release]. *)
Inductive point :=
  | Run
  | AcqCheck (l : lock) | AcqCheckCpu (l : lock) | AcqSpin (l : lock) | AcqOwn (l : lock)
  | RelCheck (l : lock) | RelCheckCpu (l : lock) | RelCpu (l : lock) | RelUnlock (l : lock) | RelPop
  | Panicked.

(** [mine] is what the processor has acquired and not released. *)
Record processor := mkProcessor { at_point : point; depth : Z; saved : bool; intr : bool; mine : list lock }.
#[export] Instance eta_processor : Eta processor := λ c,
  mkProcessor (at_point c) (depth c) (saved c) (intr c) (mine c).
Record smp := mkSmp { locks : lock → spinlock; cpus : list processor }.

Definition push (c : processor) : processor :=
  mkProcessor (at_point c) (depth c + 1) (if depth c =? 0 then intr c else saved c) false (mine c).
Definition pop (c : processor) : processor :=
  if intr c then c <| at_point := Panicked |>
  else
    let c := c <| depth := depth c - 1 |> in
    if depth c <? 0 then c <| at_point := Panicked |>
    else if (depth c =? 0) && saved c then c <| intr := true |> else c.
(** The two reads of [holding]: the second is made if the first is not 0. *)
Definition holds_locked (L : lock → spinlock) (l : lock) : bool := negb (locked (L l) =? 0).
Definition holds_cpu (L : lock → spinlock) (i : nat) (l : lock) : bool := bool_decide (lcpu (L l) = Some i).
Definition holds (L : lock → spinlock) (i : nat) (l : lock) : bool := holds_locked L l && holds_cpu L i l.
Definition set_lock (l : lock) (v : spinlock) (L : lock → spinlock) (l' : lock) : spinlock :=
  if decide (l' = l) then v else L l'.

(** One access of processor [i]; what [Run] does next is the caller's choice. *)
Inductive call := Acquire (l : lock) | Release (l : lock).
Definition access (L : lock → spinlock) (i : nat) (next : call) (c : processor) : (lock → spinlock) * processor :=
  match at_point c with
  | Run =>
      match next with
      | Acquire l => (L, (push c) <| at_point := AcqCheck l |>)
      | Release l => (L, c <| at_point := RelCheck l |>)
      end
  | AcqCheck l => (L, c <| at_point := if holds_locked L l then AcqCheckCpu l else AcqSpin l |>)
  | AcqCheckCpu l => (L, c <| at_point := if holds_cpu L i l then Panicked else AcqSpin l |>)
  | AcqSpin l =>
      (set_lock l (mkSpin 1 (lcpu (L l))) L, c <| at_point := if locked (L l) =? 0 then AcqOwn l else AcqSpin l |>)
  | AcqOwn l =>
      (set_lock l (mkSpin (locked (L l)) (Some i)) L, c <| at_point := Run |> <| mine ::= cons l |>)
  | RelCheck l => (L, c <| at_point := if holds_locked L l then RelCheckCpu l else Panicked |>)
  | RelCheckCpu l => (L, c <| at_point := if holds_cpu L i l then RelCpu l else Panicked |>)
  | RelCpu l => (set_lock l (mkSpin (locked (L l)) None) L, c <| at_point := RelUnlock l |>)
  | RelUnlock l =>
      (set_lock l (mkSpin 0 (lcpu (L l))) L, c <| at_point := RelPop |> <| mine ::= filter (λ l', l' ≠ l) |>)
  | RelPop => (L, pop (c <| at_point := Run |>))
  | Panicked => (L, c)
  end.

Inductive access_step : smp → smp → Prop :=
  | access_by i next L cs c L' c' : cs !! i = Some c → access L i next c = (L', c') →
      access_step (mkSmp L cs) (mkSmp L' (<[i := c']> cs)).

(** [initlock]: all locks free; every processor outside, with interrupts as they are. *)
Definition unlocked : lock → spinlock := λ _, mkSpin 0 None.
Definition start (n : nat) (fl : bool) : smp := mkSmp unlocked (replicate n (mkProcessor Run 0 false fl [])).

(** ** The invariant *)

(** A processor has the exchange behind it and the store of 0 before it. *)
Definition has (c : processor) (l : lock) : Prop := l ∈ mine c ∨ at_point c = AcqOwn l.
(** The processor's share of the nesting depth. *)
Definition extra (q : point) : Z :=
  match q with AcqCheck _ | AcqCheckCpu _ | AcqSpin _ | AcqOwn _ | RelPop => 1 | _ => 0 end.
Definition cpu_ok (c : processor) : Prop :=
  NoDup (mine c) ∧
  match at_point c with
  | AcqSpin l | AcqOwn l => l ∉ mine c
  | RelCpu l | RelUnlock l => l ∈ mine c
  | _ => True
  end ∧
  (at_point c ≠ Panicked → depth c = Z.of_nat (length (mine c)) + extra (at_point c)) ∧
  (0 < depth c → intr c = false).
Record smp_ok (s : smp) : Prop := {
  so_cpu : ∀ i c, cpus s !! i = Some c → cpu_ok c;
  so_excl : ∀ i j c d l, cpus s !! i = Some c → cpus s !! j = Some d → has c l → has d l → i = j;
  so_locked : ∀ l, locked (locks s l) = 0 ∨ locked (locks s l) = 1;
  so_has : ∀ l, locked (locks s l) ≠ 0 ↔ ∃ i c, cpus s !! i = Some c ∧ has c l;
  so_owner : ∀ l i, lcpu (locks s l) = Some i ↔ ∃ c, cpus s !! i = Some c ∧ l ∈ mine c ∧ at_point c ≠ RelUnlock l }.

Lemma start_ok n fl : smp_ok (start n fl).
Proof.
  assert (R : ∀ i c, cpus (start n fl) !! i = Some c → c = mkProcessor Run 0 false fl []).
  { intros i c. simpl. intros H%lookup_replicate. tauto. }
  split; simpl.
  - intros i c ->%R. split_and!; simpl; [apply NoDup_nil_2|done|done|lia].
  - intros i j c d l ->%R _ [H|H]; [by apply elem_of_nil in H|done].
  - by left.
  - intros l. split; [done|]. intros (i & c & ->%R & [H|H]); [by apply elem_of_nil in H|done].
  - intros l i. split; [done|]. intros (c & ->%R & H & _). by apply elem_of_nil in H.
Qed.

(** What the two reads of [holding] tell, wherever it is called. *)
Lemma holds_locked_mine s i c l : smp_ok s → cpus s !! i = Some c → l ∈ mine c → holds_locked (locks s) l = true.
Proof.
  intros O Hi Hm. apply negb_true_iff, Z.eqb_neq, (so_has _ O). exists i, c. split; [done|by left].
Qed.
Lemma holds_cpu_iff s i c l : smp_ok s → cpus s !! i = Some c → at_point c ≠ RelUnlock l →
  holds_cpu (locks s) i l = true ↔ l ∈ mine c.
Proof.
  intros O Hi Hp. unfold holds_cpu. rewrite bool_decide_eq_true, (so_owner _ O). split; [|eauto].
  intros (c' & Hc & Hm & _). congruence.
Qed.
Lemma holds_iff s i c l : smp_ok s → cpus s !! i = Some c → at_point c ≠ RelUnlock l →
  holds (locks s) i l = true ↔ l ∈ mine c.
Proof.
  intros O Hi Hp. unfold holds. rewrite andb_true_iff, (holds_cpu_iff s i c l O Hi Hp).
  split; [by intros [_ ?]|]. intros Hm. split; [by eapply holds_locked_mine|done].
Qed.

(** A step that changes one processor, and the lock [l] at most. *)
Lemma smp_step s i c c' l v : smp_ok s → cpus s !! i = Some c → cpu_ok c' →
  (∀ l', l' ≠ l → has c' l' ↔ has c l') →
  (∀ l', l' ≠ l → l' ∈ mine c' ∧ at_point c' ≠ RelUnlock l' ↔ l' ∈ mine c ∧ at_point c ≠ RelUnlock l') →
  (locked v = 0 ∨ locked v = 1) →
  (has c' l → ∀ j d, j ≠ i → cpus s !! j = Some d → ¬ has d l) →
  (locked v ≠ 0 ↔ has c' l ∨ ∃ j d, j ≠ i ∧ cpus s !! j = Some d ∧ has d l) →
  (∀ j, lcpu v = Some j ↔ (j = i ∧ l ∈ mine c' ∧ at_point c' ≠ RelUnlock l) ∨
     (j ≠ i ∧ ∃ d, cpus s !! j = Some d ∧ l ∈ mine d ∧ at_point d ≠ RelUnlock l)) →
  smp_ok (mkSmp (set_lock l v (locks s)) (<[i := c']> (cpus s))).
Proof.
  intros O Hi Hc HH HM HV HX HL HO. assert (Li : (i < length (cpus s))%nat) by by eapply lookup_lt_Some.
  assert (T : ∀ j d, <[i := c']> (cpus s) !! j = Some d ↔ (j = i ∧ d = c') ∨ (j ≠ i ∧ cpus s !! j = Some d)).
  { intros j d. destruct (decide (j = i)) as [->|N].
    - rewrite list_lookup_insert_eq by done. naive_solver.
    - rewrite list_lookup_insert_ne by done. naive_solver. }
  split; simpl.
  - intros j d [[-> ->]|[_ Hj]]%T; [done|]. by eapply so_cpu.
  - intros j1 j2 d1 d2 l' H1%T H2%T A1 A2.
    destruct (decide (l' = l)) as [->|N].
    + destruct H1 as [[-> ->]|[N1 H1]], H2 as [[-> ->]|[N2 H2]]; try done.
      * by destruct (HX A1 j2 d2).
      * by destruct (HX A2 j1 d1).
      * by eapply (so_excl _ O j1 j2).
    + destruct H1 as [[-> ->]|[N1 H1]], H2 as [[-> ->]|[N2 H2]]; try done; rewrite ?HH in A1 by done; rewrite ?HH in A2 by done.
      * by eapply (so_excl _ O i j2).
      * by eapply (so_excl _ O j1 i).
      * by eapply (so_excl _ O j1 j2).
  - intros l'. unfold set_lock. case_decide; [done|]. apply O.
  - intros l'. unfold set_lock. case_decide as E.
    + subst l'. rewrite HL. split.
      * intros [A|(j & d & N & Hj & A)]; [exists i, c'|exists j, d]; (split; [apply T; auto|done]).
      * intros (j & d & [[-> ->]|[N Hj]]%T & A); [by left|right]. by exists j, d.
    + rewrite (so_has _ O). split.
      * intros (j & d & Hj & A). destruct (decide (j = i)) as [->|N].
        -- exists i, c'. split; [apply T; auto|]. apply HH; [done|]. congruence.
        -- exists j, d. split; [apply T; auto|done].
      * intros (j & d & [[-> ->]|[N Hj]]%T & A); [|by exists j, d]. exists i, c. split; [done|]. by apply HH.
  - intros l' j. unfold set_lock. case_decide as E.
    + subst l'. rewrite HO. split.
      * intros [(-> & A)|(N & d & Hj & A)]; [exists c'|exists d]; (split; [apply T; auto|done]).
      * intros (d & [[-> ->]|[N Hj]]%T & A); [by left|right]. eauto.
    + rewrite (so_owner _ O). split.
      * intros (d & Hj & A). destruct (decide (j = i)) as [->|N].
        -- exists c'. split; [apply T; auto|]. apply HM; [done|]. replace c with d by congruence. done.
        -- exists d. split; [apply T; auto|done].
      * intros (d & [[-> ->]|[N Hj]]%T & A); [|by exists d]. exists c. split; [done|]. by apply HM.
Qed.

Lemma smp_ok_ext L L' cs : (∀ l, L' l = L l) → smp_ok (mkSmp L cs) → smp_ok (mkSmp L' cs).
Proof.
  intros E O. split; simpl; intros.
  - by eapply (so_cpu _ O).
  - by eapply (so_excl _ O).
  - rewrite E. apply (so_locked _ O).
  - rewrite E. apply (so_has _ O).
  - rewrite E. apply (so_owner _ O).
Qed.
(** A step that changes no lock. *)
Lemma smp_local s i c c' : smp_ok s → cpus s !! i = Some c → cpu_ok c' →
  (∀ l, has c' l ↔ has c l) →
  (∀ l, l ∈ mine c' ∧ at_point c' ≠ RelUnlock l ↔ l ∈ mine c ∧ at_point c ≠ RelUnlock l) →
  smp_ok (mkSmp (locks s) (<[i := c']> (cpus s))).
Proof.
  intros O Hi Hc HH HM. eapply smp_ok_ext; [|apply (smp_step s i c c' Lptable (locks s Lptable)); [done|done|done|..]].
  - intros l. unfold set_lock. by case_decide; subst.
  - intros l' _. apply HH.
  - intros l' _. apply HM.
  - apply O.
  - intros A j d N Hj B. apply N. eapply (so_excl _ O j i); [exact Hj|exact Hi|exact B|]. by apply HH.
  - rewrite (so_has _ O). split.
    + intros (j & d & Hj & A). destruct (decide (j = i)) as [->|N]; [left|right; eauto].
      apply HH. congruence.
    + intros [A|(j & d & _ & Hj & A)]; [exists i, c|exists j, d]; (split; [done|]); [by apply HH|done].
  - intros j. rewrite (so_owner _ O). split.
    + intros (d & Hj & A). destruct (decide (j = i)) as [->|N]; [left|right; eauto].
      split; [done|]. apply HM. by replace c with d by congruence.
    + intros [(-> & A)|(N & d & Hj & A)]; [exists c|exists d]; (split; [done|]); [by apply HM|done].
Qed.

Lemma cpu_ok_pop c : cpu_ok c → at_point c = RelPop → cpu_ok (pop (c <| at_point := Run |>)) ∧
  at_point (pop (c <| at_point := Run |>)) = Run ∧ mine (pop (c <| at_point := Run |>)) = mine c.
Proof.
  intros (ND & _ & HD & HI) E. rewrite E in HD. simpl in HD. specialize (HD ltac:(done)).
  unfold pop. simpl. rewrite HI by lia. rewrite (proj2 (Z.ltb_ge _ _)) by lia.
  assert (R : ∀ b, cpu_ok (mkProcessor Run (depth c - 1) (saved c) b (mine c)) ↔ (0 < depth c - 1 → b = false)).
  { intros b. unfold cpu_ok. simpl. split; [tauto|]. intros HB. split_and!; [done|done|lia|done]. }
  destruct ((depth c - 1 =? 0) && saved c) eqn:Z0; simpl.
  - split; [|done]. apply R. lia.
  - split; [|done]. apply R. intros _. apply HI. lia.
Qed.

(** What a change of the program point keeps. *)
Lemma cpu_ok_point c q : cpu_ok c → at_point c ≠ Panicked → q = Panicked ∨ extra q = extra (at_point c) →
  match q with AcqSpin l | AcqOwn l => l ∉ mine c | RelCpu l | RelUnlock l => l ∈ mine c | _ => True end →
  cpu_ok (c <| at_point := q |>).
Proof. intros (ND & _ & HD & HI) Np E Hq. split_and!; simpl; [done|done| |done].
  intros Nq. rewrite HD by done. by destruct E as [| ->]. Qed.

Section accesses.
Context (s : smp) (i : nat) (c : processor) (l : lock).
Context (O : smp_ok s) (Hi : cpus s !! i = Some c).
Notation lk := (locks s l).

Lemma not_locked : locked lk = 0 → ∀ j d, cpus s !! j = Some d → ¬ has d l.
Proof. intros E j d Hj A. assert (locked lk ≠ 0) as []; [|done]. apply (so_has _ O). eauto. Qed.
Lemma owner_other : l ∉ mine c → ∀ j, lcpu lk = Some j ↔
  j ≠ i ∧ ∃ d, cpus s !! j = Some d ∧ l ∈ mine d ∧ at_point d ≠ RelUnlock l.
Proof.
  intros N j. rewrite (so_owner _ O). split; [|naive_solver].
  intros (d & Hj & A & B). split; [|eauto]. intros ->. by replace d with c in A by congruence.
Qed.
Lemma alone d j : has c l → j ≠ i → cpus s !! j = Some d → ¬ has d l.
Proof. intros A N Hj B. apply N. by eapply (so_excl _ O j i). Qed.

(** The exchange. *)
Lemma spin_ok : at_point c = AcqSpin l →
  smp_ok (mkSmp (set_lock l (mkSpin 1 (lcpu lk)) (locks s))
    (<[i := c <| at_point := if locked lk =? 0 then AcqOwn l else AcqSpin l |>]> (cpus s))).
Proof.
  intros EP. pose proof (so_cpu _ O _ _ Hi) as Hc. pose proof Hc as (ND & HP & _). rewrite EP in HP.
  pose proof (owner_other HP) as HO. apply (smp_step s i c); [done|done|..].
  - apply cpu_ok_point; [done|by rewrite EP|right; by rewrite EP; destruct (_ =? _)|by destruct (_ =? _)].
  - intros l' N. unfold has. rewrite EP. simpl. destruct (_ =? _); naive_solver.
  - intros l' N. rewrite EP. simpl. destruct (_ =? _); naive_solver.
  - by right.
  - intros A j d N Hj. destruct (Z.eqb_spec (locked lk) 0) as [E|E]; [by apply (not_locked E j)|].
    by destruct A as [A|A].
  - simpl. split; [|done]. intros _. destruct (Z.eqb_spec (locked lk) 0) as [E|E]; [left; by right|right].
    apply (so_has _ O) in E as (j & d & Hj & A). exists j, d. split; [|done]. intros ->.
    replace d with c in A by congruence. destruct A as [A|A]; [done|congruence].
  - intros j. simpl. rewrite HO. naive_solver.
Qed.
(** [lk->cpu = mycpu()] *)
Lemma own_ok : at_point c = AcqOwn l →
  smp_ok (mkSmp (set_lock l (mkSpin (locked lk) (Some i)) (locks s))
    (<[i := c <| at_point := Run |> <| mine ::= cons l |>]> (cpus s))).
Proof.
  intros EP. pose proof (so_cpu _ O _ _ Hi) as (ND & HP & HD & HI). rewrite EP in HP, HD. simpl in HD.
  assert (Hl : has c l) by by right. apply (smp_step s i c); [done|done|..].
  - split_and!; simpl; [by apply NoDup_cons|done|intros _; rewrite HD by done; lia|done].
  - intros l' N. unfold has. rewrite EP. simpl. rewrite elem_of_cons. naive_solver.
  - intros l' N. rewrite EP. simpl. rewrite elem_of_cons. naive_solver.
  - apply O.
  - intros _ j d N Hj. by apply (alone d j).
  - simpl. split; [intros _; left; left; apply list_elem_of_here|]. intros _. apply (so_has _ O). eauto.
  - intros j. simpl. split.
    + intros [= <-]. left. split_and!; [done|apply list_elem_of_here|done].
    + intros [[-> _]|(N & d & Hj & A & _)]; [done|]. destruct (alone d j Hl N Hj). by left.
Qed.
(** [lk->cpu = 0] *)
Lemma relcpu_ok : at_point c = RelCpu l →
  smp_ok (mkSmp (set_lock l (mkSpin (locked lk) None) (locks s)) (<[i := c <| at_point := RelUnlock l |>]> (cpus s))).
Proof.
  intros EP. pose proof (so_cpu _ O _ _ Hi) as Hc. pose proof Hc as (ND & HP & _). rewrite EP in HP.
  assert (Hl : has c l) by by left. apply (smp_step s i c); [done|done|..].
  - apply cpu_ok_point; [done|by rewrite EP|right; by rewrite EP|done].
  - intros l' N. unfold has. rewrite EP. simpl. naive_solver.
  - intros l' N. rewrite EP. simpl. naive_solver.
  - apply O.
  - intros _ j d N Hj. by apply (alone d j).
  - simpl. split; [intros _; left; by left|]. intros _. apply (so_has _ O). eauto.
  - intros j. simpl. split; [done|]. intros [(-> & _ & A)|(N & d & Hj & A & _)]; [done|].
    destruct (alone d j Hl N Hj). by left.
Qed.
(** [lk->locked = 0] *)
Lemma unlock_ok : at_point c = RelUnlock l →
  smp_ok (mkSmp (set_lock l (mkSpin 0 (lcpu lk)) (locks s))
    (<[i := c <| at_point := RelPop |> <| mine ::= filter (λ l', l' ≠ l) |>]> (cpus s))).
Proof.
  intros EP. pose proof (so_cpu _ O _ _ Hi) as (ND & HP & HD & HI). rewrite EP in HP, HD. simpl in HD.
  assert (Hl : has c l) by by left. apply (smp_step s i c); [done|done|..].
  - split_and!; simpl; [by apply NoDup_filter|done| |done]. intros _. rewrite HD by done.
    pose proof (filter_ne_length l (mine c) ND HP). lia.
  - intros l' N. unfold has. rewrite EP. simpl. rewrite list_elem_of_filter. naive_solver.
  - intros l' N. rewrite EP. simpl. rewrite list_elem_of_filter. naive_solver.
  - by left.
  - intros [A|A]; simpl in A; [|done]. apply list_elem_of_filter in A as [[] _]. done.
  - simpl. split; [done|]. intros [[A|A]|(j & d & N & Hj & A)]; simpl in A; [|done|by destruct (alone d j Hl N Hj)].
    apply list_elem_of_filter in A as [[] _]. done.
  - intros j. simpl. rewrite (so_owner _ O). rewrite list_elem_of_filter. split.
    + intros (d & Hj & A & B). destruct (decide (j = i)) as [->|N]; [|eauto 8]. by replace d with c in B by congruence.
    + intros [(_ & [[] _] & _)|(N & d & Hj & A)]; [done|eauto].
Qed.
End accesses.

Lemma access_ok s i next c L' c' : smp_ok s → cpus s !! i = Some c →
  access (locks s) i next c = (L', c') → smp_ok (mkSmp L' (<[i := c']> (cpus s))).
Proof.
  intros O Hi. pose proof (so_cpu _ O _ _ Hi) as Hc. pose proof Hc as (ND & HP & HD & HI). unfold access.
  assert (LC : ∀ q, at_point c ≠ Panicked → q = Panicked ∨ extra q = extra (at_point c) →
    match q with AcqSpin l | AcqOwn l => l ∉ mine c | RelCpu l | RelUnlock l => l ∈ mine c | _ => True end →
    (∀ l, q ≠ AcqOwn l ∧ q ≠ RelUnlock l) → (∀ l, at_point c ≠ AcqOwn l ∧ at_point c ≠ RelUnlock l) →
    smp_ok (mkSmp (locks s) (<[i := c <| at_point := q |>]> (cpus s)))).
  { intros q Np E Hq F1 F2. apply (smp_local s i c); [done|done|by apply cpu_ok_point|..];
      intros l'; destruct (F1 l'), (F2 l'); unfold has; simpl; naive_solver. }
  destruct (at_point c) as [|l|l|l|l|l|l|l|l| |] eqn:EP.
  - destruct next as [l|l]; intros [= <- <-]; [|by apply LC; auto].
    apply (smp_local s i c); [done|done|..].
    + split_and!; simpl; [done|done|intros _; rewrite HD by done; simpl; lia|done].
    + intros l'. unfold has. rewrite EP. simpl. naive_solver.
    + intros l'. rewrite EP. simpl. naive_solver.
  - intros [= <- <-]. pose proof (holds_locked_mine s i c l O Hi) as HH.
    destruct (holds_locked (locks s) l); [by apply LC; auto|]. apply LC; auto. intros A. by apply HH in A.
  - intros [= <- <-]. pose proof (holds_cpu_iff s i c l O Hi ltac:(by rewrite EP)) as HH.
    destruct (holds_cpu (locks s) i l); [by apply LC; auto|]. apply LC; auto. intros A. by apply HH in A.
  - intros [= <- <-]. by apply spin_ok.
  - intros [= <- <-]. by apply own_ok.
  - intros [= <- <-]. destruct (holds_locked (locks s) l); by apply LC; auto.
  - intros [= <- <-]. pose proof (holds_cpu_iff s i c l O Hi ltac:(by rewrite EP)) as HH.
    destruct (holds_cpu (locks s) i l); [|by apply LC; auto]. apply LC; auto. by apply HH.
  - intros [= <- <-]. by apply relcpu_ok.
  - intros [= <- <-]. by apply unlock_ok.
  - intros [= <- <-]. destruct (cpu_ok_pop c Hc EP) as (A1 & A2 & A3). apply (smp_local s i c); [done|done|done|..].
    + intros l'. unfold has. rewrite A2, A3, EP. naive_solver.
    + intros l'. rewrite A2, A3, EP. naive_solver.
  - intros [= <- <-]. rewrite list_insert_id by done. by destruct s.
Qed.

Lemma reachable_ok n fl s : rtc access_step (start n fl) s → smp_ok s.
Proof.
  intros R. pose proof (start_ok n fl) as O. revert O. induction R as [s|s1 s2 s3 St _ IH]; [done|].
  intros O. apply IH. destruct St as [i next L cs c L' c' Hi E]. by apply (access_ok (mkSmp L cs) i next c).
Qed.

(** C13: Spin locks exclude each other's holders, on any number of processors and
    under any interleaving of their memory accesses: no two processors have the
    same lock; [holding] answers exactly whether the calling processor has the
    lock, so that [acquire] of a lock the processor has and [release] of one it
    has not are caught, and no other call panics; and a processor that has or
    spins for a lock takes no interrupt. *)
Theorem spin_mutex n fl s : rtc access_step (start n fl) s →
  (∀ i j c d l, cpus s !! i = Some c → cpus s !! j = Some d → l ∈ mine c → l ∈ mine d → i = j) ∧
  (∀ i c l, cpus s !! i = Some c → at_point c ≠ RelUnlock l → holds (locks s) i l = bool_decide (l ∈ mine c)) ∧
  (∀ i c l next, cpus s !! i = Some c → at_point c = AcqCheck l ∨ at_point c = AcqCheckCpu l →
     at_point (access (locks s) i next c).2 = AcqCheckCpu l ∧ at_point c = AcqCheck l ∨
     at_point (access (locks s) i next c).2 = if decide (l ∈ mine c) then Panicked else AcqSpin l) ∧
  (∀ i c l next, cpus s !! i = Some c → at_point c = RelCheck l ∨ at_point c = RelCheckCpu l →
     at_point (access (locks s) i next c).2 = RelCheckCpu l ∧ at_point c = RelCheck l ∨
     at_point (access (locks s) i next c).2 = if decide (l ∈ mine c) then RelCpu l else Panicked) ∧
  (∀ i c, cpus s !! i = Some c → at_point c = RelPop → at_point (access (locks s) i (Acquire Lptable) c).2 = Run) ∧
  (∀ i c, cpus s !! i = Some c → at_point c ≠ Panicked →
     mine c ≠ [] ∨ (∃ l, at_point c = AcqSpin l) → intr c = false).
Proof.
  intros R. pose proof (reachable_ok n fl s R) as O. split_and!.
  - intros i j c d l Hi Hj A B. by eapply (so_excl _ O i j); [..|left|left].
  - intros i c l Hi Hp. pose proof (holds_iff s i c l O Hi Hp). case_bool_decide; destruct (holds _ _ _); naive_solver.
  - intros i c l next Hi Hp. unfold access. pose proof (holds_locked_mine s i c l O Hi) as H1.
    destruct Hp as [Hp|Hp]; rewrite Hp; cbn [snd]; simpl at_point.
    + destruct (holds_locked (locks s) l); [by left|right]. rewrite decide_False; [done|]. intros A. by apply H1 in A.
    + pose proof (holds_cpu_iff s i c l O Hi ltac:(by rewrite Hp)) as H2. right.
      destruct (holds_cpu (locks s) i l); case_decide; naive_solver.
  - intros i c l next Hi Hp. unfold access. pose proof (holds_locked_mine s i c l O Hi) as H1.
    destruct Hp as [Hp|Hp]; rewrite Hp; cbn [snd]; simpl at_point.
    + destruct (holds_locked (locks s) l); [by left|right]. rewrite decide_False; [done|]. intros A. by apply H1 in A.
    + pose proof (holds_cpu_iff s i c l O Hi ltac:(by rewrite Hp)) as H2. right.
      destruct (holds_cpu (locks s) i l); case_decide; naive_solver.
  - intros i c Hi Hp. unfold access. rewrite Hp. simpl. by apply cpu_ok_pop; [apply (so_cpu _ O _ _ Hi)|].
  - intros i c Hi Np A. destruct (so_cpu _ O _ _ Hi) as (_ & _ & HD & HI). apply HI. rewrite HD by done.
    destruct A as [A|[l ->]]; [|simpl; lia]. destruct (mine c); [done|]. simpl length. destruct (at_point c); simpl; lia.
Qed.

(** A schedule of accesses. *)
Fixpoint accesses (sch : list (nat * call)) (s : smp) : smp :=
  match sch with
  | [] => s
  | (i, next) :: sch' =>
      match cpus s !! i with
      | Some c => let '(L, c') := access (locks s) i next c in accesses sch' (mkSmp L (<[i := c']> (cpus s)))
      | None => s
      end
  end.
Lemma accesses_reach sch s : rtc access_step s (accesses sch s).
Proof.
  revert s. induction sch as [|[i next] sch IH]; intros s; simpl; [done|].
  destruct (cpus s !! i) as [c|] eqn:E; [|done]. destruct (access (locks s) i next c) as [L c'] eqn:EA.
  eapply rtc_l; [|apply IH]. destruct s as [L0 cs]. by eapply access_by.
Qed.
(** Two processors want the lock; the first has it, the second spins. *)
Definition contended : list (nat * call) :=
  [(0, Acquire Lptable); (1, Acquire Lptable); (0, Acquire Lptable); (1, Acquire Lptable);
   (0, Acquire Lptable); (1, Acquire Lptable); (0, Acquire Lptable); (1, Acquire Lptable)]%nat.
Lemma spin_mutex_witness :
  holds (locks (accesses contended (start 2 true))) 0 Lptable = true ∧
  holds (locks (accesses contended (start 2 true))) 1 Lptable = false.
Proof.
  destruct (spin_mutex 2 true (accesses contended (start 2 true)) (accesses_reach _ _)) as (_ & H & _).
  split; (erewrite H; [|vm_compute; reflexivity|vm_compute; discriminate]); vm_compute; reflexivity.
Defined.
End Smp.

(** ** The order of locks

    Threads as the sequences of their lock events, one per processor. *)
#[export] Instance lock_countable : Countable lock.
Proof.
  refine (inj_countable'
    (λ l, match l with
      | Lptable => inl 0%nat | Lperf => inl 1%nat | Lticks => inl 2%nat | Lkmem => inl 3%nat | Lftable => inl 4%nat
      | Lbcache => inl 5%nat | Licache => inl 6%nat | Llog => inl 7%nat | Lide => inl 8%nat | Lcons => inl 9%nat
      | Lpipe p => inr (inl p) | Lbufslp b => inr (inr (inl b)) | Lislp i => inr (inr (inr i)) end)
    (λ x, match x with
      | inl 0%nat => Lptable | inl 1%nat => Lperf | inl 2%nat => Lticks | inl 3%nat => Lkmem | inl 4%nat => Lftable
      | inl 5%nat => Lbcache | inl 6%nat => Licache | inl 7%nat => Llog | inl 8%nat => Lide | inl _ => Lcons
      | inr (inl p) => Lpipe p | inr (inr (inl b)) => Lbufslp b | inr (inr (inr i)) => Lislp i end) _).
  by intros [].
Defined.

Definition lockst : Type := gmap lock nat * list (list lockev).
Inductive lock_step : lockst → lockst → Prop :=
  | lock_acq own ths i l evs : ths !! i = Some (Acq l :: evs) → own !! l = None →
      lock_step (own, ths) (<[l := i]> own, <[i := evs]> ths)
  | lock_rel own ths i l evs : ths !! i = Some (Rel l :: evs) → own !! l = Some i →
      lock_step (own, ths) (delete l own, <[i := evs]> ths).
(** Some thread is not finished, and none can go on. *)
Definition deadlocked (s : lockst) : Prop :=
  Exists (λ evs, evs ≠ []) s.2 ∧ ∀ s', ¬ lock_step s s'.

(** C38: The clock interrupt and [yield] can block each other for ever on two
    processors: the interrupt handler takes [tickslock] and then, in [wakeup],
    [ptable.lock]; [yield] takes [ptable.lock] and then [tickslock]. *)
Theorem clock_yield_deadlock : ∃ k1 r k2,
  yield demo_kernel = Swtch k1 r ∧ trap_timer 0 demo_kernel = Ok tt k2 ∧
  ∃ s, rtc lock_step (∅, [rev (ltrace k1); rev (ltrace k2)]) s ∧ deadlocked s.
Proof.
  eexists _, _, _. split; [vm_compute; reflexivity|]. split; [vm_compute; reflexivity|]. simpl.
  eexists. split.
  - eapply rtc_l; [by apply (lock_acq _ _ 0)|]. eapply rtc_l; [by apply (lock_acq _ _ 1)|]. apply rtc_refl.
  - split; [by constructor|]. simpl. intros s' St. inversion St as [own ths i l evs Hi Hl|own ths i l evs Hi Hl]; subst.
    + destruct i as [|[|i]]; simplify_eq/=.
    + destruct i as [|[|i]]; simplify_eq/=.
Qed.

(** ** No wakeup is lost

    A process that waits for a condition checks it under a lock [lk] and calls
    [sleep] with [lk]; whoever makes the condition true does so under [lk] and
    calls [wakeup] before it releases it. *)

(** The lock events of code that runs on without a switch, and of code up to
    its first switch, newest first. *)
Definition emits {A} (m : K A) (evs : list lockev) : Prop :=
  ∀ k, match m k with Ok _ k' => ltrace k' = evs ++ ltrace k | Swtch _ _ => False | _ => True end.
Definition emits_to_switch {A} (m : K A) (evs : list lockev) : Prop :=
  ∀ k, match m k with Swtch k' _ => ltrace k' = evs ++ ltrace k | Ok _ _ => False | _ => True end.

Lemma emits_bind {A B} (m : K A) (f : A → K B) e1 e2 : emits m e1 → (∀ a, emits (f a) e2) → emits (m ≫= f) (e2 ++ e1).
Proof.
  intros Hm Hf k. specialize (Hm k). unfold mbind, M_bind. destruct (m k) as [a k1|e k1|k1 r|k1]; cbn; try done.
  specialize (Hf a k1). destruct (f a k1); try done. by rewrite Hf, Hm, app_assoc.
Qed.
Lemma emits_bind_switch {A B} (m : K A) (f : A → K B) e1 e2 : emits m e1 → (∀ a, emits_to_switch (f a) e2) →
  emits_to_switch (m ≫= f) (e2 ++ e1).
Proof.
  intros Hm Hf k. specialize (Hm k). unfold mbind, M_bind. destruct (m k) as [a k1|e k1|k1 r|k1]; cbn; try done.
  specialize (Hf a k1). destruct (f a k1); try done. by rewrite Hf, Hm, app_assoc.
Qed.
Lemma switch_bind {A B} (m : K A) (f : A → K B) e : emits_to_switch m e → emits_to_switch (m ≫= f) e.
Proof. intros Hm k. specialize (Hm k). unfold mbind, M_bind. by destruct (m k). Qed.
Lemma quiet_bind {A B} (m : K A) (f : A → K B) e : emits m [] → (∀ a, emits (f a) e) → emits (m ≫= f) e.
Proof. intros Hm Hf. rewrite <- (app_nil_r e). by apply emits_bind. Qed.
Lemma quiet_bind_switch {A B} (m : K A) (f : A → K B) e : emits m [] → (∀ a, emits_to_switch (f a) e) → emits_to_switch (m ≫= f) e.
Proof. intros Hm Hf. rewrite <- (app_nil_r e). by apply emits_bind_switch. Qed.
Lemma quiet_ret {A} (a : A) : emits (mret a) [].
Proof. done. Qed.
Lemma quiet_gets {A} (f : kernel → A) : emits (gets f) [].
Proof. done. Qed.
Lemma quiet_skip : emits skip [].
Proof. done. Qed.
Lemma quiet_panic {A} e evs : emits (panic (A := A) e) evs.
Proof. done. Qed.
Lemma quiet_pset i f : emits (pset i f) [].
Proof. done. Qed.
Lemma quiet_deref {A} (o : option A) : emits (deref o) [].
Proof. by destruct o. Qed.
Lemma quiet_pushcli : emits pushcli [].
Proof. intros k. unfold pushcli. cbn. by destruct (_ =? 0). Qed.
Lemma quiet_popcli : emits popcli [].
Proof. intros k. unfold popcli. destruct (eflags_if k); [done|]. cbv zeta. destruct (_ <? 0); [done|]. by destruct (_ && _). Qed.

Create HintDb quiet.
#[export] Hint Resolve quiet_ret quiet_gets quiet_skip quiet_panic quiet_deref quiet_pset quiet_pushcli quiet_popcli : quiet.
Ltac quiet := repeat first [apply quiet_bind; [|intros ?] | case_match | progress eauto with quiet].

Lemma quiet_holding l : emits (holding l) [].
Proof. unfold holding. quiet. Qed.
Lemma quiet_myproc : emits myproc [].
Proof. unfold myproc. quiet. Qed.
#[export] Hint Resolve quiet_holding quiet_myproc : quiet.
Lemma emits_acquire l : emits (acquire l) [Acq l].
Proof. unfold acquire. quiet. done. Qed.
Lemma emits_release l : emits (release l) [Rel l].
Proof.
  unfold release. do 2 (apply quiet_bind; [quiet|intros ?]). apply (emits_bind _ _ [Rel l] []); [done|]. intros. quiet.
Qed.
Lemma emits_wakeup ch : emits (wakeup ch) [Rel Lptable; Acq Lptable].
Proof.
  unfold wakeup. apply (emits_bind _ _ [Acq Lptable] [Rel Lptable]); [apply emits_acquire|]. intros _.
  apply quiet_bind; [by unfold wakeup1|]. intros _. apply emits_release.
Qed.
Lemma quiet_sched : emits_to_switch sched [].
Proof. unfold sched, pget. do 11 (apply quiet_bind_switch; [quiet|intros ?]). by apply switch_bind. Qed.

Definition sleep_events (lk : lock) : list lockev := if decide (lk = Lptable) then [] else [Acq Lptable; Rel lk].
Lemma switch_ret {A B} (a : A) (f : A → K B) e : emits_to_switch (f a) e → emits_to_switch (mret a ≫= f) e.
Proof. done. Qed.
Lemma emits_sleep ch lk : emits_to_switch (sleep ch (Some lk)) (rev (sleep_events lk)).
Proof.
  unfold sleep, sleep_events, pget. apply quiet_bind_switch; [quiet|intros q]. apply quiet_bind_switch; [quiet|intros p].
  apply switch_ret. change (rev ?e) with ([] ++ rev e). apply emits_bind_switch.
  - case_decide; [quiet|]. apply (emits_bind _ _ [Acq Lptable] [Rel lk]); [apply emits_acquire|intros _; apply emits_release].
  - intros _. do 4 (apply quiet_bind_switch; [quiet|intros ?]). apply switch_bind, quiet_sched.
Qed.

(** What wakes the sleepers of a condition guarded by [lk]. *)
Definition signal (lk : lock) (ch : chan) : K unit :=
  acquire lk;;
  (if decide (lk = Lptable) then wakeup1 (Some ch) else wakeup ch);;
  release lk.
Definition signal_events (lk : lock) : list lockev :=
  if decide (lk = Lptable) then [Acq Lptable; Rel Lptable] else [Acq lk; Acq Lptable; Rel Lptable; Rel lk].
Lemma emits_signal lk ch : emits (signal lk ch) (rev (signal_events lk)).
Proof.
  unfold signal, signal_events. case_decide as E; subst.
  - apply (emits_bind _ _ [Acq Lptable] [Rel Lptable]); [apply emits_acquire|]. intros _.
    apply quiet_bind; [done|]. intros _. apply emits_release.
  - apply (emits_bind _ _ [Acq lk] [Rel lk; Rel Lptable; Acq Lptable]); [apply emits_acquire|]. intros _.
    apply (emits_bind _ _ [Rel Lptable; Acq Lptable] [Rel lk]); [apply emits_wakeup|]. intros _. apply emits_release.
Qed.

(** The sleeper, thread 0, goes to sleep with [lk]; the scheduler then releases
    [ptable.lock] on its processor. While it is on its way, the other thread
    has not got further than [lk]. *)
Definition on_the_way (lk : lock) (own : gmap lock nat) (s w : list lockev) : Prop :=
  if decide (lk = Lptable) then s = [Rel Lptable] ∧ w = signal_events lk ∧ own !! Lptable = Some 0%nat
  else (s = [Acq Lptable; Rel lk; Rel Lptable] ∧ w = signal_events lk ∧ own !! lk = Some 0%nat ∧ own !! Lptable = None) ∨
       (s = [Rel lk; Rel Lptable] ∧ w = signal_events lk ∧ own !! lk = Some 0%nat ∧ own !! Lptable = Some 0%nat) ∨
       (s = [Rel Lptable] ∧ w = signal_events lk ∧ own !! Lptable = Some 0%nat) ∨
       (s = [Rel Lptable] ∧ w = tl (signal_events lk) ∧ own !! Lptable = Some 0%nat).
Definition way_inv (lk : lock) (x : lockst) : Prop :=
  ∃ s w, x.2 = [s; w] ∧ (s = [] ∨ on_the_way lk x.1 s w).

Lemma lock_step_inv own s w x : lock_step (own, [s; w]) x →
  (∃ l s', s = Acq l :: s' ∧ own !! l = None ∧ x = (<[l := 0%nat]> own, [s'; w])) ∨
  (∃ l s', s = Rel l :: s' ∧ own !! l = Some 0%nat ∧ x = (delete l own, [s'; w])) ∨
  (∃ l w', w = Acq l :: w' ∧ own !! l = None ∧ x = (<[l := 1%nat]> own, [s; w'])) ∨
  (∃ l w', w = Rel l :: w' ∧ own !! l = Some 1%nat ∧ x = (delete l own, [s; w'])).
Proof.
  inversion 1 as [? ? [|[|i]] l evs Hi Hl|? ? [|[|i]] l evs Hi Hl]; subst; cbn in Hi; try discriminate Hi; injection Hi as ->; eauto 10.
Qed.

Lemma way_step lk x y : way_inv lk x → lock_step x y → way_inv lk y.
Proof.
  destruct x as [own ths]. intros (s & w & E & H) St. cbn in E. subst ths.
  destruct H as [->|H]; cbn [fst] in *.
  { apply lock_step_inv in St as [(? & ? & [=] & _)|[(? & ? & [=] & _)|[(l & w' & _ & _ & ->)|(l & w' & _ & _ & ->)]]];
      (exists [], w'; by split; [|left]). }
  unfold way_inv, on_the_way in *. unfold signal_events in *. case_decide as El.
  - destruct H as (-> & -> & HP).
    apply lock_step_inv in St as [(? & ? & [=] & _)|[(l & s' & [= <- <-] & _ & ->)|[(l & w' & [= <- <-] & E & _)|(? & ? & [=] & _)]]];
      [|congruence]. eexists _, _. split; [done|]. by left.
  - destruct H as [(-> & -> & Hl & HP)|[(-> & -> & Hl & HP)|[(-> & -> & HP)|(-> & -> & HP)]]];
      apply lock_step_inv in St as [(l & s' & [= <- <-] & E & ->)|[(l & s' & [= <- <-] & E & ->)|[(l & w' & [= <- <-] & E & ->)|(l & w' & [= <- <-] & E & ->)]]];
      try congruence; eexists _, _; (split; [done|]); cbn [fst snd].
    + right. right. left. by rewrite lookup_insert_ne, lookup_insert_eq.
    + right. right. right. left. by rewrite lookup_delete_ne.
    + by left.
    + right. right. right. right. by rewrite lookup_insert_ne.
    + by left.
Qed.


