(* ===== verification/Main.v ===== *)
(** * Start-up

    [main] of [main.c] on a machine with one processor, from the kernel as it is
    loaded to the first turn of the scheduler. Left out, as nothing of the
    modelled state depends on them: the interrupt controllers, segments and trap
    tables ([mpinit], [lapicinit], [seginit], [picinit], [ioapicinit], [tvinit],
    [idtinit]; the functions that talk to controllers are in [Mp.v] and
    [Apic.v]), [fileinit], which names a lock, the start of further processors
    and the flag by which they answer it. The entries [consoleinit] makes in
    [devsw] are the class [DevSw]. *)
From stdpp Require Import base strings numbers gmap list.
From S2P Require Import Prelude Machine KString Kernel Locks Kalloc Proc Console Vm Sleeplock.
From S2P Require Import Bio Log Fs Pipe ConsoleDev File Life.

Definition consoleinit : K unit := cset (λ s, s <| locking := true |>).

(** The greeting on the serial line, taken to be present; the baud rate and the
    interrupt of the line are not state of the model. *)
Definition uartinit : K unit :=
  foldr (λ c m, uartputc c;; m) skip (lit ("xv6..." +:+ nl)).

(** [mpmain] up to [scheduler()], on processor [id]. *)
Definition mpmain (id : Z) : K unit :=
  cprintf ("cpu%d: starting %d" +:+ nl) [AInt id; AInt id].

Section main.
Context `{!Patience, !DiskDriver, !DevSw}.

Definition main : K unit :=
  img ← gets image;
  kinit1 (l_end img) (P2V (4 * 1024 * 1024));;
  kvmalloc;;
  consoleinit;;
  uartinit;;
  pinit;;
  binit;;
  ideinit;;
  kinit2 (P2V (4 * 1024 * 1024)) (P2V PHYSTOP);;
  userinit;;
  mpmain 0.
End main.
