(* ===== verification/Safe.v ===== *)
(** * Invariants of interleaved threads

    A thread is a computation cut into stretches at [swtch]. [safe m Q k] says
    that every stretch of [m] run from [k] leaves the processor in a state
    satisfying a guarantee [G], provided it resumes in states satisfying [R];
    [panic] stops the machine and is allowed. The invariant of the process table
    and of the recorded history is stated here, with the changes it survives. *)
From stdpp Require Import base strings numbers gmap list.
From S2P Require Import Prelude Machine KString Kernel Locks Kalloc Proc ProcSpec.

(** ** The logic

    A stretch starts in a state [b], its base, and the guarantee relates the
    state at its end with the base. *)
Section safe.
Context (G : kernel → kernel → Prop) (R : kernel → Prop).

Fixpoint osafe {A} (Q : kernel → A → kernel → Prop) (b : kernel) (o : outcome kernel A) : Prop :=
  match o with
  | Ok a s => Q b a s
  | Panic _ _ => True
  | Swtch s r => G b s ∧ ∀ s', R s' → osafe Q s' (r s')
  | Waiting _ => True
  end.
Definition safe {A} (m : K A) (Q : kernel → A → kernel → Prop) (b k : kernel) : Prop := osafe Q b (m k).

Lemma safe_ret {A} (a : A) (Q : kernel → A → kernel → Prop) b k : Q b a k → safe (mret a) Q b k.
Proof. done. Qed.

Lemma safe_bind {A B} (m : K A) (f : A → K B) Q b k :
  safe m (λ b a, safe (f a) Q b) b k → safe (m ≫= f) Q b k.
Proof.
  unfold safe, mbind, M_bind. generalize (m k). clear k m. intros o. revert o b.
  fix IH 1. intros [a s|e s|s r|s] b; cbn; [done..| |done].
  intros [HG H]. split; [done|]. intros s' Hs'. by apply IH, H.
Qed.

Lemma safe_mono {A} (m : K A) (Q Q' : kernel → A → kernel → Prop) b k :
  safe m Q b k → (∀ b a s, Q b a s → Q' b a s) → safe m Q' b k.
Proof.
  intros H HQ. revert H. unfold safe. generalize (m k). intros o. revert o b.
  fix IH 1. intros [a s|e s|s r|s] b; cbn; [apply HQ|done| |done].
  intros [HG H]. split; [done|]. intros s' Hs'. by apply IH, H.
Qed.

Lemma safe_gets {A} (f : kernel → A) Q b k : Q b (f k) k → safe (gets f) Q b k.
Proof. done. Qed.
Lemma safe_modify f (Q : kernel → unit → kernel → Prop) b k : Q b tt (f k) → safe (modify f) Q b k.
Proof. done. Qed.
Lemma safe_skip (Q : kernel → unit → kernel → Prop) b k : Q b tt k → safe skip Q b k.
Proof. done. Qed.
Lemma safe_panic {A} e (Q : kernel → A → kernel → Prop) b k : safe (panic e) Q b k.
Proof. done. Qed.
Lemma safe_waiting {A} (Q : kernel → A → kernel → Prop) b k : safe waiting Q b k.
Proof. done. Qed.
Lemma safe_swtch (Q : kernel → unit → kernel → Prop) b k :
  G b k → (∀ s, R s → Q s tt s) → safe swtch Q b k.
Proof. done. Qed.

(** [m] keeps an invariant of the thread. *)
Definition keeps {A} (I : kernel → kernel → Prop) (m : K A) : Prop :=
  ∀ b k, I b k → safe m (λ b _, I b) b k.

Lemma keeps_bind {A B} I (m : K A) (f : A → K B) :
  keeps I m → (∀ a, keeps I (f a)) → keeps I (m ≫= f).
Proof. intros Hm Hf b k Hk. apply safe_bind. eapply safe_mono; [by apply Hm|]. intros b' a s. apply Hf. Qed.
Lemma keeps_ret {A} I (a : A) : keeps I (mret a).
Proof. by intros b k. Qed.
Lemma keeps_gets {A} I (f : kernel → A) : keeps I (gets f).
Proof. by intros b k. Qed.
Lemma keeps_skip I : keeps I skip.
Proof. by intros b k. Qed.
Lemma keeps_panic {A} I e : keeps I (panic e : K A).
Proof. by intros b k. Qed.
Lemma keeps_waiting {A} I : keeps I (waiting : K A).
Proof. by intros b k. Qed.
Lemma keeps_modify I f : (∀ b k, I b k → I b (f k)) → keeps I (modify f).
Proof. intros H b k. apply H. Qed.
Lemma keeps_for_up I f n : ∀ i, (∀ j, keeps I (f j)) → keeps I (for_up n i f).
Proof.
  induction n as [|n IH]; intros i Hf; cbn [for_up]; [apply keeps_skip|].
  apply keeps_bind; [apply Hf|]. intros []. by apply IH.
Qed.
Lemma keeps_safe {A} I (m : K A) (Q : kernel → A → kernel → Prop) b k :
  keeps I m → I b k → (∀ b a s, I b s → Q b a s) → safe m Q b k.
Proof. intros Hm Hk HQ. eapply safe_mono; [by apply Hm|]. eauto. Qed.
Lemma safe_keep {A B} I (m : K A) (f : A → K B) Q b k :
  keeps I m → I b k → (∀ b a s, I b s → safe (f a) Q b s) → safe (m ≫= f) Q b k.
Proof. intros Hm Hk Hf. apply safe_bind. by eapply keeps_safe. Qed.
End safe.

(** ** The invariant *)

(** The states of a slot that belongs to a process other code can see. *)
Definition live (s : procstate) : Prop := s ≠ UNUSED ∧ s ≠ EMBRYO.

Definition slot_ok (n : Z) (r : proc) : Prop :=
  0 ≤ pid r < n ∧ (pid r ≠ 0 → 0 < tickets r) ∧ (live (state r) → pid r ≠ 0).

(** Only the process [c] is RUNNING. *)
Definition quiet (c : option nat) (t : list proc) : Prop :=
  ∀ i r, t !! i = Some r → state r = RUNNING → c = Some i.

(** Pids are below [n], no two slots have the same pid, every process has a
    ticket, and none but [c] is RUNNING. *)
Definition pinv (c : option nat) (t : list proc) (n : Z) : Prop :=
  length t = NPROC ∧ 0 < n ∧ Forall (slot_ok n) t ∧
  (∀ i j r r', t !! i = Some r → t !! j = Some r' → pid r = pid r' → pid r ≠ 0 → i = j) ∧
  quiet c t.

(** A change of a slot that keeps the identity of the process in it. *)
Definition same_id (r r' : proc) : Prop :=
  pid r' = pid r ∧ tickets r' = tickets r ∧ (live (state r') → live (state r)) ∧
  (state r' = RUNNING → state r = RUNNING).

Lemma slot_ok_same n r r' : same_id r r' → slot_ok n r → slot_ok n r'.
Proof. unfold slot_ok, same_id. intros (-> & -> & Hl & _) (? & ? & ?). split; [done|]. split; auto. Qed.

Lemma same_id_refl r : same_id r r.
Proof. by split_and!. Qed.

(** What [alter] does to the conditions on the whole table. *)
Lemma alter_pids (f : proc → proc) p (t : list proc) i r : (∀ r, t !! p = Some r → pid (f r) = pid r) →
  alter f p t !! i = Some r → ∃ r0, t !! i = Some r0 ∧ pid r = pid r0.
Proof.
  intros Hf. rewrite lookup_alter_list. case_decide; [subst|eauto].
  intros (r0 & Hr0 & ->)%fmap_Some. exists r0. split; [done|]. by apply Hf.
Qed.
Lemma quiet_alter c f p t : (∀ r, t !! p = Some r → state (f r) = RUNNING → state r = RUNNING ∨ c = Some p) →
  quiet c t → quiet c (alter f p t).
Proof.
  intros Hf Hq i r. rewrite lookup_alter_list. case_decide; [subst|apply Hq].
  intros (r0 & Hr0 & ->)%fmap_Some Hr. destruct (Hf r0 Hr0 Hr); [by eapply Hq|done].
Qed.

Lemma pinv_slot c f p t n : (∀ r, t !! p = Some r → same_id r (f r)) → pinv c t n → pinv c (alter f p t) n.
Proof.
  intros Hf (Hlen & Hn & HF & Hu & Hq). split_and!; [by rewrite length_alter|done| | |].
  - apply Forall_alter_iff; [done|]. intros r Hr. by apply slot_ok_same, Hf.
  - assert (Hp : ∀ r, t !! p = Some r → pid (f r) = pid r) by (intros r Hr; by apply Hf).
    intros i j r r' (r0 & Hi & ->)%(alter_pids _ _ _ _ _ Hp) (r1 & Hj & ->)%(alter_pids _ _ _ _ _ Hp).
    by apply (Hu i j r0 r1).
  - apply quiet_alter; [|done]. intros r Hr ?. left. by apply Hf.
Qed.

Lemma pinv_fmap c f t n : (∀ r, same_id r (f r)) → pinv c t n → pinv c (f <$> t) n.
Proof.
  intros Hf (Hlen & Hn & HF & Hu & Hq). split_and!; [by rewrite length_fmap|done| | |].
  - apply Forall_fmap. eapply Forall_impl; [done|]. intros r. by apply slot_ok_same.
  - intros i j r r'. rewrite !list_lookup_fmap. intros (r0 & Hi & ->)%fmap_Some (r1 & Hj & ->)%fmap_Some.
    destruct (Hf r0) as (-> & _), (Hf r1) as (-> & _). by apply Hu.
  - intros i r. rewrite list_lookup_fmap. intros (r0 & Hi & ->)%fmap_Some Hr. eapply Hq; [done|]. by apply Hf.
Qed.

(** A slot is given up: no process is in it any more. *)
Lemma pinv_free c f p t n : (∀ r, pid (f r) = 0 ∧ ¬ live (state (f r))) → pinv c t n → pinv c (alter f p t) n.
Proof.
  intros Hf (Hlen & Hn & HF & Hu & Hq). split_and!; [by rewrite length_alter|done| | |].
  - apply Forall_alter_iff; [done|]. intros r _ _. destruct (Hf r) as [E ?]. unfold slot_ok. rewrite E.
    split; [lia|]. by split.
  - intros i j r r'. rewrite !lookup_alter_list. intros Hi Hj Hp Hne.
    destruct (decide (p = i)); [apply fmap_Some in Hi as (r0 & _ & ->); by destruct (Hf r0)|].
    destruct (decide (p = j)); [apply fmap_Some in Hj as (r0 & _ & ->); destruct (Hf r0); congruence|].
    by apply (Hu i j r r').
  - apply quiet_alter; [|done]. intros r _ E. destruct (Hf r) as [_ []]. by rewrite E.
Qed.

(** A slot gets the next pid. *)
Lemma pinv_alloc c f p t n : (∀ r, pid (f r) = n ∧ 0 < tickets (f r) ∧ state (f r) ≠ RUNNING) →
  pinv c t n → pinv c (alter f p t) (n + 1).
Proof.
  intros Hf (Hlen & Hn & HF & Hu & Hq). split_and!; [by rewrite length_alter|lia| | |].
  - apply Forall_alter_iff.
    + eapply Forall_impl; [done|]. intros r (? & ? & ?). split; [lia|]. by split.
    + intros r _ _. destruct (Hf r) as (E & ? & _). unfold slot_ok. rewrite E. split; [lia|]. split; [done|lia].
  - rewrite Forall_lookup in HF. intros i j r r'. rewrite !lookup_alter_list. intros Hi Hj Hp Hne.
    destruct (decide (p = i)), (decide (p = j)); [congruence|..].
    + apply fmap_Some in Hi as (r0 & _ & ->). destruct (Hf r0), (HF _ _ Hj). lia.
    + apply fmap_Some in Hj as (r0 & _ & ->). destruct (Hf r0), (HF _ _ Hi). lia.
    + by apply (Hu i j r r').
  - apply quiet_alter; [|done]. intros r _ E. by destruct (Hf r) as (_ & _ & []).
Qed.

(** A slot changes in a way its pid survives. *)
Lemma pinv_keep c f p t n : (∀ r, pid (f r) = pid r) →
  (∀ r, t !! p = Some r → slot_ok n r → slot_ok n (f r)) →
  (∀ r, t !! p = Some r → state (f r) = RUNNING → state r = RUNNING ∨ c = Some p) →
  pinv c t n → pinv c (alter f p t) n.
Proof.
  intros Hf Hok Hrun (Hlen & Hn & HF & Hu & Hq). split_and!; [by rewrite length_alter|done| | |].
  - by apply Forall_alter_iff.
  - assert (Hp : ∀ r, t !! p = Some r → pid (f r) = pid r) by (intros; apply Hf).
    intros i j r r' (r0 & Hi & ->)%(alter_pids _ _ _ _ _ Hp) (r1 & Hj & ->)%(alter_pids _ _ _ _ _ Hp).
    by apply (Hu i j r0 r1).
  - by apply quiet_alter.
Qed.

(** The number of tickets of a process changes. *)
Lemma pinv_tickets c x p t n : 0 < x → pinv c t n → pinv c (alter (λ r, r <| tickets := x |>) p t) n.
Proof.
  intros Hx. apply pinv_keep; [done| |by left]. intros r _ (? & ? & ?). split; [done|]. by split.
Qed.

(** A slot with a pid takes a state. *)
Lemma pinv_state c x p t n : pid (t !!! p) ≠ 0 → (x = RUNNING → c = Some p) →
  pinv c t n → pinv c (alter (λ r, r <| state := x |>) p t) n.
Proof.
  intros Hp Hx. apply pinv_keep; [done| |by right; auto]. intros r Hr (? & ? & ?).
  rewrite list_lookup_total_alt, Hr in Hp. split; [done|]. by split.
Qed.

(** The process that may run changes. *)
Lemma pinv_any c t n : pinv None t n → pinv c t n.
Proof. intros (? & ? & ? & ? & Hq). split_and!; [done..|]. intros i r Hi Hr. by specialize (Hq i r Hi Hr). Qed.
Lemma pinv_stopped p t n : state (t !!! p) ≠ RUNNING → pinv (Some p) t n → pinv None t n.
Proof.
  intros Hp (? & ? & ? & ? & Hq). split_and!; [done..|]. intros i r Hi Hr.
  pose proof (Hq i r Hi Hr) as [= <-]. by rewrite list_lookup_total_alt, Hi in Hp.
Qed.

(** ** The invariant of a thread *)

(** [nextpid] has not come to its last value yet ([strict]), or may have. *)
Definition MAXPID : Z := 2147483647.
Definition pid_room (strict : bool) (n : Z) : Prop := n ≤ (if strict then MAXPID - 1 else MAXPID).

(** No record of the history is lost or changed. *)
Definition hist_le (pd pd' : list PerfData) : Prop :=
  ∀ i d, pd !! i = Some d → istrue (pf_valid d) = true → pd' !! i = Some d.
#[global] Instance hist_le_preorder : PreOrder hist_le.
Proof. split; [by intros ? ? ?|]. intros x y z H1 H2 i d Hi Hd. auto. Qed.

(** No process but [c] runs. *)
Definition kinv (c : option nat) (strict : bool) (b k : kernel) : Prop :=
  pinv c (ptable k) (nextpid k) ∧ pid_room strict (nextpid k) ∧ hist_le (perf_data b) (perf_data k).

(** The invariant where the processor runs for process [c], or for none. *)
Definition cinv (c : option nat) (strict : bool) (b k : kernel) : Prop :=
  kinv c strict b k ∧ cproc (kcpu k) = c.
Definition tinv (c : option nat) (strict : bool) (b k : kernel) : Prop :=
  cinv c strict b k ∧ match c with Some p => state (ptable k !!! p) = RUNNING | None => True end.
(** What holds when the thread of [c] is resumed. *)
Definition tstart (c : option nat) (s : kernel) : Prop := tinv c true s s.
#[global] Typeclasses Opaque kinv cinv tinv.

Lemma kinv_weaken c st b k : kinv c st b k → kinv c false b k.
Proof. intros (? & Hr & ?). split; [done|]. split; [|done]. unfold pid_room in *. destruct st; lia. Qed.
Lemma kinv_strict c st b k : kinv c true b k → kinv c st b k.
Proof. intros H. destruct st; [done|by eapply kinv_weaken]. Qed.
Lemma tinv_strict c st b k : tinv c true b k → tinv c st b k.
Proof. intros ((? & ?) & ?). split; [|done]. split; [by apply kinv_strict|done]. Qed.

Lemma tinv_cproc c st b k : tinv c st b k → cproc (kcpu k) = c.
Proof. by intros [[? H] ?]. Qed.

(** An invariant that reads no more than the two above. *)
Class DataInv (I : kernel → kernel → Prop) : Prop :=
  data_inv b k k' : ptable k' = ptable k → nextpid k' = nextpid k → perf_data k' = perf_data k →
    cproc (kcpu k') = cproc (kcpu k) → I b k → I b k'.
#[global] Instance kinv_data c st : DataInv (kinv c st).
Proof. intros b k k' H1 H2 H3 H4. unfold kinv. by rewrite H1, H2, H3. Qed.
#[global] Instance cinv_data c st : DataInv (cinv c st).
Proof. intros b k k' H1 H2 H3 H4. unfold cinv, kinv. by rewrite H1, H2, H3, H4. Qed.
#[global] Instance tinv_data c st : DataInv (tinv c st).
Proof. intros b k k' H1 H2 H3 H4. unfold tinv, cinv, kinv. by rewrite H1, H2, H3, H4. Qed.

(** ** Locks and slots *)
Section generic.
Context (G : kernel → kernel → Prop) (R : kernel → Prop) (I : kernel → kernel → Prop) `{!DataInv I}.

Lemma kp_pushcli : keeps G R I pushcli.
Proof. intros b k Hk. unfold safe. rewrite pushcli_ok. cbn. by apply (data_inv b k). Qed.
Lemma kp_popcli : keeps G R I popcli.
Proof.
  intros b k Hk. unfold safe, popcli. destruct (eflags_if k); [done|]. cbn zeta.
  destruct (_ <? 0); [done|]. destruct (_ && _); cbn; by apply (data_inv b k).
Qed.
Lemma kp_holding l : keeps G R I (holding l).
Proof.
  apply keeps_bind; [apply kp_pushcli|]. intros []. apply keeps_bind; [apply keeps_gets|]. intros b.
  apply keeps_bind; [apply kp_popcli|]. intros []. apply keeps_ret.
Qed.
Lemma kp_modify f : (∀ k, ptable (f k) = ptable k ∧ nextpid (f k) = nextpid k ∧
    perf_data (f k) = perf_data k ∧ cproc (kcpu (f k)) = cproc (kcpu k)) → keeps G R I (modify f).
Proof. intros H. apply keeps_modify. intros b k. destruct (H k) as (? & ? & ? & ?). by apply data_inv. Qed.
Lemma kp_acquire l : keeps G R I (acquire l).
Proof.
  apply keeps_bind; [apply kp_pushcli|]. intros []. apply keeps_bind; [apply kp_holding|]. intros b.
  apply keeps_bind; [destruct b; [apply keeps_panic|apply keeps_skip]|]. intros []. by apply kp_modify.
Qed.
Lemma kp_release l : keeps G R I (release l).
Proof.
  apply keeps_bind; [apply kp_holding|]. intros b.
  apply keeps_bind; [destruct b; [apply keeps_skip|apply keeps_panic]|]. intros [].
  apply keeps_bind; [by apply kp_modify|]. intros []. apply kp_popcli.
Qed.
Lemma kp_myproc : keeps G R I myproc.
Proof.
  apply keeps_bind; [apply kp_pushcli|]. intros []. apply keeps_bind; [apply keeps_gets|]. intros o.
  apply keeps_bind; [apply kp_popcli|]. intros []. apply keeps_ret.
Qed.
Lemma kp_deref {A} (o : option A) : keeps G R I (deref o).
Proof. destruct o; [apply keeps_ret|apply keeps_panic]. Qed.
Lemma kp_pget p : keeps G R I (pget p).
Proof. apply keeps_gets. Qed.
End generic.

Create HintDb kp discriminated.
#[export] Hint Constants Opaque : kp.
#[export] Hint Resolve keeps_ret keeps_gets keeps_skip keeps_panic keeps_waiting : kp.
#[export] Hint Resolve kp_pushcli kp_popcli kp_holding kp_acquire kp_release kp_myproc kp_deref kp_pget : kp.
#[export] Hint Extern 1 (DataInv _) => apply _ : kp.

(** Walks through the text of a function, closing the calls with lemmas of the
    database. *)
Ltac kp_step :=
  lazymatch goal with
  | |- keeps _ _ _ (_ ≫= _) => apply keeps_bind; [|intros ?]
  | |- keeps _ _ _ (modify _) => first [solve [typeclasses eauto with kp nocore]|apply kp_modify; [apply _|done]]
  | |- keeps _ _ _ (for_up _ _ _) => apply keeps_for_up; intros ?
  | |- keeps _ _ _ (when ?b _) => unfold when; destruct b
  | |- keeps _ _ _ (let _ := _ in _) => cbv zeta
  | |- keeps _ _ _ (match ?x with _ => _ end) => destruct x
  | H : keeps _ _ _ ?m |- keeps _ _ _ ?m => exact H
  | |- keeps _ _ _ _ => solve [typeclasses eauto with kp nocore]
  end.
Ltac solve_kp := repeat (cbv beta; kp_step).
