(* ===== verification/Keeps.v ===== *)
(** * The kernel keeps the invariant of its threads

    Every function of the kernel keeps the invariant of the thread that runs it:
    those that leave the process table alone for any invariant on it, the others
    for [tinv]. The functions that create a process use up one pid. *)
From stdpp Require Import base strings numbers gmap list.
From S2P Require Import Prelude Machine KString Kernel Locks Kalloc Proc ProcSpec Console Vm Random.
From S2P Require Import Sched Sleeplock Bio Log Fs Pipe ConsoleDev File Life Arg Sysfile Exec.
From S2P Require Import Syscall Safe.

(** One more call, that keeps the invariant [H] says of the state. *)
Ltac keep H :=
  match type of H with ?J _ _ =>
    eapply (safe_keep _ _ J); [solve_kp|exact H|]; clear H; intros ? ? ? H
  end.

(** ** Functions that leave the process table alone *)
Section generic.
Context (G : kernel → kernel → Prop) (R : kernel → Prop) (I : kernel → kernel → Prop) `{!DataInv I}.
Local Abbreviation kp m := (keeps G R I m).

Lemma kp_kfree v : kp (kfree v).
Proof. unfold kfree. solve_kp. Qed.
Lemma kp_kalloc : kp kalloc.
Proof. unfold kalloc. solve_kp. Qed.
Lemma kp_rd32 a : kp (rd32 a).
Proof. apply keeps_gets. Qed.
Lemma kp_wr32 a v : kp (wr32 a v).
Proof. unfold wr32. solve_kp. Qed.
Lemma kp_wr16 a v : kp (wr16 a v).
Proof. unfold wr16. solve_kp. Qed.
Lemma kp_kmemset a c n : kp (kmemset a c n).
Proof. unfold kmemset. solve_kp. Qed.
Lemma kp_kmemmove d s n : kp (kmemmove d s n).
Proof. unfold kmemmove. solve_kp. Qed.
Hint Resolve kp_kfree kp_kalloc kp_rd32 kp_wr32 kp_kmemset kp_kmemmove : kp.

Lemma kp_cset f : kp (cset f).
Proof. unfold cset. solve_kp. Qed.
Lemma kp_uartputc c : kp (uartputc c).
Proof. apply kp_cset. Qed.
Hint Resolve kp_cset kp_uartputc : kp.
Lemma kp_cgaputc c : kp (cgaputc c).
Proof. unfold cgaputc. solve_kp. Qed.
Hint Resolve kp_cgaputc : kp.
Lemma kp_consputc c : kp (consputc c).
Proof. unfold consputc. solve_kp. Qed.
Hint Resolve kp_consputc : kp.
Lemma kp_putchars cs : kp (putchars cs).
Proof. unfold putchars. induction cs; cbn [foldr]; solve_kp. Qed.
Hint Resolve kp_putchars : kp.
Lemma kp_printint x b s : kp (printint x b s).
Proof. apply kp_putchars. Qed.
Hint Resolve kp_printint : kp.
Lemma kp_cprintf_loop fmt : ∀ args, kp (cprintf_loop fmt args).
Proof.
  induction fmt as [fmt IH] using (induction_ltof1 _ (@length Z)). unfold ltof in IH. intros args.
  destruct fmt as [|c [|c' fmt]]; cbn [cprintf_loop]; solve_kp.
  all: try (apply (IH (c' :: fmt)); cbn; lia). all: apply (IH fmt); cbn; lia.
Qed.
Hint Resolve kp_cprintf_loop : kp.
Lemma kp_cprintf f a : kp (cprintf f a).
Proof. unfold cprintf. solve_kp. Qed.
Hint Resolve kp_cprintf : kp.
Lemma kp_procdump_pcs pcs : kp (procdump_pcs pcs).
Proof. induction pcs; cbn [procdump_pcs]; solve_kp. Qed.
Hint Resolve kp_procdump_pcs : kp.
Lemma kp_procdump : kp procdump.
Proof. unfold procdump, procdump_one. solve_kp. Qed.
Lemma kp_kill_line n : kp (kill_line n).
Proof. induction n; cbn [kill_line]; solve_kp. Qed.

Lemma kp_walkpgdir pg va a : kp (walkpgdir pg va a).
Proof. unfold walkpgdir. solve_kp. Qed.
Hint Resolve kp_walkpgdir : kp.
Lemma kp_mappages_loop n pg l pe : ∀ a pa, kp (mappages_loop n pg a l pa pe).
Proof. induction n; intros; cbn [mappages_loop]; solve_kp. Qed.
Lemma kp_mappages pg va s pa pe : kp (mappages pg va s pa pe).
Proof. apply kp_mappages_loop. Qed.
Hint Resolve kp_mappages : kp.
Lemma kp_deallocuvm_loop n pg o : ∀ a, kp (deallocuvm_loop n pg a o).
Proof. induction n; intros; cbn [deallocuvm_loop]; solve_kp. Qed.
Hint Resolve kp_deallocuvm_loop : kp.
Lemma kp_deallocuvm pg o n : kp (deallocuvm pg o n).
Proof. unfold deallocuvm. solve_kp. Qed.
Hint Resolve kp_deallocuvm : kp.
Lemma kp_freevm_loop n pg : ∀ i, kp (freevm_loop n i pg).
Proof. induction n; intros; cbn [freevm_loop]; solve_kp. Qed.
Hint Resolve kp_freevm_loop : kp.
Lemma kp_freevm pg : kp (freevm pg).
Proof. unfold freevm. solve_kp. Qed.
Hint Resolve kp_freevm : kp.
Lemma kp_setupkvm_loop ks pg : kp (setupkvm_loop ks pg).
Proof. induction ks as [|[[[]]] ks]; cbn [setupkvm_loop]; solve_kp. Qed.
Hint Resolve kp_setupkvm_loop : kp.
Lemma kp_setupkvm : kp setupkvm.
Proof. unfold setupkvm. solve_kp. Qed.
Hint Resolve kp_setupkvm : kp.
Lemma kp_switchkvm : kp switchkvm.
Proof. unfold switchkvm. solve_kp. Qed.
Lemma kp_switchuvm p : kp (switchuvm p).
Proof. unfold switchuvm. solve_kp. Qed.
Lemma kp_inituvm pg init : kp (inituvm pg init).
Proof. unfold inituvm. solve_kp. Qed.
Lemma kp_allocuvm_loop n pg o s : ∀ a, kp (allocuvm_loop n pg a o s).
Proof. induction n; intros; cbn [allocuvm_loop]; solve_kp. Qed.
Hint Resolve kp_allocuvm_loop : kp.
Lemma kp_allocuvm pg o n : kp (allocuvm pg o n).
Proof. unfold allocuvm. solve_kp. Qed.
Lemma kp_clearpteu pg va : kp (clearpteu pg va).
Proof. unfold clearpteu. solve_kp. Qed.
Lemma kp_copyuvm_loop n pg d s : ∀ i, kp (copyuvm_loop n pg d i s).
Proof. induction n; intros; cbn [copyuvm_loop]; solve_kp. Qed.
Hint Resolve kp_copyuvm_loop : kp.
Lemma kp_copyuvm pg s : kp (copyuvm pg s).
Proof. unfold copyuvm. solve_kp. Qed.
Lemma kp_uva2ka pg va : kp (uva2ka pg va).
Proof. unfold uva2ka. solve_kp. Qed.
Hint Resolve kp_uva2ka : kp.
Lemma kp_copyout_loop n pg : ∀ va b, kp (copyout_loop n pg va b).
Proof. induction n; intros; cbn [copyout_loop]; solve_kp. Qed.
Lemma kp_copyout pg va b : kp (copyout pg va b).
Proof. apply kp_copyout_loop. Qed.
End generic.
#[export] Hint Resolve kp_kfree kp_kalloc kp_rd32 kp_wr32 kp_wr16 kp_kmemset kp_kmemmove kp_cset : kp.
#[export] Hint Resolve kp_consputc kp_putchars kp_cprintf kp_procdump kp_kill_line kp_walkpgdir : kp.
#[export] Hint Resolve kp_deallocuvm kp_freevm kp_setupkvm kp_switchkvm kp_switchuvm kp_inituvm : kp.
#[export] Hint Resolve kp_allocuvm kp_clearpteu kp_copyuvm kp_copyout : kp.

Section generic2.
Context (G : kernel → kernel → Prop) (R : kernel → Prop) (I : kernel → kernel → Prop) `{!DataInv I}.
Local Abbreviation kp m := (keeps G R I m).

Lemma kp_uld8 va : kp (uld8 va).
Proof. unfold uld8. solve_kp. Qed.
Lemma kp_ust8 va v : kp (ust8 va v).
Proof. unfold ust8. solve_kp. Qed.
Hint Resolve kp_uld8 kp_ust8 : kp.
Lemma kp_uld32 va : kp (uld32 va).
Proof. unfold uld32. solve_kp. Qed.
Lemma kp_ustore bs : ∀ va, kp (ustore va bs).
Proof. induction bs; intros; cbn [ustore]; solve_kp. Qed.
Lemma kp_uload n : ∀ va, kp (uload va n).
Proof. induction n; intros; cbn [uload]; solve_kp. Qed.
Lemma kp_curproc : kp curproc.
Proof. unfold curproc. solve_kp. Qed.
Hint Resolve kp_uld32 kp_ustore kp_curproc : kp.
Lemma kp_fetchint a : kp (fetchint a).
Proof. unfold fetchint. solve_kp. Qed.
Lemma kp_fetchstr_loop n e : ∀ s acc, kp (fetchstr_loop n s e acc).
Proof. induction n; intros; cbn [fetchstr_loop]; solve_kp. Qed.
Hint Resolve kp_fetchint kp_fetchstr_loop : kp.
Lemma kp_fetchstr a : kp (fetchstr a).
Proof. unfold fetchstr. solve_kp. Qed.
Hint Resolve kp_fetchstr : kp.
Lemma kp_argint n : kp (argint n).
Proof. unfold argint. solve_kp. Qed.
Hint Resolve kp_argint : kp.
Lemma kp_argptr n s : kp (argptr n s).
Proof. unfold argptr. solve_kp. Qed.
Lemma kp_argstr n : kp (argstr n).
Proof. unfold argstr. solve_kp. Qed.
Lemma kp_argfd n : kp (argfd n).
Proof. unfold argfd. solve_kp. Qed.
Lemma kp_store_stat p st : kp (store_stat p st).
Proof. unfold store_stat. solve_kp. Qed.
Lemma kp_sys_exec_args n u : ∀ i acc, kp (sys_exec_args n u i acc).
Proof. induction n; intros; cbn [sys_exec_args]; solve_kp. Qed.

Lemma kp_mypid : kp mypid.
Proof. unfold mypid. solve_kp. Qed.
Lemma kp_mykilled : kp mykilled.
Proof. unfold mykilled. solve_kp. Qed.
Lemma kp_set_slp l f : kp (modify (λ k, set_slp l (f k) k)).
Proof. destruct l; by apply kp_modify. Qed.
Hint Resolve kp_mypid kp_set_slp : kp.
Lemma kp_initsleeplock l : kp (initsleeplock l).
Proof. apply (kp_set_slp l (λ _, mkSlk 0 0)). Qed.
Lemma kp_holdingsleep l : kp (holdingsleep l).
Proof. unfold holdingsleep. solve_kp. Qed.
Lemma kp_bget_slot b : kp (bget_slot b).
Proof. apply keeps_gets. Qed.
Lemma kp_bset b f : kp (bset b f).
Proof. unfold bset. solve_kp. Qed.
Lemma kp_lset f : kp (lset f).
Proof. unfold lset. solve_kp. Qed.
Lemma kp_iget_slot b : kp (iget_slot b).
Proof. apply keeps_gets. Qed.
Lemma kp_iset i f : kp (iset i f).
Proof. unfold iset. solve_kp. Qed.
Lemma kp_fget b : kp (fget b).
Proof. apply keeps_gets. Qed.
Lemma kp_fset i f : kp (fset i f).
Proof. unfold fset. solve_kp. Qed.
Lemma kp_ppget b : kp (ppget b).
Proof. apply keeps_gets. Qed.
Lemma kp_ppset i f : kp (ppset i f).
Proof. unfold ppset. solve_kp. Qed.
Hint Resolve kp_bget_slot kp_bset kp_lset kp_iget_slot kp_iset kp_fget kp_fset kp_holdingsleep : kp.
Lemma kp_bcopy d s : kp (bcopy d s).
Proof. unfold bcopy. solve_kp. Qed.
Lemma kp_log_write b : kp (log_write b).
Proof. unfold log_write. solve_kp. Qed.
Lemma kp_memide_iderw b : kp (memide_iderw b).
Proof. unfold memide_iderw. solve_kp. Qed.
Lemma kp_iget d n : kp (iget d n).
Proof. unfold iget. solve_kp. Qed.
Lemma kp_idup i : kp (idup i).
Proof. unfold idup. solve_kp. Qed.
Lemma kp_filealloc : kp filealloc.
Proof. unfold filealloc. solve_kp. Qed.
Lemma kp_filedup f : kp (filedup f).
Proof. unfold filedup. solve_kp. Qed.

Lemma kp_getrunticks x : kp (getrunticks x).
Proof. unfold getrunticks. solve_kp. Qed.
Lemma kp_gettickets x : kp (gettickets x).
Proof. unfold gettickets. solve_kp. Qed.
Lemma kp_job_position x : kp (job_position x).
Proof. unfold job_position. solve_kp. Qed.
Lemma kp_get_time fp fd x : kp (get_time fp fd x).
Proof. unfold get_time. solve_kp. Qed.
Lemma kp_sys_uptime : kp sys_uptime.
Proof. unfold sys_uptime. solve_kp. Qed.
Lemma kp_with_pid f : (∀ x, kp (f x)) → kp (with_pid f).
Proof. intros ?. unfold with_pid. solve_kp. Qed.
Lemma kp_sys_getpid : kp sys_getpid.
Proof. unfold sys_getpid. solve_kp. Qed.
End generic2.
#[export] Hint Resolve kp_uld8 kp_ust8 kp_uld32 kp_ustore kp_uload kp_curproc kp_fetchint kp_fetchstr : kp.
#[export] Hint Resolve kp_argint kp_argptr kp_argstr kp_argfd kp_store_stat kp_sys_exec_args : kp.
#[export] Hint Resolve kp_mypid kp_mykilled kp_set_slp kp_initsleeplock kp_holdingsleep kp_bget_slot : kp.
#[export] Hint Resolve kp_bset kp_lset kp_iget_slot kp_iset kp_fget kp_fset kp_ppget kp_ppset kp_bcopy : kp.
#[export] Hint Resolve kp_log_write kp_memide_iderw kp_iget kp_idup kp_filealloc kp_filedup : kp.
#[export] Hint Resolve kp_getrunticks kp_gettickets kp_job_position kp_get_time kp_sys_uptime : kp.
#[export] Hint Resolve kp_with_pid kp_sys_getpid : kp.

(** ** Functions that change the process table *)

(** A change of a slot that keeps its process and its state. *)
Definition calm (f : proc → proc) : Prop := ∀ r, same_id r (f r) ∧ state (f r) = state r.
Lemma calm_intro f : (∀ r, pid (f r) = pid r ∧ tickets (f r) = tickets r ∧ state (f r) = state r) → calm f.
Proof. intros H r. destruct (H r) as (E1 & E2 & E3). split; [|done]. split_and!; [done..| |]; by rewrite E3. Qed.
Lemma calm_add_ready t : calm (add_ready t).
Proof. by apply calm_intro. Qed.
Lemma calm_finalize t : calm (finalize t).
Proof.
  apply calm_intro. intros r. unfold finalize. cbv zeta.
  destruct (_ <=? _), (_ =? _), (_ <? _); done.
Qed.
Create HintDb calm discriminated.
#[export] Hint Resolve calm_add_ready calm_finalize : calm.
#[export] Hint Extern 5 (calm _) => apply calm_intro; intros ?; done : calm.
#[export] Hint Extern 8 (calm (λ r, if _ then _ else _)) =>
  apply calm_intro; intros ?; case_match; done : calm.

Section thread.
Context (c : option nat) (st : bool).
Local Abbreviation G := (kinv None false).
Local Abbreviation R := (tstart c).
Local Abbreviation I := (tinv c st).
Local Abbreviation kp m := (keeps G R I m).

Lemma tinv_slot p f b k : (∀ r, ptable k !! p = Some r → same_id r (f r)) →
  (c = Some p → state (f (ptable k !!! p)) = RUNNING) → I b k → I b (k <| ptable ::= alter f p |>).
Proof.
  intros Hf Hc (((Hp & Hr & Hh) & Hcp) & Hrun). split; [split; [split|]|]; [by apply pinv_slot|done..|].
  destruct c as [q|]; [|done]. cbn. destruct (decide (p = q)) as [->|Hne].
  - rewrite alter_lookup_total; [by apply Hc|]. destruct Hp as [Hl _].
    destruct (decide (q < length (ptable k))%nat); [done|]. exfalso.
    rewrite list_lookup_total_alt, lookup_ge_None_2 in Hrun by lia. done.
  - by rewrite list_lookup_total_alter_ne.
Qed.

Lemma tinv_fmap f b k : (∀ r, same_id r (f r)) → (∀ r, state r = RUNNING → state (f r) = RUNNING) →
  I b k → I b (k <| ptable ::= fmap f |>).
Proof.
  intros Hf Hst (((Hp & Hr & Hh) & Hcp) & Hrun). split; [split; [split|]|]; [by apply pinv_fmap|done..|].
  destruct c as [q|]; [|done]. cbn. destruct (ptable k !! q) as [r|] eqn:E.
  - rewrite list_lookup_total_alt, list_lookup_fmap, E. cbn. apply Hst.
    by rewrite list_lookup_total_alt, E in Hrun.
  - by rewrite list_lookup_total_alt, E in Hrun.
Qed.

Lemma kp_pset p f : calm f → kp (pset p f).
Proof.
  intros Hf. apply keeps_modify. intros b k Hk. apply tinv_slot; [intros; apply Hf| |done].
  intros E. destruct (Hf (ptable k !!! p)) as [_ ->]. destruct Hk as [_ Hk]. by rewrite E in Hk.
Qed.

Lemma same_id_wake ch t r : same_id r (wake_slot ch t r).
Proof.
  unfold wake_slot. case_decide as H; [|apply same_id_refl]. destruct H as [H _].
  split_and!; [done..| |done]. intros _. by rewrite H.
Qed.
Lemma kp_wakeup1 ch : kp (wakeup1 ch).
Proof.
  apply keeps_bind; [apply keeps_gets|]. intros t. apply keeps_modify. intros b k.
  apply tinv_fmap; [apply same_id_wake|]. intros r Hr. unfold wake_slot. case_decide as H; [|done].
  destruct H. congruence.
Qed.
Hint Resolve kp_wakeup1 : kp.
Lemma kp_wakeup ch : kp (wakeup ch).
Proof. unfold wakeup. solve_kp. Qed.

(** A record goes to an entry that is free. *)
Lemma hist_insert i d pd : istrue (pf_valid (pd !!! i)) = false → hist_le pd (<[i := d]> pd).
Proof.
  intros Hi j e Hj Hv. rewrite list_lookup_insert_ne; [done|]. intros ->.
  rewrite list_lookup_total_alt, Hj in Hi. cbn in Hi. congruence.
Qed.
Lemma perf_store_hist r k : match perf_store r k with
  | Ok _ s => ptable s = ptable k ∧ nextpid s = nextpid k ∧ hist_le (perf_data k) (perf_data s) ∧ kcpu s = kcpu k
  | _ => False end.
Proof.
  unfold perf_store, mbind, M_bind, gets. cbn. destruct (find_idx _ _) as [i|] eqn:E; cbn; [|done].
  split_and!; [done..| |done]. apply hist_insert. apply find_idx_Some in E as (d & Hd & Hv & _).
  rewrite list_lookup_total_alt, Hd. cbn. by destruct (istrue _).
Qed.
Lemma kp_perf_store r : kp (perf_store r).
Proof.
  intros b k (((Hp & Hr & Hh) & Hcp) & Hrun). unfold safe. pose proof (perf_store_hist r k) as Hs.
  destruct (perf_store r k) as [? s|?|?|?]; [|done..]. destruct Hs as (E1 & E2 & E3 & E4).
  split; [split; [split; [|split]|]|]; rewrite ?E1, ?E2, ?E4; [done..| |done|by destruct c].
  by transitivity (perf_data k).
Qed.

Lemma safe_myproc J `{!DataInv J} {B} (f : option nat → K B) Q b k :
  (∀ b s, J b s → cproc (kcpu s) = c) →
  J b k → (∀ b s, J b s → safe G R (f c) Q b s) → safe G R (myproc ≫= f) Q b k.
Proof.
  intros HJ Hk Hf. unfold myproc. apply safe_bind.
  eapply safe_keep; [apply kp_pushcli, _|exact Hk|]. intros b1 [] s Hs. apply safe_bind, safe_gets.
  rewrite (HJ _ _ Hs).
  eapply safe_keep; [apply kp_popcli, _|exact Hs|]. intros b2 [] s' Hs'. by apply safe_ret, Hf.
Qed.
Lemma safe_unwrap {A B} (o : option A) e (f : A → K B) Q b k :
  (∀ p, o = Some p → safe G R (f p) Q b k) →
  safe G R ((match o with Some p => mret p | None => panic e end) ≫= f) Q b k.
Proof. intros Hf. apply safe_bind. destruct o; [by apply safe_ret, Hf|apply safe_panic]. Qed.
Lemma safe_curproc {B} e (f : nat → K B) Q b k :
  I b k → (∀ p b s, c = Some p → I b s → safe G R (f p) Q b s) →
  safe G R (o ← myproc; p ← (match o with Some p => mret p | None => panic e end); f p) Q b k.
Proof.
  intros Hk Hf. apply (safe_myproc I); [apply tinv_cproc|done|]. intros b1 s Hs.
  apply safe_unwrap. auto.
Qed.

(** [sched] gives the processor away in a state that may have any of the states
    but RUNNING for the process, and comes back with the process running. *)
Lemma safe_sched Q b k : cinv c false b k →
  (∀ b s, tinv c true b s → Q b tt s) → safe G R sched Q b k.
Proof.
  intros Hk HQ. unfold sched. apply (safe_myproc (cinv c false)); [by intros ? ? [? H]|done|].
  clear b k Hk. intros b k Hk. apply safe_unwrap. intros p ->. do 4 keep Hk.
  apply safe_bind, safe_gets, safe_bind. case_decide as E; [apply safe_panic|]. apply safe_skip.
  match goal with Hk : cinv _ _ ?b ?k |- _ => assert (Hn : kinv None false b k) end.
  { destruct Hk as [(Hp & Hr & Hh) _]. split; [by eapply pinv_stopped|done]. }
  do 3 keep Hn. apply safe_bind, safe_swtch; [done|]. intros z Hz. apply safe_modify, HQ.
  by apply (data_inv z z).
Qed.

(** The running process takes another state. *)
Lemma cinv_state p x b k : c = Some p → x ≠ RUNNING → I b k →
  cinv c false b (k <| ptable ::= alter (λ r, r <| state := x |>) p |>).
Proof.
  intros -> Hx (((Hp & Hr & Hh) & Hcp) & Hrun). split; [|done].
  apply (kinv_weaken _ st). split; [|done]. apply pinv_slot; [|done]. intros r Hr'. split_and!; [done..| |done].
  intros _. rewrite list_lookup_total_alt, Hr' in Hrun. cbn in Hrun. by rewrite Hrun.
Qed.
Lemma cinv_calm p f : calm f → keeps G R (cinv c false) (pset p f).
Proof.
  intros Hf. apply keeps_modify. intros b k ((Hp & Hr & Hh) & Hcp). split; [|done]. split; [|done].
  apply pinv_slot; [|done]. intros; apply Hf.
Qed.

Hint Resolve kp_pset cinv_calm kp_wakeup kp_perf_store : kp.
Hint Extern 1 (calm _) => solve [auto with calm] : kp.

Lemma kp_yield : kp yield.
Proof.
  intros b k Hk. apply safe_curproc; [done|]. intros p b1 s Hc Hs.
  keep Hs. apply safe_bind, safe_modify. apply (cinv_state p RUNNABLE) in Hs; [|done..].
  do 4 keep Hs.
  apply safe_bind, safe_sched; [done|]. intros bz z Hz%(tinv_strict _ st).
  by apply kp_release; [apply _|].
Qed.

Lemma kp_sleep ch lk : kp (sleep ch lk).
Proof.
  intros b k Hk. apply safe_curproc; [done|]. intros p b1 s Hc Hs. apply safe_unwrap. intros l _.
  do 4 keep Hs.
  apply safe_bind, safe_modify. apply (cinv_state p SLEEPING) in Hs; [|done..].
  apply safe_bind, safe_sched; [done|]. intros bz z Hz%(tinv_strict _ st).
  keep Hz. revert Hz. case_decide; [done|].
  match goal with |- tinv _ _ ?b ?s → _ => revert b s end.
  change (kp (release Lptable;; acquire l)). solve_kp.
Qed.

Lemma kp_kill x : kp (kill x).
Proof.
  assert (Hr : ∀ v : Z, kp (release Lptable;; mret v)) by (intros; solve_kp).
  intros b k Hk. unfold kill. do 2 keep Hk. case_match; [|by apply Hr].
  keep Hk. apply safe_bind, safe_gets, safe_bind. case_decide as E; [|by apply Hr].
  apply safe_modify, Hr, tinv_slot; [|intros ->|done].
  - intros r Hr'. rewrite list_lookup_total_alt, Hr' in E. cbn in E. split_and!; [done..| |done]. by rewrite E.
  - destruct Hk as [_ Hk]. congruence.
Qed.
End thread.
#[export] Hint Resolve kp_pset kp_wakeup1 kp_wakeup kp_perf_store kp_yield kp_sleep kp_kill : kp.
#[export] Hint Extern 1 (calm _) => solve [auto with calm] : kp.

(** ** The file system and its clients *)
Section sleepers.
Context `{!Patience, !DiskDriver}.
Context (c : option nat) (st : bool).
Local Abbreviation kp m := (keeps (kinv None false) (tstart c) (tinv c st) m).

(** What the thread relies on of the disk driver. *)
Class DiskSafe : Prop := {
  kp_iderw b : kp (iderw b);
  kp_ideintr : kp ideintr }.

Lemma kp_acquiresleep_loop n l : kp (acquiresleep_loop n l).
Proof. induction n; cbn [acquiresleep_loop]; solve_kp. Qed.
Hint Resolve kp_acquiresleep_loop : kp.
Lemma kp_acquiresleep l : kp (acquiresleep l).
Proof. unfold acquiresleep. solve_kp. Qed.
Lemma kp_releasesleep l : kp (releasesleep l).
Proof. unfold releasesleep. solve_kp. Qed.
Hint Resolve kp_acquiresleep kp_releasesleep : kp.

Lemma kp_pipeclose a w : kp (pipeclose a w).
Proof. unfold pipeclose. solve_kp. Qed.
Lemma kp_pipewrite_wait n a : kp (pipewrite_wait n a).
Proof. induction n; cbn [pipewrite_wait]; solve_kp. Qed.
Hint Resolve kp_pipewrite_wait : kp.
Lemma kp_pipewrite_loop a bs : kp (pipewrite_loop a bs).
Proof. induction bs; cbn [pipewrite_loop]; solve_kp. Qed.
Hint Resolve kp_pipewrite_loop : kp.
Lemma kp_pipewrite a bs : kp (pipewrite a bs).
Proof. unfold pipewrite. solve_kp. Qed.
Lemma kp_piperead_wait n a : kp (piperead_wait n a).
Proof. induction n; cbn [piperead_wait]; solve_kp. Qed.
Hint Resolve kp_piperead_wait : kp.
Lemma kp_piperead a n : kp (piperead a n).
Proof. unfold piperead. solve_kp. Qed.

Lemma kp_console_char x : kp (console_char x).
Proof. unfold console_char. solve_kp. Qed.
Hint Resolve kp_console_char : kp.
Lemma kp_console_chars cs : ∀ d, kp (console_chars cs d).
Proof. induction cs; intros; cbn [console_chars]; solve_kp. Qed.
Hint Resolve kp_console_chars : kp.
Lemma kp_consoleintr cs : kp (consoleintr cs).
Proof. unfold consoleintr. solve_kp. Qed.

Section disk.
Context {Hdisk : DiskSafe}.
Hint Resolve kp_iderw : kp.

Lemma kp_bget d b : kp (bget d b).
Proof. unfold bget. solve_kp. Qed.
Hint Resolve kp_bget : kp.
Lemma kp_bread d b : kp (bread d b).
Proof. unfold bread. solve_kp. Qed.
Lemma kp_bwrite b : kp (bwrite b).
Proof. unfold bwrite. solve_kp. Qed.
Lemma kp_brelse b : kp (brelse b).
Proof. unfold brelse, brelse_list. solve_kp. Qed.
Hint Resolve kp_bread kp_bwrite kp_brelse : kp.

Lemma kp_install_trans : kp install_trans.
Proof. unfold install_trans, install_one. solve_kp. Qed.
Lemma kp_read_head : kp read_head.
Proof. unfold read_head. solve_kp. Qed.
Lemma kp_write_head : kp write_head.
Proof. unfold write_head. solve_kp. Qed.
Hint Resolve kp_install_trans kp_read_head kp_write_head : kp.
Lemma kp_recover_from_log : kp recover_from_log.
Proof. unfold recover_from_log. solve_kp. Qed.
Lemma kp_readsb d : kp (readsb d).
Proof. unfold readsb. solve_kp. Qed.
Hint Resolve kp_recover_from_log kp_readsb : kp.
Lemma kp_initlog d : kp (initlog d).
Proof. unfold initlog. solve_kp. Qed.
Lemma kp_begin_op_loop n : kp (begin_op_loop n).
Proof. induction n; cbn [begin_op_loop]; solve_kp. Qed.
Hint Resolve kp_begin_op_loop : kp.
Lemma kp_begin_op : kp begin_op.
Proof. unfold begin_op. solve_kp. Qed.
Lemma kp_commit : kp commit.
Proof. unfold commit, write_log, write_log_one. solve_kp. Qed.
Hint Resolve kp_commit : kp.
Lemma kp_end_op : kp end_op.
Proof. unfold end_op. solve_kp. Qed.

Lemma kp_bzero d b : kp (bzero d b).
Proof. unfold bzero. solve_kp. Qed.
Hint Resolve kp_bzero : kp.
Lemma kp_balloc_loop n d : ∀ b, kp (balloc_loop n d b).
Proof. induction n; intros; cbn [balloc_loop]; solve_kp. Qed.
Hint Resolve kp_balloc_loop : kp.
Lemma kp_balloc d : kp (balloc d).
Proof. unfold balloc. solve_kp. Qed.
Lemma kp_bfree d b : kp (bfree d b).
Proof. unfold bfree. solve_kp. Qed.
Hint Resolve kp_balloc kp_bfree : kp.
Lemma kp_iinit d : kp (iinit d).
Proof. unfold iinit. solve_kp. Qed.
Lemma kp_ialloc_loop n d ty : ∀ i, kp (ialloc_loop n d i ty).
Proof. induction n; intros; cbn [ialloc_loop]; solve_kp. Qed.
Hint Resolve kp_ialloc_loop : kp.
Lemma kp_ialloc d ty : kp (ialloc d ty).
Proof. unfold ialloc. solve_kp. Qed.
Lemma kp_iupdate i : kp (iupdate i).
Proof. unfold iupdate. solve_kp. Qed.
Lemma kp_ilock o : kp (ilock o).
Proof. unfold ilock. solve_kp. Qed.
Lemma kp_iunlock o : kp (iunlock o).
Proof. unfold iunlock. solve_kp. Qed.
Lemma kp_bmap i b : kp (bmap i b).
Proof. unfold bmap. solve_kp. Qed.
Hint Resolve kp_iupdate kp_iunlock kp_bmap : kp.
Lemma kp_itrunc i : kp (itrunc i).
Proof. unfold itrunc, itrunc_direct. solve_kp. Qed.
Hint Resolve kp_itrunc : kp.
Lemma kp_iput i : kp (iput i).
Proof. unfold iput. solve_kp. Qed.
Hint Resolve kp_iput : kp.
Lemma kp_iunlockput i : kp (iunlockput i).
Proof. unfold iunlockput. solve_kp. Qed.
End disk.
End sleepers.
#[export] Hint Resolve kp_acquiresleep kp_releasesleep kp_pipeclose kp_pipewrite kp_piperead kp_consoleintr : kp.
#[export] Hint Resolve kp_iderw kp_ideintr kp_bread kp_bwrite kp_brelse kp_readsb kp_initlog kp_begin_op : kp.
#[export] Hint Resolve kp_end_op kp_balloc kp_bfree kp_iinit kp_ialloc kp_iupdate kp_ilock kp_iunlock : kp.
#[export] Hint Resolve kp_bmap kp_itrunc kp_iput kp_iunlockput : kp.
#[export] Hint Extern 1 (DiskSafe _ _) => apply _ : kp.

Section devices.
Context `{!Patience, !DiskDriver, !DevSw}.
Context (c : option nat) (st : bool).
Local Abbreviation kp m := (keeps (kinv None false) (tstart c) (tinv c st) m).
Context {Hdisk : DiskSafe c st}.

(** What the thread relies on of the device table. *)
Class DevSafe : Prop := {
  kp_dev_read mj rd i n : dev_read mj = Some rd → kp (rd i n);
  kp_dev_write mj wr i bs : dev_write mj = Some wr → kp (wr i bs) }.
Context {Hdev : DevSafe}.

Lemma kp_readi_loop f i n : ∀ t o acc, kp (readi_loop f i t o n acc).
Proof. induction f; intros; cbn [readi_loop]; solve_kp. Qed.
Hint Resolve kp_readi_loop : kp.
Lemma kp_readi i o n : kp (readi i o n).
Proof.
  unfold readi. apply keeps_bind; [solve_kp|]. intros ip. case_match; [|solve_kp].
  case_match; [solve_kp|]. case_match eqn:E; [by eapply kp_dev_read|solve_kp].
Qed.
Lemma kp_writei_loop f i n : ∀ t o s, kp (writei_loop f i t o n s).
Proof. induction f; intros; cbn [writei_loop]; solve_kp. Qed.
Hint Resolve kp_readi kp_writei_loop : kp.
Lemma kp_writei i s o n : kp (writei i s o n).
Proof.
  unfold writei. apply keeps_bind; [solve_kp|]. intros ip. case_match; [|solve_kp].
  case_match; [solve_kp|]. case_match eqn:E; [by eapply kp_dev_write|solve_kp].
Qed.
Hint Resolve kp_writei : kp.
Lemma kp_dirlookup_loop f d nm : ∀ o, kp (dirlookup_loop f d nm o).
Proof. induction f; intros; cbn [dirlookup_loop]; solve_kp. Qed.
Hint Resolve kp_dirlookup_loop : kp.
Lemma kp_dirlookup d nm : kp (dirlookup d nm).
Proof. unfold dirlookup. solve_kp. Qed.
Lemma kp_dirlink_slot f d : ∀ o, kp (dirlink_slot f d o).
Proof. induction f; intros; cbn [dirlink_slot]; solve_kp. Qed.
Hint Resolve kp_dirlookup kp_dirlink_slot : kp.
Lemma kp_dirlink d nm i : kp (dirlink d nm i).
Proof. unfold dirlink. solve_kp. Qed.
Lemma kp_namex_loop f b : ∀ i p nm, kp (namex_loop f i p nm b).
Proof. induction f; intros; cbn [namex_loop]; solve_kp. Qed.
Hint Resolve kp_dirlink kp_namex_loop : kp.
Lemma kp_namex p b nm : kp (namex p b nm).
Proof. unfold namex. solve_kp. Qed.
Hint Resolve kp_namex : kp.
Lemma kp_namei p : kp (namei p).
Proof. unfold namei. solve_kp. Qed.
Lemma kp_nameiparent p : kp (nameiparent p).
Proof. unfold nameiparent. solve_kp. Qed.
Hint Resolve kp_namei kp_nameiparent : kp.

Lemma kp_fileclose f : kp (fileclose f).
Proof. unfold fileclose. solve_kp. Qed.
Lemma kp_filestat f : kp (filestat f).
Proof. unfold filestat. solve_kp. Qed.
Lemma kp_fileread f n : kp (fileread f n).
Proof. unfold fileread. solve_kp. Qed.
Lemma kp_filewrite_loop fu f a n : ∀ i, kp (filewrite_loop fu f a i n).
Proof. induction fu; intros; cbn [filewrite_loop]; solve_kp. Qed.
Hint Resolve kp_fileclose kp_filewrite_loop : kp.
Lemma kp_filewrite f a n : kp (filewrite f a n).
Proof. unfold filewrite. solve_kp. Qed.
Lemma kp_pipealloc : kp pipealloc.
Proof. unfold pipealloc. solve_kp. Qed.
Hint Resolve kp_filestat kp_fileread kp_filewrite kp_pipealloc : kp.

Lemma kp_cur_set g : calm g → kp (cur_set g).
Proof. intros ?. unfold cur_set. solve_kp. Qed.
Hint Resolve kp_cur_set : kp.
Lemma kp_fdalloc f : kp (fdalloc f).
Proof. unfold fdalloc. solve_kp. Qed.
Hint Resolve kp_fdalloc : kp.
Lemma kp_sys_dup : kp sys_dup.
Proof. unfold sys_dup. solve_kp. Qed.
Lemma kp_sys_read : kp sys_read.
Proof. unfold sys_read. solve_kp. Qed.
Lemma kp_sys_write : kp sys_write.
Proof. unfold sys_write. solve_kp. Qed.
Lemma kp_sys_close : kp sys_close.
Proof. unfold sys_close. solve_kp. Qed.
Lemma kp_sys_fstat : kp sys_fstat.
Proof. unfold sys_fstat. solve_kp. Qed.
Lemma kp_sys_link : kp sys_link.
Proof. unfold sys_link. solve_kp. Qed.
Lemma kp_isdirempty_loop f d : ∀ o, kp (isdirempty_loop f d o).
Proof. induction f; intros; cbn [isdirempty_loop]; solve_kp. Qed.
Hint Resolve kp_isdirempty_loop : kp.
Lemma kp_isdirempty d : kp (isdirempty d).
Proof. unfold isdirempty. solve_kp. Qed.
Hint Resolve kp_isdirempty : kp.
Lemma kp_sys_unlink : kp sys_unlink.
Proof. unfold sys_unlink. solve_kp. Qed.
Lemma kp_create p ty mj mn : kp (create p ty mj mn).
Proof. unfold create. solve_kp. Qed.
Lemma kp_open_inode i m : kp (open_inode i m).
Proof. unfold open_inode. solve_kp. Qed.
Lemma kp_finish_create o : kp (finish_create o).
Proof. unfold finish_create. solve_kp. Qed.
Hint Resolve kp_create kp_open_inode kp_finish_create : kp.
Lemma kp_sys_open : kp sys_open.
Proof. unfold sys_open. solve_kp. Qed.
Lemma kp_sys_mkdir : kp sys_mkdir.
Proof. unfold sys_mkdir. solve_kp. Qed.
Lemma kp_sys_mknod : kp sys_mknod.
Proof. unfold sys_mknod. solve_kp. Qed.
Lemma kp_sys_chdir : kp sys_chdir.
Proof. unfold sys_chdir. solve_kp. Qed.
Lemma kp_sys_pipe : kp sys_pipe.
Proof. unfold sys_pipe. solve_kp. Qed.

Lemma kp_loaduvm_loop f pg a i o s : ∀ x, kp (loaduvm_loop f pg a i o s x).
Proof. induction f; intros; cbn [loaduvm_loop]; solve_kp. Qed.
Hint Resolve kp_loaduvm_loop : kp.
Lemma kp_loaduvm pg a i o s : kp (loaduvm pg a i o s).
Proof. unfold loaduvm. solve_kp. Qed.
Hint Resolve kp_loaduvm : kp.
Lemma kp_exec_load n pg i : ∀ s o, kp (exec_load n pg i s o).
Proof. induction n; intros; cbn [exec_load]; unfold exec_segment; solve_kp. Qed.
Lemma kp_exec_args av pg : ∀ n sp us, kp (exec_args av pg n sp us).
Proof. induction av; intros; cbn [exec_args]; solve_kp. Qed.
Hint Resolve kp_exec_load kp_exec_args : kp.
Lemma kp_exec_stack pg s av : kp (exec_stack pg s av).
Proof. unfold exec_stack. solve_kp. Qed.
Lemma kp_exec_bad pg o : kp (exec_bad pg o).
Proof. unfold exec_bad. solve_kp. Qed.
Lemma kp_exec_commit p pg s sp e : kp (exec_commit p pg s sp e).
Proof. unfold exec_commit. solve_kp. Qed.
Hint Resolve kp_exec_stack kp_exec_bad kp_exec_commit : kp.
Lemma kp_exec p av : kp (exec p av).
Proof. unfold exec. solve_kp. Qed.
Hint Resolve kp_exec : kp.
Lemma kp_sys_exec : kp sys_exec.
Proof. unfold sys_exec. solve_kp. Qed.
End devices.
#[export] Hint Resolve kp_readi kp_writei kp_namei kp_fileclose kp_sys_dup kp_sys_read kp_sys_write : kp.
#[export] Hint Resolve kp_sys_close kp_sys_fstat kp_sys_link kp_sys_unlink kp_sys_open kp_sys_mkdir : kp.
#[export] Hint Resolve kp_sys_mknod kp_sys_chdir kp_sys_pipe kp_sys_exec : kp.
#[export] Hint Extern 1 (DevSafe _ _) => apply _ : kp.
