(* ===== verification/Threads.v ===== *)
(** * Threads of the kernel

    Creation and end of processes, system calls and traps keep the invariant of
    the thread that runs them, with the drivers of the kernel's configuration:
    the disk in memory and the console. *)
From stdpp Require Import base strings numbers gmap list.
From S2P Require Import Prelude Machine KString Kernel Locks Kalloc Proc ProcSpec Console Vm Random.
From S2P Require Import Sched Sleeplock Bio Log Fs Pipe ConsoleDev File Life Arg Sysfile Exec.
From S2P Require Import Syscall Main Safe Keeps.

Section life.
Context `{!Patience, !DiskDriver, !DevSw}.
Context (c : option nat).
Context {Hdisk : ∀ st, DiskSafe c st} {Hdev : ∀ st, DevSafe c st}.
Local Abbreviation G := (kinv None false).
Local Abbreviation R := (tstart c).
Local Abbreviation I := (tinv c).
Local Abbreviation kp st m := (keeps G R (I st) m).

(** ** Creation *)

(** The state after [m] is the one before it, as far as the invariant sees. *)
Definition same_data (k : kernel) (_ s : kernel) : Prop :=
  ptable s = ptable k ∧ nextpid s = nextpid k ∧ perf_data s = perf_data k ∧
  cproc (kcpu s) = cproc (kcpu k).
#[local] Typeclasses Opaque same_data.
#[global] Instance same_data_inv k : DataInv (same_data k).
Proof. unfold same_data. intros b s s' -> -> -> ->. done. Qed.

(** The invariant together with a fact on the slots other than the running one. *)
Definition newborn (np : nat) (b k : kernel) : Prop :=
  I false b k ∧ c ≠ Some np ∧ pid (ptable k !!! np) ≠ 0.
#[local] Typeclasses Opaque newborn.
#[global] Instance newborn_inv np : DataInv (newborn np).
Proof. intros b k s E1 E2 E3 E4 (HI & Hc & Hp). split_and!; [by apply (data_inv b k)|done|by rewrite E1]. Qed.

(** Slot [p] gets the next pid. *)
Definition take_pid (n : Z) (r : proc) : proc :=
  r <| state := EMBRYO |> <| pid := n |> <| runticks := 0 |> <| tickets := DEFAULT_TICKETS |>.

Lemma newborn_take_pid p b k s :
  (p < NPROC)%nat → state (ptable k !!! p) = UNUSED → I true b k →
  ptable s = alter (take_pid (nextpid k)) p (ptable k) → nextpid s = i32 (nextpid k + 1) →
  perf_data s = perf_data k → cproc (kcpu s) = cproc (kcpu k) → newborn p b s.
Proof.
  intros Hlt Hu (((Hp & Hr & Hh) & Hcp) & Hrun) E1 E2 E3 E4.
  assert (Hne : c ≠ Some p) by (intros ->; congruence).
  assert (Hn : i32 (nextpid k + 1) = nextpid k + 1).
  { apply i32_small. destruct Hp as (_ & ? & _). unfold pid_room, MAXPID in Hr. lia. }
  split_and!; [|done|].
  - split; [split; [split; [|split]|]|].
    + rewrite E1, E2, Hn. by apply pinv_alloc.
    + rewrite E2, Hn. unfold pid_room in *. lia.
    + by rewrite E3.
    + congruence.
    + destruct c as [q|]; [|done]. rewrite E1, list_lookup_total_alter_ne; [done|congruence].
  - rewrite E1, alter_lookup_total by (destruct Hp as [-> _]; done). cbn.
    destruct Hp as (_ & ? & _). lia.
Qed.

Lemma safe_pset {B} p f (g : unit → K B) Q b k :
  (∀ s, ptable s = alter f p (ptable k) → nextpid s = nextpid k → perf_data s = perf_data k →
     cproc (kcpu s) = cproc (kcpu k) → safe G R (g tt) Q b s) → safe G R (pset p f ≫= g) Q b k.
Proof. intros Hg. apply safe_bind, safe_modify. by apply Hg. Qed.
Lemma safe_nextpid {B} n (g : unit → K B) Q b k :
  (∀ s, ptable s = ptable k → nextpid s = n → perf_data s = perf_data k →
     cproc (kcpu s) = cproc (kcpu k) → safe G R (g tt) Q b s) →
  safe G R (modify (λ k, k <| nextpid := n |>) ≫= g) Q b k.
Proof. intros Hg. apply safe_bind, safe_modify. by apply Hg. Qed.

Lemma tinv_weaken st b k : I st b k → I false b k.
Proof. intros ((? & ?) & ?). split; [|done]. split; [by eapply kinv_weaken|done]. Qed.

Lemma newborn_calm np p f : calm f → keeps G R (newborn np) (pset p f).
Proof.
  intros Hf. apply keeps_modify. intros b k (HI & Hc & Hp). split_and!; [|done|].
  - exact (kp_pset c false p f Hf b k HI).
  - cbn. destruct (decide (p = np)) as [->|]; [|by rewrite list_lookup_total_alter_ne].
    rewrite alter_lookup_total; [by destruct (Hf (ptable k !!! np)) as ((-> & _) & _)|].
    destruct (decide (np < length (ptable k))%nat); [done|]. exfalso.
    by rewrite list_lookup_total_alt, lookup_ge_None_2 in Hp by lia.
Qed.
Hint Resolve newborn_calm : kp.

Lemma safe_allocproc Q b k : I true b k → (∀ b s, I false b s → Q b None s) →
  (∀ p b s, newborn p b s → Q b (Some p) s) → safe G R allocproc Q b k.
Proof.
  intros Hk HN HS. unfold allocproc. keep Hk. apply safe_bind, safe_gets.
  destruct (find_idx _ _) as [p|] eqn:Ep.
  2: { keep Hk. apply safe_ret, HN. by eapply tinv_weaken. }
  apply find_idx_Some in Ep as (r & Hr & Hu%bool_decide_eq_true & _).
  apply safe_pset. intros s1 P1 N1 D1 C1. apply safe_bind, safe_gets.
  apply safe_pset. intros s2 P2 N2 D2 C2. apply safe_nextpid. intros s3 P3 N3 D3 C3.
  apply safe_pset. intros s4 P4 N4 D4 C4. apply safe_pset. intros s5 P5 N5 D5 C5.
  assert (Hb : newborn p b0 s5).
  { eapply (newborn_take_pid p b0 s s5); [| |done| |congruence..].
    - apply lookup_lt_Some in Hr. destruct Hk as (((Hp & _) & _) & _). by destruct Hp as [<- _].
    - by rewrite list_lookup_total_alt, Hr.
    - rewrite P5, P4, P3, P2, P1, !alter_alter, N1. done. }
  clear -HS HN Hb. do 12 keep Hb. case_match.
  - apply safe_bind, safe_modify, safe_ret, HN. destruct Hb as (HI & Hc & _).
    apply tinv_slot; [|done|done]. intros r _. split_and!; [done..| |done]. by intros [].
  - cbv zeta. do 6 keep Hb. by apply safe_ret, HS.
Qed.

(** A slot other than the running one changes. *)
Lemma tinv_other f np b k : c ≠ Some np → (pinv c (ptable k) (nextpid k) → pinv c (alter f np (ptable k)) (nextpid k)) →
  I false b k → I false b (k <| ptable ::= alter f np |>).
Proof.
  intros Hc Hf (((Hp & Hr & Hh) & Hcp) & Hrun). split; [split; [split|]|]; [by apply Hf|done..|].
  destruct c as [q|]; [|done]. cbn. rewrite list_lookup_total_alter_ne; [done|congruence].
Qed.
Lemma newborn_tickets np x : 0 < x → keeps G R (newborn np) (pset np (λ r, r <| tickets := x |>)).
Proof.
  intros Hx. apply keeps_modify. intros b k (HI & Hc & Hp). split_and!; [|done|].
  - apply tinv_other; [done| |done]. by apply pinv_tickets.
  - cbn. rewrite alter_lookup_total; [done|]. destruct (decide (np < length (ptable k))%nat); [done|].
    exfalso. by rewrite list_lookup_total_alt, lookup_ge_None_2 in Hp by lia.
Qed.
Lemma newborn_runnable np b k : newborn np b k →
  I false b (k <| ptable ::= alter (λ r, r <| state := RUNNABLE |>) np |>).
Proof. intros (HI & Hc & Hp). apply tinv_other; [done| |done]. by apply pinv_state. Qed.
Lemma newborn_unused np b k : newborn np b k →
  I false b (k <| ptable ::= alter (λ r, r <| state := UNUSED |>) np |>).
Proof.
  intros (HI & Hc & _). apply tinv_slot; [|done|done]. intros r _. split_and!; [done..| |done]. by intros [].
Qed.
Lemma newborn_parent np b k cur : newborn np b k → c = Some cur → 0 < tickets (ptable k !!! cur).
Proof.
  intros ((((Hp & _) & _) & Hrun) & _) ->. destruct Hp as (Hl & _ & HF & _).
  destruct (ptable k !! cur) as [r|] eqn:E; [|by rewrite list_lookup_total_alt, E in Hrun].
  rewrite list_lookup_total_alt, E in *. cbn in *. rewrite Forall_lookup in HF.
  destruct (HF _ _ E) as (_ & Ht & Hlive). apply Ht, Hlive. by rewrite Hrun.
Qed.

Lemma kp_growproc st n : kp st (growproc n).
Proof. unfold growproc. solve_kp. Qed.

Lemma safe_fork b k : I true b k → safe G R fork (λ b _, I false b) b k.
Proof.
  intros Hk. unfold fork. apply (safe_curproc _ true); [done|]. intros cur b0 s Hc Hs.
  apply safe_bind, safe_allocproc; [done|done|]. intros np b1 s1 Hb.
  do 3 keep Hb. case_match.
  - do 3 keep Hb. apply safe_bind, safe_modify, safe_ret. by apply newborn_unused.
  - apply safe_bind, safe_gets.
    match goal with |- context [tickets (ptable ?s !!! _)] => pose proof (newborn_parent _ _ s _ Hb Hc) as Ht end.
    do 4 keep Hb.
    eapply (safe_keep _ _ (newborn np)); [by apply newborn_tickets|exact Hb|]. clear Hb. intros ? ? ? Hb.
    keep Hb. eapply (safe_keep _ _ (newborn np)); [apply keeps_for_up; intros; unfold fork_dup; solve_kp|exact Hb|].
    clear Hb. intros ? ? ? Hb. do 5 keep Hb. cbv zeta. do 5 keep Hb.
    apply safe_bind, safe_modify. apply newborn_runnable in Hb. keep Hb. by apply safe_ret.
Qed.

(** ** End *)
Lemma kp_exit_metrics st cur : kp st (exit_metrics cur).
Proof. unfold exit_metrics. solve_kp. Qed.
Lemma kp_exit_close st cur fd : kp st (exit_close cur fd).
Proof. unfold exit_close. solve_kp. Qed.
Lemma kp_exit_reparent st cur i : kp st (exit_reparent cur i).
Proof. unfold exit_reparent. solve_kp. Qed.
Hint Resolve kp_growproc kp_exit_metrics kp_exit_close kp_exit_reparent : kp.

Lemma kp_exit st : kp st exit.
Proof.
  intros b k Hk. unfold exit. apply (safe_myproc _ (I st)); [apply tinv_cproc|done|]. intros b0 s Hs. do 2 keep Hs.
  apply safe_unwrap. intros cur Hc. do 12 keep Hs.
  apply safe_bind, safe_modify. apply (cinv_state _ _ cur ZOMBIE) in Hs; [|done..].
  by apply safe_bind, safe_sched.
Qed.
Hint Resolve kp_exit : kp.

Definition zombie (p : nat) (st : bool) (b k : kernel) : Prop :=
  I st b k ∧ state (ptable k !!! p) = ZOMBIE.
#[local] Typeclasses Opaque zombie.
#[global] Instance zombie_inv p st : DataInv (zombie p st).
Proof. intros b k s E1 E2 E3 E4 [HI Hp]. split; [by apply (data_inv b k)|by rewrite E1]. Qed.
Lemma zombie_calm p st f : calm f → keeps G R (zombie p st) (pset p f).
Proof.
  intros Hf. apply keeps_modify. intros b k [HI Hp]. split; [exact (kp_pset c st p f Hf b k HI)|].
  cbn. rewrite alter_lookup_total; [by destruct (Hf (ptable k !!! p)) as [_ ->]|].
  destruct (decide (p < length (ptable k))%nat); [done|]. exfalso.
  by rewrite list_lookup_total_alt, lookup_ge_None_2 in Hp by lia.
Qed.
Lemma zombie_perf_store p st r : keeps G R (zombie p st) (perf_store r).
Proof.
  intros b k [HI Hp]. pose proof (kp_perf_store c st r b k HI) as Hk. revert Hk.
  unfold perf_store, safe, mbind, M_bind, gets. cbn. by destruct (find_idx _ _).
Qed.
Hint Resolve zombie_calm zombie_perf_store : kp.

(** A zombie's slot is given up. *)
Lemma zombie_free p st f b k : (∀ r, pid (f r) = 0 ∧ ¬ live (state (f r))) → zombie p st b k →
  I st b (k <| ptable ::= alter f p |>).
Proof.
  intros Hf [(((Hp & Hr & Hh) & Hcp) & Hrun) Hz]. split; [split; [split|]|]; [by apply pinv_free|done..|].
  destruct c as [q|]; [|done]. cbn. rewrite list_lookup_total_alter_ne; [done|]. intros ->. congruence.
Qed.

Lemma safe_wait_reap p st b k : zombie p st b k → safe G R (wait_reap p) (λ b _, I st b) b k.
Proof.
  intros Hk. unfold wait_reap. cbv zeta. do 7 keep Hk. case_match; [by apply safe_ret, Hk|].
  do 3 keep Hk.
  apply safe_pset. intros z1 P1 N1 D1 C1. apply safe_pset. intros z2 P2 N2 D2 C2.
  apply safe_pset. intros z3 P3 N3 D3 C3. apply safe_pset. intros z4 P4 N4 D4 C4.
  apply safe_pset. intros z5 P5 N5 D5 C5. apply safe_ret.
  match goal with H : ptable z1 = alter _ _ (ptable ?s) |- _ => set (z0 := s) in * end.
  refine (data_inv _ (z0 <| ptable ::= alter _ p |>) z5 _ _ _ _ _); [| | | |apply (zombie_free p st); [|done]].
  - rewrite P5, P4, P3, P2, P1, !alter_alter. reflexivity.
  - by rewrite N5, N4, N3, N2, N1.
  - by rewrite D5, D4, D3, D2, D1.
  - by rewrite C5, C4, C3, C2, C1.
  - intros r. split; [done|]. by intros [].
Qed.

Lemma kp_wait_scan n cur st : ∀ i b, kp st (wait_scan n i cur b).
Proof.
  induction n as [|n IH]; intros i hk; cbn [wait_scan]; [solve_kp|].
  intros b k Hk. apply safe_bind, safe_gets. case_decide; [|by apply IH]. case_decide as Hz; [|by apply IH].
  apply safe_bind. eapply safe_mono; [by apply (safe_wait_reap i st)|]. intros ? [] s Hs; [done|by apply IH].
Qed.
Hint Resolve kp_wait_scan : kp.
Lemma kp_wait_loop n cur st : kp st (wait_loop n cur).
Proof. induction n; cbn [wait_loop]; solve_kp. Qed.
Hint Resolve kp_wait_loop : kp.
Lemma kp_wait st : kp st wait.
Proof. unfold wait. solve_kp. Qed.
Lemma kp_forkret st : kp st forkret.
Proof. unfold forkret. solve_kp. Qed.

(** ** System calls and traps *)
Lemma kp_tickets p x st : 0 < x → kp st (pset p (λ r, r <| tickets := x |>)).
Proof.
  intros Hx. apply keeps_modify. intros b k (((Hp & Hr & Hh) & Hcp) & Hrun).
  split; [split; [split|]|]; [by apply pinv_tickets|done..|].
  destruct c as [q|]; [|done]. cbn. destruct (decide (p = q)) as [->|]; [|by rewrite list_lookup_total_alter_ne].
  rewrite alter_lookup_total; [done|]. destruct (decide (q < length (ptable k))%nat); [done|]. exfalso.
  by rewrite list_lookup_total_alt, lookup_ge_None_2 in Hrun by lia.
Qed.
Lemma kp_sys_set_tickets st : kp st sys_set_tickets.
Proof.
  unfold sys_set_tickets. apply keeps_bind; [solve_kp|]. intros [t|]; [|solve_kp].
  destruct (Z.leb_spec t 0); [solve_kp|]. assert (0 < t) by lia.
  assert (∀ p, kp st (pset p (λ r, r <| tickets := t |>))) by (intros; by apply kp_tickets). solve_kp.
Qed.
Lemma kp_sys_sbrk st : kp st sys_sbrk.
Proof. unfold sys_sbrk. solve_kp. Qed.
Lemma kp_sys_sleep_loop f n t st : kp st (sys_sleep_loop f n t).
Proof. induction f; cbn [sys_sleep_loop]; solve_kp. Qed.
Hint Resolve kp_sys_sleep_loop : kp.
Lemma kp_sys_sleep st : kp st sys_sleep.
Proof. unfold sys_sleep. solve_kp. Qed.
Hint Resolve kp_wait kp_sys_set_tickets kp_sys_sbrk kp_sys_sleep : kp.

Lemma safe_syscall_entry num f b k :
  syscall_entry num = Some f → I true b k → safe G R f (λ b _, I false b) b k.
Proof.
  unfold syscall_entry. case_match; [|done]. intros Hf Hk. apply list_elem_of_lookup_2 in Hf.
  assert (Hw : ∀ m : K Z, kp true m → safe G R m (λ b _, I false b) b k).
  { intros m Hm. eapply keeps_safe; [done|done|]. intros ? _ s. by apply tinv_weaken. }
  unfold syscalls in Hf. repeat (apply elem_of_cons in Hf as [->|Hf]); [by apply safe_fork| |..].
  1: { apply Hw. unfold sys_exit. solve_kp. }
  all: try (by apply not_elem_of_nil in Hf).
  all: apply Hw; unfold sys_wait, sys_kill, sys_ticks_run, sys_get_tickets, sys_job_position,
    sys_get_creation_time, sys_get_start_time, sys_get_completion_time, sys_get_total_run_time,
    sys_get_total_ready_time, get_creation_time, get_start_time, get_completion_time,
    get_total_run_time, get_total_ready_time; solve_kp.
Qed.

Lemma safe_syscall b k : I true b k → safe G R syscall (λ b _, I false b) b k.
Proof.
  intros Hk. unfold syscall. do 4 keep Hk. case_match eqn:E.
  - apply safe_bind. eapply safe_mono; [by eapply safe_syscall_entry|]. intros bz v z Hs. cbv beta in Hs.
    keep Hs. revert Hs. apply kp_wr32, _.
  - do 2 keep Hk. apply tinv_weaken in Hk. revert Hk. apply kp_wr32, _.
Qed.

Lemma kp_exit_if_killed st : kp st exit_if_killed.
Proof. unfold exit_if_killed. solve_kp. Qed.
Lemma kp_exit_if_killed_user cs st : kp st (exit_if_killed_user cs).
Proof. unfold exit_if_killed_user. solve_kp. Qed.
Lemma kp_trap_timer id st : kp st (trap_timer id).
Proof. unfold trap_timer. solve_kp. Qed.
Lemma kp_trap_fault id n e eip cs cr2 st : kp st (trap_fault id n e eip cs cr2).
Proof. unfold trap_fault. solve_kp. Qed.
Hint Resolve kp_exit_if_killed kp_exit_if_killed_user kp_trap_timer kp_trap_fault : kp.
Lemma kp_trap_irq id n e eip cs cr2 chars st : kp st (trap_irq id n e eip cs cr2 chars).
Proof. unfold trap_irq. solve_kp. Qed.
Hint Resolve kp_trap_irq : kp.

Lemma safe_trap t id cr2 chars b k : I true b k → safe G R (trap t id cr2 chars) (λ b _, I false b) b k.
Proof.
  intros Hk. unfold trap. keep Hk. case_match.
  - do 4 keep Hk. apply safe_bind. eapply safe_mono; [by apply safe_syscall|]. intros bz [] z Hs. cbv beta in Hs.
    revert Hs. apply kp_exit_if_killed.
  - do 6 keep Hk. apply (safe_mono _ _ _ (λ b _, I true b)); [|intros ? ? ?; apply tinv_weaken].
    revert Hk. match goal with |- tinv _ _ ?b ?s → _ => revert b s end.
    match goal with |- ∀ b s, _ → safe _ _ ?m _ _ _ => change (kp true m) end. solve_kp.
Qed.

(** ** Start-up *)
Lemma kp_freerange_loop n v : ∀ p st, kp st (freerange_loop n p v).
Proof. induction n; intros; cbn [freerange_loop]; solve_kp. Qed.
Hint Resolve kp_freerange_loop : kp.
Lemma kp_kinit1 a v st : kp st (kinit1 a v).
Proof. unfold kinit1, freerange. solve_kp. Qed.
Lemma kp_kinit2 a v st : kp st (kinit2 a v).
Proof. unfold kinit2, freerange. solve_kp. Qed.
Lemma kp_kvmalloc st : kp st kvmalloc.
Proof. unfold kvmalloc. solve_kp. Qed.
Lemma kp_consoleinit st : kp st consoleinit.
Proof. apply kp_cset, _. Qed.
Lemma kp_uartinit st : kp st uartinit.
Proof.
  unfold uartinit. generalize (lit ("xv6..." +:+ nl)). intros cs. induction cs; cbn [foldr]; [solve_kp|].
  apply keeps_bind; [apply kp_uartputc, _|]. done.
Qed.
Lemma kp_binit st : kp st binit.
Proof. unfold binit, binit_one. solve_kp. Qed.
Hint Resolve kp_kinit1 kp_kinit2 kp_kvmalloc kp_consoleinit kp_uartinit kp_binit : kp.

(** The path "/" is resolved without a wait. *)
Lemma newborn_namei p : keeps G R (newborn p) (namei (lit "/")).
Proof.
  unfold namei, namex. rewrite bool_decide_eq_true_2 by done.
  apply keeps_bind; [|intros; apply keeps_ret]. apply keeps_bind; [apply kp_iget, _|]. intros i.
  cbn [length namex_loop lit]. change (skipelem _ _) with (@None (list Z * list Z)). apply keeps_ret.
Qed.
Hint Resolve newborn_namei : kp.

Lemma safe_userinit b k : I true b k → safe G R userinit (λ b _, I false b) b k.
Proof.
  intros Hk. unfold userinit. apply safe_bind, safe_allocproc; [done|done|].
  intros p b1 s1 Hb. apply safe_bind, safe_ret. do 8 keep Hb. cbv zeta. do 13 keep Hb.
  apply safe_bind, safe_modify. apply newborn_runnable in Hb. revert Hb. apply kp_release, _.
Qed.
End life.

(** ** Drivers and devices *)
Section drivers.
Context `{!Patience} (c : option nat) (st : bool).
Local Abbreviation kp m := (keeps (kinv None false) (tstart c) (tinv c st) m).

#[global] Instance memide_safe : DiskSafe c st.
Proof. split; [intros; apply kp_memide_iderw, _|apply keeps_skip]. Qed.

Lemma kp_consoleread_wait n : kp (consoleread_wait n).
Proof. induction n; cbn [consoleread_wait]; solve_kp. Qed.
Hint Resolve kp_consoleread_wait : kp.
Lemma kp_consoleread_loop n : ∀ acc, kp (consoleread_loop n acc).
Proof. induction n; intros; cbn [consoleread_loop]; solve_kp. Qed.
Hint Resolve kp_consoleread_loop : kp.
#[global] Instance console_safe : DevSafe c st.
Proof.
  split; intros mj f i n; cbn; case_match; [|done| |done]; intros [= <-].
  - unfold consoleread. solve_kp.
  - unfold consolewrite. solve_kp.
Qed.
End drivers.
