(* ===== verification/System.v ===== *)
(** * The running system

    The scheduler's turns and the kernel's threads composed into a step relation
    of the machine; the invariant of the process table and of the recorded
    history holds in every run, whatever the processes do. *)
From stdpp Require Import base strings numbers gmap list.
From S2P Require Import Prelude Machine KString Kernel Locks Kalloc Proc ProcSpec Console Vm Random.
From S2P Require Import Sched SchedSpec Sleeplock Bio Log Fs Pipe ConsoleDev File Life Arg Sysfile Exec.
From S2P Require Import Syscall Main Safe Keeps Threads.

(** ** The scheduler *)

(** What the scheduler promises when it gives the processor away, and what it
    needs when it gets it back. *)
Definition dispatched (b k : kernel) : Prop := ∃ p, tinv (Some p) false b k.
Definition given_back (s : kernel) : Prop := kinv None false s s.

Section scheduler.
Local Abbreviation sp I m := (keeps dispatched given_back I m).

Lemma sp_pset p f st : calm f → sp (kinv None st) (pset p f).
Proof.
  intros Hf. apply keeps_modify. intros b k (Hp & Hr & Hh). split; [|done].
  apply pinv_slot; [|done]. intros; apply Hf.
Qed.
Lemma sp_pset_cinv c p f st : calm f → sp (cinv c st) (pset p f).
Proof.
  intros Hf. apply keeps_modify. intros b k ((Hp & Hr & Hh) & Hc). split; [|done]. split; [|done].
  apply pinv_slot; [|done]. intros; apply Hf.
Qed.
Lemma sp_pset_tinv c p f st : calm f → sp (tinv c st) (pset p f).
Proof. intros Hf b k Hk. exact (kp_pset c st p f Hf b k Hk). Qed.
Lemma kinv_perf_store c st b k r : kinv c st b k →
  match perf_store r k with Ok _ s => kinv c st b s ∧ kcpu s = kcpu k ∧ ptable s = ptable k | _ => False end.
Proof.
  intros (Hp & Hr & Hh). pose proof (perf_store_hist r k) as Hs.
  destruct (perf_store r k) as [? s|?|?|?]; [|done..]. destruct Hs as (E1 & E2 & E3 & E4).
  split_and!; [|done..]. split; [|split]; rewrite ?E1, ?E2; [done..|]. by transitivity (perf_data k).
Qed.
Lemma sp_perf_store st r : sp (kinv None st) (perf_store r).
Proof.
  intros b k Hk. unfold safe. pose proof (kinv_perf_store _ st b k r Hk) as Hs.
  destruct (perf_store r k); [apply Hs|done..].
Qed.
Lemma sp_perf_store_cinv c st r : sp (cinv c st) (perf_store r).
Proof.
  intros b k [Hk Hc]. unfold safe. pose proof (kinv_perf_store _ st b k r Hk) as Hs.
  destruct (perf_store r k); [|done..]. destruct Hs as (Hs & E & _). split; [done|]. by rewrite E.
Qed.
Lemma sp_get_random I `{!DataInv I} lo hi : sp I (get_random lo hi).
Proof. unfold get_random. solve_kp. Qed.
Lemma sp_sti I `{!DataInv I} : sp I sti.
Proof. unfold sti. solve_kp. Qed.
Hint Resolve sp_pset sp_pset_cinv sp_pset_tinv sp_perf_store sp_perf_store_cinv sp_get_random sp_sti : kp.
Hint Extern 1 (calm _) => solve [auto with calm] : kp.

Lemma safe_set_cproc {B} o (f : unit → K B) Q b k st : kinv None st b k →
  (∀ b s, cinv o st b s → ptable s = ptable k → safe dispatched given_back (f tt) Q b s) →
  safe dispatched given_back (set_cproc o ≫= f) Q b k.
Proof.
  intros (Hp & Hk) Hf. apply safe_bind, safe_modify. apply Hf; [|done]. split; [|done].
  split; [by apply pinv_any|done].
Qed.

(** The process to run is RUNNABLE, and made RUNNING. *)
Definition chosen (p : nat) (b k : kernel) : Prop :=
  cinv (Some p) false b k ∧ state (ptable k !!! p) = RUNNABLE.
#[local] Typeclasses Opaque chosen.
#[global] Instance chosen_inv p : DataInv (chosen p).
Proof. intros b k s E1 E2 E3 E4 [HI Hp]. split; [by apply (data_inv b k)|by rewrite E1]. Qed.
Lemma chosen_run p b k : chosen p b k →
  tinv (Some p) false b (k <| ptable ::= alter (λ r, r <| state := RUNNING |>) p |>).
Proof.
  intros [((Hp & Hr & Hh) & Hc) Hrun]. assert (Hlt : (p < length (ptable k))%nat).
  { destruct (decide (p < length (ptable k))%nat); [done|]. exfalso.
    by rewrite list_lookup_total_alt, lookup_ge_None_2 in Hrun by lia. }
  split; [split; [split|]|]; [|done..|].
  - destruct (lookup_lt_is_Some_2 _ _ Hlt) as [r Hr']. apply pinv_state; [|done|done].
    destruct Hp as (_ & _ & HF & _). rewrite Forall_lookup in HF. destruct (HF _ _ Hr') as (_ & _ & Hl).
    rewrite list_lookup_total_alt, Hr' in Hrun |- *. apply Hl. cbn in Hrun. by rewrite Hrun.
  - cbn. by rewrite alter_lookup_total.
Qed.

Lemma safe_lottery_dispatch p Q b k : kinv None false b k → state (ptable k !!! p) = RUNNABLE →
  (∀ b v s, tinv (Some p) false b s → Q b v s) → safe dispatched given_back (lottery_dispatch p) Q b k.
Proof.
  intros Hk Hrun HQ. unfold lottery_dispatch. eapply safe_set_cproc; [done|]. intros b1 s1 H1 E.
  assert (Hc : chosen p b1 s1) by (split; [done|by rewrite E]). clear H1 E Hk Hrun.
  keep Hc. apply safe_bind, safe_modify. apply chosen_run in Hc. do 5 keep Hc. apply safe_ret. by apply HQ.
Qed.
Lemma sp_lottery_account p t st : sp (kinv None st) (lottery_account p t).
Proof. unfold lottery_account. solve_kp. Qed.
Lemma sp_lottery_update p st : sp (cinv None st) (lottery_update p).
Proof. unfold lottery_update. solve_kp. Qed.
Hint Resolve sp_lottery_account sp_lottery_update : kp.

Lemma safe_lottery_run total b k : cinv None false b k →
  safe dispatched given_back (lottery_run total) (λ b _, cinv None false b) b k.
Proof.
  intros Hk. unfold lottery_run.
  eapply (safe_keep _ _ (cinv None false)); [unfold lottery_choose; solve_kp|done|].
  clear Hk. intros b1 p s Hs. apply safe_bind, safe_gets. case_decide as E; [|done].
  apply safe_bind, safe_lottery_dispatch; [apply Hs|done|]. intros b2 t s2 H2.
  apply safe_bind, safe_swtch; [by exists p|]. intros z Hz. unfold given_back in Hz.
  unfold lottery_resume. do 2 keep Hz. apply safe_modify. by split.
Qed.

Lemma safe_lottery_turn b k : cinv None false b k →
  safe dispatched given_back lottery_turn (λ b _, cinv None false b) b k.
Proof.
  intros Hk. unfold lottery_turn. do 4 keep Hk. apply safe_bind.
  eapply (safe_mono _ _ _ (λ b _, cinv None false b)).
  - case_match; [by apply safe_lottery_run|done].
  - intros ? [] z Hs. by apply kp_release; [apply _|].
Qed.

Lemma safe_rr_dispatch p Q b k : kinv None false b k → state (ptable k !!! p) = RUNNABLE →
  (∀ b v s, tinv (Some p) false b s → Q b v s) → safe dispatched given_back (rr_dispatch p) Q b k.
Proof.
  intros Hk Hrun HQ. unfold rr_dispatch. eapply safe_set_cproc; [done|]. intros b1 s1 H1 E.
  assert (Hc : chosen p b1 s1) by (split; [done|by rewrite E]). clear H1 E Hk Hrun.
  keep Hc. apply safe_bind, safe_modify. apply chosen_run in Hc. do 7 keep Hc. apply safe_ret. by apply HQ.
Qed.
Lemma sp_rr_account p t st : sp (kinv None st) (rr_account p t).
Proof. unfold rr_account. solve_kp. Qed.
Hint Resolve sp_rr_account : kp.

Lemma sp_rr_slot p : sp (cinv None false) (rr_slot p).
Proof.
  intros b k Hk. unfold rr_slot. apply safe_bind, safe_gets. case_decide as E; [|done].
  apply safe_bind, safe_rr_dispatch; [apply Hk|done|]. intros b2 t s2 H2.
  apply safe_bind, safe_swtch; [by exists p|]. intros z Hz. unfold given_back in Hz.
  do 2 keep Hz. apply safe_modify. by split.
Qed.
Hint Resolve sp_rr_slot : kp.
Lemma sp_rr_turn : sp (cinv None false) rr_turn.
Proof. unfold rr_turn. solve_kp. Qed.
End scheduler.

(** ** The machine

    One processor that is in the scheduler or runs a process, whose thread is in
    the kernel or in user mode. *)
Inductive policy := Lottery | RoundRobin.
Definition scheduler_turn (pol : policy) : K unit :=
  match pol with Lottery => lottery_turn | RoundRobin => rr_turn end.

(** A suspended computation, and where the processor is: the outcome is that of
    the stretch of code under way. [back] is the scheduler, suspended in the
    [swtch] that started the process in slot [p]. *)
Abbreviation cont := (kernel → outcome kernel unit).
Inductive place :=
  | Scheduling (o : outcome kernel unit)
  | Running (p : nat) (back : cont) (o : outcome kernel unit).

(** The threads that have given the processor away, by slot, each with the pid
    of its process: the saved contexts. *)
Record machine := mkMachine { at_place : place; threads : gmap nat (Z * cont) }.

(** The state of a machine that has not stopped. *)
Definition live_state (o : outcome kernel unit) : option kernel :=
  match o with Ok _ s => Some s | Swtch s _ => Some s | _ => None end.
Definition mstate (m : machine) : option kernel :=
  match at_place m with Scheduling o => live_state o | Running _ _ o => live_state o end.

Section machine.
Context `{!Patience} (pol : policy).

(** The thread that the process in slot [p] continues with: the saved one, or
    [forkret] for a new process. *)
Definition thread_of (T : gmap nat (Z * cont)) (p : nat) (s : kernel) : cont :=
  match T !! p with
  | Some (x, k) => if x =? pid (ptable s !!! p) then k else forkret
  | None => forkret
  end.

(** User code may change memory; the interrupt flag on entry to the kernel
    depends on the gate. *)
Definition enter (m : memory) (fl : bool) (s : kernel) : kernel :=
  s <| mem := m |> <| eflags_if := fl |>.

Inductive step : machine → machine → Prop :=
  | step_turn s T :
      step (mkMachine (Scheduling (Ok tt s)) T) (mkMachine (Scheduling (scheduler_turn pol s)) T)
  | step_interrupt t id cr2 chars fl s s' T :
      trap t id cr2 chars (enter (mem s) fl s) = Ok tt s' →
      step (mkMachine (Scheduling (Ok tt s)) T) (mkMachine (Scheduling (Ok tt s')) T)
  | step_dispatch p s r T :
      cproc (kcpu s) = Some p →
      step (mkMachine (Scheduling (Swtch s r)) T) (mkMachine (Running p r (thread_of T p s s)) T)
  | step_trap t id cr2 chars m fl p r s T :
      step (mkMachine (Running p r (Ok tt s)) T)
        (mkMachine (Running p r (trap t id cr2 chars (enter m fl s))) T)
  | step_switch p r s k T :
      step (mkMachine (Running p r (Swtch s k)) T)
        (mkMachine (Scheduling (r s)) (<[p := (pid (ptable s !!! p), k)]> T)).

(** A run that never uses up the pids. *)
Definition pids_left (m : machine) : Prop :=
  match mstate m with Some s => nextpid s < MAXPID | None => True end.
Definition run : machine → machine → Prop := rtc (λ m m', pids_left m ∧ step m m').

(** ** Every run keeps the invariant *)
Definition sched_safe (b : kernel) (o : outcome kernel unit) : Prop :=
  osafe dispatched given_back (λ b _, cinv None false b) b o.
Definition thread_safe (p : nat) (b : kernel) (o : outcome kernel unit) : Prop :=
  osafe (kinv None false) (tstart (Some p)) (λ b _, tinv (Some p) false b) b o.
Definition machine_ok (b : kernel) (m : machine) : Prop :=
  match at_place m with
  | Scheduling o => sched_safe b o
  | Running p r o => thread_safe p b o ∧ ∀ s, given_back s → sched_safe s (r s)
  end ∧
  ∀ p x k s, threads m !! p = Some (x, k) → tstart (Some p) s → thread_safe p s (k s).

Lemma kinv_rebase c st b k : kinv c st b k → kinv c st k k.
Proof. intros (? & ? & ?). by split. Qed.
Lemma cinv_rebase c st b k : cinv c st b k → cinv c st k k.
Proof. intros [? ?]. split; [by eapply kinv_rebase|done]. Qed.
Lemma tinv_rebase c st b k : tinv c st b k → tinv c st k k.
Proof. intros [? ?]. split; [by eapply cinv_rebase|done]. Qed.
Lemma tinv_room c b k : nextpid k < MAXPID → tinv c false b k → tinv c true b k.
Proof.
  intros Hn (((? & ? & ?) & ?) & ?). split; [|done]. split; [|done]. split; [done|]. split; [|done]. unfold pid_room. lia.
Qed.
Lemma thread_of_ok T p s : (∀ p x k s, T !! p = Some (x, k) → tstart (Some p) s → thread_safe p s (k s)) →
  tstart (Some p) s → thread_safe p s (thread_of T p s s).
Proof.
  intros HT Hs. assert (Hf : thread_safe p s (forkret s)) by (apply (kp_forkret (Some p) false); by apply tinv_strict).
  unfold thread_of. destruct (T !! p) as [[x k]|] eqn:E; [|done]. case_match; [by eapply HT|done].
Qed.
Lemma sp_scheduler_turn : keeps dispatched given_back (cinv None false) (scheduler_turn pol).
Proof. destruct pol; [exact safe_lottery_turn|exact sp_rr_turn]. Qed.

Lemma step_ok b m m' : machine_ok b m → pids_left m → step m m' →
  ∃ s, mstate m = Some s ∧ machine_ok s m'.
Proof.
  intros [Hm HT] Hn Hst. unfold pids_left, mstate in *.
  destruct Hst as [s T|t id cr2 chars fl s s' T Ht|p s r T Hc|t id cr2 chars m fl p r s T|p r s k T];
    cbn in *; exists s; (split; [done|]); split; cbn.
  - apply (sp_scheduler_turn s s). by eapply cinv_rebase.
  - done.
  - assert (Hs : tinv None true s (enter (mem s) fl s)).
    { apply (data_inv s s); [done..|]. apply tinv_room; [done|]. split; [by eapply cinv_rebase|done]. }
    pose proof (safe_trap None t id cr2 chars _ _ Hs) as Hi. unfold safe in Hi. rewrite Ht in Hi. apply Hi.
  - done.
  - destruct Hm as [[q Hq] Hr]. split; [|done]. apply thread_of_ok; [done|].
    replace q with p in Hq by (destruct Hq as [[_ Hq] _]; congruence).
    apply tinv_room; [done|]. by eapply tinv_rebase.
  - done.
  - destruct Hm as [Hm Hr]. split; [|done]. apply (safe_trap (Some p)).
    apply (data_inv s s); [done..|]. apply tinv_room; [done|]. by eapply tinv_rebase.
  - done.
  - destruct Hm as [[Hm Hk] Hr]. apply Hr. by eapply kinv_rebase.
  - destruct Hm as [[Hm Hk] Hr]. intros q x k' s'. destruct (decide (p = q)) as [<-|].
    + rewrite lookup_insert_eq. intros [= <- <-]. apply Hk.
    + rewrite lookup_insert_ne by done. apply HT.
Qed.

Lemma run_ok b m m' : machine_ok b m → run m m' → ∃ b', machine_ok b' m'.
Proof.
  intros Hm Hr. revert b Hm. induction Hr as [m|m m1 m2 [Hn Hst] _ IH]; [eauto|]. intros b Hm.
  destruct (step_ok b m m1 Hm Hn Hst) as (s & _ & H1). by eapply IH.
Qed.
End machine.

(** ** What holds in every run *)

(** No two slots share a pid, every process has a pid and a ticket, and at most
    one is RUNNING. *)
Definition table_ok (s : kernel) : Prop :=
  ∀ i r, ptable s !! i = Some r → live (state r) →
    pid r ≠ 0 ∧ 0 < tickets r ∧
    (∀ j r', ptable s !! j = Some r' → pid r' = pid r → j = i) ∧
    (∀ j r', ptable s !! j = Some r' → state r = RUNNING → state r' = RUNNING → j = i).

(** The scheduler may start: the processor runs no process, no slot is RUNNING,
    and the table is as [allocproc] and [wait] leave it. *)
Definition sched_ready (s : kernel) : Prop :=
  pinv None (ptable s) (nextpid s) ∧ nextpid s ≤ MAXPID ∧ cproc (kcpu s) = None.
Definition started (s : kernel) : machine := mkMachine (Scheduling (Ok tt s)) ∅.

Lemma kinv_table_ok c st b k : kinv c st b k → table_ok k.
Proof.
  intros ((_ & _ & HF & Hu & Hq) & _). rewrite Forall_lookup in HF. intros i r Hi Hl.
  destruct (HF i r Hi) as (_ & Ht & Hp). specialize (Hp Hl). split_and!; [done|by apply Ht|..].
  - intros j r' Hj E. apply (Hu j i r' r); [done..|]. by rewrite E.
  - intros j r' Hj E E'. pose proof (Hq i r Hi E). pose proof (Hq j r' Hj E'). congruence.
Qed.
Lemma started_ok s : sched_ready s → machine_ok s (started s).
Proof.
  intros (Hp & Hn & Hc). split; [|intros ? ? ? ?; cbn; by rewrite lookup_empty].
  split; [|done]. by split.
Qed.

Lemma machine_ok_state b m s : machine_ok b m → mstate m = Some s → ∃ c, kinv c false b s.
Proof.
  unfold machine_ok, mstate. destruct (at_place m) as [o|p r o].
  - intros [Hm _]. destruct o as [[] s'|?|s' r|?]; intros [= <-].
    + destruct Hm as [Hm _]. eauto.
    + destruct Hm as [[p [[Hm _] _]] _]. eauto.
  - intros [[Hm _] _]. destruct o as [[] s'|?|s' k|?]; intros [= <-].
    + destruct Hm as [[Hm _] _]. eauto.
    + destruct Hm as [Hm _]. eauto.
Qed.

(** C1: in every state of every run of the kernel on one processor, from a state
    in which the scheduler may start and while the pid counter has numbers left,
    under either scheduler and whatever the processes and the devices do, no two slots of the process table
    share a pid, every process has a pid and at least one ticket, and at most one
    process is RUNNING; and while a process is in user mode, it is the processor's
    current process and it is RUNNING. *)
Theorem system_invariant `{!Patience} pol s0 m : sched_ready s0 → run pol (started s0) m →
  (∀ s, mstate m = Some s → table_ok s) ∧
  (∀ p back s, at_place m = Running p back (Ok tt s) →
     cproc (kcpu s) = Some p ∧ state (ptable s !!! p) = RUNNING).
Proof.
  intros H0 Hr. destruct (run_ok pol s0 (started s0) m (started_ok _ H0) Hr) as [b Hm]. split.
  - intros s Hs. destruct (machine_ok_state b m s Hm Hs) as [c Hc]. by eapply kinv_table_ok.
  - intros p back s Hp. unfold machine_ok in Hm. rewrite Hp in Hm.
    destruct Hm as [[[[_ Hc] Hrun] _] _]. done.
Qed.

(** C8: in the runs of one processor, from a state in which the scheduler may start
    and while the pid counter has numbers left, no record of the history of exited
    processes is ever lost or changed: what a state of a run has recorded, every later state of the run has at the
    same place. *)
Theorem history_kept `{!Patience} pol s0 m1 m2 s1 s2 :
  sched_ready s0 → run pol (started s0) m1 → run pol m1 m2 →
  mstate m1 = Some s1 → mstate m2 = Some s2 →
  ∀ i d, perf_data s1 !! i = Some d → istrue (pf_valid d) = true → perf_data s2 !! i = Some d.
Proof.
  intros H0 Hr1 Hr2 Hs1 Hs2. destruct (run_ok pol s0 (started s0) m1 (started_ok _ H0) Hr1) as [b Hm].
  change (hist_le (perf_data s1) (perf_data s2)). revert b s1 Hs1 Hm. clear Hr1.
  induction Hr2 as [m|m m1 m2 [Hn Hst] Hr IH]; intros b s1 Hs1 Hm.
  { by assert (s1 = s2) as -> by congruence. }
  destruct (step_ok pol b m m1 Hm Hn Hst) as (s & Hs & Hm1). assert (s = s1) as -> by congruence.
  destruct (mstate m1) as [s'|] eqn:E.
  - destruct (machine_ok_state s1 m1 s' Hm1 E) as (c & _ & _ & Hh). transitivity (perf_data s'); [done|].
    by eapply IH.
  - exfalso. destruct Hr as [|m1 m3 m2 [_ Hst'] _]; [congruence|].
    inversion Hst'; subst; unfold mstate in E; cbn in E; discriminate.
Qed.

(** A run of the two processes of [SchedSpec]: a turn, and a dispatch. *)
Definition old_record : PerfData := mkPerf 9 1 1 5 2 2 1.
Definition ready_kernel : kernel :=
  two_kernel <| nextpid := 3 |> <| perf_data ::= <[0%nat := old_record]> |>.
Lemma ready_kernel_ok : sched_ready ready_kernel.
Proof.
  split; [|done]. split; [done|]. split; [done|]. split; [apply (bool_decide_unpack _); by vm_compute|].
  assert (H : Forall (λ i, pid (two_procs !!! i) ≠ 0 → i = Z.to_nat (pid (two_procs !!! i) * 3 - 2)) (seq 0 NPROC)).
  { apply (bool_decide_unpack _). by vm_compute. }
  assert (H' : Forall (λ r, state r ≠ RUNNING) two_procs) by (apply (bool_decide_unpack _); by vm_compute).
  rewrite Forall_lookup in H'. split; [|intros i r Hi Hr; by destruct (H' i r Hi)].
  assert (Hi : ∀ i r, two_procs !! i = Some r → pid r ≠ 0 → i = Z.to_nat (pid r * 3 - 2)).
  { intros i r Hi Hp. rewrite Forall_forall in H. specialize (H i).
    rewrite list_lookup_total_alt, Hi in H. apply H; [|done]. apply elem_of_seq.
    apply lookup_lt_Some in Hi. split; [lia|]. exact Hi. }
  intros i j r r' Hr Hr' E Hne. rewrite (Hi i r Hr Hne), (Hi j r' Hr'); [by rewrite E|congruence].
Qed.
Definition ready_machine : machine :=
  mkMachine (Scheduling (scheduler_turn Lottery ready_kernel)) ∅.
Lemma ready_run : run (H := 0%nat) Lottery (started ready_kernel) ready_machine.
Proof. apply rtc_once. split; [done|]. apply step_turn. Qed.

Lemma system_invariant_witness : ∃ s, mstate ready_machine = Some s ∧ table_ok s.
Proof.
  destruct (mstate ready_machine) as [s|] eqn:E; [|by vm_compute in E]. exists s. split; [done|].
  by apply (system_invariant (H := 0%nat) Lottery _ _ ready_kernel_ok ready_run).
Defined.

Lemma history_kept_witness : ∃ s, mstate ready_machine = Some s ∧ perf_data s !! 0%nat = Some old_record.
Proof.
  destruct (mstate ready_machine) as [s|] eqn:E; [|by vm_compute in E]. exists s. split; [done|].
  apply (history_kept (H := 0%nat) Lottery ready_kernel (started ready_kernel) ready_machine ready_kernel s);
    [apply ready_kernel_ok|apply rtc_refl|apply ready_run|done|done|done|done].
Defined.
