(* ===== verification/Boot.v ===== *)
(** * The kernel comes up

    [main] from the kernel as it is loaded: every step of the start-up returns, the
    pages of physical memory are all accounted for, and the first process is ready to
    run [initcode]. *)
From stdpp Require Import base strings numbers gmap list.
From S2P Require Import Prelude Machine KString Kernel Locks Kalloc Proc ProcSpec Console Vm VmSpec VmCopy Sleeplock Bio BioSpec Ide IdeSpec Fs.
From S2P Require Import Pipe ConsoleDev File Life Main Safe System.

(** ** Memory *)

Section memory.
Context (Y : protocol kernel) `{!Mono Y}.

(** [freerange] puts the pages of the range on the free list. *)
Lemma kwp_freerange_loop n : ∀ fuel p v L O (Q : unit → kernel → Prop) k, (n < fuel)%nat → p + 4096 * Z.of_nat n ≤ v < p + 4096 * Z.of_nat (S n) →
  pool k L (pages_from p n ++ O) → (∀ k', pool k' (reverse (pages_from p n) ++ L) O → eq_off (pages_from p n) (mem k) (mem k') → same_rest k k' → Q tt k') →
  kwp (freerange_loop fuel p v) Q Y k.
Proof using Type*.
  induction n as [|n IH]; intros fuel p v L O Q k Hf Hv P HQ; (destruct fuel as [|fuel]; [lia|]); cbn [freerange_loop]; unfold PGSIZE.
  - rewrite (proj2 (Z.leb_gt _ _)) by lia. kstep. apply HQ; [done|apply eq_off_refl|apply same_rest_refl].
  - rewrite (proj2 (Z.leb_le _ _)) by lia. rewrite pages_from_S in P. apply kwp_bind; [done|].
    eapply kwp_kfree_pool; [done|exact P|]. intros k1 P1 M1 S1. apply (IH fuel (p + 4096) v (p :: L) O); [lia|lia|done|].
    intros k2 P2 M2 S2. apply HQ; [by rewrite pages_from_S, reverse_cons, <- app_assoc| |by eapply same_rest_trans].
    rewrite pages_from_S. eapply eq_off_trans; [| |exact M1|exact M2]; intros q; [intros ->%list_elem_of_singleton; by left|by right].
Qed.
Lemma kwp_freerange n a p v L O (Q : unit → kernel → Prop) k : PGROUNDUP a = p → v = p + 4096 * Z.of_nat n →
  pool k L (pages_from p n ++ O) → (∀ k', pool k' (reverse (pages_from p n) ++ L) O → eq_off (pages_from p n) (mem k) (mem k') → same_rest k k' → Q tt k') →
  kwp (freerange a v) Q Y k.
Proof using Type*.
  intros Ha -> P HQ. unfold freerange. rewrite Ha. apply (kwp_freerange_loop n _ _ _ L O); [|lia|done|done].
  replace (p + 4096 * Z.of_nat n - p) with (Z.of_nat n * 4096) by lia. unfold PGSIZE. rewrite Z.div_mul by lia. lia.
Qed.
End memory.

(** ** The console *)

(** The cursor is on the screen, and no processor has panicked. *)
Definition screen_ok (s : consst) : Prop := panicked s = false ∧ 0 ≤ cursor s < 2000.

Section console.
Context (Y : protocol kernel) `{!Mono Y}.

Lemma kcons_kcons (k : kernel) f g : k <| kcons ::= f |> <| kcons ::= g |> = k <| kcons ::= λ s, g (f s) |>.
Proof. by destruct k. Qed.
Lemma kcons_set (k : kernel) f : k <| kcons ::= f |> = k <| kcons := f (kcons k) |>.
Proof. by destruct k. Qed.

Lemma kcons_same (k : kernel) : k <| kcons := kcons k |> = k.
Proof. by destruct k. Qed.

(** A character on the screen. *)
Lemma kwp_cgaputc c (Q : unit → kernel → Prop) k : screen_ok (kcons k) → c ≠ BACKSPACE →
  (∀ s, screen_ok s → locking s = locking (kcons k) → uart_out s = uart_out (kcons k) → Q tt (k <| kcons := s |>)) →
  kwp (cgaputc c) Q Y k.
Proof using Type*.
  intros [Hp Hc] Hb HQ. unfold cgaputc, cset. kstep. kstep. rewrite (proj2 (Z.eqb_neq c BACKSPACE)) by done. cbv zeta.
  set (pos := cursor (kcons k)) in *. pose proof (Z.rem_bound_pos pos 80 ltac:(lia) ltac:(lia)). pose proof (Z.quot_rem pos 80 ltac:(lia)).
  assert (0 ≤ pos ÷ 80 < 25) as Hq by (split; [apply Z.quot_pos; lia|apply Z.quot_lt_upper_bound; lia]).
  assert (∀ (k1 : kernel) p, 0 < p ≤ 2000 → panicked (kcons k1) = false → (∀ s, screen_ok s → locking s = locking (kcons k1) →
      uart_out s = uart_out (kcons k1) → Q tt (k1 <| kcons := s |>)) →
    kwp ((if (p <? 0) || (25 * 80 <? p) then panic "pos under/overflow" else skip);;
      pos ← (if 24 <=? p / 80 then modify (λ k, k <| kcons ::= λ s, s <| crt ::= scroll (p - 80) |> |>);; mret (p - 80) else mret p);
      modify (λ k, k <| kcons ::= λ s, s <| cursor := pos |> |>);;
      modify (λ k, k <| kcons ::= λ s, s <| crt ::= <[Z.to_nat pos := Z.lor 32 0x0700]> |> |>)) Q Y k1) as Hend.
  { intros k1 p Hp1 Hpk HQ1. rewrite (proj2 (Z.ltb_ge p 0)), (proj2 (Z.ltb_ge _ p)) by lia. cbn [orb]. kstep. kstep.
    destruct (Z.leb_spec 24 (p / 80)) as [Hs|Hs]; ksteps; rewrite ?kcons_kcons, kcons_set; apply HQ1; try done; split; try done; simpl; Z.div_mod_to_equations; lia. }
  destruct (c =? NL); kstep.
  - kstep. apply Hend; [lia|done|]. done.
  - kstep. kstep. kstep. apply Hend; [lia|done|]. intros s S1 S2 S3. apply (HQ s); done.
Qed.
(** And on the serial line. *)
Lemma kwp_consputc c (Q : unit → kernel → Prop) k : screen_ok (kcons k) → c ≠ BACKSPACE →
  (∀ s, screen_ok s → locking s = locking (kcons k) → uart_out s = uart_out (kcons k) ++ [u8 c] → Q tt (k <| kcons := s |>)) →
  kwp (consputc c) Q Y k.
Proof using Type*.
  intros [Hp Hc] Hb HQ. unfold consputc, uartputc, cset. kstep. kstep. rewrite Hp, (proj2 (Z.eqb_neq c BACKSPACE)) by done. kstep. kstep. kstep. kstep.
  apply kwp_cgaputc; [by split|done|]. intros s S1 S2 S3. by apply (HQ s).
Qed.
Lemma kwp_putchars cs : ∀ (Q : unit → kernel → Prop) k, screen_ok (kcons k) → Forall (λ c, 0 ≤ c < 256) cs →
  (∀ s, screen_ok s → locking s = locking (kcons k) → uart_out s = uart_out (kcons k) ++ cs → Q tt (k <| kcons := s |>)) →
  kwp (putchars cs) Q Y k.
Proof using Type*.
  induction cs as [|c cs IH]; intros Q k Hk Hcs HQ; unfold putchars; cbn [foldr].
  - kstep. rewrite <- (kcons_same k). apply HQ; [done|done|by rewrite app_nil_r].
  - apply Forall_cons in Hcs as [Hc Hcs]. kstep. apply kwp_consputc; [done|unfold BACKSPACE; lia|]. intros s S1 S2 S3.
    apply IH; [done|done|]. intros s' T1 T2 T3. apply (HQ s'); [done|by rewrite T2|]. rewrite T3. simpl. rewrite S3, <- app_assoc. simpl.
    unfold u8. by rewrite Z.mod_small.
Qed.

(** The characters [cprintf] prints. *)
Fixpoint cformat (fmt : list Z) (args : list carg) : list Z :=
  let int b sign := reverse (int_chars (lit "0123456789abcdef") (i32 (arg_int args)) b sign) in
  match fmt with
  | [] => []
  | c :: fmt' =>
      if negb (c =? 37) then c :: cformat fmt' args
      else match fmt' with
      | [] => []
      | c :: fmt'' =>
          if c =? 100 then int 10 true ++ cformat fmt'' (tl args)
          else if (c =? 120) || (c =? 112) then int 16 false ++ cformat fmt'' (tl args)
          else if c =? 115 then default (lit "(null)") (arg_str args) ++ cformat fmt'' (tl args)
          else if c =? 37 then 37 :: cformat fmt'' args
          else 37 :: c :: cformat fmt'' args
      end
  end.
Lemma kwp_cprintf_loop n : ∀ fmt args (Q : unit → kernel → Prop) k, (length fmt ≤ n)%nat → screen_ok (kcons k) → Forall (λ c, 0 ≤ c < 256) (cformat fmt args) →
  (∀ s, screen_ok s → locking s = locking (kcons k) → uart_out s = uart_out (kcons k) ++ cformat fmt args → Q tt (k <| kcons := s |>)) →
  kwp (cprintf_loop fmt args) Q Y k.
Proof using Type*.
  induction n as [|n IH]; intros fmt args Q k Hn Hk Hf HQ.
  { destruct fmt; [|simpl in Hn; lia]. cbn [cprintf_loop]. kstep. rewrite <- (kcons_same k). apply HQ; [done|done|by rewrite app_nil_r]. }
  assert (∀ cs fmt' args', (length fmt' ≤ n)%nat → cformat fmt args = cs ++ cformat fmt' args' → kwp (putchars cs;; cprintf_loop fmt' args') Q Y k) as Hstep.
  { intros cs fmt' args' Hn' E. rewrite E in Hf. apply Forall_app in Hf as [Hc Hf']. kstep. apply kwp_putchars; [done|done|]. intros s S1 S2 S3.
    apply IH; [done|done|done|]. intros s' T1 T2 T3. apply (HQ s'); [done|by rewrite T2|]. rewrite E, T3. simpl. by rewrite S3, <- app_assoc. }
  assert (∀ c fmt' args', (length fmt' ≤ n)%nat → cformat fmt args = c :: cformat fmt' args' → kwp (consputc c;; cprintf_loop fmt' args') Q Y k) as Hone.
  { intros c fmt' args' Hn' E. rewrite E in Hf. apply Forall_cons in Hf as [Hc Hf']. kstep. apply kwp_consputc; [done|unfold BACKSPACE; lia|]. intros s S1 S2 S3.
    apply IH; [done|done|done|]. intros s' T1 T2 T3. apply (HQ s'); [done|by rewrite T2|]. rewrite E, T3. simpl. rewrite S3, <- app_assoc. simpl. unfold u8. by rewrite Z.mod_small. }
  destruct fmt as [|c fmt']; cbn [cprintf_loop cformat] in *.
  { kstep. rewrite <- (kcons_same k). apply HQ; [done|done|by rewrite app_nil_r]. }
  simpl in Hn. destruct (negb (c =? 37)); [apply Hone; [lia|done]|]. destruct fmt' as [|c' fmt''].
  { kstep. rewrite <- (kcons_same k). apply HQ; [done|done|by rewrite app_nil_r]. }
  simpl in Hn. destruct (c' =? 100); [apply Hstep; [lia|done]|]. destruct ((c' =? 120) || (c' =? 112)); [apply Hstep; [lia|done]|].
  destruct (c' =? 115); [apply Hstep; [lia|done]|]. destruct (c' =? 37); [apply Hone; [lia|done]|].
  apply Forall_cons in Hf as [_ Hf]. apply Forall_cons in Hf as [Hc Hf]. kstep. apply kwp_consputc; [done|done|]. intros s S1 S2 S3.
  kstep. apply kwp_consputc; [done|unfold BACKSPACE; lia|]. intros s1 U1 U2 U3. simpl in U2, U3. apply IH; [lia|done|done|]. intros s' T1 T2 T3.
  simpl in T2, T3. apply (HQ s'); [done|congruence|]. rewrite T3, U3, S3, <- !app_assoc. simpl. unfold u8. rewrite (Z.mod_small c') by done. done.
Qed.
Lemma kwp_cprintf fmt args (Q : unit → kernel → Prop) k : screen_ok (kcons k) → cpu_wf k → Lcons ∉ held k → Forall (λ c, 0 ≤ c < 256) (cformat (lit fmt) args) →
  (∀ s, screen_ok s → uart_out s = uart_out (kcons k) ++ cformat (lit fmt) args → Q tt (k <| kcons := s |>)) → kwp (cprintf fmt args) Q Y k.
Proof using Type*.
  intros Hk Hwf Hl Hf HQ. unfold cprintf, when. kstep. kstep. destruct (locking (kcons k)).
  - kstep. kstep. kstep. eapply kwp_cprintf_loop; [done|done|done|]. intros s S1 S2 S3. kstep. by apply HQ.
  - kstep. kstep. kstep. eapply kwp_cprintf_loop; [done|done|done|]. intros s S1 S2 S3. kstep. by apply HQ.
Qed.

(** The greeting. *)
Lemma kwp_uartputs cs : ∀ (Q : unit → kernel → Prop) k, Forall (λ c, 0 ≤ c < 256) cs →
  Q tt (k <| kcons ::= λ s, s <| uart_out ::= λ o, o ++ cs |> |>) → kwp (foldr (λ c m, uartputc c;; m) skip cs) Q Y k.
Proof using Type*.
  induction cs as [|c cs IH]; intros Q k Hc HQ; cbn [foldr].
  - kstep. rewrite <- (kcons_same k). rewrite kcons_set in HQ. eapply eq_rect; [exact HQ|]. f_equal. unfold upd. simpl. rewrite app_nil_r. by destruct (kcons k).
  - apply Forall_cons in Hc as [Hc Hcs]. unfold uartputc, cset. kstep. kstep. apply IH; [done|]. rewrite kcons_kcons. eapply eq_rect; [exact HQ|].
    unfold upd. simpl. do 2 f_equal. rewrite <- app_assoc. simpl. unfold u8. by rewrite Z.mod_small.
Qed.
Lemma kwp_uartinit (Q : unit → kernel → Prop) k :
  Q tt (k <| kcons ::= λ s, s <| uart_out ::= λ o, o ++ lit ("xv6..." +:+ nl) |> |>) → kwp uartinit Q Y k.
Proof using Type*. apply kwp_uartputs. apply (bool_decide_unpack _). by vm_compute. Qed.
End console.

(** ** The disk and its cache *)

(** The driver starts on a machine with both drives present and idle, and changes
    only its own state. *)
Definition switched_on (k : kernel) : Prop := disk k ≠ [] ∧ a_disk0 (katas k) ≠ [] ∧ a_cmd (katas k) = None.
Class DiskStarts (DRV : DiskDriver) : Prop :=
  kwp_ideinit (Y : protocol kernel) `{!Mono Y} (Q : unit → kernel → Prop) k : switched_on k → (∀ i, Q tt (k <| kide := i |>)) → kwp ideinit Q Y k.
#[export] Instance memide_starts : DiskStarts memide.
Proof. intros Y HY Q k _ HQ. specialize (HQ (kide k)). apply kwp_skip. by destruct k. Qed.
#[export] Instance ide_starts {PAT : Patience} : DiskStarts ide.
Proof.
  intros Y HY Q k (Hd & H0 & Hc) HQ.
  assert (Hs : ∀ a, a_disk0 a = a_disk0 (katas k) → sectors (disk k) a (a_drive a) ≠ []).
  { intros a E. unfold sectors. destruct (_ =? 1); by rewrite ?E. }
  change (kwp ide_ideinit Q Y k). unfold ide_ideinit. kstep. apply kwp_idewait; [apply _|split; [by apply Hs|by rewrite Hc]|].
  unfold outb. cbn [Z.eqb Pos.eqb]. cbv zeta.
  kstep. apply kwp_aset. kstep. change (ide_probe 1000) with (r ← in_status; if negb (r =? 0) then Ide.iset (λ s, s <| havedisk1 := 1 |>) else ide_probe 999).
  kstep. apply kwp_status; [apply _|split; [by apply Hs|unfold katas in *; cbn; by rewrite Hc]|]. rewrite aup_aup.
  change (a_busy (katas (aup _ k))) with O. cbv iota. change (IDE_DRDY =? 0) with false. cbn [negb]. unfold Ide.iset. kstep.
  apply kwp_aset. apply HQ.
Qed.

Section drivers.
Context (Y : protocol kernel) `{!Mono Y}.
Lemma binit_eq k : bufs k = replicate (S NBUF) buf0 → binit k = Ok tt (k <| bufs := fresh_bufs |>).
Proof. intros E. destruct k. simpl in E. subst. vm_compute. reflexivity. Qed.
Lemma kwp_binit (Q : unit → kernel → Prop) k : bufs k = replicate (S NBUF) buf0 → Q tt (k <| bufs := fresh_bufs |>) → kwp binit Q Y k.
Proof using Type*.
  intros Hb HQ. apply (kwp_ok _ _ _ _ tt (k <| bufs := fresh_bufs |>)); [|done]. intros s Hs. keqv_rd Hs.
  eexists. split; [apply binit_eq; by rewrite Hbufs|by rewrite Hs].
Qed.
End drivers.

(** ** The first address space *)

Lemma pool_ext k k' L O : pool k L O → kmem_free k' → mem k' = mem k → freelist (kmem k') = freelist (kmem k) → image k' = image k → pool k' L O.
Proof.
  intros [P1 (P2 & P3 & P4) P5 P6 P7 P8] Hf Em Ek Ei. split; rewrite ?Em, ?Ei; try done. unfold kmem_rep. by rewrite Em, Ek, Ei.
Qed.

(** The page [y] is entry 0 of the page table, for the user to write, and holds [init]
    and zeros behind it. *)
Abbreviation one_page y := ({[0 := mkpte (V2P y) 6]} : gmap Z Z).
Definition holds_code (m : memory) (y : Z) (init : list Z) : Prop := ∀ i, 0 ≤ i < 4096 → ld8 m (y + i) = u8 (nth (Z.to_nat i) init 0).

Section inituvm.
Context (Y : protocol kernel) `{!Mono Y}.

(** The last step: the page [y] is mapped and zero, and the program is copied to it. *)
Lemma inituvm_code k L dir T X y init : pool k L (y :: own dir T ∅ ++ X) → pt_rep (mem k) (image k) dir T →
  (∀ w, 0 ≤ w < 524288 → present (pte (mem k) T w) = true → w = 0) → pte (mem k) T 0 = mkpte (V2P y) 6 → (∀ i, 0 ≤ i < 4096 → ld8 (mem k) (y + i) = 0) →
  Z.of_nat (length init) < 4096 → let k' := k <| mem ::= λ m, store_bytes m y init |> in
  pool k' L (own dir T (one_page y) ++ X) ∧ pt_rep (mem k') (image k') dir T ∧ urep (mem k') T (one_page y) ∧ holds_code (mem k') y init ∧
  eq_off [y] (mem k) (mem k') ∧ ∀ w, pte (mem k') T w = pte (mem k) T w.
Proof.
  intros P R HU H0 HZ Hi k'. pose proof (pool_page _ _ _ y P ltac:(by left)) as Hy. destruct (page_phys _ _ (pool_img _ _ _ P) Hy) as (Hv & Hvm & _).
  assert (eq_off [y] (mem k) (mem k')) as M.
  { intros a Ha. specialize (Ha y ltac:(set_solver)). simpl. rewrite store_bytes_spec. by rewrite decide_False by lia. }
  assert (∀ p, p ∈ dir :: vals T → eq_page p (mem k) (mem k')) as HE.
  { intros p Hp. eapply (pool_eq_page k L [y]); [exact P|exact M|]. revert Hp. in_pages. }
  assert (∀ w, pte (mem k') T w = pte (mem k) T w) as HT by (intros w; apply pte_same; intros t Ht; apply HE; by right).
  assert (frame (mkpte (V2P y) 6) = y) as EF by (apply (frame_mkpte (image k)); [apply P|done|lia]).
  split_and!; [| | | |done|done].
  - eapply pool_perm; [|apply (pool_write k L (y :: own dir T ∅ ++ X)); [exact P| |apply bytes_ok_store, P]].
    + rewrite <- insert_empty, own_insert, EF by done. done.
    + eapply eq_off_mono; [|exact M]. intros p. set_solver.
  - eapply pt_rep_same; [|exact R]. apply HE. by left.
  - split.
    + intros v e. rewrite lookup_singleton_Some. intros [<- <-]. rewrite HT, H0. split_and!; [lia|lia|done|]. apply mkpte_present; done || lia.
    + intros v Hv'. rewrite lookup_singleton_None, HT. intros Hn. destruct (present (pte (mem k) T v)) eqn:E; [|done]. by apply HU in E.
  - intros i Hb. simpl. rewrite store_bytes_spec. case_decide.
    + f_equal. replace (y + i - y) with i by lia. rewrite nth_lookup, list_lookup_total_alt. by destruct (lookup_lt_is_Some_2 init (Z.to_nat i) ltac:(lia)) as [c ->].
    + rewrite HZ by done. rewrite nth_overflow by lia. done.
Qed.
Lemma kwp_inituvm Q k L dir T X init : pool k L (own dir T ∅ ++ X) → pt_rep (mem k) (image k) dir T → urep (mem k) T ∅ →
  Z.of_nat (length init) < 4096 → (1025 < length L)%nat →
  (∀ y k' L' T', pool k' L' (own dir T' (one_page y) ++ X) → pt_rep (mem k') (image k') dir T' → urep (mem k') T' (one_page y) →
     own dir T' (one_page y) ++ L' ≡ₚ own dir T ∅ ++ L → (∀ w, 0 < w → pte (mem k') T' w = pte (mem k) T w) → holds_code (mem k') y init → frame (mkpte (V2P y) 6) = y →
     eq_off (own dir T ∅ ++ L) (mem k) (mem k') → same_rest k k' → Q tt k') →
  kwp (inituvm dir init) Q Y k.
Proof using Type*.
  intros P R RU Hi HL HQ. unfold inituvm. rewrite (proj2 (Z.leb_gt _ _)) by (unfold PGSIZE; lia). kstep. kstep.
  apply kwp_bind; [done|]. eapply kwp_kalloc_pool; [done|exact P|intros ->; simpl in HL; lia|]. intros y L1 k1 -> P1 E1 S1. simpl in HL.
  pose proof (pool_page _ _ _ y P1 ltac:(by left)) as Hy. destruct (page_phys _ _ (pool_img _ _ _ P1) Hy) as (Hv & Hvm & _).
  unfold kmemset. kstep. kstep. set (k2 := k1 <| mem ::= λ m, memset m y 0 PGSIZE |>).
  assert (eq_off [y] (mem k1) (mem k2)) as M2.
  { intros a Ha. specialize (Ha y ltac:(set_solver)). simpl. rewrite memset_spec by done. unfold PGSIZE. by rewrite decide_False. }
  assert (pool k2 L1 (y :: own dir T ∅ ++ X)) as P2.
  { apply pool_write; [done| |apply bytes_ok_memset; [done|apply P1]]. eapply eq_off_mono; [|exact M2]. intros p. set_solver. }
  destruct (space_same (mem k1) (mem k2) (image k1) dir T ∅) as [R2 RU2]; [|by rewrite E1, (same_rest_image _ _ S1)|by rewrite E1|].
  { intros p Hp. eapply (pool_eq_page k1 L1 [y]); [exact P1|exact M2|]. revert Hp. in_pages. }
  apply kwp_bind; [done|]. change 0 with (4096 * 0) at 1. change PGSIZE with (4096 * 1).
  eapply kwp_mappages; [done|exact P2|exact R2| |lia|lia|lia|lia|lia|done|done| |].
  { exists (y :: X). unfold own. rewrite frames_empty. solve_Permutation. }
  { intros w Hw. apply RU2; [lia|done]. }
  intros r new k3 L3 T3 j (P3 & R3 & EL & EV & M3 & S3) _ Hpt Hr. destruct Hr as [[-> ->]|(_ & _ & ->)].
  2:{ pose proof (pt_rep_size _ _ _ _ R3) as Hs. rewrite EV, length_app in Hs. rewrite EL, length_app in HL. simpl in HL. lia. }
  kstep. eapply (pool_perm _ _ _ (y :: own dir T3 ∅ ++ X)) in P3; [|unfold own; rewrite EV, frames_empty; solve_Permutation].
  assert (eq_page y (mem k2) (mem k3)) as E3.
  { eapply (pool_eq_page k3 L3 (dir :: vals T3) (y :: X)); [|exact M3|by left]. eapply pool_perm; [|exact P3]. unfold own. rewrite frames_empty. solve_Permutation. }
  destruct (inituvm_code k3 L3 dir T3 X y init P3 R3) as (P4 & R4 & RU4 & HC & M4 & HT); [| | |done|].
  { intros w Hw Hp. rewrite Hpt in Hp by lia. case_decide; [lia|]. pose proof (proj2 RU2 w Hw ltac:(done)). congruence. }
  { rewrite Hpt by lia. rewrite decide_True by lia. f_equal. lia. }
  { intros i Hb. rewrite E3 by lia. simpl. rewrite memset_spec by done. rewrite decide_True by (unfold PGSIZE; lia). done. }
  assert (own dir T3 (one_page y) ++ L3 ≡ₚ own dir T ∅ ++ y :: L1) as EO.
  { rewrite <- insert_empty, own_insert by done. rewrite (frame_mkpte (image k1)) by (apply P1 || done || lia). unfold own. rewrite EL, EV, frames_empty. solve_Permutation. }
  assert (∀ p, p ∈ [y] ∨ p ∈ dir :: vals T3 → p ∈ own dir T ∅ ++ y :: L1) as Hin.
  { intros p. rewrite EL, !elem_of_app, !elem_of_cons, EV, elem_of_app, elem_of_nil. unfold own. rewrite !elem_of_cons, !elem_of_app. tauto. }
  eapply (HQ y _ L3 T3); [exact P4|exact R4|exact RU4|exact EO| |exact HC|by apply (frame_mkpte (image k1)); [apply P1|done|lia]| |].
  - intros w Hw. rewrite HT, Hpt by lia. rewrite decide_False by lia. rewrite <- E1. apply pte_same. intros t Ht.
    eapply (pool_eq_page k1 L1 [y]); [exact P1|exact M2|]. revert Ht. in_pages.
  - rewrite <- E1. eapply eq_off_trans; [| |exact M2|eapply (eq_off_trans _ _ (own dir T ∅ ++ y :: L1)); [| |exact M3|exact M4]]; auto.
  - eapply same_rest_trans; [exact S1|]. eapply same_rest_trans; [|eapply same_rest_trans; [exact S3|]]; apply same_rest_mem.
Qed.
End inituvm.

(** ** The first process *)

(** The stack at [x] starts the process in [forkret], which returns to [trapret]. *)
Definition ready_stack (img : linker) (m : memory) (x : Z) : Prop :=
  ld32 m (x + 4096 - 84) = l_forkret img ∧ ld32 m (x + 4096 - 80) = l_trapret img.
(** The trap frame at [t] starts user code at address 0, with the stack at the end of
    the first page and interrupts on. *)
Definition user_cs : Z := Z.lor (Z.shiftl SEG_UCODE 3) DPL_USER.
Definition user_ds : Z := Z.lor (Z.shiftl SEG_UDATA 3) DPL_USER.
Record first_frame (m : memory) (t : Z) : Prop := {
  ff_eip : ld32 m (t + tf_eip) = 0;
  ff_esp : ld32 m (t + tf_esp) = PGSIZE;
  ff_eflags : ld32 m (t + tf_eflags) = FL_IF;
  ff_cs : ld16 m (t + tf_cs) = user_cs;
  ff_ds : ld16 m (t + tf_ds) = user_ds;
  ff_es : ld16 m (t + tf_es) = user_ds;
  ff_ss : ld16 m (t + tf_ss) = user_ds }.
Definition frame_init (t : Z) (m : memory) : memory :=
  let m1 := st16 (st16 (memset m t 0 TF_SIZE) (t + tf_cs) user_cs) (t + tf_ds) user_ds in
  let ds := ld16 m1 (t + tf_ds) in
  st32 (st32 (st32 (st16 (st16 m1 (t + tf_es) ds) (t + tf_ss) ds) (t + tf_eflags) FL_IF) (t + tf_esp) PGSIZE) (t + tf_eip) 0.

(** A store in a page leaves what is outside of it. *)
Lemma ld16_st16 m a v : ld16 (st16 m a v) a = u16 v.
Proof.
  unfold ld16, st16. rewrite !ld8_st8. rewrite (decide_True (P := a + 1 = a + 1)), (decide_False (P := a + 1 = a)), (decide_True (P := a = a)) by lia.
  unfold u8, u16. Z.div_mod_to_equations. lia.
Qed.
Lemma ld16_same m m' a : ld8 m' a = ld8 m a → ld8 m' (a + 1) = ld8 m (a + 1) → ld16 m' a = ld16 m a.
Proof. unfold ld16. by intros -> ->. Qed.
Lemma ld8_st16_ne m a v b : b < a ∨ a + 2 ≤ b → ld8 (st16 m a v) b = ld8 m b.
Proof. intros. unfold st16. by rewrite !ld8_st8_ne by lia. Qed.
Lemma ld16_st16_ne m a v b : b + 2 ≤ a ∨ a + 2 ≤ b → ld16 (st16 m a v) b = ld16 m b.
Proof. intros. apply ld16_same; apply ld8_st16_ne; lia. Qed.
Lemma ld16_st32_ne m a v b : b + 2 ≤ a ∨ a + 4 ≤ b → ld16 (st32 m a v) b = ld16 m b.
Proof. intros. apply ld16_same; apply ld8_st32_ne; lia. Qed.

Lemma frame_init_ok t m : first_frame (frame_init t m) t ∧ ∀ a, a < t ∨ t + 76 ≤ a → ld8 (frame_init t m) a = ld8 m a.
Proof.
  unfold frame_init, TF_SIZE. cbv zeta. split.
  - split; unfold tf_eip, tf_esp, tf_eflags, tf_cs, tf_ds, tf_es, tf_ss;
      repeat first [rewrite ld32_st32_ne by lia|rewrite ld16_st32_ne by lia|rewrite ld16_st16_ne by lia|rewrite ld32_st32|rewrite ld16_st16]; done.
  - intros a Ha. unfold tf_eip, tf_esp, tf_eflags, tf_cs, tf_ds, tf_es, tf_ss.
    rewrite !ld8_st32_ne, !ld8_st16_ne, memset_spec by lia. by rewrite decide_False by lia.
Qed.
Lemma frame_init_bytes t m : bytes_ok m → bytes_ok (frame_init t m).
Proof. intros H. unfold frame_init. cbv zeta. unfold st32, st16. repeat apply bytes_ok_st8. by apply bytes_ok_memset. Qed.

Lemma same_rest_data (F : kernel → kernel) k k' : (∀ k m f, F (k <| mem := m |> <| kmem ::= λ km, km <| freelist := f |> |>) =
  (F k) <| mem := m |> <| kmem ::= λ km, km <| freelist := f |> |>) → same_rest k k' → same_rest (F k) (F k').
Proof. intros HF (m & f & ->). exists m, f. apply HF. Qed.

Section userinit.
Context (Y : protocol kernel) `{!Mono Y}.

(** Updates of different fields commute. *)
Lemma ptable_kmem (k : kernel) f g : k <| kmem ::= f |> <| ptable ::= g |> = k <| ptable ::= g |> <| kmem ::= f |>.
Proof. by destruct k. Qed.
Lemma ptable_nextpid (k : kernel) n g : k <| nextpid := n |> <| ptable ::= g |> = k <| ptable ::= g |> <| nextpid := n |>.
Proof. by destruct k. Qed.
Lemma ptable_initproc (k : kernel) n g : k <| initproc := n |> <| ptable ::= g |> = k <| ptable ::= g |> <| initproc := n |>.
Proof. by destruct k. Qed.
Lemma ptable_icache (k : kernel) f g : k <| icache ::= f |> <| ptable ::= g |> = k <| ptable ::= g |> <| icache ::= f |>.
Proof. by destruct k. Qed.
Lemma ptable_ptable (k : kernel) f g p : k <| ptable ::= alter f p |> <| ptable ::= alter g p |> = k <| ptable ::= alter (λ r, g (f r)) p |>.
Proof. destruct k. unfold upd. simpl. by rewrite alter_alter. Qed.
Lemma mem_kmem (k : kernel) f m : k <| kmem ::= f |> <| mem ::= m |> = k <| mem := m (mem k) |> <| kmem ::= f |>.
Proof. by destruct k. Qed.
Lemma alloc_shape (k : kernel) g h n m f p : k <| ptable ::= alter g p |> <| nextpid := n |> <| kmem ::= f |> <| ptable ::= alter h p |> <| mem ::= m |> =
  k <| ptable ::= alter (λ r, h (g r)) p |> <| nextpid := n |> <| mem := m (mem k) |> <| kmem ::= f |>.
Proof. by rewrite ptable_kmem, ptable_nextpid, ptable_ptable, mem_kmem. Qed.
Lemma kwp_allocproc_pool Q k x L O p : pool k (x :: L) O → Lptable ∉ held k → Lticks ∉ held k → first_unused (ptable k) = Some p →
  0 ≤ l_trapret (image k) < 4294967296 → 0 ≤ l_forkret (image k) < 4294967296 →
  (∀ k', pool k' L (x :: O) → eq_off [x] (mem k) (mem k') → ready_stack (image k) (mem k') x →
     same_rest (k <| ptable ::= alter (λ r, stack_slot x (alloc_slot (nextpid k) (ticks k) r)) p |> <| nextpid := i32 (nextpid k + 1) |>) k' → Q (Some p) k') →
  kwp allocproc Q Y k.
Proof using Type*.
  intros P Hl Ht Hp Htr Hfr HQ. pose proof P as [Hf Hr Hb Him Ho Hn]. pose proof Hr as ([Hfl _] & _ & HF). apply Forall_cons in HF as [Hx _].
  pose proof (page_nonzero _ _ Hx) as Hne. destruct (stack_init_mem (image k) x (mem k)) as (Hout & H1 & H2 & _); [done..|].
  assert (kalloc_st (alloc_st p k) = (alloc_st p k) <| kmem ::= λ km, km <| freelist := ld32 (mem k) x |> |>) as Hka.
  { unfold kalloc_st. change (kmem (alloc_st p k)) with (kmem k). rewrite Hfl. unfold istrue. by rewrite (proj2 (Z.eqb_neq x 0)). }
  assert (pool (kalloc_st (alloc_st p k)) L (x :: O)) as P1.
  { destruct (kmem_rep_kalloc _ _ Hr) as [_ Hr1]. split; try (by rewrite Hka).
    - rewrite Hka. unfold kalloc_st in Hr1. rewrite Hfl in Hr1. unfold istrue in Hr1. by rewrite (proj2 (Z.eqb_neq x 0)) in Hr1.
    - rewrite Hka. by constructor.
    - by rewrite <- app_comm_cons, Permutation_middle. }
  apply kwp_allocproc; [done|done|done|done|]. rewrite Hp, Hfl. cbv zeta. rewrite (proj2 (Z.eqb_neq x 0)) by done.
  assert (eq_off [x] (mem k) (stack_init (image k) x (mem k))) as M.
  { intros a Ha. specialize (Ha x ltac:(set_solver)). apply Hout. lia. }
  rewrite Hka in P1 |- *. apply HQ.
  - apply (pool_ext ((alloc_st p k) <| kmem ::= λ km, km <| freelist := ld32 (mem k) x |> |> <| mem ::= stack_init (image k) x |>)); [|done..].
    apply pool_write; [exact P1| |]; [eapply eq_off_mono; [|exact M]; intros q; set_solver|].
    unfold stack_init. repeat apply bytes_ok_st8. apply bytes_ok_memset; [done|]. by repeat apply bytes_ok_st8.
  - exact M.
  - by split.
  - exists (stack_init (image k) x (mem k)), (ld32 (mem k) x). apply alloc_shape.
Qed.

(** The root directory is the first inode in the cache. *)
Definition root_slot (ip : inode) : inode := ip <| idev := ROOTDEV |> <| inum := ROOTINO |> <| iref := 1 |> <| ivalid := 0 |>.
Lemma kwp_namei_root `{!Patience, !DiskDriver, !DevSw} (Q : option nat → kernel → Prop) k : icache k = replicate NINODE inode0 → cpu_wf k → Licache ∉ held k →
  Q (Some 0%nat) (k <| icache ::= alter root_slot 0%nat |>) → kwp (namei (lit "/")) Q Y k.
Proof using Type*.
  intros Hi Hwf Hl HQ. unfold namei, namex. rewrite bool_decide_true by done. change (length (lit "/")) with 1%nat.
  kstep. kstep. unfold iget. kstep. kstep. kstep. kstep. simpl icache. rewrite Hi. change (iget_find (replicate NINODE inode0) ROOTDEV ROOTINO) with (Some (inr 0%nat) : option (nat + nat)).
  cbv iota. unfold Fs.iset. do 11 kstep.
  change (namex_loop 2 0 (lit "/") (replicate DIRSIZ 0) false) with (mret (Some 0%nat, replicate DIRSIZ 0) : K (option nat * list Z)). kstep. kstep.
  eapply eq_rect; [exact HQ|]. unfold upd. simpl. by rewrite !alter_alter.
Qed.

(** The frame is written. *)
Lemma kwp_frame t C (Q : unit → kernel → Prop) k : kwp C Q Y (k <| mem ::= frame_init t |>) →
  kwp (kmemset t 0 TF_SIZE;; wr16 (t + tf_cs) user_cs;; wr16 (t + tf_ds) user_ds;; ds ← gets (λ k, ld16 (mem k) (t + tf_ds));
       wr16 (t + tf_es) ds;; wr16 (t + tf_ss) ds;; wr32 (t + tf_eflags) FL_IF;; wr32 (t + tf_esp) PGSIZE;; wr32 (t + tf_eip) 0;; C) Q Y k.
Proof using Type*.
  intros HQ. unfold kmemset, wr16, wr32. do 6 kstep. rewrite !mem_mem. do 12 kstep. rewrite !mem_mem. exact HQ.
Qed.

(** What [userinit] has made when the program is in memory: a stack [x] and the
    address space [dir], from the free pages [L]. *)
Record space_ready (k : kernel) (L X : list Z) (x dir y : Z) (T : gmap Z Z) (L' : list Z) (k' : kernel) : Prop := {
  sr_pool : pool k' L' (x :: own dir T (one_page y) ++ X);
  sr_all : x :: own dir T (one_page y) ++ L' ≡ₚ L;
  sr_pt : pt_rep (mem k') (image k') dir T;
  sr_user : urep (mem k') T (one_page y);
  sr_kernel : ∀ w, 524288 ≤ w → pte (mem k') T w = default 0 (kpte (kmap (image k)) w);
  sr_code : holds_code (mem k') y (l_initcode (image k));
  sr_frame : frame (mkpte (V2P y) 6) = y;
  sr_stack : ready_stack (image k) (mem k') x;
  sr_off : eq_off L (mem k) (mem k') }.

Lemma kwp_userinit_space (C : nat → K unit) (Q : unit → kernel → Prop) k L X : pool k L X → (3000 < length L)%nat → held k = [] → ptable k = replicate NPROC proc0 → nextpid k = 1 → ticks k = 0 →
  0 ≤ l_trapret (image k) < 4294967296 → 0 ≤ l_forkret (image k) < 4294967296 → Z.of_nat (length (l_initcode (image k))) < 4096 →
  (∀ x dir y T L' k', space_ready k L X x dir y T L' k' →
     same_rest (k <| ptable ::= alter (λ r, (stack_slot x (alloc_slot 1 0 r)) <| pgdir := dir |>) 0%nat |> <| nextpid := 2 |> <| initproc := Some 0%nat |>) k' →
     kwp (C 0%nat) Q Y k') →
  kwp (o ← allocproc; p ← deref o; modify (λ k, k <| initproc := Some p |>);; pg ← setupkvm; pset p (λ r, r <| pgdir := pg |>);;
       (if pg =? 0 then panic "userinit: out of memory?" else skip);; img ← gets image; inituvm pg (l_initcode img);; C p) Q Y k.
Proof using Type*.
  intros P HL Hh Hpt Hnp Htk Htr Hfr Hin HQ. destruct L as [|x L]; [simpl in HL; lia|]. simpl in HL.
  apply kwp_bind; [done|]. eapply (kwp_allocproc_pool _ k x L X 0); [done|by rewrite Hh; apply not_elem_of_nil..|by rewrite Hpt|done|done|].
  intros k1 P1 M1 RS1 S1. rewrite Hnp, Htk in S1. cbn [deref]. kstep. kstep. kstep. kstep.
  set (k1' := k1 <| initproc := Some 0%nat |>). assert (pool k1' L (x :: X)) as P1' by by eapply pool_ext; [exact P1|apply P1|..].
  pose proof (same_rest_data (λ k, k <| initproc := Some 0%nat |>) _ _ ltac:(by intros []) S1) as S1'. cbv beta in S1'. fold k1' in S1'.
  change (mem k1) with (mem k1') in M1, RS1. clearbody k1'. clear P1 S1 k1.
  apply kwp_bind; [done|]. eapply kwp_setupkvm; [done|exact P1'|intros; lia|]. intros dir T k2 L2 P2 R2 RU2 HL2 HK2 M2 S2.
  pose proof (same_rest_trans _ _ _ S1' S2) as S12. pose proof (page_nonzero _ _ (proj1 R2)) as Hne. pose proof (same_rest_image _ _ S12) as EI. simpl in EI.
  rewrite (same_rest_image _ _ S1') in HK2. change (image (_ <| initproc := _ |>)) with (image k) in HK2.
  unfold pset. kstep. kstep. rewrite (proj2 (Z.eqb_neq _ _)) by done. kstep. kstep. kstep. kstep. set (k2' := k2 <| ptable ::= _ |>).
  assert (pool k2' L2 (own dir T ∅ ++ x :: X)) as P2' by by eapply pool_ext; [exact P2|apply P2|..].
  pose proof (same_rest_data (λ k, k <| ptable ::= alter (λ r, r <| pgdir := dir |>) 0%nat |>) _ _ ltac:(by intros []) S12) as S12'. cbv beta in S12'. fold k2' in S12'.
  assert (length L = length (own dir T ∅) + length L2)%nat as EL by by rewrite <- HL2, length_app.
  pose proof (pt_rep_size _ _ _ _ R2) as Hsz. unfold own in EL. rewrite frames_empty, app_nil_r in EL. simpl in EL.
  apply kwp_bind; [done|]. rewrite EI. eapply kwp_inituvm; [done|exact P2'|exact R2|exact RU2|done|lia|].
  intros y k3 L3 T3 P3 R3 RU3 HL3 HK3 HC3 EY3 M3 S3. pose proof (same_rest_trans _ _ _ S12' S3) as S.
  rewrite ptable_initproc, ptable_nextpid, ptable_ptable in S. apply (HQ x dir y T3 L3); [|exact S].
  assert (eq_off L (mem k1') (mem k3)) as M13.
  { eapply eq_off_trans; [done| |exact M2|exact M3]. intros p. by rewrite HL2. }
  assert (eq_page x (mem k1') (mem k3)) as EX by (eapply (pool_eq_free k1' L (x :: X)); [exact P1'|exact M13|by left]).
  split.
  - eapply pool_perm; [|exact P3]. solve_Permutation.
  - by rewrite HL3, HL2.
  - exact R3.
  - exact RU3.
  - intros w Hw. rewrite HK3 by lia. apply HK2. lia.
  - exact HC3.
  - exact EY3.
  - destruct RS1 as [RS1 RS2]. split; (erewrite (ld32_page x); [|exact EX|lia|lia]); done.
  - eapply eq_off_trans; [| |exact M1|exact M13]; intros p; [intros ->%list_elem_of_singleton; by left|by right].
Qed.

(** The trap frame is in the stack page, above the context. *)
Lemma space_ready_frame k L X x dir y T L' k' : space_ready k L X x dir y T L' k' → let t := x + 4096 - 76 in
  space_ready k L X x dir y T L' (k' <| mem ::= frame_init t |>) ∧ first_frame (frame_init t (mem k')) t.
Proof.
  intros [P EL R RU HK HC EY [RS1 RS2] M] t. destruct (frame_init_ok t (mem k')) as [HF HO]. split; [|done].
  assert (eq_off [x] (mem k') (frame_init t (mem k'))) as Mx.
  { intros a Ha. specialize (Ha x ltac:(set_solver)). apply HO. lia. }
  assert (∀ p, p ∈ own dir T (one_page y) ++ X → eq_page p (mem k') (frame_init t (mem k'))) as HE.
  { intros p Hp. by eapply (pool_eq_page k' L' [x]); [exact P|exact Mx|]. }
  assert (∀ w, pte (frame_init t (mem k')) T w = pte (mem k') T w) as HT by (intros w; apply pte_same; intros q Hq; apply HE; revert Hq; in_pages).
  assert (y ∈ own dir T (one_page y)) as Hy.
  { apply elem_of_cons. right. apply elem_of_app. right. apply elem_of_frames. exists 0, (mkpte (V2P y) 6). rewrite lookup_singleton_eq. by split. }
  destruct (space_same (mem k') (frame_init t (mem k')) (image k') dir T (one_page y)) as [R' RU']; [|done|done|].
  { intros p Hp. apply HE. revert Hp. in_pages. }
  split; try done.
  - apply pool_write; [done| |apply frame_init_bytes, P]. eapply eq_off_mono; [|exact Mx]. intros p ->%list_elem_of_singleton. by left.
  - intros w Hw. simpl. rewrite HT. by apply HK.
  - intros i Hi. simpl. rewrite (HE y) by (lia || apply elem_of_app; by left). by apply HC.
  - split; simpl; [rewrite <- RS1|rewrite <- RS2]; apply ld32_same; intros a Ha; apply HO; unfold t; lia.
  - simpl. eapply eq_off_trans; [done| |exact M|exact Mx]. intros p ->%list_elem_of_singleton. rewrite <- EL. by left.
Qed.
Lemma space_ready_ext k L X x dir y T L' k1 k2 : space_ready k L X x dir y T L' k1 → kmem_free k2 → mem k2 = mem k1 → kmem k2 = kmem k1 → image k2 = image k1 →
  space_ready k L X x dir y T L' k2.
Proof. intros [P EL R RU HK HC EY RS M] Hf Em Ek Ei. split; rewrite ?Em, ?Ei; try done. eapply pool_ext; [exact P|done|done|by rewrite Ek|done]. Qed.

(** The slot of the first process. *)
Definition first_proc (x dir : Z) (r : proc) : proc :=
  (stack_slot x (alloc_slot 1 0 r)) <| pgdir := dir |> <| sz := PGSIZE |> <| name ::= λ d, safestrcpy_arr d (lit "initcode") 16 |>
    <| cwd := Some 0%nat |> <| state := RUNNABLE |>.

Lemma kwp_userinit `{!Patience, !DiskDriver, !DevSw} (Q : unit → kernel → Prop) k L X : pool k L X → (3000 < length L)%nat → held k = [] → ptable k = replicate NPROC proc0 →
  nextpid k = 1 → ticks k = 0 → icache k = replicate NINODE inode0 →
  0 ≤ l_trapret (image k) < 4294967296 → 0 ≤ l_forkret (image k) < 4294967296 → Z.of_nat (length (l_initcode (image k))) < 4096 →
  (∀ x dir y T L' k', space_ready k L X x dir y T L' k' → first_frame (mem k') (x + 4096 - 76) →
     same_rest (k <| ptable ::= alter (first_proc x dir) 0%nat |> <| nextpid := 2 |> <| initproc := Some 0%nat |> <| icache ::= alter root_slot 0%nat |>) k' → Q tt k') →
  kwp userinit Q Y k.
Proof using Type*.
  intros P HL Hh Hpt Hnp Htk Hic Htr Hfr Hin HQ. pose proof (pool_free _ _ _ P) as [Hwf _]. unfold userinit.
  eapply (kwp_userinit_space _ _ k L X); [done..|]. intros x dir y T L' k1 R1 S1. cbv beta.
  unfold pset, pget. kstep. kstep. set (k2 := k1 <| ptable ::= _ |>).
  assert (space_ready k L X x dir y T L' k2) as R2 by by eapply space_ready_ext; [exact R1|apply R1|..].
  pose proof (same_rest_data (λ k, k <| ptable ::= alter (λ r, r <| sz := PGSIZE |>) 0%nat |>) _ _ ltac:(by intros []) S1) as S2. cbv beta in S2. fold k2 in S2.
  rewrite ptable_initproc, ptable_nextpid, ptable_ptable in S2. clearbody k2.
  assert (tf (ptable k2 !!! 0%nat) = x + 4096 - 76) as Etf by (destruct S2 as (m & f & ->); simpl; by rewrite Hpt).
  kstep. kstep. cbv zeta. rewrite Etf. eapply kwp_frame. destruct (space_ready_frame _ _ _ _ _ _ _ _ _ R2) as [R3 F3].
  set (k3 := k2 <| mem ::= frame_init (x + 4096 - 76) |>) in *. change (frame_init (x + 4096 - 76) (mem k2)) with (mem k3) in F3.
  pose proof (same_rest_trans _ _ _ S2 (same_rest_mem _ _ : same_rest k2 k3)) as S3. clearbody k3.
  assert (held k3 = [] ∧ icache k3 = replicate NINODE inode0) as [Hh3 Hi3] by (destruct S3 as (m & f & ->); done).
  pose proof (pool_free _ _ _ (sr_pool _ _ _ _ _ _ _ _ _ R3)) as [Hwf3 Hk3]. kstep. kstep.
  kstep. apply kwp_namei_root; [done|done|simpl; rewrite Hh3; apply not_elem_of_nil|]. do 2 kstep. rewrite ptable_icache, ptable_ptable.
  assert (Lptable ∉ held k3) as Hl by (rewrite Hh3; apply not_elem_of_nil). do 5 kstep. rewrite ptable_icache, ptable_ptable.
  match goal with |- Q tt ?k => set (k4 := k) end.
  assert (space_ready k L X x dir y T L' k4) as R4 by by eapply space_ready_ext; [exact R3|apply R3|..].
  apply (HQ x dir y T L'); [exact R4|exact F3|]. pose proof (same_rest_data (λ k, k <| ptable ::= alter (λ r, r <| name ::= λ d, safestrcpy_arr d (lit "initcode") 16 |>
    <| cwd := Some 0%nat |> <| state := RUNNABLE |>) 0%nat |> <| icache ::= alter root_slot 0%nat |>) _ _ ltac:(by intros []) S3) as S4.
  cbv beta in S4. by rewrite ptable_initproc, ptable_nextpid, ptable_ptable in S4.
Qed.
End userinit.

(** ** main *)

(** A kernel [main] can start: it is linked above 1 MB with its data on pages of its
    own, leaves half of the first 4 MB free, and [initcode] fits a page. *)
Record bootable (img : linker) : Prop := {
  bo_image : image_ok img;
  bo_end : l_end img ≤ KERNBASE + 0x1FE000;
  bo_trapret : 0 ≤ l_trapret img < 4294967296;
  bo_forkret : 0 ≤ l_forkret img < 4294967296;
  bo_initcode : Z.of_nat (length (l_initcode img)) < 4096 }.

(** The pages of physical memory behind the kernel: those [kinit1] frees, below 4 MB,
    and those [kinit2] frees. *)
Definition FIRST4 : Z := KERNBASE + 4 * 1024 * 1024.
Definition low_pages (img : linker) : list Z := pages_from (PGROUNDUP (l_end img)) (Z.to_nat ((FIRST4 - PGROUNDUP (l_end img)) / 4096)).
Definition high_pages : list Z := pages_from FIRST4 (Z.to_nat ((KERNBASE + PHYSTOP - FIRST4) / 4096)).

Section boot.
Context (img : linker) (HB : bootable img).

Lemma end_page : let p := PGROUNDUP (l_end img) in p mod 4096 = 0 ∧ l_end img ≤ p ∧ KERNBASE ≤ p ≤ KERNBASE + 0x1FE000.
Proof using HB.
  destruct HB as [(H1 & H2 & H3 & H4) H5 _ _ _]. intros p. unfold KERNLINK, EXTMEM, KERNBASE, PHYSTOP in *.
  assert (p = l_end img + 4095 - (l_end img + 4095) mod 4096) as -> by (apply PGROUNDUP_spec; lia).
  split_and!; Z.div_mod_to_equations; lia.
Qed.
Lemma pages_from_ok p n : p mod 4096 = 0 → l_end img ≤ p → KERNBASE ≤ p → p + 4096 * Z.of_nat n ≤ KERNBASE + PHYSTOP → Forall (page_ok img) (pages_from p n).
Proof using Type.
  intros Hm He Hk Hp. apply Forall_forall. intros x (i & -> & Hi%elem_of_seq)%list_elem_of_fmap. split; [|lia].
  rewrite Z.add_mod, Hm, Z.mul_comm, Z.mod_mul by lia. done.
Qed.
Lemma pages_from_nodup p n : NoDup (pages_from p n).
Proof using Type. apply NoDup_fmap_2; [|apply NoDup_seq]. intros i j. lia. Qed.

Lemma pages_from_length p n : length (pages_from p n) = n.
Proof using Type. unfold pages_from. by rewrite length_fmap, length_seq. Qed.

Lemma low_count : Z.of_nat (length (low_pages img)) = (FIRST4 - PGROUNDUP (l_end img)) / 4096 ∧ (FIRST4 - PGROUNDUP (l_end img)) mod 4096 = 0.
Proof using HB.
  destruct end_page as (Hm & He & Hk). unfold low_pages. rewrite pages_from_length. unfold FIRST4, KERNBASE in *.
  split; [apply Z2Nat.id, Z.div_pos; lia|]. Z.div_mod_to_equations. lia.
Qed.
Lemma high_count : Z.of_nat (length high_pages) = 56320.
Proof using Type. unfold high_pages. rewrite pages_from_length. apply Z2Nat.id. done. Qed.

Lemma high_eq : high_pages = pages_from FIRST4 (length high_pages).
Proof using Type. unfold high_pages at 2. by rewrite pages_from_length. Qed.
Lemma low_eq : low_pages img = pages_from (PGROUNDUP (l_end img)) (length (low_pages img)).
Proof using Type. unfold low_pages at 2. by rewrite pages_from_length. Qed.

Lemma all_pages : Forall (page_ok img) (low_pages img ++ high_pages) ∧ NoDup (low_pages img ++ high_pages).
Proof using HB.
  destruct end_page as (Hm & He & Hk). destruct low_count as [Hc Hd]. pose proof high_count as Hh.
  unfold low_pages, high_pages in *. rewrite pages_from_length in Hc, Hh. set (p := PGROUNDUP (l_end img)) in *.
  set (n1 := Z.to_nat ((FIRST4 - p) / 4096)) in *. set (n2 := Z.to_nat ((KERNBASE + PHYSTOP - FIRST4) / 4096)) in *.
  assert (FIRST4 = p + 4096 * Z.of_nat n1) as EF by (Z.div_mod_to_equations; lia).
  assert (FIRST4 mod 4096 = 0) as HF by done. assert (FIRST4 = KERNBASE + 0x400000) as E4 by done. clearbody n1 n2. generalize dependent FIRST4. intros F4. intros. split.
  - apply Forall_app. split; apply pages_from_ok; try (exact Hm || exact HF); unfold PHYSTOP, KERNBASE in *; lia.
  - apply NoDup_app. split_and!; [apply pages_from_nodup| |apply pages_from_nodup].
    intros x (i & -> & Hi%elem_of_seq)%list_elem_of_fmap (j & E & _)%list_elem_of_fmap. lia.
Qed.

#[local] Opaque high_pages low_pages FIRST4.
(** The machine when the boot loader jumps to the kernel, with the sectors [d] on the
    disk and the disk controller [a]. *)
Definition power_on (d : list (list Z)) (a : ata) : kernel := (boot_state img d) <| kide := mkIde None 0 a |>.

Lemma power_on_pool d a : pool (power_on d a) [] (low_pages img ++ high_pages).
Proof using HB.
  destruct all_pages as [HF HD]. split.
  - split; [|done]. split; [done|]. split; [apply NoDup_nil_2|done].
  - split; [done|]. split; [apply NoDup_nil_2|done].
  - intros b. change (ld8 (mem (power_on d a)) b) with 0. lia.
  - apply HB.
  - exact HF.
  - by rewrite app_nil_r.
Qed.

Context (Y : protocol kernel) `{!Mono Y}.
(** The memory below 4 MB, and the kernel's page table. *)
Lemma kwp_boot_memory (C : K unit) (Q : unit → kernel → Prop) d a :
  (∀ dir T L k, pool k L (own dir T ∅ ++ high_pages) → pt_rep (mem k) img dir T → own dir T ∅ ++ L ≡ₚ low_pages img →
     (∀ w, 0 ≤ w → pte (mem k) T w = default 0 (kpte (kmap img) w)) →
     same_rest ((power_on d a) <| kpgdir := dir |> <| cr3 := V2P dir |>) k → kwp C Q Y k) →
  kwp (kinit1 (l_end img) (P2V (4 * 1024 * 1024));; kvmalloc;; C) Q Y (power_on d a).
Proof using Type*.
  intros HQ. pose proof (power_on_pool d a) as P0. destruct low_count as [Hc Hd]. destruct end_page as (Hm & He & Hk).
  unfold kinit1. kstep. kstep. kstep. change ((power_on d a) <| kmem ::= λ km, km <| use_lock := false |> |>) with (power_on d a).
  eapply (kwp_freerange _ (length (low_pages img)) _ (PGROUNDUP (l_end img)) _ [] high_pages); [done| | |].
  - change (P2V (4 * 1024 * 1024)) with FIRST4. Z.div_mod_to_equations. lia.
  - rewrite <- low_eq. exact P0.
  - rewrite <- low_eq. intros k1 P1 _ S1. rewrite app_nil_r in P1. kstep. unfold kvmalloc, switchkvm. kstep.
    assert (514 ≤ length (reverse (low_pages img)))%nat as Hlen.
    { rewrite length_reverse. change FIRST4 with (KERNBASE + 0x400000) in *. unfold KERNBASE in *. Z.div_mod_to_equations. lia. }
    eapply kwp_setupkvm; [done|exact P1|intros; lia|]. intros dir T k2 L2 P2 R2 _ EL HK _ S2.
    pose proof (same_rest_trans _ _ _ S1 S2) as S12. pose proof (same_rest_image _ _ S1) as EI1. pose proof (same_rest_image _ _ S12) as EI2. do 5 kstep.
    apply (HQ dir T L2).
    + by eapply pool_ext; [exact P2|apply P2|..].
    + change (image (power_on d a)) with img in EI2. rewrite EI2 in R2. exact R2.
    + by rewrite EL, reverse_Permutation.
    + change (image (power_on d a)) with img in EI1. rewrite EI1 in HK. exact HK.
    + exact (same_rest_data (λ k, k <| kpgdir := dir |> <| cr3 := V2P dir |>) _ _ ltac:(by intros []) S12).
Qed.

(** The console, the tables and the disk. *)
Definition hello (s : consst) : consst := s <| locking := true |> <| uart_out ::= λ o, o ++ lit ("xv6..." +:+ nl) |>.
Definition devices_up (i : idest) (k : kernel) : kernel :=
  k <| kcons ::= hello |> <| last_completion_time := 0 |> <| perf_data ::= fmap (λ d, d <| pf_valid := 0 |>) |> <| bufs := fresh_bufs |> <| kide := i |>.
Lemma kwp_boot_devices `{!DiskDriver, !DiskStarts _} (C : K unit) (Q : unit → kernel → Prop) k : bufs k = replicate (S NBUF) buf0 → switched_on k →
  (∀ i, kwp C Q Y (devices_up i k)) → kwp (consoleinit;; uartinit;; pinit;; binit;; ideinit;; C) Q Y k.
Proof using Mono0.
  intros Hb Hs HQ. unfold consoleinit, pinit, cset. kstep. kstep. kstep. apply kwp_uartinit; [done|]. rewrite kcons_kcons.
  kstep. kstep. kstep. kstep. kstep. apply kwp_binit; [done|done|]. kstep. apply kwp_ideinit; [done|done|]. exact HQ.
Qed.

Definition process_up (x dir : Z) (s : consst) (k : kernel) : kernel :=
  k <| kmem ::= λ km, km <| use_lock := true |> |> <| ptable ::= alter (first_proc x dir) 0%nat |> <| nextpid := 2 |> <| initproc := Some 0%nat |>
    <| icache ::= alter root_slot 0%nat |> <| kcons := s |>.
(** The rest of memory, the first process, and the last message. *)
Lemma kwp_boot_process `{!Patience, !DiskDriver, !DevSw} (Q : unit → kernel → Prop) k L X : pool k L (X ++ high_pages) → image k = img → held k = [] →
  ptable k = replicate NPROC proc0 → nextpid k = 1 → ticks k = 0 → icache k = replicate NINODE inode0 → screen_ok (kcons k) →
  (∀ x dir y T L' s k', space_ready k (reverse high_pages ++ L) X x dir y T L' k' → first_frame (mem k') (x + 4096 - 76) →
     uart_out s = uart_out (kcons k) ++ lit ("cpu0: starting 0" +:+ nl) → same_rest (process_up x dir s k) k' → Q tt k') →
  kwp (kinit2 (P2V (4 * 1024 * 1024)) (P2V PHYSTOP);; userinit;; mpmain 0) Q Y k.
Proof using Type*.
  intros P EI Hh Hpt Hnp Htk Hic Hsc HQ. unfold kinit2. kstep. kstep.
  eapply (kwp_freerange _ (length high_pages) _ FIRST4 _ L X); [done| | |].
  { rewrite high_count. done. }
  { rewrite <- high_eq. eapply pool_perm; [|exact P]. solve_Permutation. }
  rewrite <- high_eq. intros k1 P1 M1 S1. kstep. kstep.
  set (k2 := k1 <| kmem ::= λ km, km <| use_lock := true |> |>).
  pose proof (same_rest_data (λ k, k <| kmem ::= λ km, km <| use_lock := true |> |>) _ _ ltac:(by intros []) S1) as S2. cbv beta in S2. fold k2 in S2.
  assert (held k2 = []) as Hh2 by (destruct S1 as (m & f & E); unfold k2; by rewrite E).
  assert (pool k2 (reverse high_pages ++ L) X) as P2.
  { eapply pool_ext; [exact P1| |done..]. split; [apply (pool_free _ _ _ P1)|]. intros _. rewrite Hh2. apply not_elem_of_nil. }
  assert (image k2 = img) as EI2 by (rewrite (same_rest_image _ _ S2); exact EI). change (mem k1) with (mem k2) in M1. clearbody k2.
  eapply (kwp_userinit _ _ k2 (reverse high_pages ++ L) X); [done| |done|by destruct S2 as (m & f & ->)..|by rewrite EI2; apply HB|by rewrite EI2; apply HB|by rewrite EI2; apply HB|].
  { rewrite length_app, length_reverse. pose proof high_count. lia. }
  intros x dir y T L' k3 R3 F3 S3.
  pose proof (same_rest_data (λ k, k <| ptable ::= alter (first_proc x dir) 0%nat |> <| nextpid := 2 |> <| initproc := Some 0%nat |> <| icache ::= alter root_slot 0%nat |>) _ _
    ltac:(by intros []) S2) as S23. cbv beta in S23. pose proof (same_rest_trans _ _ _ S23 S3) as S.
  assert (kcons k3 = kcons k ∧ held k3 = []) as [EC Hh3].
  { destruct S as (m & f & E). rewrite E. by split. }
  pose proof (pool_free _ _ _ (sr_pool _ _ _ _ _ _ _ _ _ R3)) as [Hwf3 Hk3].
  unfold mpmain. apply kwp_cprintf; [done|by rewrite EC|done|rewrite Hh3; apply not_elem_of_nil|apply (bool_decide_unpack _); by vm_compute|].
  intros s Hs Hu. apply (HQ x dir y T L' s); [|exact F3| |].
  - destruct R3 as [A1 A2 A3 A4 A5 A6 A7 A8 A9]. rewrite EI2 in A5, A6, A8. split; rewrite ?EI; try done.
    + by eapply pool_ext; [exact A1|..].
    + eapply eq_off_trans; [| |exact M1|exact A9]; [|done]. intros q Hq. apply elem_of_app. left. by apply elem_of_reverse.
  - by rewrite Hu, EC.
  - exact (same_rest_data (λ k, k <| kcons := s |>) _ _ ltac:(by intros []) S).
Qed.
End boot.
#[local] Opaque high_pages low_pages FIRST4.

(** The kernel is up: the stack of the first process is page [x], its address space
    [dir] with tables [T] and its program in page [y]; the kernel's own address space
    has the tables [Tk], and the pages [L] are free. *)
Record booted (img : linker) (x y dir : Z) (T Tk : gmap Z Z) (L : list Z) (k : kernel) : Prop := {
  bd_ready : sched_ready k;
  bd_held : held k = [];
  bd_table : ptable k = first_proc x dir proc0 :: replicate (NPROC - 1) proc0;
  bd_init : initproc k = Some 0%nat ∧ nextpid k = 2;
  bd_pool : pool k L (x :: own dir T (one_page y) ++ own (kpgdir k) Tk ∅);
  bd_pages : (x :: own dir T (one_page y) ++ own (kpgdir k) Tk ∅) ++ L ≡ₚ low_pages img ++ high_pages;
  bd_kernel : pt_rep (mem k) img (kpgdir k) Tk ∧ (∀ w, 0 ≤ w → pte (mem k) Tk w = default 0 (kpte (kmap img) w)) ∧ cr3 k = V2P (kpgdir k);
  bd_space : pt_rep (mem k) img dir T ∧ urep (mem k) T (one_page y) ∧ ∀ w, 524288 ≤ w → pte (mem k) T w = default 0 (kpte (kmap img) w);
  bd_code : holds_code (mem k) y (l_initcode img) ∧ frame (mkpte (V2P y) 6) = y;
  bd_stack : ready_stack img (mem k) x ∧ first_frame (mem k) (x + 4096 - 76);
  bd_root : icache k = root_slot inode0 :: replicate (NINODE - 1) inode0;
  bd_bufs : bufs k = fresh_bufs;
  bd_uart : uart_out (kcons k) = lit ("xv6..." +:+ nl +:+ "cpu0: starting 0" +:+ nl) }.

Lemma booted_eqv img x y dir T Tk L k k' : k' ≃ k → booted img x y dir T Tk L k → booted img x y dir T Tk L k'.
Proof.
  intros H [B1 B2 B3 B4 B5 B6 B7 B8 B9 B10 B11 B12 B13]. pose proof (pool_eqv _ _ _ _ H B5) as B5'. keqv_rd H.
  split; unfold sched_ready; rewrite ?Hheld, ?Hpt, ?Hip, ?Hnp, ?Hkpg, ?Hmem, ?Hcr3, ?Hic, ?Hbufs, ?Hcons, ?Hcproc; done.
Qed.

Lemma first_ready x dir k : ptable k = first_proc x dir proc0 :: replicate (NPROC - 1) proc0 → nextpid k = 2 → cproc (kcpu k) = None → sched_ready k.
Proof.
  intros Hp Hn Hc. unfold sched_ready. rewrite Hp, Hn. split; [|done].
  assert (∀ i r, (first_proc x dir proc0 :: replicate (NPROC - 1) proc0) !! i = Some r → (i = 0%nat ∧ r = first_proc x dir proc0) ∨ r = proc0) as Hl.
  { intros [|i] r Hi; [left; by injection Hi as <-|right]. apply (lookup_replicate (NPROC - 1) proc0 r i) in Hi. by destruct Hi. }
  split; [done|]. split; [lia|]. split_and!.
  - apply Forall_lookup. intros i r [[-> ->]| ->]%Hl; (split; [simpl; lia|]); split; try done. by intros [H _].
  - intros i j r r' [[-> ->]| ->]%Hl [[-> ->]| ->]%Hl E Hne; done.
  - intros i r [[-> ->]| ->]%Hl; done.
Qed.

Lemma kwp_main `{!Patience, !DiskDriver, !DevSw, !DiskStarts _} (Y : protocol kernel) `{!Mono Y} img d a (Q : unit → kernel → Prop) :
  bootable img → d ≠ [] → a_disk0 a ≠ [] → a_cmd a = None →
  (∀ x y dir T Tk L k, booted img x y dir T Tk L k → Q tt k) → kwp main Q Y (power_on img d a).
Proof.
  intros HB Hd Hd0 Hc HQ. unfold main. kstep. kstep. eapply (kwp_boot_memory img HB Y).
  intros kdir Tk L k1 P1 R1 EL1 HK1 S1. set (out := (power_on img d a) <| kpgdir := kdir |> <| cr3 := V2P kdir |>) in *.
  assert (image k1 = img) as EI1 by (destruct S1 as (m & f & ->); done).
  apply kwp_boot_devices; [done|done|by destruct S1 as (m & f & ->)|by destruct S1 as (m & f & ->)|]. intros i.
  pose proof (same_rest_data (devices_up i) _ _ ltac:(by intros []) S1) as S2. set (k2 := devices_up i k1) in *.
  assert (pool k2 L (own kdir Tk ∅ ++ high_pages)) as P2 by by eapply pool_ext; [exact P1|apply P1|..].
  change (mem k1) with (mem k2) in R1, HK1. change (image k1) with (image k2) in EI1. clearbody k2.
  eapply (kwp_boot_process img HB Y _ k2 L (own kdir Tk ∅)); [exact P2|exact EI1|by destruct S2 as (m & f & ->)..|].
  intros x dir y T L' s k3 [A1 A2 A3 A4 A5 A6 A7 A8 A9] F3 Hu S3. apply (HQ x y dir T Tk L').
  pose proof (same_rest_trans _ _ _ (same_rest_data (process_up x dir s) _ _ ltac:(by intros []) S2) S3) as S. rewrite EI1 in A5, A6, A8.
  assert (ptable k3 = first_proc x dir proc0 :: replicate (NPROC - 1) proc0 ∧ nextpid k3 = 2 ∧ initproc k3 = Some 0%nat ∧ cproc (kcpu k3) = None ∧ held k3 = [] ∧
    kpgdir k3 = kdir ∧ cr3 k3 = V2P kdir ∧ icache k3 = root_slot inode0 :: replicate (NINODE - 1) inode0 ∧ bufs k3 = fresh_bufs ∧ kcons k3 = s ∧ image k3 = img) as
    (E1 & E2 & E3 & E4 & E5 & E6 & E7 & E8 & E9 & E10 & E11).
  { destruct S as (m & f & ->). split_and!; reflexivity. }
  rewrite E11 in A3. assert (∀ p, p ∈ kdir :: vals Tk → eq_page p (mem k2) (mem k3)) as HE.
  { intros p Hp. eapply (eq_off_page img); [| | |exact A9].
    - rewrite <- EI1. pose proof (pool_pages _ _ _ P2) as HF. rewrite !Forall_app in HF. rewrite Forall_app, Forall_reverse. tauto.
    - rewrite <- EI1. apply (pool_page _ _ _ _ P2). revert Hp. in_pages.
    - pose proof (pool_dup _ _ _ P2) as HD. rewrite <- app_assoc in HD. apply NoDup_app in HD as (_ & HD & _). intros Hin.
      apply (HD p); [revert Hp; in_pages|]. revert Hin. rewrite !elem_of_app, elem_of_reverse. done. }
  split; rewrite ?E6; try done.
  - by eapply first_ready.
  - rewrite <- EL1, <- (reverse_Permutation high_pages). transitivity (own kdir Tk ∅ ++ x :: own dir T (one_page y) ++ L'); [solve_Permutation|].
    by rewrite A2, <- app_assoc, (Permutation_app_comm L).
  - split_and!; [eapply pt_rep_same; [|exact R1]; apply HE; by left| |done]. intros w Hw. rewrite <- HK1 by done. apply pte_same. intros t Ht. apply HE. by right.
  - rewrite E10, Hu. destruct S2 as (m & f & ->). reflexivity.
Qed.


