(* ===== verification/Ulib.v ===== *)
(** * The user library

    [ulib.c] and [printf.c]. A C string is the list of its characters before the
    terminating NUL, a character the value of a signed char. The system calls the
    programs make are arguments: [read] is the bytes it delivers, and what is
    written to a descriptor is a list of bytes. *)
From stdpp Require Import base strings numbers gmap list.
From S2P Require Import Prelude Machine KString.

(** ** ulib.c *)

(** A character of a string that is read at its end is the NUL. *)
Definition char_at (s : list Z) : Z := hd 0 s.

Fixpoint strcmp (p q : list Z) : Z :=
  match p with
  | a :: p' => if a =? char_at q then strcmp p' (tl q) else u8 a - u8 (char_at q)
  | [] => 0 - u8 (char_at q)
  end.

Definition ustrlen (s : list Z) : Z := Z.of_nat (length s).

(** The rest of [s] from the first [c] on; the loop stops before the NUL, which is
    never found. *)
Fixpoint strchr (s : list Z) (c : Z) : option (list Z) :=
  match s with
  | a :: s' => if a =? c then Some s else strchr s' c
  | [] => None
  end.

(** [gets(buf, max)] on the input [inp]: the string read and the input left. *)
Fixpoint gets_loop (n : nat) (inp : list Z) : list Z * list Z :=
  match n, inp with
  | S n', c :: inp' =>
      if (c =? 10) || (c =? 13) then ([c], inp')
      else let '(s, rest) := gets_loop n' inp' in (c :: s, rest)
  | _, _ => ([], inp)
  end.
Definition ugets (max : Z) (inp : list Z) : list Z * list Z := gets_loop (Z.to_nat (max - 1)) inp.

(** Signed overflow is taken to wrap around. *)
Fixpoint atoi_loop (n : Z) (s : list Z) : Z :=
  match s with
  | c :: s' => if (48 <=? c) && (c <=? 57) then atoi_loop (i32 (n * 10 + c - 48)) s' else n
  | [] => n
  end.
Definition atoi (s : list Z) : Z := atoi_loop 0 s.

(** ** printf.c *)
Definition udigits : list Z := lit "0123456789ABCDEF".

(** [do buf[i++] = digits[x % base] while((x /= base) != 0)]: the characters from
    the last to the first; a 32-bit number has at most 32 digits. *)
Fixpoint printint_loop (fuel : nat) (x base : Z) : list Z :=
  match fuel with
  | O => []
  | S f => (udigits !!! Z.to_nat (x mod base)) ::
           (if x / base =? 0 then [] else printint_loop f (x / base) base)
  end.
Definition uprintint (xx base : Z) (sgn : bool) : list Z :=
  let neg := sgn && (xx <? 0) in
  let x := if neg then u32 (- xx) else u32 xx in
  reverse (printint_loop 32 x base ++ (if neg then [45] else [])).

(** An argument of [printf]: a word, or a string that may be null. *)
Inductive parg := PInt (x : Z) | PStr (s : option (list Z)).
Definition parg_int (l : list parg) : Z := match l with PInt x :: _ => x | _ => 0 end.
Definition parg_str (l : list parg) : option (list Z) := match l with PStr s :: _ => s | _ => None end.

(** What [printf] writes; [state] tells whether a '%' came before. *)
Fixpoint printf_loop (fmt : list Z) (args : list parg) (state : bool) : list Z :=
  match fmt with
  | [] => []
  | ch :: fmt' =>
      let c := Z.land ch 0xff in
      if negb state then
        if c =? 37 then printf_loop fmt' args true else c :: printf_loop fmt' args false
      else if c =? 100 then uprintint (i32 (parg_int args)) 10 true ++ printf_loop fmt' (tl args) false
      else if (c =? 120) || (c =? 112) then
        uprintint (i32 (parg_int args)) 16 false ++ printf_loop fmt' (tl args) false
      else if c =? 115 then
        default (lit "(null)") (parg_str args) ++ printf_loop fmt' (tl args) false
      else if c =? 99 then u8 (parg_int args) :: printf_loop fmt' (tl args) false
      else if c =? 37 then c :: printf_loop fmt' args false
      else 37 :: c :: printf_loop fmt' args false
  end.
Definition printf (fmt : list Z) (args : list parg) : list Z := printf_loop fmt args false.

(** ** Strings *)

(** A string has no NUL, and its characters are those of a signed char. *)
Definition cstring (s : list Z) : Prop := Forall (λ c, c ≠ 0 ∧ -128 ≤ c < 128) s.

Lemma u8_inj a b : -128 ≤ a < 128 → -128 ≤ b < 128 → u8 a = u8 b → a = b.
Proof. unfold u8. intros. Z.div_mod_to_equations. lia. Qed.
Lemma u8_nonzero a : -128 ≤ a < 128 → a ≠ 0 → u8 a ≠ 0.
Proof. unfold u8. intros. Z.div_mod_to_equations. lia. Qed.

Lemma strcmp_eq p : ∀ q, cstring p → cstring q → strcmp p q = 0 ↔ p = q.
Proof.
  induction p as [|a p IH]; intros [|b q] Hp Hq; cbn [strcmp char_at hd tl].
  - done.
  - apply Forall_cons in Hq as [[? ?] _]. pose proof (u8_nonzero b). split; [lia|done].
  - apply Forall_cons in Hp as [[? ?] _]. pose proof (u8_nonzero a). rewrite (proj2 (Z.eqb_neq a 0)) by done.
    split; [change (u8 0) with 0; lia|done].
  - apply Forall_cons in Hp as [[? ?] Hp]. apply Forall_cons in Hq as [[? ?] Hq].
    destruct (Z.eqb_spec a b) as [->|Hne].
    + rewrite (IH q Hp Hq). split; congruence.
    + split; [|congruence]. intros E. destruct Hne. apply u8_inj; lia.
Qed.

(** ** Numbers *)
Lemma udigits_dec d : 0 ≤ d < 10 → udigits !!! Z.to_nat d = 48 + d.
Proof.
  intros. assert (d = 0 ∨ d = 1 ∨ d = 2 ∨ d = 3 ∨ d = 4 ∨ d = 5 ∨ d = 6 ∨ d = 7 ∨ d = 8 ∨ d = 9) as Hd by lia.
  by repeat destruct Hd as [-> |Hd]; [..|subst].
Qed.

Lemma atoi_step n d rest : 0 ≤ d < 10 → -2147483648 ≤ n * 10 + d < 2147483648 →
  atoi_loop n ((48 + d) :: rest) = atoi_loop (n * 10 + d) rest.
Proof.
  intros Hd Hn. cbn [atoi_loop]. replace ((48 <=? 48 + d) && (48 + d <=? 57)) with true by lia.
  rewrite i32_small by lia. f_equal. lia.
Qed.

Lemma printint_S f x base : printint_loop (S f) x base =
  (udigits !!! Z.to_nat (x mod base)) :: (if x / base =? 0 then [] else printint_loop f (x / base) base).
Proof. done. Qed.

Lemma atoi_digits f x rest : 0 ≤ x < 10 ^ Z.of_nat (S f) → x < 2147483648 →
  atoi_loop 0 (reverse (printint_loop (S f) x 10) ++ rest) = atoi_loop x rest.
Proof.
  revert x rest. induction f as [|f IH]; intros x rest Hx Hb;
    rewrite printint_S, reverse_cons, udigits_dec by (apply Z.mod_pos_bound; lia);
    rewrite <- app_assoc; cbn [app]; (destruct (Z.eqb_spec (x / 10) 0) as [E|E]; [|]).
  1,3: change (atoi_loop 0 ((48 + x mod 10) :: rest) = atoi_loop x rest);
      rewrite atoi_step by (Z.div_mod_to_equations; lia); f_equal; Z.div_mod_to_equations; lia.
  - Z.div_mod_to_equations. lia.
  - rewrite Nat2Z.inj_succ, Z.pow_succ_r in Hx by lia.
    assert (0 ≤ x / 10 < 10 ^ Z.of_nat (S f)) by (Z.div_mod_to_equations; lia).
    rewrite IH, atoi_step by (Z.div_mod_to_equations; lia). f_equal. Z.div_mod_to_equations. lia.
Qed.

(** C33: what [printf] prints for "%d" reads back with [atoi]: every non-negative
    32-bit number comes back, and a negative one is printed with a sign that
    [atoi] does not know, so that it reads as 0. *)
Theorem atoi_printf x : -2147483648 ≤ x < 2147483648 →
  atoi (printf (lit "%d") [PInt x]) = if x <? 0 then 0 else x.
Proof.
  intros Hx. change (atoi (uprintint (i32 x) 10 true ++ []) = if x <? 0 then 0 else x).
  rewrite app_nil_r, i32_small by lia. unfold uprintint, atoi. cbn [andb].
  destruct (Z.ltb_spec x 0) as [Hneg|Hpos].
  - by rewrite reverse_app.
  - rewrite app_nil_r, u32_small by lia. rewrite <- (app_nil_r (reverse _)).
    assert (2147483648 < 10 ^ Z.of_nat 32) by done. by rewrite (atoi_digits 31) by lia.
Qed.
Lemma atoi_printf_witness : atoi (printf (lit "%d") [PInt 2147483647]) = 2147483647.
Proof. apply (atoi_printf 2147483647). lia. Defined.
