(* ===== verification/Prog.v ===== *)
(** * User programs

    A user program is a tree of system calls: it ends, or makes a call and
    goes on with the answer. [fork] is a call like the others, answered twice.
    The file holds the calls of [user.h], the library routines that make calls,
    and the small programs [echo], [cat], [kill], [ln], [mkdir], [rm], [sleep],
    [zombie] and [init]. A loop that ends only with its input takes a bound
    and is [Stuck] when it runs out. *)
From stdpp Require Import base strings numbers gmap list.
From S2P Require Import Prelude Machine Ulib.

(** ** Calls *)

(** [struct stat] *)
Record ustat := mkUstat { st_type : Z; st_dev : Z; st_ino : Z; st_nlink : Z; st_size : Z }.
#[export] Instance ustat_eq_dec : EqDecision ustat.
Proof. solve_decision. Defined.

(** A call with the type of its answer: the result, and what the kernel stores
    through a pointer argument. A string is the list of its bytes. *)
Inductive scall : Set → Type :=
| SFork : scall Z
| SWait : scall Z
| SPipe : scall (Z * (Z * Z))
| SWrite (fd : Z) (bs : list Z) : scall Z
| SRead (fd n : Z) : scall (Z * list Z)
| SClose (fd : Z) : scall Z
| SKill (pid : Z) : scall Z
| SExec (path : list Z) (argv : list (list Z)) : scall Z
| SOpen (path : list Z) (mode : Z) : scall Z
| SMknod (path : list Z) (major minor : Z) : scall Z
| SUnlink (path : list Z) : scall Z
| SFstat (fd : Z) : scall (Z * ustat)
| SLink (old new : list Z) : scall Z
| SMkdir (path : list Z) : scall Z
| SChdir (path : list Z) : scall Z
| SDup (fd : Z) : scall Z
| SGetpid : scall Z
| SSleep (n : Z) : scall Z
| SUptime : scall Z
| STicksRun (pid : Z) : scall Z
| SSetTickets (n : Z) : scall Z
| SGetTickets (pid : Z) : scall Z
| SCreationTime (pid : Z) : scall Z
| SStartTime (pid : Z) : scall Z
| SCompletionTime (pid : Z) : scall Z
| STotalRunTime (pid : Z) : scall Z
| STotalReadyTime (pid : Z) : scall Z.

Inductive prog (A : Type) : Type :=
| Ret (a : A)
| Sys {B : Set} (c : scall B) (k : B → prog A)
| Exit
| Stuck.
Arguments Ret {_} _.
Arguments Sys {_ _} _ _.
Arguments Exit {_}.
Arguments Stuck {_}.

Fixpoint pbindp {A B} (f : A → prog B) (p : prog A) : prog B :=
  match p with
  | Ret a => f a
  | Sys c k => Sys c (λ b, pbindp f (k b))
  | Exit => Exit
  | Stuck => Stuck
  end.
#[export] Instance prog_ret : MRet prog := λ A a, Ret a.
#[export] Instance prog_bind : MBind prog := λ A B f p, pbindp f p.

Definition sys {B : Set} (c : scall B) : prog B := Sys c Ret.
(** A call whose result is not looked at. *)
Definition sys_ {B : Set} (c : scall B) : prog unit := Sys c (λ _, Ret tt).

(** ** fcntl.h *)
Definition UO_RDONLY : Z := 0x000.
Definition UO_WRONLY : Z := 0x001.
Definition UO_RDWR : Z := 0x002.
Definition UO_CREATE : Z := 0x200.

(** ** printf.c and ulib.c *)

(** [putc] writes one byte; [printf] writes the bytes of its output one by one. *)
Definition putc (fd c : Z) : prog unit := sys_ (SWrite fd [c]).
Fixpoint puts (fd : Z) (bs : list Z) : prog unit :=
  match bs with [] => Ret tt | c :: bs' => putc fd c;; puts fd bs' end.
Definition uprintf (fd : Z) (fmt : string) (args : list parg) : prog unit := puts fd (printf (lit fmt) args).
Definition str (s : list Z) : parg := PStr (Some s).

(** The output of a format whose only conversions are [%s]. *)
Definition plain_text (l : list Z) : bool := forallb (λ c, negb (c =? 37) && (Z.land c 0xff =? c)) l.
Lemma printf_plain pre rest args : plain_text pre = true →
  printf_loop (pre ++ rest) args false = pre ++ printf_loop rest args false.
Proof.
  induction pre as [|c pre IH]; intros H; [done|]. cbn [plain_text forallb] in H.
  apply andb_true_iff in H as [[H1 H2]%andb_true_iff H]. cbn [app printf_loop].
  apply Z.eqb_eq in H2. rewrite H2. cbn [negb]. apply negb_true_iff in H1. rewrite H1. by rewrite IH.
Qed.
Lemma printf_str pre rest a args : plain_text pre = true →
  printf_loop (pre ++ 37 :: 115 :: rest) (str a :: args) false = pre ++ a ++ printf_loop rest args false.
Proof. intros H. by rewrite printf_plain. Qed.
Lemma printf_one fmt pre post a : lit fmt = pre ++ 37 :: 115 :: post → plain_text pre = true → plain_text post = true →
  printf (lit fmt) [str a] = pre ++ a ++ post.
Proof.
  intros -> H1 H2. unfold printf. rewrite printf_str by done. do 2 f_equal.
  rewrite <- (app_nil_r post) at 1. rewrite printf_plain by done. by rewrite app_nil_r.
Qed.

Definition ustat_of (n : list Z) : prog (Z * ustat) :=
  fd ← sys (SOpen n UO_RDONLY);
  if fd <? 0 then Ret (-1, mkUstat 0 0 0 0 0)
  else
    '(r, st) ← sys (SFstat fd);
    sys_ (SClose fd);;
    Ret (r, st).

(** [gets] with room for [n] more characters. *)
Fixpoint gets_calls (n : nat) : prog (list Z) :=
  match n with
  | O => Ret []
  | S n' =>
      '(cc, bs) ← sys (SRead 0 1);
      if cc <? 1 then Ret []
      else
        let c := hd 0 bs in
        if (c =? 10) || (c =? 13) then Ret [c]
        else rest ← gets_calls n'; Ret (c :: rest)
  end.

(** ** Small programs *)
Definition nlz : string := String (Ascii.ascii_of_nat 10) EmptyString.
Definition arg (argv : list (list Z)) (i : nat) : list Z := argv !!! i.

Fixpoint echo_loop (argv : list (list Z)) : prog unit :=
  match argv with
  | [] => Ret tt
  | a :: argv' => uprintf 1 "%s%s" [str a; str (match argv' with [] => [10] | _ => [32] end)];; echo_loop argv'
  end.
Definition echo_main (argv : list (list Z)) : prog unit := echo_loop (tl argv);; Exit.

Fixpoint cat_fd (n : nat) (fd : Z) : prog unit :=
  match n with
  | O => Stuck
  | S n' =>
      '(r, buf) ← sys (SRead fd 512);
      if 0 <? r then
        w ← sys (SWrite 1 (take (Z.to_nat r) buf));
        if negb (w =? r) then uprintf 1 ("cat: write error" +:+ nlz) [];; Exit
        else cat_fd n' fd
      else if r <? 0 then uprintf 1 ("cat: read error" +:+ nlz) [];; Exit
      else Ret tt
  end.
Fixpoint cat_files (n : nat) (files : list (list Z)) : prog unit :=
  match files with
  | [] => Ret tt
  | f :: files' =>
      fd ← sys (SOpen f 0);
      if fd <? 0 then uprintf 1 ("cat: cannot open %s" +:+ nlz) [str f];; Exit
      else cat_fd n fd;; sys_ (SClose fd);; cat_files n files'
  end.
Definition cat_main (n : nat) (argv : list (list Z)) : prog unit :=
  match tl argv with
  | [] => cat_fd n 0;; Exit
  | files => cat_files n files;; Exit
  end.

Fixpoint each {A} (f : A → prog unit) (l : list A) : prog unit :=
  match l with [] => Ret tt | a :: l' => f a;; each f l' end.
Definition kill_main (argv : list (list Z)) : prog unit :=
  if (length argv <? 2)%nat then uprintf 2 ("usage: kill pid..." +:+ nlz) [];; Exit
  else each (λ a, sys_ (SKill (atoi a))) (tl argv);; Exit.

Definition ln_main (argv : list (list Z)) : prog unit :=
  if negb (length argv =? 3)%nat then uprintf 2 ("Usage: ln old new" +:+ nlz) [];; Exit
  else
    r ← sys (SLink (arg argv 1) (arg argv 2));
    (if r <? 0 then uprintf 2 ("link %s %s: failed" +:+ nlz) [str (arg argv 1); str (arg argv 2)] else Ret tt);;
    Exit.

(** [mkdir] and [rm] stop at the first failure. *)
Fixpoint until_fails (c : list Z → scall Z) (msg : string) (l : list (list Z)) : prog unit :=
  match l with
  | [] => Ret tt
  | a :: l' => r ← sys (c a); if r <? 0 then uprintf 2 msg [str a] else until_fails c msg l'
  end.
Definition mkdir_main (argv : list (list Z)) : prog unit :=
  if (length argv <? 2)%nat then uprintf 2 ("Usage: mkdir files..." +:+ nlz) [];; Exit
  else until_fails SMkdir ("mkdir: %s failed to create" +:+ nlz) (tl argv);; Exit.
Definition rm_main (argv : list (list Z)) : prog unit :=
  if (length argv <? 2)%nat then uprintf 2 ("Usage: rm files..." +:+ nlz) [];; Exit
  else until_fails SUnlink ("rm: %s failed to delete" +:+ nlz) (tl argv);; Exit.

Definition sleep_main (argv : list (list Z)) : prog unit :=
  if (length argv <? 2)%nat then uprintf 2 ("Usage: sleep <ticks>" +:+ nlz) [];; Exit
  else
    let ticks := atoi (arg argv 1) in
    if ticks <=? 0 then uprintf 2 ("sleep: Invalid number of ticks" +:+ nlz) [];; Exit
    else sys_ (SSleep ticks);; Exit.

Definition zombie_main : prog unit :=
  r ← sys SFork;
  (if 0 <? r then sys_ (SSleep 5) else Ret tt);;
  Exit.

(** [init]: the inner loop waits for children that are not the shell; the
    outer one runs [n] times. *)
Fixpoint init_wait (m : nat) (pid : Z) : prog unit :=
  match m with
  | O => Stuck
  | S m' =>
      wpid ← sys SWait;
      if (0 <=? wpid) && negb (wpid =? pid) then uprintf 1 ("zombie!" +:+ nlz) [];; init_wait m' pid
      else Ret tt
  end.
Fixpoint init_loop (n m : nat) : prog unit :=
  match n with
  | O => Stuck
  | S n' =>
      uprintf 1 ("init: starting sh" +:+ nlz) [];;
      pid ← sys SFork;
      if pid <? 0 then uprintf 1 ("init: fork failed" +:+ nlz) [];; Exit
      else if pid =? 0 then
        sys_ (SExec (lit "sh") [lit "sh"]);;
        uprintf 1 ("init: exec sh failed" +:+ nlz) [];; Exit
      else init_wait m pid;; init_loop n' m
  end.
Definition init_main (n m : nat) : prog unit :=
  fd ← sys (SOpen (lit "console") UO_RDWR);
  (if fd <? 0 then sys_ (SMknod (lit "console") 1 1);; sys_ (SOpen (lit "console") UO_RDWR) else Ret tt);;
  sys_ (SDup 0);;
  sys_ (SDup 0);;
  init_loop n m.
