(* ===== verification/Find.v ===== *)
(** * Walking the file tree

    [find.c] and [ls.c] as user programs. *)
From stdpp Require Import base strings numbers gmap list.
From S2P Require Import Prelude Machine Ulib Prog.

Definition UT_DIR : Z := 1.
Definition UT_FILE : Z := 2.
Definition UDIRSIZ : nat := 14.

(** The string at the start of an array of bytes. *)
Fixpoint until_nul (l : list Z) : list Z :=
  match l with c :: l' => if c =? 0 then [] else c :: until_nul l' | [] => [] end.
(** [struct dirent] *)
Definition de_num (b : list Z) : Z := dec16 b.
Definition de_str (b : list Z) : list Z := until_nul (take UDIRSIZ (drop 2 b)).

(** What follows the last slash. *)
Fixpoint after_slash (s : list Z) : list Z :=
  match s with
  | [] => []
  | c :: s' => if bool_decide (47 ∈ s) then after_slash s' else s
  end.

(** ** find.c *)

(** [fmtname] pads the name with blanks and takes all blanks at the end away. *)
Fixpoint rstrip (s : list Z) : list Z :=
  match s with
  | [] => []
  | c :: s' => match rstrip s' with [] => if c =? 32 then [] else [c] | r => c :: r end
  end.
Definition find_fmtname (path : list Z) : list Z :=
  let p := after_slash path in
  if (UDIRSIZ <=? length p)%nat then p else rstrip (p ++ replicate (UDIRSIZ - length p) 32).

Record fopts := mkFopts {
  f_look : list Z;
  type_flag : bool;
  type_val : Z;
  inum_flag : Z;
  printi_flag : bool;
  inum_val : Z }.

Definition inum_ok (o : fopts) (ino : Z) : bool :=
  (inum_flag o =? 0) || ((inum_flag o =? 1) && (ino =? u32 (inum_val o)))
  || ((inum_flag o =? 2) && (u32 (inum_val o) <? ino)) || ((inum_flag o =? 3) && (ino <? u32 (inum_val o))).

(** The line for one file or directory; [t] is the letter of its type. *)
Definition find_report (o : fopts) (t : Z) (path : list Z) (st : ustat) : prog unit :=
  if negb (type_flag o) || (type_val o =? t) then
    if inum_ok o (st_ino st) then
      if strcmp (f_look o) (find_fmtname path) =? 0 then
        (if printi_flag o then uprintf 1 "%d " [PInt (st_ino st)] else Ret tt);;
        uprintf 1 ("%s" +:+ nlz) [str path]
      else Ret tt
    else Ret tt
  else Ret tt.

(** The loop over the entries of a directory, [m] of them at most; [rec] is the
    recursive call. *)
Fixpoint find_dir (rec : list Z → prog unit) (m : nat) (fd : Z) (path : list Z) : prog unit :=
  match m with
  | O => Stuck
  | S m' =>
      '(n, de) ← sys (SRead fd 16);
      if n =? 16 then
        if de_num de =? 0 then find_dir rec m' fd path
        else if (strcmp (de_str de) (lit ".") =? 0) || (strcmp (de_str de) (lit "..") =? 0) then
          find_dir rec m' fd path
        else
          let buf := path ++ 47 :: de_str de in
          '(r, _) ← ustat_of buf;
          if r <? 0 then uprintf 1 ("find: cannot stat %s" +:+ nlz) [str buf];; find_dir rec m' fd path
          else rec buf;; find_dir rec m' fd path
      else Ret tt
  end.

(** [find] to the depth [n]. *)
Fixpoint find (n m : nat) (o : fopts) (path : list Z) : prog unit :=
  match n with
  | O => Stuck
  | S n' =>
      fd ← sys (SOpen path 0);
      if fd <? 0 then uprintf 1 ("find: cannot open %s" +:+ nlz) [str path]
      else
        '(r, st) ← sys (SFstat fd);
        if r <? 0 then uprintf 2 ("find: error retrieving file info" +:+ nlz) [];; sys_ (SClose fd)
        else
          (if st_type st =? UT_FILE then find_report o 102 path st
           else if st_type st =? UT_DIR then
             find_report o 100 path st;;
             if 512 <? ustrlen path + 1 + 14 + 1 then uprintf 2 ("find: path too long" +:+ nlz) []
             else find_dir (find n' m o) m fd path
           else Ret tt);;
          sys_ (SClose fd)
  end.

(** The options from argument [i] on: [None] is one of the [error] exits. *)
Fixpoint find_args (k : nat) (argv : list (list Z)) (look : option (list Z)) (o : fopts) : option (option (list Z) * fopts) :=
  match k with
  | O => None
  | S k' =>
      match argv with
      | [] => Some (look, o)
      | a :: rest =>
          if strcmp a (lit "-name") =? 0 then
            match rest with [] => None | v :: rest => find_args k' rest (Some v) o end
          else if strcmp a (lit "-type") =? 0 then
            match rest with
            | [] => None
            | v :: rest =>
                let t := char_at v in
                if negb (t =? 100) && negb (t =? 102) then None
                else find_args k' rest look (mkFopts (f_look o) true t (inum_flag o) (printi_flag o) (inum_val o))
            end
          else if strcmp a (lit "-inum") =? 0 then
            match rest with
            | [] => None
            | v :: rest =>
                let '(fl, x) := if char_at v =? 43 then (2, atoi (tl v))
                                else if char_at v =? 45 then (3, atoi (tl v)) else (1, atoi v) in
                find_args k' rest look (mkFopts (f_look o) (type_flag o) (type_val o) fl (printi_flag o) x)
            end
          else if strcmp a (lit "-printi") =? 0 then
            find_args k' rest look (mkFopts (f_look o) (type_flag o) (type_val o) (inum_flag o) true (inum_val o))
          else None
      end
  end.
Definition find_main (n m : nat) (argv : list (list Z)) : prog unit :=
  if (length argv <? 3)%nat then uprintf 2 ("error" +:+ nlz) [];; Exit
  else
    match find_args (S (length argv)) (drop 2 argv) None (mkFopts [] false 0 0 false 0) with
    | Some (Some look, o) =>
        find n m (mkFopts look (type_flag o) (type_val o) (inum_flag o) (printi_flag o) (inum_val o)) (arg argv 1);;
        Exit
    | _ => uprintf 2 ("error" +:+ nlz) [];; Exit
    end.

(** ** ls.c *)
Definition ls_fmtname (path : list Z) : list Z :=
  let p := after_slash path in
  if (UDIRSIZ <=? length p)%nat then p else p ++ replicate (UDIRSIZ - length p) 32.
Definition ls_line (fmt : string) (path : list Z) (st : ustat) : prog unit :=
  uprintf 1 (fmt +:+ nlz) [str (ls_fmtname path); PInt (st_type st); PInt (st_ino st); PInt (st_size st)].
Fixpoint ls_dir (m : nat) (hidden : bool) (fd : Z) (path : list Z) : prog unit :=
  match m with
  | O => Stuck
  | S m' =>
      '(n, de) ← sys (SRead fd 16);
      if n =? 16 then
        if de_num de =? 0 then ls_dir m' hidden fd path
        else if negb hidden && (char_at (drop 2 de) =? 46) then ls_dir m' hidden fd path
        else
          let buf := path ++ 47 :: de_str de in
          '(r, st) ← ustat_of buf;
          if r <? 0 then uprintf 1 ("ls: cannot stat %s" +:+ nlz) [str buf];; ls_dir m' hidden fd path
          else ls_line (if st_type st =? UT_DIR then "%s/ %d %d %d" else "%s %d %d %d") buf st;; ls_dir m' hidden fd path
      else Ret tt
  end.
Definition ls (m : nat) (path : list Z) (hidden : bool) : prog unit :=
  fd ← sys (SOpen path 0);
  if fd <? 0 then uprintf 2 ("ls: cannot open %s" +:+ nlz) [str path]
  else
    '(r, st) ← sys (SFstat fd);
    if r <? 0 then uprintf 2 ("ls: cannot stat %s" +:+ nlz) [str path];; sys_ (SClose fd)
    else
      (if st_type st =? UT_FILE then ls_line "%s %d %d %d" path st
       else if st_type st =? UT_DIR then
         if 512 <? ustrlen path + 1 + 14 + 1 then uprintf 1 ("ls: path too long" +:+ nlz) []
         else ls_dir m hidden fd path
       else Ret tt);;
      sys_ (SClose fd).
Definition ls_main (m : nat) (argv : list (list Z)) : prog unit :=
  let a := (1 <? length argv)%nat && (strcmp (arg argv 1) (lit "-a") =? 0) in
  match drop (if a then 2 else 1) argv with
  | [] => ls m (lit ".") a;; Exit
  | l => each (λ p, ls m p a) l;; Exit
  end.
