(* ===== verification/FindSpec.v ===== *)
(** * What cat, find and ls print

    A file system as programs see it: a tree of files and directories, paths
    resolved in it, descriptors with an offset each, and a console. Devices
    other than the console read as empty. The programs of [Prog] and [Find] run
    against it; the theorems say what they print for any tree, in terms of the
    words of the command line and the names in the tree and not of the helpers
    of the programs. *)
From stdpp Require Import base strings numbers gmap list pretty.
From S2P Require Import Prelude Machine Ulib Prog Find.

(** ** The tree *)

(** A file with its bytes, a device, and a directory whose entries are free
    slots or a name with what it names. *)
Inductive node :=
| NFile (ino : Z) (data : list Z)
| NDev (ino : Z)
| NDir (ino : Z) (ents : list (option (list Z * node))).

Definition node_ino (x : node) : Z := match x with NFile i _ | NDev i | NDir i _ => i end.
Definition node_type (x : node) : Z := match x with NFile _ _ => 2 | NDev _ => 3 | NDir _ _ => 1 end.

(** The bytes of a directory entry and of a directory, which begins with the
    entries for itself and its parent. *)
Definition dirent_bytes (ino : Z) (name : list Z) : list Z := enc16 ino ++ name ++ replicate (14 - length name) 0.
Definition ent_bytes (e : option (list Z * node)) : list Z :=
  match e with None => replicate 16 0 | Some (n, x) => dirent_bytes (node_ino x) n end.
Definition dir_bytes (ino : Z) (ents : list (option (list Z * node))) : list Z :=
  dirent_bytes ino (lit ".") ++ dirent_bytes ino (lit "..") ++ concat (map ent_bytes ents).
Definition node_bytes (x : node) : list Z :=
  match x with NFile _ d => d | NDev _ => [] | NDir i l => dir_bytes i l end.
Definition node_stat (x : node) : ustat :=
  mkUstat (node_type x) 1 (node_ino x) 1 (Z.of_nat (length (node_bytes x))).

Section node_ind.
Context (P : node → Prop).
Context (Hf : ∀ i d, P (NFile i d)) (Hv : ∀ i, P (NDev i)).
Context (Hd : ∀ i l, Forall (λ e, match e with None => True | Some (_, x) => P x end) l → P (NDir i l)).
Lemma node_ind' : ∀ x, P x.
Proof.
  fix go 1. intros [i d|i|i l]; [apply Hf|apply Hv|]. apply Hd.
  induction l as [|[[n x]|] l IH]; constructor; [apply go|apply IH|exact I|apply IH].
Qed.
End node_ind.

(** ** Paths *)

(** The elements of a path; a name longer than a directory entry is cut. *)
Definition flush (cur : list Z) : list (list Z) := match cur with [] => [] | _ => [take 14 cur] end.
Fixpoint elems (cur p : list Z) : list (list Z) :=
  match p with
  | [] => flush cur
  | c :: p' => if c =? 47 then flush cur ++ elems [] p' else elems (cur ++ [c]) p'
  end.

Definition entry (ents : list (option (list Z * node))) (name : list Z) : option node :=
  snd <$> head (filter (λ e, e.1 = name) (omap id ents)).
(** The directories from the root to the place reached, innermost first. *)
Fixpoint walk (st : list node) (els : list (list Z)) : option (list node) :=
  match els with
  | [] => Some st
  | e :: els' =>
      match st with
      | NDir _ ents :: up =>
          if decide (e = lit ".") then walk st els'
          else if decide (e = lit "..") then walk (match up with [] => st | _ => up end) els'
          else x ← entry ents e; walk (x :: st) els'
      | _ => None
      end
  end.
Definition resolve (root : node) (path : list Z) : option node :=
  st ← walk [root] (elems [] path); head st.

Lemma elems_app cur p q : elems cur (p ++ 47 :: q) = elems cur p ++ elems [] q.
Proof.
  revert cur. induction p as [|c p IH]; intros cur; [done|]. cbn [app elems].
  destruct (c =? 47); rewrite IH; [by rewrite app_assoc|done].
Qed.
Lemma elems_name cur name : 47 ∉ name → elems cur name = flush (cur ++ name).
Proof.
  revert cur. induction name as [|c name IH]; intros cur H; cbn [elems]; [by rewrite app_nil_r|].
  apply not_elem_of_cons in H as [H1 H2]. rewrite (proj2 (Z.eqb_neq c 47)) by done. rewrite IH by done. by rewrite <- app_assoc.
Qed.
Lemma walk_app st l1 l2 : walk st (l1 ++ l2) = walk st l1 ≫= λ st', walk st' l2.
Proof.
  revert st. induction l1 as [|e l1 IH]; intros st; [done|]. cbn [app walk].
  destruct st as [|[| |i ents] up]; [done..|]. repeat case_decide; [done..|]. destruct (entry ents e); [apply IH|done].
Qed.

(** ** The world *)
Record world := mkWorld { root : node; ofds : list (option (option node * nat)); out : list Z }.
#[export] Instance eta_world : Eta world := λ r, mkWorld (root r) (ofds r) (out r).

Definition wget (w : world) (fd : Z) : option (option node * nat) :=
  if fd <? 0 then None else mjoin (ofds w !! Z.to_nat fd).

Definition respond {B} (c : scall B) (w : world) : option (B * world) :=
  match c in scall B return option (B * world) with
  | SOpen path mode =>
      match resolve (root w) path, find_idx (λ x, bool_decide (x = None)) (ofds w) with
      | Some x, Some i => Some (Z.of_nat i, w <| ofds ::= <[i := Some (Some x, O)]> |>)
      | _, _ => Some (-1, w)
      end
  | SFstat fd =>
      match wget w fd with
      | Some (Some x, _) => Some ((0, node_stat x), w)
      | _ => Some ((-1, mkUstat 0 0 0 0 0), w)
      end
  | SRead fd n =>
      match wget w fd with
      | Some (Some x, off) =>
          let bs := slice (node_bytes x) off (Z.to_nat n) in
          Some ((Z.of_nat (length bs), bs), w <| ofds ::= <[Z.to_nat fd := Some (Some x, (off + length bs)%nat)]> |>)
      | _ => Some ((-1, []), w)
      end
  | SWrite fd bs =>
      match wget w fd with
      | Some (None, _) => Some (Z.of_nat (length bs), w <| out ::= λ o, o ++ bs |>)
      | _ => Some (-1, w)
      end
  | SClose fd => Some (0, w <| ofds ::= <[Z.to_nat fd := None]> |>)
  | _ => None
  end.

Inductive uresult (A : Type) := UDone (a : A) (w : world) | UExit (w : world) | UStop.
Arguments UDone {_} _ _.
Arguments UExit {_} _.
Arguments UStop {_}.
Fixpoint urun {A} (p : prog A) (w : world) : uresult A :=
  match p with
  | Ret a => UDone a w
  | Exit => UExit w
  | Stuck => UStop
  | Sys c k => match respond c w with Some (b, w') => urun (k b) w' | None => UStop end
  end.

Lemma urun_bind {A B} (p : prog A) (f : A → prog B) w :
  urun (p ≫= f) w = match urun p w with UDone a w' => urun (f a) w' | UExit w' => UExit w' | UStop => UStop end.
Proof.
  revert w. induction p as [a|C c k IH| |]; intros w; try done. cbn.
  destruct (respond c w) as [[b w']|]; [apply IH|done].
Qed.

(** ** Descriptors *)

(** A world in which exactly the first descriptors are open. *)
Definition fdl (l : list (option node * nat)) : list (option (option node * nat)) := map Some l ++ replicate (NOFILE - length l) None.
Definition wld (r : node) (l : list (option node * nat)) (o : list Z) : world := mkWorld r (fdl l) o.
(** Standard output and standard error are the console. *)
Definition console_fds (l : list (option node * nat)) : Prop := ∃ a b c, take 3 l = [a; (None, b); (None, c)].

Lemma find_none {A} (l : list A) k : find_idx (λ x, bool_decide (x = None)) (map Some l ++ replicate (S k) None) = Some (length l).
Proof. induction l as [|e l IH]; [done|]. cbn [map app find_idx length]. rewrite bool_decide_eq_false_2 by done. by rewrite IH. Qed.
Lemma fdl_free l : (length l < NOFILE)%nat → find_idx (λ x, bool_decide (x = None)) (fdl l) = Some (length l).
Proof. intros H. unfold fdl. replace (NOFILE - length l)%nat with (S (NOFILE - length l - 1)) by lia. apply find_none. Qed.
Lemma fdl_put l a k : <[length l := a]> (map Some l ++ None :: replicate k None) = map Some l ++ a :: replicate k (@None (option node * nat)).
Proof. replace (length l) with (length (map Some l) + 0)%nat by (rewrite length_map; lia). by rewrite insert_app_r. Qed.
Lemma fdl_open l e : (length l < NOFILE)%nat → <[length l := Some e]> (fdl l) = fdl (l ++ [e]).
Proof.
  intros H. unfold fdl. rewrite map_app, length_app, <- app_assoc. cbn [map app length].
  replace (NOFILE - length l)%nat with (S (NOFILE - (length l + 1))) by lia. apply fdl_put.
Qed.
Lemma fdl_snoc l e a : (length l < NOFILE)%nat → <[length l := a]> (fdl (l ++ [e])) = map Some l ++ a :: replicate (NOFILE - length l - 1) None.
Proof.
  intros H. rewrite <- fdl_open, list_insert_insert_eq by done. unfold fdl.
  replace (NOFILE - length l)%nat with (S (NOFILE - length l - 1)) by lia. cbn [replicate]. rewrite fdl_put. do 3 f_equal. lia.
Qed.
Lemma fdl_close l e : (length l < NOFILE)%nat → <[length l := None]> (fdl (l ++ [e])) = fdl l.
Proof.
  intros H. rewrite fdl_snoc by done. unfold fdl. replace (NOFILE - length l)%nat with (S (NOFILE - length l - 1)) at 2 by lia. done.
Qed.
Lemma fdl_move l e e' : (length l < NOFILE)%nat → <[length l := Some e']> (fdl (l ++ [e])) = fdl (l ++ [e']).
Proof.
  intros H. rewrite fdl_snoc by done. unfold fdl. rewrite map_app, length_app, <- app_assoc. cbn. do 3 f_equal. lia.
Qed.
Lemma wget_at r l o i e : l !! i = Some e → wget (wld r l o) (Z.of_nat i) = Some e.
Proof.
  intros H. unfold wget. rewrite (proj2 (Z.ltb_ge _ 0)), Nat2Z.id by lia. cbn. unfold fdl.
  rewrite lookup_app_l by (rewrite length_map; by eapply lookup_lt_Some). change (map Some l) with (Some <$> l).
  by rewrite list_lookup_fmap, H.
Qed.
Lemma wget_last r l o e : wget (wld r (l ++ [e]) o) (Z.of_nat (length l)) = Some e.
Proof. apply wget_at. by rewrite list_lookup_middle. Qed.

(** *** Calls in such a world *)
Lemma respond_open r l o path m x : resolve r path = Some x → (length l < NOFILE)%nat →
  respond (SOpen path m) (wld r l o) = Some (Z.of_nat (length l), wld r (l ++ [(Some x, O)]) o).
Proof.
  intros Hr Hl. cbn [respond]. unfold wld at 1 2. cbn [root ofds]. rewrite Hr, fdl_free by done.
  unfold wld, upd. cbn. by rewrite fdl_open.
Qed.
Lemma respond_close r l o e : (length l < NOFILE)%nat →
  respond (SClose (Z.of_nat (length l))) (wld r (l ++ [e]) o) = Some (0, wld r l o).
Proof.
  intros Hl. change (Some (0, mkWorld r (<[Z.to_nat (Z.of_nat (length l)) := None]> (fdl (l ++ [e]))) o) = Some (0, wld r l o)).
  by rewrite Nat2Z.id, fdl_close.
Qed.
Lemma respond_fstat r l o x n :
  respond (SFstat (Z.of_nat (length l))) (wld r (l ++ [(Some x, n)]) o) = Some ((0, node_stat x), wld r (l ++ [(Some x, n)]) o).
Proof. cbn [respond]. by rewrite wget_last. Qed.
Lemma respond_read r l o x off n : (length l < NOFILE)%nat →
  let bs := slice (node_bytes x) off (Z.to_nat n) in
  respond (SRead (Z.of_nat (length l)) n) (wld r (l ++ [(Some x, off)]) o) =
  Some ((Z.of_nat (length bs), bs), wld r (l ++ [(Some x, (off + length bs)%nat)]) o).
Proof.
  intros Hl bs. cbn [respond]. rewrite wget_last.
  change (Some ((Z.of_nat (length bs), bs), mkWorld r (<[Z.to_nat (Z.of_nat (length l)) := Some (Some x, (off + length bs)%nat)]>
    (fdl (l ++ [(Some x, off)]))) o) = Some ((Z.of_nat (length bs), bs), wld r (l ++ [(Some x, (off + length bs)%nat)]) o)).
  by rewrite Nat2Z.id, fdl_move.
Qed.

Lemma console_get l r o fd : console_fds l → fd = 1 ∨ fd = 2 → ∃ n, wget (wld r l o) fd = Some (None, n).
Proof.
  intros (a & b & c & H) Hfd. assert (l !! 1%nat = Some (None, b) ∧ l !! 2%nat = Some (None, c)) as [H1 H2].
  { split; rewrite <- (lookup_take_lt l 3) by lia; by rewrite H. }
  destruct Hfd as [->| ->]; [exists b; by apply (wget_at r l o 1)|exists c; by apply (wget_at r l o 2)].
Qed.
Lemma console_snoc l e : console_fds l → console_fds (l ++ [e]).
Proof.
  intros (a & b & c & H). exists a, b, c. rewrite take_app_le; [done|].
  apply (f_equal length) in H. rewrite length_take in H. cbn [length] in H. lia.
Qed.

Lemma urun_sys {A} {B : Set} (c : scall B) (f : B → prog A) w b w' : respond c w = Some (b, w') → urun (sys c ≫= f) w = urun (f b) w'.
Proof. intros H. cbn. by rewrite H. Qed.
Lemma urun_sys_ {A} {B : Set} (c : scall B) (f : unit → prog A) w b w' : respond c w = Some (b, w') → urun (sys_ c ≫= f) w = urun (f tt) w'.
Proof. intros H. cbn. by rewrite H. Qed.

Lemma urun_puts r l o fd bs : console_fds l → fd = 1 ∨ fd = 2 → urun (puts fd bs) (wld r l o) = UDone tt (wld r l (o ++ bs)).
Proof.
  intros Hc Hfd. revert o. induction bs as [|b bs IH]; intros o; [by rewrite app_nil_r|]. cbn [puts].
  destruct (console_get l r o fd Hc Hfd) as [n Hn]. unfold putc.
  rewrite (urun_sys_ _ _ _ 1 (wld r l (o ++ [b]))) by (cbn [respond]; by rewrite Hn). rewrite IH. by rewrite <- app_assoc.
Qed.
Lemma urun_print r l o fd fmt args : console_fds l → fd = 1 ∨ fd = 2 →
  urun (uprintf fd fmt args) (wld r l o) = UDone tt (wld r l (o ++ printf (lit fmt) args)).
Proof. apply urun_puts. Qed.

(** ** Trees *)
Definition name_ok (n : list Z) : Prop :=
  cstring n ∧ n ≠ [] ∧ (length n ≤ 14)%nat ∧ 47 ∉ n ∧ n ≠ lit "." ∧ n ≠ lit "..".
Definition ino_ok (i : Z) : Prop := 0 < i < 65536.
Inductive tree_ok : node → Prop :=
| ok_file i d : ino_ok i → tree_ok (NFile i d)
| ok_dev i : ino_ok i → tree_ok (NDev i)
| ok_dir i l : ino_ok i → NoDup (omap id l).*1 →
    (∀ n x, Some (n, x) ∈ l → name_ok n) → (∀ n x, Some (n, x) ∈ l → tree_ok x) → tree_ok (NDir i l).
Lemma tree_ino x : tree_ok x → ino_ok (node_ino x).
Proof. by destruct 1. Qed.

(** The number of levels of a tree, and the largest number of entries. *)
Fixpoint height (x : node) : nat :=
  match x with
  | NDir _ l => S (foldr (λ e a, Nat.max (match e with None => O | Some (_, y) => height y end) a) O l)
  | _ => 1%nat
  end.
Fixpoint width (x : node) : nat :=
  match x with
  | NDir _ l => Nat.max (length l) (foldr (λ e a, Nat.max (match e with None => O | Some (_, y) => width y end) a) O l)
  | _ => O
  end.
Lemma foldr_max_le {A} (f : A → nat) l e : e ∈ l → (f e ≤ foldr (λ e a, Nat.max (f e) a) O l)%nat.
Proof. induction 1; cbn; lia. Qed.
Lemma height_child i l n x : Some (n, x) ∈ l → (height x < height (NDir i l))%nat.
Proof.
  intros H. apply (foldr_max_le (λ e : option (list Z * node), match e with None => O | Some (_, y) => height y end)) in H. cbn in *. lia.
Qed.
Lemma width_child i l n x : Some (n, x) ∈ l → (width x ≤ width (NDir i l))%nat.
Proof.
  intros H. apply (foldr_max_le (λ e : option (list Z * node), match e with None => O | Some (_, y) => width y end)) in H. cbn in *. lia.
Qed.
Lemma height_pos x : (0 < height x)%nat.
Proof. destruct x; cbn; lia. Qed.

(** The child is where the path says. *)
Lemma entry_child l n x : NoDup (omap id l).*1 → Some (n, x) ∈ l → entry l n = Some x.
Proof.
  intros Hd Hin. assert (Hm : (n, x) ∈ omap id l).
  { apply list_elem_of_omap. by exists (Some (n, x)). }
  unfold entry. revert Hd Hm. generalize (omap id l) as k. intros k. induction k as [|[n' x'] k IH]; intros Hd Hm; [by apply elem_of_nil in Hm|].
  cbn in Hd. apply NoDup_cons in Hd as [Hn Hd]. rewrite filter_cons. cbn [fst]. apply elem_of_cons in Hm as [[= <- <-]|Hm].
  - by rewrite decide_True.
  - rewrite decide_False; [by apply IH|]. intros ->. apply Hn. apply list_elem_of_fmap. by exists (n, x).
Qed.
Definition reaches (r : node) (path : list Z) (x : node) : Prop := ∃ up, walk [r] (elems [] path) = Some (x :: up).
Lemma reaches_resolve r path x : reaches r path x → resolve r path = Some x.
Proof. intros [up E]. unfold resolve. by rewrite E. Qed.
Lemma reaches_child r path i l n x : tree_ok (NDir i l) → reaches r path (NDir i l) → Some (n, x) ∈ l →
  reaches r (path ++ 47 :: n) x.
Proof.
  intros Ht [up E] Hin. inversion Ht as [| |? ? _ Hd Hn _]; subst. destruct (Hn _ _ Hin) as (_ & H0 & Hl & Hs & H1 & H2).
  exists (NDir i l :: up). rewrite elems_app, walk_app, E, (elems_name [] n) by done. cbn [mbind option_bind app].
  unfold flush. destruct n as [|a n]; [done|]. rewrite take_ge by done. cbn [walk].
  rewrite (decide_False (P := a :: n = lit ".")), (decide_False (P := a :: n = lit "..")) by done.
  by rewrite (entry_child l (a :: n) x).
Qed.

(** ** Directory entries *)
Lemma until_nul_app n k : Forall (λ c, c ≠ 0) n → until_nul (n ++ replicate k 0) = n.
Proof.
  induction 1 as [|c n Hc _ IH]; [by destruct k|]. cbn. by rewrite (proj2 (Z.eqb_neq c 0) Hc), IH.
Qed.
Lemma dirent_decode i n : ino_ok i → cstring n → (length n ≤ 14)%nat →
  length (dirent_bytes i n) = 16%nat ∧ de_num (dirent_bytes i n) = i ∧ de_str (dirent_bytes i n) = n.
Proof.
  intros Hi Hc Hl. unfold dirent_bytes. split_and!.
  - cbn. rewrite length_app, length_replicate. lia.
  - unfold de_num, dec16. cbn. rewrite !u8_idem. unfold u8, ino_ok in *. Z.div_mod_to_equations. lia.
  - unfold de_str. cbn [drop app enc16]. rewrite drop_0, take_ge by (rewrite length_app, length_replicate; unfold UDIRSIZ; lia).
    apply until_nul_app. eapply Forall_impl; [exact Hc|]. naive_solver.
Qed.

(** The records of a directory. *)
Definition records (i : Z) (l : list (option (list Z * node))) : list (list Z) :=
  dirent_bytes i (lit ".") :: dirent_bytes i (lit "..") :: map ent_bytes l.
Lemma dir_records i l : dir_bytes i l = concat (records i l).
Proof. done. Qed.
Lemma slice_records (rs : list (list Z)) k : Forall (λ r, length r = 16%nat) rs →
  slice (concat rs) (16 * k) 16 = default [] (rs !! k).
Proof.
  intros H. revert k. unfold slice. induction H as [|r rs Hr H IH]; intros k; cbn [concat]; [by rewrite drop_nil|].
  destruct k as [|k].
  - cbn [lookup default]. rewrite <- Hr at 1. cbn. by rewrite drop_0, take_app_length.
  - rewrite drop_app_ge by lia. rewrite Hr. replace (16 * S k - 16)%nat with (16 * k)%nat by lia. apply IH.
Qed.
Lemma records_size i l : tree_ok (NDir i l) → Forall (λ r, length r = 16%nat) (records i l).
Proof.
  intros H. inversion H as [| |? ? Hi _ Hn Hx]; subst. unfold records.
  repeat (apply Forall_cons; split; [done|]). apply Forall_forall. intros r [e [-> He]]%list_elem_of_fmap.
  destruct e as [[n x]|]; [|done]. cbn [ent_bytes]. destruct (Hn _ _ He) as (Hc & _ & Hl & _).
  by apply dirent_decode; [apply tree_ino; eapply Hx|..].
Qed.

(** ** Numbers *)

(** A number in decimal, as the library prints it. *)
Definition dec (x : Z) : list Z := lit (pretty x).
Lemma lit_cons a s : lit (String a s) = Z.of_N (Ascii.N_of_ascii a) :: lit s.
Proof. done. Qed.
Lemma pretty_char d : (d < 10)%N → Z.of_N (Ascii.N_of_ascii (pretty_N_char d)) = udigits !!! Z.to_nat (Z.of_N d).
Proof.
  intros H. assert (forallb (λ n, let d := N.of_nat n in Z.of_N (Ascii.N_of_ascii (pretty_N_char d)) =? udigits !!! Z.to_nat (Z.of_N d))
    (seq 0 10) = true) as F by by vm_compute.
  rewrite forallb_forall in F. specialize (F (N.to_nat d)). cbv zeta in F. rewrite N2Nat.id in F. apply Z.eqb_eq, F, in_seq. lia.
Qed.
Lemma pretty_digits f : ∀ x s, (0 < x)%N → Z.of_N x < 10 ^ Z.of_nat f →
  lit (pretty_N_go x s) = reverse (printint_loop f (Z.of_N x) 10) ++ lit s.
Proof.
  induction f as [|f IH]; intros x s Hx Hf; [cbn in Hf; lia|].
  rewrite pretty_N_go_step by done. cbn [printint_loop]. rewrite reverse_cons, <- app_assoc.
  assert (Z.of_N x / 10 = Z.of_N (x / 10)) as -> by (rewrite N2Z.inj_div; done).
  assert (Z.of_N x mod 10 = Z.of_N (x mod 10)) as -> by (rewrite N2Z.inj_mod; done).
  assert (x mod 10 < 10)%N by (apply N.mod_lt; done).
  destruct (decide (x / 10 = 0)%N) as [E|E].
  - rewrite E, pretty_N_go_0. change (Z.of_N 0 =? 0) with true. cbn [reverse app]. by rewrite lit_cons, pretty_char.
  - rewrite (proj2 (Z.eqb_neq (Z.of_N (x / 10)) 0)) by lia. rewrite IH; [by rewrite lit_cons, pretty_char|by apply N.neq_0_lt_0|].
    rewrite Nat2Z.inj_succ, Z.pow_succ_r in Hf by lia. rewrite N2Z.inj_div. apply Z.div_lt_upper_bound; [done|]. lia.
Qed.
Definition intz (x : Z) : Prop := 0 ≤ x < 2147483648.
Lemma dec_printint x : intz x → uprintint (i32 x) 10 true = dec x.
Proof.
  unfold intz. intros Hx. rewrite i32_small by lia. unfold uprintint. cbn [andb]. rewrite (proj2 (Z.ltb_ge x 0)) by lia. rewrite app_nil_r, u32_small by lia.
  destruct (decide (x = 0)) as [->|Hn]; [by vm_compute|]. unfold dec. destruct x as [|x|]; [done| |lia].
  change (pretty (Z.pos x)) with (pretty_N_go (N.pos x) ""). rewrite (pretty_digits 32); [by rewrite app_nil_r|done|].
  change (Z.of_N (N.pos x)) with (Z.pos x). assert (2147483648 < 10 ^ Z.of_nat 32) by done. lia.
Qed.
Lemma dec_atoi x : intz x → atoi (dec x) = x.
Proof.
  intros Hx. rewrite <- dec_printint by done. unfold intz in Hx. rewrite i32_small by lia. unfold uprintint, atoi. cbn [andb].
  rewrite (proj2 (Z.ltb_ge x 0)) by lia. rewrite app_nil_r, u32_small by lia. rewrite <- (app_nil_r (reverse _)).
  assert (2147483648 < 10 ^ Z.of_nat 32) by done. by rewrite (atoi_digits 31) by lia.
Qed.
(** The first character of a number is a digit. *)
Lemma dec_first x : intz x → char_at (dec x) ≠ 43 ∧ char_at (dec x) ≠ 45.
Proof.
  intros Hx. pose proof (dec_atoi x Hx) as A. destruct (decide (x = 0)) as [->|Hn]; [by vm_compute|].
  destruct (dec x) as [|c l]; [done|]. split; intros E; cbn in E; subst c; unfold atoi in A; cbn in A; congruence.
Qed.

(** ** find *)

(** What the walk prints for one node and for a tree, by the tests of the
    program. *)
Definition walk_line (o : fopts) (t : Z) (path : list Z) (x : node) : list Z :=
  if (negb (type_flag o) || (type_val o =? t)) && inum_ok o (node_ino x) && (strcmp (f_look o) (find_fmtname path) =? 0)
  then (if printi_flag o then printf (lit "%d ") [PInt (node_ino x)] else []) ++ path ++ [10]
  else [].
Fixpoint walked (o : fopts) (path : list Z) (x : node) : list Z :=
  match x with
  | NFile _ _ => walk_line o 102 path x
  | NDev _ => []
  | NDir _ l =>
      walk_line o 100 path x ++
      concat (map (λ e, match e with None => [] | Some (n, y) => walked o (path ++ 47 :: n) y end) l)
  end.

Lemma printf_line path : printf (lit ("%s" +:+ nlz)) [str path] = path ++ [10].
Proof. rewrite (printf_one _ [] [10]); [done|by vm_compute..]. Qed.

Lemma urun_report r l o out t path x : console_fds l →
  urun (find_report o t path (node_stat x)) (wld r l out) = UDone tt (wld r l (out ++ walk_line o t path x)).
Proof.
  intros Hc. unfold find_report, walk_line. cbn [st_ino node_stat].
  destruct (_ || _); [|by rewrite app_nil_r]. destruct (inum_ok _ _); [|by rewrite app_nil_r].
  destruct (_ =? 0); [|by rewrite app_nil_r]. cbn [andb]. rewrite urun_bind. destruct (printi_flag o).
  - rewrite urun_print by auto. rewrite urun_print, printf_line by auto. by rewrite <- !app_assoc.
  - cbn [urun]. rewrite urun_print, printf_line by auto. by rewrite app_nil_l.
Qed.

Lemma urun_stat r l out path x : resolve r path = Some x → (length l < NOFILE)%nat →
  urun (ustat_of path) (wld r l out) = UDone (0, node_stat x) (wld r l out).
Proof.
  intros Hr Hl. unfold ustat_of. erewrite urun_sys by by apply respond_open. rewrite (proj2 (Z.ltb_ge _ 0)) by lia.
  erewrite urun_sys by apply respond_fstat. cbv beta iota. by erewrite urun_sys_ by by apply respond_close.
Qed.

(** The next record of a directory. *)
Lemma read_record r l out i ents k : tree_ok (NDir i ents) → (length l < NOFILE)%nat →
  let bs := default [] (records i ents !! k) in
  respond (SRead (Z.of_nat (length l)) 16) (wld r (l ++ [(Some (NDir i ents), (16 * k)%nat)]) out) =
  Some ((Z.of_nat (length bs), bs), wld r (l ++ [(Some (NDir i ents), (16 * k + length bs)%nat)]) out).
Proof.
  intros Ht Hl bs. rewrite respond_read by done. change (Z.to_nat 16) with 16%nat. cbn [node_bytes].
  rewrite dir_records, slice_records by by apply records_size. done.
Qed.

Section find_dir.
Context (r : node) (L : list (option node * nat)) (i : Z) (ents : list (option (list Z * node))) (path : list Z).
Context (rec : list Z → prog unit) (said : list Z → node → list Z).
Context (HL : (length L < NOFILE)%nat) (HL' : ∀ n x, Some (n, x) ∈ ents → (S (length L) < NOFILE)%nat) (Ht : tree_ok (NDir i ents)) (Hp : reaches r path (NDir i ents)).
Notation at_rec k := (L ++ [(Some (NDir i ents), (16 * k)%nat)]).
Hypothesis Hrec : ∀ n x k out, Some (n, x) ∈ ents →
  urun (rec (path ++ 47 :: n)) (wld r (at_rec k) out) = UDone tt (wld r (at_rec k) (out ++ said (path ++ 47 :: n) x)).

Lemma find_dir_step m k e out : ents !! k = Some e →
  urun (find_dir rec (S m) (Z.of_nat (length L)) path) (wld r (at_rec (2 + k)) out) =
  urun (find_dir rec m (Z.of_nat (length L)) path) (wld r (at_rec (3 + k))
    (out ++ match e with None => [] | Some (n, x) => said (path ++ 47 :: n) x end)).
Proof.
  intros He. pose proof (list_elem_of_lookup_2 _ _ _ He) as Hin. cbn [find_dir].
  assert (Er : records i ents !! (2 + k)%nat = Some (ent_bytes e)).
  { change ((ent_bytes <$> ents) !! k = Some (ent_bytes e)). by rewrite list_lookup_fmap, He. }
  erewrite urun_sys; [|by apply read_record; [|lia]]. rewrite Er. change (default [] (Some (ent_bytes e))) with (ent_bytes e). cbv beta iota.
  inversion Ht as [| |? ? _ _ Hn Hx]; subst. destruct e as [[n x]|]; cbn [ent_bytes].
  - destruct (Hn _ _ Hin) as (Hc & _ & Hl & Hs & H1 & H2).
    destruct (dirent_decode (node_ino x) n) as (D1 & D2 & D3); [eapply tree_ino, Hx, Hin|done|done|].
    rewrite D1, D2, D3. replace (16 * (2 + k) + 16)%nat with (16 * (3 + k))%nat by lia. 
    change (Z.of_nat 16 =? 16) with true. cbv iota.
    rewrite (proj2 (Z.eqb_neq (node_ino x) 0)) by (pose proof (tree_ino _ (Hx _ _ Hin)); unfold ino_ok in *; lia).
    assert (cstring (lit ".") ∧ cstring (lit "..")) as [C1 C2] by (split; apply (bool_decide_unpack _); by vm_compute).
    rewrite (proj2 (Z.eqb_neq (strcmp n (lit ".")) 0)) by (intros E; by apply strcmp_eq in E).
    rewrite (proj2 (Z.eqb_neq (strcmp n (lit "..")) 0)) by (intros E; by apply strcmp_eq in E). cbn [orb].
    rewrite urun_bind, (urun_stat _ _ _ _ x); [|by eapply reaches_resolve, reaches_child|rewrite length_app, Nat.add_1_r; by eapply HL'].
    cbv beta iota. change (0 <? 0) with false. cbv iota. rewrite urun_bind, (Hrec n x) by done. done.
  - rewrite app_nil_r. change (length (replicate 16 0)) with 16%nat. change (Z.of_nat 16 =? 16) with true. cbv iota.
    change (de_num (replicate 16 0) =? 0) with true. cbv iota. do 2 f_equal. do 3 f_equal. lia.
Qed.

Lemma find_dir_dot m k name out : (k = 0%nat ∧ name = lit ".") ∨ (k = 1%nat ∧ name = lit "..") →
  urun (find_dir rec (S m) (Z.of_nat (length L)) path) (wld r (at_rec k) out) =
  urun (find_dir rec m (Z.of_nat (length L)) path) (wld r (at_rec (S k)) out).
Proof.
  intros Hk. cbn [find_dir]. inversion Ht as [| |? ? Hi _ _ _]; subst.
  assert (Er : records i ents !! k = Some (dirent_bytes i name)) by by destruct Hk as [[-> ->]|[-> ->]].
  erewrite urun_sys; [|by apply read_record; [|lia]]. rewrite Er. change (default [] (Some ?x)) with x. cbv beta iota.
  destruct (dirent_decode i name) as (D1 & D2 & D3); [done|destruct Hk as [[_ ->]|[_ ->]]..|].
  1, 2: apply (bool_decide_unpack _); by vm_compute.
  1, 2: cbn; lia.
  rewrite D1, D2, D3. change (Z.of_nat 16 =? 16) with true. cbv iota.
  rewrite (proj2 (Z.eqb_neq i 0)) by (unfold ino_ok in *; lia).
  replace (_ || _) with true by by destruct Hk as [[_ ->]|[_ ->]]. do 2 f_equal. do 3 f_equal. lia.
Qed.

Lemma find_dir_rest m k out : (length ents < m + k)%nat → (k ≤ length ents)%nat →
  urun (find_dir rec m (Z.of_nat (length L)) path) (wld r (at_rec (2 + k)) out) =
  UDone tt (wld r (at_rec (2 + length ents)) (out ++
    concat (map (λ e, match e with None => [] | Some (n, y) => said (path ++ 47 :: n) y end) (drop k ents)))).
Proof.
  revert k out. induction m as [|m IH]; intros k out Hm Hk; [lia|].
  destruct (decide (k = length ents)) as [->|Hne].
  - cbn [find_dir]. erewrite urun_sys; [|by apply read_record; [|lia]].
    rewrite (lookup_ge_None_2 (records i ents)) by (cbn; rewrite length_map; lia). change (default [] None) with (@nil Z). cbn [length].
    change (Z.of_nat 0 =? 16) with false. cbv iota. rewrite drop_all. cbn [map concat]. rewrite app_nil_r, Nat.add_0_r. done.
  - destruct (lookup_lt_is_Some_2 ents k) as [e He]; [lia|]. rewrite (find_dir_step m k e) by done.
    rewrite (drop_S _ _ _ He). cbn [map concat]. rewrite app_assoc. apply (IH (S k)); lia.
Qed.

Lemma find_dir_all m out : (length ents + 2 < m)%nat →
  urun (find_dir rec m (Z.of_nat (length L)) path) (wld r (at_rec 0) out) =
  UDone tt (wld r (at_rec (2 + length ents)) (out ++
    concat (map (λ e, match e with None => [] | Some (n, y) => said (path ++ 47 :: n) y end) ents))).
Proof.
  intros Hm. destruct m as [|[|m]]; [lia..|]. rewrite (find_dir_dot _ 0 (lit ".")), (find_dir_dot _ 1 (lit "..")) by auto.
  pose proof (find_dir_rest m 0 out) as H. rewrite drop_0 in H. apply H; lia.
Qed.
End find_dir.

Lemma find_run n : ∀ m o x r l path out, tree_ok x → reaches r path x → console_fds l →
  (length l + height x ≤ NOFILE)%nat → Z.of_nat (length path) + 15 * Z.of_nat (height x) ≤ 511 →
  (height x ≤ n)%nat → (width x + 2 < m)%nat →
  urun (find n m o path) (wld r l out) = UDone tt (wld r l (out ++ walked o path x)).
Proof.
  induction n as [|n IH]; intros m o x r l path out Ht Hp Hc Hl Hs Hn Hm; [pose proof (height_pos x); lia|].
  pose proof (height_pos x). cbn [find]. erewrite urun_sys by (apply respond_open; [by apply reaches_resolve|lia]).
  rewrite (proj2 (Z.ltb_ge _ 0)) by lia. erewrite urun_sys by apply respond_fstat. cbv beta iota.
  change (0 <? 0) with false. cbv iota. rewrite urun_bind.
  assert (Hcl : ∀ e o', urun (sys_ (SClose (Z.of_nat (length l)))) (wld r (l ++ [e]) o') = UDone tt (wld r l o')).
  { intros e o'. change (urun (sys_ (SClose (Z.of_nat (length l)))) (wld r (l ++ [e]) o')) with
      (urun (sys_ (SClose (Z.of_nat (length l))) ≫= Ret) (wld r (l ++ [e]) o')). by erewrite urun_sys_ by (apply respond_close; lia). }
  destruct x as [i d|i|i ents]; cbn [node_stat st_type node_type walked]; change UT_FILE with 2; change UT_DIR with 1; cbn [Z.eqb Pos.eqb].
  - by rewrite (urun_report _ _ _ _ _ _ (NFile i d)) by by apply console_snoc.
  - cbn [urun]. by rewrite app_nil_r.
  - rewrite urun_bind, (urun_report _ _ _ _ _ _ (NDir i ents)) by by apply console_snoc.
    unfold ustrlen. rewrite (proj2 (Z.ltb_ge 512 _)) by lia.
    pose proof (find_dir_all r l i ents path (find n m o) (walked o)) as F. change (16 * 0)%nat with O in F. rewrite F; clear F.
    + by rewrite <- app_assoc.
    + lia.
    + intros n' y Hin. pose proof (height_child i ents n' y Hin). pose proof (height_pos y). lia.
    + done.
    + done.
    + intros n' y k out' Hin. pose proof (height_child i ents n' y Hin). pose proof (width_child i ents n' y Hin).
      inversion Ht as [| |? ? _ _ Hnm Hx]; subst. destruct (Hnm _ _ Hin) as (_ & _ & Hln & _).
      apply IH; [by eapply Hx|by eapply reaches_child|by apply console_snoc|rewrite length_app; cbn [length]; lia| |lia|lia].
      rewrite length_app. cbn [length]. lia.
    + cbn [width] in Hm. lia.
Qed.

(** *** What find is asked for *)

(** The options of the command line, and the words they are written with. *)
Inductive find_opt :=
| OName (name : list Z)
| OType (dir : bool)
| OInum (c : comparison) (x : Z)
| OPrinti
| OOther (word : list Z).
Definition words (o : find_opt) : list (list Z) :=
  match o with
  | OName s => [lit "-name"; s]
  | OType d => [lit "-type"; if d then lit "d" else lit "f"]
  | OInum Eq x => [lit "-inum"; dec x]
  | OInum Gt x => [lit "-inum"; lit "+" ++ dec x]
  | OInum Lt x => [lit "-inum"; lit "-" ++ dec x]
  | OPrinti => [lit "-printi"]
  | OOther w => [w]
  end.
Definition opt_ok (o : find_opt) : Prop :=
  match o with
  | OName s => cstring s
  | OInum _ x => intz x
  | OOther w => cstring w ∧ w ∉ [lit "-name"; lit "-type"; lit "-inum"; lit "-printi"]
  | _ => True
  end.

(** Of options of the same kind the last one counts. *)
Definition names (os : list find_opt) : list (list Z) := omap (λ o, match o with OName s => Some s | _ => None end) os.
Definition types (os : list find_opt) : list bool := omap (λ o, match o with OType d => Some d | _ => None end) os.
Definition inums (os : list find_opt) : list (comparison * Z) := omap (λ o, match o with OInum c x => Some (c, x) | _ => None end) os.
Definition printis (os : list find_opt) : list unit := omap (λ o, match o with OPrinti => Some tt | _ => None end) os.
Definition others (os : list find_opt) : list (list Z) := omap (λ o, match o with OOther w => Some w | _ => None end) os.

Definition selects (os : list find_opt) (name : list Z) (dir : bool) (ino : Z) : bool :=
  bool_decide (last (names os) = Some name)
  && match last (types os) with Some d => Bool.eqb d dir | None => true end
  && match last (inums os) with Some (c, x) => bool_decide ((ino ?= x) = c) | None => true end.
Definition line (os : list find_opt) (path name : list Z) (dir : bool) (ino : Z) : list Z :=
  if selects os name dir ino then (match printis os with [] => [] | _ => dec ino ++ lit " " end) ++ path ++ [10] else [].
(** The lines of a tree reached by [path] that is called [name]. *)
Fixpoint listing (os : list find_opt) (path name : list Z) (x : node) : list Z :=
  match x with
  | NFile i _ => line os path name false i
  | NDev _ => []
  | NDir i l =>
      line os path name true i ++
      concat (map (λ e, match e with None => [] | Some (n, y) => listing os (path ++ lit "/" ++ n) n y end) l)
  end.
(** The output of [find]: a complaint, if a word is no option or no name is given. *)
Definition found (os : list find_opt) (path name : list Z) (x : node) : list Z :=
  if decide (others os = [] ∧ names os ≠ []) then listing os path name x else lit "error" ++ [10].

(** No name ends in a blank. *)
Definition tidy (n : list Z) : Prop := last n ≠ Some 32.
Inductive tree_tidy : node → Prop :=
| tidy_file i d : tree_tidy (NFile i d)
| tidy_dev i : tree_tidy (NDev i)
| tidy_dir i l : (∀ n x, Some (n, x) ∈ l → tidy n ∧ tree_tidy x) → tree_tidy (NDir i l).
(** [name] is what follows the last slash of [path]. *)
Definition called (path name : list Z) : Prop :=
  47 ∉ name ∧ cstring name ∧ tidy name ∧ (path = name ∨ ∃ pre, path = pre ++ lit "/" ++ name).

(** *** The program agrees *)
Lemma after_slash_app pre n : 47 ∉ n → after_slash (pre ++ 47 :: n) = n.
Proof.
  intros Hn. induction pre as [|c pre IH]; cbn [app after_slash].
  - rewrite bool_decide_eq_true_2 by apply list_elem_of_here. destruct n as [|a n]; [done|]. cbn [after_slash].
    by rewrite bool_decide_eq_false_2.
  - rewrite bool_decide_eq_true_2; [done|]. apply elem_of_cons. right. apply elem_of_app. right. apply list_elem_of_here.
Qed.
Lemma after_slash_none n : 47 ∉ n → after_slash n = n.
Proof. destruct n as [|a n]; [done|]. intros H. cbn [after_slash]. by rewrite bool_decide_eq_false_2. Qed.
Lemma called_base path name : called path name → after_slash path = name.
Proof. intros (H & _ & _ & [->|[pre ->]]); [by apply after_slash_none|by apply after_slash_app]. Qed.
Lemma rstrip_blanks k : rstrip (replicate k 32) = [].
Proof. induction k as [|k IH]; [done|]. cbn [replicate rstrip]. by rewrite IH. Qed.
Lemma rstrip_tidy n k : tidy n → rstrip (n ++ replicate k 32) = n.
Proof.
  induction n as [|c n IH]; intros H; cbn [app]; [apply rstrip_blanks|]. cbn [rstrip]. destruct n as [|a n].
  - cbn [app]. rewrite rstrip_blanks. destruct (Z.eqb_spec c 32) as [->|]; [by destruct H|done].
  - rewrite IH; [done|]. intros E. apply H. by rewrite last_cons, E.
Qed.
Lemma called_fmtname path name : called path name → find_fmtname path = name.
Proof.
  intros H. unfold find_fmtname. rewrite (called_base path name H). destruct (_ <=? _)%nat; [done|].
  apply rstrip_tidy, H.
Qed.

Definition inum_code (c : comparison) : Z := match c with Eq => 1 | Gt => 2 | Lt => 3 end.
Definition type_code (d : bool) : Z := if d then 100 else 102.
(** The variables of [main] after the options [os], from their values before. *)
Definition opts_after (os : list find_opt) (o : fopts) : fopts :=
  mkFopts (f_look o)
    (match last (types os) with Some _ => true | None => type_flag o end)
    (match last (types os) with Some d => type_code d | None => type_val o end)
    (match last (inums os) with Some (c, _) => inum_code c | None => inum_flag o end)
    (match printis os with [] => printi_flag o | _ => true end)
    (match last (inums os) with Some (_, x) => x | None => inum_val o end).

Lemma opts_after_type d os o : opts_after (OType d :: os) o =
  opts_after os (mkFopts (f_look o) true (type_code d) (inum_flag o) (printi_flag o) (inum_val o)).
Proof. unfold opts_after. change (types (OType d :: os)) with (d :: types os). rewrite last_cons. by destruct (last (types os)). Qed.
Lemma opts_after_inum c x os o : opts_after (OInum c x :: os) o =
  opts_after os (mkFopts (f_look o) (type_flag o) (type_val o) (inum_code c) (printi_flag o) x).
Proof.
  unfold opts_after. change (inums (OInum c x :: os)) with ((c, x) :: inums os). rewrite last_cons.
  by destruct (last (inums os)) as [[]|].
Qed.
Lemma opts_after_printi os o : opts_after (OPrinti :: os) o =
  opts_after os (mkFopts (f_look o) (type_flag o) (type_val o) (inum_flag o) true (inum_val o)).
Proof. unfold opts_after. change (printis (OPrinti :: os)) with (tt :: printis os). by destruct (printis os). Qed.

Lemma strcmp_word a b : a ≠ b → cstring a → cstring b → (strcmp a b =? 0) = false.
Proof. intros H Ha Hb. apply Z.eqb_neq. intros E. by apply strcmp_eq in E. Qed.
Lemma option_words : Forall cstring [lit "-name"; lit "-type"; lit "-inum"; lit "-printi"].
Proof. apply (bool_decide_unpack _). by vm_compute. Qed.
(** How the argument of [-inum] is read. *)
Lemma inum_word c x : intz x → ∃ v, words (OInum c x) = [lit "-inum"; v] ∧
  (if char_at v =? 43 then (2, atoi (tl v)) else if char_at v =? 45 then (3, atoi (tl v)) else (1, atoi v)) = (inum_code c, x).
Proof.
  intros Hx. destruct c; eexists; (split; [done|]).
  - destruct (dec_first x Hx) as [H1 H2]. rewrite (proj2 (Z.eqb_neq _ _) H1), (proj2 (Z.eqb_neq _ _) H2). by rewrite dec_atoi.
  - change (atoi (tl (lit "-" ++ dec x))) with (atoi (dec x)). by rewrite dec_atoi.
  - change (atoi (tl (lit "+" ++ dec x))) with (atoi (dec x)). by rewrite dec_atoi.
Qed.
Lemma find_args_words os : Forall opt_ok os → ∀ k look o, (length (concat (map words os)) < k)%nat →
  find_args k (concat (map words os)) look o =
  if decide (others os = []) then Some (match last (names os) with Some s => Some s | None => look end, opts_after os o) else None.
Proof.
  pose proof option_words as W. rewrite !Forall_cons in W. destruct W as (W1 & W2 & W3 & W4 & _).
  induction 1 as [|a os Ha _ IH]; intros k look o Hk; [destruct k; [cbn in Hk; lia|]; by destruct o|].
  cbn [map concat] in *. rewrite length_app in Hk. destruct k as [|k]; [lia|]. destruct a as [s|d|c x| |w].
  - cbn [words length app] in *. cbn [find_args]. change (strcmp (lit "-name") (lit "-name") =? 0) with true. cbv iota.
    rewrite IH by lia. change (names (OName s :: os)) with (s :: names os). rewrite last_cons. by destruct (last (names os)).
  - cbn [words length app] in *. cbn [find_args]. change (strcmp (lit "-type") (lit "-name") =? 0) with false.
    change (strcmp (lit "-type") (lit "-type") =? 0) with true. cbv iota.
    replace (char_at (if d then lit "d" else lit "f")) with (type_code d) by by destruct d.
    replace (negb (type_code d =? 100) && negb (type_code d =? 102)) with false by by destruct d.
    rewrite IH by lia. by rewrite opts_after_type.
  - destruct (inum_word c x Ha) as (v & -> & Hv). cbn [length app] in *. cbn [find_args].
    change (strcmp (lit "-inum") (lit "-name") =? 0) with false. change (strcmp (lit "-inum") (lit "-type") =? 0) with false.
    change (strcmp (lit "-inum") (lit "-inum") =? 0) with true. cbv iota. rewrite Hv. cbv beta iota.
    rewrite IH by (destruct c; cbn in Hk; lia). by rewrite opts_after_inum.
  - cbn [words length app] in *. cbn [find_args]. change (strcmp (lit "-printi") (lit "-name") =? 0) with false.
    change (strcmp (lit "-printi") (lit "-type") =? 0) with false. change (strcmp (lit "-printi") (lit "-inum") =? 0) with false.
    change (strcmp (lit "-printi") (lit "-printi") =? 0) with true. cbv iota. rewrite IH by lia. by rewrite opts_after_printi.
  - destruct Ha as [Hc Hw]. rewrite !not_elem_of_cons in Hw. destruct Hw as (N1 & N2 & N3 & N4 & _).
    cbn [words app find_args]. by rewrite !strcmp_word.
Qed.

(** The tests of the program are the selection asked for. *)
Definition opts0 : fopts := mkFopts [] false 0 0 false 0.
Lemma type_agrees os dir : let o := opts_after os opts0 in
  negb (type_flag o) || (type_val o =? type_code dir) =
  match last (types os) with Some d => Bool.eqb d dir | None => true end.
Proof. cbn. destruct (last (types os)) as [d|]; [|done]. by destruct d, dir. Qed.
Lemma inum_agrees os look ino : Forall opt_ok os → ino_ok ino → let o := opts_after os opts0 in
  inum_ok (mkFopts look (type_flag o) (type_val o) (inum_flag o) (printi_flag o) (inum_val o)) ino =
  match last (inums os) with Some (c, x) => bool_decide ((ino ?= x) = c) | None => true end.
Proof.
  intros Hok Hi o. unfold inum_ok, o. cbn [inum_flag inum_val opts_after opts0]. destruct (last (inums os)) as [[c x]|] eqn:E; [|done].
  assert (intz x) as Hx.
  { apply last_Some_elem_of, list_elem_of_omap in E as (a & Ha & E). rewrite Forall_forall in Hok. specialize (Hok a Ha).
    destruct a; try done. by injection E as <- <-. }
  unfold intz, ino_ok in *. rewrite u32_small by lia.
  destruct c; cbn [inum_code Z.eqb Pos.eqb andb orb]; rewrite ?orb_false_r; case_bool_decide as B;
    first [apply Z.compare_eq_iff in B | apply (proj1 (Z.compare_lt_iff _ _)) in B | apply Z.compare_gt_iff in B | idtac];
    rewrite ?Z.compare_eq_iff, ?Z.compare_lt_iff, ?Z.compare_gt_iff in B; lia.
Qed.
Lemma line_agrees os look x path name dir : last (names os) = Some look → Forall opt_ok os → called path name → ino_ok (node_ino x) →
  let o := opts_after os opts0 in
  walk_line (mkFopts look (type_flag o) (type_val o) (inum_flag o) (printi_flag o) (inum_val o)) (type_code dir) path x =
  line os path name dir (node_ino x).
Proof.
  intros Hl Hok Hc Hi o. unfold walk_line, line, selects. cbn [f_look type_flag type_val inum_flag printi_flag inum_val].
  rewrite (called_fmtname path name Hc), Hl.
  assert (cstring look) as Hcl.
  { assert (look ∈ names os) as Hin by by apply last_Some_elem_of. unfold names in Hin. apply list_elem_of_omap in Hin as (a & Ha & E).
    rewrite Forall_forall in Hok. specialize (Hok a Ha). destruct a; try done. by injection E as <-. }
  assert (Hn : (strcmp look name =? 0) = bool_decide (Some look = Some name)).
  { destruct Hc as (_ & Hcn & _). destruct (decide (look = name)) as [->|Hne].
    - rewrite bool_decide_eq_true_2 by done. apply Z.eqb_eq. by apply strcmp_eq.
    - rewrite bool_decide_eq_false_2 by congruence. by apply strcmp_word. }
  assert (Hp : (if printi_flag o then printf (lit "%d ") [PInt (node_ino x)] else []) =
    match printis os with [] => [] | _ => dec (node_ino x) ++ lit " " end).
  { unfold o. cbn [opts_after printi_flag]. destruct (printis os); [done|].
    change (printf (lit "%d ") [PInt (node_ino x)]) with (uprintint (i32 (node_ino x)) 10 true ++ lit " ").
    rewrite dec_printint; [done|]. unfold intz, ino_ok in *. lia. }
  rewrite Hn, Hp. unfold o. rewrite (type_agrees os dir), (inum_agrees os look (node_ino x)) by done.
  by rewrite (andb_comm _ (bool_decide (Some look = Some name))), andb_assoc.
Qed.
Lemma listing_agrees os look : last (names os) = Some look → Forall opt_ok os → let o := opts_after os opts0 in
  ∀ x path name, tree_ok x → tree_tidy x → called path name →
  walked (mkFopts look (type_flag o) (type_val o) (inum_flag o) (printi_flag o) (inum_val o)) path x = listing os path name x.
Proof.
  intros Hl Hok o. induction x as [i d|i|i l IH] using node_ind'; intros path name Ht Hd Hc; cbn [walked listing].
  - apply (line_agrees os look (NFile i d) path name false); try done. by inversion Ht.
  - done.
  - inversion Ht as [| |? ? Hi _ Hn Hx]; subst. inversion Hd as [| |? ? Hd']; subst.
    f_equal; [by apply (line_agrees os look (NDir i l) path name true)|]. f_equal. apply map_ext_in. intros e He%list_elem_of_In.
    destruct e as [[n y]|]; [|done]. rewrite Forall_forall in IH. apply (IH _ He); [by eapply Hx|by eapply Hd'|].
    destruct (Hn _ _ He) as (Hcs & _ & _ & Hs & _). split_and!; [done|done|by eapply Hd'|right; by exists path].
Qed.

(** C22: [find] lists exactly the files of the tree below a path that the
    options ask for. For any options in any order, written as words, any
    well-formed tree without a name that ends in a blank, whose levels fit the
    descriptors left and whose paths fit the 512-byte buffer, it prints, in the
    order of the directories, the path of every file and directory with the
    name of the last [-name], the type of the last [-type] and an inode number
    equal to, above or below that of the last [-inum], after its number in
    decimal under [-printi], and nothing else; with a word that is no option,
    or without a [-name], it prints only "error". It ends with every descriptor
    it opened closed. *)
Theorem find_lists n m prog path name os x r l out : Forall opt_ok os →
  tree_ok x → tree_tidy x → reaches r path x → called path name → console_fds l →
  (length l + height x ≤ NOFILE)%nat → Z.of_nat (length path) + 15 * Z.of_nat (height x) ≤ 511 →
  (height x ≤ n)%nat → (width x + 2 < m)%nat →
  urun (find_main n m (prog :: path :: concat (map words os))) (wld r l out) = UExit (wld r l (out ++ found os path name x)).
Proof.
  intros Hok Ht Hd Hp Hcd Hc Hl Hs Hn Hm. unfold find_main, found. change (drop 2 (prog :: path :: ?q)) with (drop 0 q). rewrite drop_0.
  assert (Herr : urun (uprintf 2 ("error" +:+ nlz) [] ≫= λ _, @Exit unit) (wld r l out) = UExit (wld r l (out ++ lit "error" ++ [10]))).
  { by rewrite urun_bind, urun_print by auto. }
  destruct (Nat.ltb_spec (length (prog :: path :: concat (map words os))) 3) as [H3|H3].
  { destruct os as [|o os]; [rewrite decide_False by naive_solver; exact Herr|]. exfalso. cbn [map concat length] in H3.
    rewrite length_app in H3. destruct o as [|[]|[]| |]; cbn in H3; lia. }
  rewrite find_args_words by (done || (cbn [length]; lia)). destruct (decide (others os = [])) as [Ho|Ho].
  2:{ rewrite decide_False by naive_solver. exact Herr. }
  destruct (last (names os)) as [look|] eqn:El.
  - rewrite decide_True by (split; [done|]; by intros E; rewrite E in El). rewrite urun_bind, (find_run _ _ _ x) by done.
    rewrite <- (listing_agrees os look El Hok x path name) by done. done.
  - rewrite decide_False by (intros [_ []]; by apply last_None). exact Herr.
Qed.

Definition demo_tree : node :=
  NDir 1 [Some (lit "README", NFile 2 (lit "hello")); None;
          Some (lit "d", NDir 3 [Some (lit "README", NFile 4 []); Some (lit "x", NDir 5 [])]);
          Some (lit "console", NDev 6)].
Definition tty : list (option node * nat) := [(None, O); (None, O); (None, O)].
Lemma demo_tree_ok : tree_ok demo_tree.
Proof.
  assert (N : ∀ s, bool_decide (cstring (lit s) ∧ lit s ≠ [] ∧ (length (lit s) ≤ 14)%nat ∧ 47 ∉ lit s ∧ lit s ≠ lit "." ∧ lit s ≠ lit "..") = true → name_ok (lit s))
    by (intros s H%bool_decide_eq_true_1; exact H).
  assert (D : ∀ i l, ino_ok i → bool_decide (NoDup (omap id l).*1) = true → Forall (λ e, match e with None => True | Some (n, x) => name_ok n ∧ tree_ok x end) l → tree_ok (NDir i l)).
  { intros i l Hi Hd%bool_decide_eq_true_1 Hf. rewrite Forall_forall in Hf. constructor; [done|done|intros n x Hin; by apply Hf in Hin as []..]. }
  unfold demo_tree. repeat first [apply D; [done|by vm_compute|] | apply Forall_nil; exact I | apply Forall_cons; split
    | split; [apply N; by vm_compute|] | exact I | apply ok_file; done | apply ok_dev; done].
Qed.
Lemma demo_tree_tidy : tree_tidy demo_tree.
Proof.
  assert (D : ∀ i l, Forall (λ e, match e with None => True | Some (n, x) => tidy n ∧ tree_tidy x end) l → tree_tidy (NDir i l)).
  { intros i l Hf. rewrite Forall_forall in Hf. constructor. intros n x Hin. by apply Hf in Hin as []. }
  unfold demo_tree. repeat first [apply D | apply Forall_nil; exact I | apply Forall_cons; split | split; [by vm_compute|]
    | exact I | apply tidy_file | apply tidy_dev].
Qed.
Lemma find_lists_witness :
  urun (find_main 3 10 [lit "find"; lit "/"; lit "-inum"; lit "+2"; lit "-name"; lit "README"; lit "-printi"; lit "-type"; lit "f"])
    (wld demo_tree tty []) = UExit (wld demo_tree tty (lit "4 //d/README" ++ [10])).
Proof.
  apply (find_lists 3 10 (lit "find") (lit "/") [] [OInum Gt 2; OName (lit "README"); OPrinti; OType false] demo_tree demo_tree tty []);
    [|apply demo_tree_ok|apply demo_tree_tidy|by exists []| |by eexists _, _, _| | | |].
  - apply Forall_cons; split; [by split|]. apply Forall_cons; split; [apply (bool_decide_unpack _); by vm_compute|].
    apply Forall_cons; split; [done|]. apply Forall_cons; split; [done|]. apply Forall_nil. exact I.
  - split_and!; [apply not_elem_of_nil|apply Forall_nil; exact I|done|right; by exists []].
  - by apply Nat.leb_le.
  - by vm_compute.
  - by apply Nat.leb_le.
  - by apply Nat.ltb_lt.
Defined.

(** ** cat *)
Lemma take_drop_min {A} n (l : list A) : take n l ++ drop (Nat.min n (length l)) l = l.
Proof.
  destruct (decide (n ≤ length l)%nat); [by rewrite Nat.min_l, take_drop by lia|].
  by rewrite Nat.min_r, drop_all, app_nil_r, take_ge by lia.
Qed.
Lemma cat_fd_run n : ∀ r l x off out, console_fds l → (length l < NOFILE)%nat → (off ≤ length (node_bytes x))%nat →
  (length (node_bytes x) < off + n)%nat →
  urun (cat_fd n (Z.of_nat (length l))) (wld r (l ++ [(Some x, off)]) out) =
  UDone tt (wld r (l ++ [(Some x, length (node_bytes x))]) (out ++ drop off (node_bytes x))).
Proof.
  induction n as [|n IH]; intros r l x off out Hc Hl Ho Hn; [lia|]. cbn [cat_fd].
  erewrite urun_sys by by apply respond_read. cbv beta iota. set (bs := slice (node_bytes x) off (Z.to_nat 512)).
  assert (Hb : length bs = Nat.min 512 (length (node_bytes x) - off)) by (unfold bs, slice; rewrite length_take, length_drop; lia).
  destruct (Z.ltb_spec 0 (Z.of_nat (length bs))) as [H0|H0].
  - rewrite Nat2Z.id, take_ge by done. destruct (console_get (l ++ [(Some x, (off + length bs)%nat)]) r out 1) as [k Hk]; [by apply console_snoc|auto|].
    erewrite urun_sys by (cbn [respond]; by rewrite Hk). rewrite Z.eqb_refl. cbn [negb]. etrans; [apply (IH r l x (off + length bs)%nat (out ++ bs)); [done|done|lia|lia]|].
    f_equal. unfold wld. f_equal. rewrite <- app_assoc. f_equal. unfold bs, slice. rewrite <- drop_drop.
    by rewrite length_take, take_drop_min.
  - rewrite (proj2 (Z.ltb_ge _ 0)) by lia. assert (off = length (node_bytes x)) as -> by lia.
    rewrite drop_all, app_nil_r. replace (length bs) with O by lia. by rewrite Nat.add_0_r.
Qed.

(** C34: [cat] prints the bytes of its files one after the other, however long
    they are (a device of the tree has none), and ends with their descriptors
    closed. *)
Theorem cat_prints n r l out prog (files : list (list Z * node)) : files ≠ [] → console_fds l → (length l < NOFILE)%nat →
  Forall (λ f, reaches r f.1 f.2 ∧ (length (node_bytes f.2) < n)%nat) files →
  urun (cat_main n (prog :: files.*1)) (wld r l out) = UExit (wld r l (out ++ concat (map node_bytes files.*2))).
Proof.
  intros Hne Hc Hl Hf. unfold cat_main. cbn [tl].
  assert (H : urun (cat_files n files.*1) (wld r l out) = UDone tt (wld r l (out ++ concat (map node_bytes files.*2)))).
  { clear Hne. revert out. induction Hf as [|[p x] files [Hr Hn] _ IH]; intros out; [cbn; by rewrite app_nil_r|]. cbn [fst snd] in *.
    cbn [fmap list_fmap fst snd cat_files map concat].
    erewrite urun_sys by (apply respond_open; [by apply reaches_resolve|done]). rewrite (proj2 (Z.ltb_ge _ 0)) by lia.
    rewrite urun_bind, cat_fd_run by (done || lia). erewrite urun_sys_ by by apply respond_close.
    rewrite drop_0. etrans; [apply IH|]. by rewrite <- app_assoc. }
  destruct files as [|f files]; [done|]. cbn [fmap list_fmap] in *. rewrite urun_bind, H. done.
Qed.
Lemma cat_prints_witness :
  urun (cat_main 100 [lit "cat"; lit "README"; lit "d/../README"]) (wld demo_tree tty []) =
  UExit (wld demo_tree tty (lit "hellohello")).
Proof.
  apply (cat_prints 100 demo_tree tty [] (lit "cat") [(lit "README", NFile 2 (lit "hello")); (lit "d/../README", NFile 2 (lit "hello"))]);
    [done|by eexists _, _, _|by apply Nat.ltb_lt|].
  repeat (apply Forall_cons; split; [split; [eexists; by vm_compute|by apply Nat.ltb_lt]|]). apply Forall_nil. exact I.
Defined.

(** ** ls *)
(** The line of an entry: its name padded with blanks to 14 characters, a slash
    for a directory, and the type, the inode number and the size in decimal. *)
Definition ls_text (name : list Z) (x : node) : list Z :=
  name ++ replicate (14 - length name) 32 ++ (match x with NDir _ _ => lit "/" | _ => [] end) ++
  lit " " ++ dec (node_type x) ++ lit " " ++ dec (node_ino x) ++ lit " " ++ dec (Z.of_nat (length (node_bytes x))) ++ [10].
Definition ls_shown (n : list Z) : Prop := head n ≠ Some 46.
Definition ls_listing (l : list (option (list Z * node))) : list Z :=
  concat (map (λ e, match e with Some (n, y) => if decide (ls_shown n) then ls_text n y else [] | None => [] end) l).
(** The size of every entry is an int. *)
Definition sizes_ok (l : list (option (list Z * node))) : Prop :=
  ∀ n x, Some (n, x) ∈ l → Z.of_nat (length (node_bytes x)) < 2147483648.

Lemma printf_ls (fmt : string) (sl : list Z) a t i z :
  lit fmt = lit "%s" ++ sl ++ lit " %d %d %d" ++ [10] → sl = [] ∨ sl = lit "/" → intz t → intz i → intz z →
  printf (lit fmt) [str a; PInt t; PInt i; PInt z] = a ++ sl ++ lit " " ++ dec t ++ lit " " ++ dec i ++ lit " " ++ dec z ++ [10].
Proof.
  intros -> Hsl Ht Hi Hz. rewrite <- (dec_printint t), <- (dec_printint i), <- (dec_printint z) by done. by destruct Hsl as [->| ->].
Qed.
Lemma ls_line_text path n x : 47 ∉ n → (length n ≤ 14)%nat → ino_ok (node_ino x) → Z.of_nat (length (node_bytes x)) < 2147483648 →
  printf (lit ((if node_type x =? UT_DIR then "%s/ %d %d %d" else "%s %d %d %d") +:+ nlz))
    [str (ls_fmtname (path ++ 47 :: n)); PInt (node_type x); PInt (node_ino x); PInt (Z.of_nat (length (node_bytes x)))] = ls_text n x.
Proof.
  intros Hs Hl Hi Hz. assert (ls_fmtname (path ++ 47 :: n) = n ++ replicate (14 - length n) 32) as ->.
  { unfold ls_fmtname. rewrite after_slash_app by done. destruct (Nat.leb_spec UDIRSIZ (length n)) as [H|H]; [|done].
    unfold UDIRSIZ in H. replace (14 - length n)%nat with O by lia. by rewrite app_nil_r. }
  unfold ls_text. rewrite (printf_ls _ (match x with NDir _ _ => lit "/" | _ => [] end)).
  - by rewrite <- !app_assoc.
  - by destruct x.
  - destruct x; auto.
  - by destruct x.
  - unfold intz, ino_ok in *. lia.
  - unfold intz. lia.
Qed.

Section ls_dir.
Context (r : node) (L : list (option node * nat)) (i : Z) (ents : list (option (list Z * node))) (path : list Z).
Context (HL : (S (length L) < NOFILE)%nat) (Ht : tree_ok (NDir i ents)) (Hp : reaches r path (NDir i ents)) (Hc : console_fds L) (Hz : sizes_ok ents).
Notation at_rec k := (L ++ [(Some (NDir i ents), (16 * k)%nat)]).

Lemma ls_dir_dot m k name out : (k = 0%nat ∧ name = lit ".") ∨ (k = 1%nat ∧ name = lit "..") →
  urun (ls_dir (S m) false (Z.of_nat (length L)) path) (wld r (at_rec k) out) =
  urun (ls_dir m false (Z.of_nat (length L)) path) (wld r (at_rec (S k)) out).
Proof.
  intros Hk. cbn [ls_dir]. inversion Ht as [| |? ? Hi _ _ _]; subst.
  assert (Er : records i ents !! k = Some (dirent_bytes i name)) by by destruct Hk as [[-> ->]|[-> ->]].
  erewrite urun_sys; [|by apply read_record; [|lia]]. rewrite Er. change (default [] (Some ?x)) with x. cbv beta iota.
  destruct (dirent_decode i name) as (D1 & D2 & D3); [done|destruct Hk as [[_ ->]|[_ ->]]..|].
  1, 2: apply (bool_decide_unpack _); by vm_compute.
  1, 2: cbn; lia.
  rewrite D1, D2. change (Z.of_nat 16 =? 16) with true. cbv iota.
  rewrite (proj2 (Z.eqb_neq i 0)) by (unfold ino_ok in *; lia).
  replace (negb false && _) with true by by destruct Hk as [[_ ->]|[_ ->]]. do 2 f_equal. do 3 f_equal. lia.
Qed.

Lemma ls_dir_step m k e out : ents !! k = Some e →
  urun (ls_dir (S m) false (Z.of_nat (length L)) path) (wld r (at_rec (2 + k)) out) =
  urun (ls_dir m false (Z.of_nat (length L)) path) (wld r (at_rec (3 + k)) (out ++ ls_listing [e])).
Proof.
  intros He. pose proof (list_elem_of_lookup_2 _ _ _ He) as Hin. cbn [ls_dir].
  assert (Er : records i ents !! (2 + k)%nat = Some (ent_bytes e)).
  { change ((ent_bytes <$> ents) !! k = Some (ent_bytes e)). by rewrite list_lookup_fmap, He. }
  erewrite urun_sys; [|by apply read_record; [|lia]]. rewrite Er. change (default [] (Some ?x)) with x. cbv beta iota.
  inversion Ht as [| |? ? _ _ Hn Hx]; subst. unfold ls_listing. cbn [map concat]. rewrite app_nil_r. destruct e as [[n x]|]; cbn [ent_bytes].
  - destruct (Hn _ _ Hin) as (Hcs & Hnn & Hl & Hsl & _).
    destruct (dirent_decode (node_ino x) n) as (D1 & D2 & D3); [eapply tree_ino, Hx, Hin|done|done|].
    rewrite D1, D2, D3. replace (16 * (2 + k) + 16)%nat with (16 * (3 + k))%nat by lia.
    change (Z.of_nat 16 =? 16) with true. cbv iota.
    rewrite (proj2 (Z.eqb_neq (node_ino x) 0)) by (pose proof (tree_ino _ (Hx _ _ Hin)); unfold ino_ok in *; lia).
    replace (char_at (drop 2 (dirent_bytes (node_ino x) n))) with (char_at n) by by destruct n.
    cbn [negb andb]. destruct (Z.eqb_spec (char_at n) 46) as [Hd|Hd].
    { rewrite decide_False; [by rewrite app_nil_r|]. intros []. destruct n; [done|]. cbn in *. by rewrite Hd. }
    rewrite decide_True by (destruct n; [done|]; intros [= E]; by destruct Hd).
    rewrite urun_bind, (urun_stat _ _ _ _ x); [|by eapply reaches_resolve, reaches_child|rewrite length_app, Nat.add_1_r; done].
    cbv beta iota. change (0 <? 0) with false. cbv iota. rewrite urun_bind. unfold ls_line.
    rewrite urun_print by (auto; by apply console_snoc). cbn [node_stat st_type st_ino st_size].
    rewrite ls_line_text; [done|done|done|by eapply tree_ino, Hx|by eapply Hz].
  - rewrite app_nil_r. change (length (replicate 16 0)) with 16%nat. change (Z.of_nat 16 =? 16) with true. cbv iota.
    change (de_num (replicate 16 0) =? 0) with true. cbv iota. do 2 f_equal. do 3 f_equal. lia.
Qed.

Lemma ls_dir_rest m k out : (length ents < m + k)%nat → (k ≤ length ents)%nat →
  urun (ls_dir m false (Z.of_nat (length L)) path) (wld r (at_rec (2 + k)) out) =
  UDone tt (wld r (at_rec (2 + length ents)) (out ++ ls_listing (drop k ents))).
Proof.
  revert k out. induction m as [|m IH]; intros k out Hm Hk; [lia|].
  destruct (decide (k = length ents)) as [->|Hne].
  - cbn [ls_dir]. erewrite urun_sys; [|by apply read_record; [|lia]].
    rewrite (lookup_ge_None_2 (records i ents)) by (cbn; rewrite length_map; lia). change (default [] None) with (@nil Z). cbn [length].
    change (Z.of_nat 0 =? 16) with false. cbv iota. rewrite drop_all, Nat.add_0_r. unfold ls_listing. cbn [map concat]. by rewrite app_nil_r.
  - destruct (lookup_lt_is_Some_2 ents k) as [e He]; [lia|]. rewrite (ls_dir_step m k e) by done.
    rewrite (drop_S _ _ _ He). etrans; [apply (IH (S k)); lia|]. do 2 f_equal. rewrite <- app_assoc. f_equal.
    unfold ls_listing. cbn [map concat]. by rewrite app_nil_r.
Qed.
End ls_dir.

(** C23: [ls] of a directory prints one line per entry whose name does not begin
    with a dot, in the order of the directory: the name padded with blanks to
    14 characters, a slash for a directory, the type, the inode number and the
    size in decimal. It closes its descriptors. Sizes are below 2 GB and the
    path fits the buffer. *)
Theorem ls_lists m r l out path i ents : tree_ok (NDir i ents) → reaches r path (NDir i ents) → console_fds l → sizes_ok ents →
  (S (length l) < NOFILE)%nat → Z.of_nat (length path) ≤ 496 → (length ents + 2 < m)%nat →
  urun (ls m path false) (wld r l out) = UDone tt (wld r l (out ++ ls_listing ents)).
Proof.
  intros Ht Hp Hc Hz Hl Hs Hm. unfold ls.
  erewrite urun_sys by (apply respond_open; [by apply reaches_resolve|lia]).
  rewrite (proj2 (Z.ltb_ge _ 0)) by lia. erewrite urun_sys by apply respond_fstat. cbv beta iota.
  change (0 <? 0) with false. cbv iota. cbn [node_stat st_type node_type]. change (1 =? UT_FILE) with false. change (1 =? UT_DIR) with true. cbv iota.
  unfold ustrlen. rewrite (proj2 (Z.ltb_ge 512 _)) by lia. rewrite urun_bind.
  destruct m as [|[|m]]; [lia..|].
  pose proof (ls_dir_dot r l i ents path Hl Ht (S m) 0 (lit ".") out) as H0. change (16 * 0)%nat with O in H0.
  rewrite H0, (ls_dir_dot r l i ents path Hl Ht _ 1 (lit "..")) by auto.
  rewrite (ls_dir_rest r l i ents path Hl Ht Hp Hc Hz m 0) by lia. rewrite drop_0.
  change (urun (sys_ ?c) ?w) with (urun (sys_ c ≫= Ret) w). by erewrite urun_sys_ by (apply respond_close; lia).
Qed.
Lemma ls_lists_witness :
  urun (ls 10 (lit ".") false) (wld demo_tree tty []) =
  UDone tt (wld demo_tree tty (lit "README         2 2 5" ++ [10] ++ lit "d             / 1 3 64" ++ [10] ++ lit "console        3 6 0" ++ [10])).
Proof.
  rewrite (ls_lists 10 demo_tree tty [] (lit ".") 1 _ demo_tree_ok); [by vm_compute|by exists []|by eexists _, _, _| |by apply Nat.ltb_lt|done|by apply Nat.ltb_lt].
  intros n x H. repeat (apply elem_of_cons in H as [H|H]; [try discriminate H; by injection H as -> ->|]). by apply elem_of_nil in H.
Defined.
