(* ===== verification/Umalloc.v ===== *)
(** * The memory allocator of user programs

    [umalloc.c], Kernighan and Ritchie's allocator: the free blocks form a ring
    through [base] in the order of their addresses, and a block begins with a
    header of 8 bytes, the link and the size in headers. The proofs view the heap
    as a row of tiles, each free or in use, without gaps. *)
From stdpp Require Import base strings numbers gmap list list_tactics.
From S2P Require Import Prelude Machine.

(** The memory of the process, [freep], and the size of the process, up to which
    memory exists. *)
Record heap := mkHeap { hm : memory; freep : Z; brk : Z }.
#[export] Instance eta_heap : Eta heap := λ r, mkHeap (hm r) (freep r) (brk r).

Abbreviation H := (M heap).
Definition hld (a : Z) : H Z := gets (λ s, ld32 (hm s) a).
Definition hst (a v : Z) : H unit := modify (λ s, s <| hm ::= λ m, st32 m a v |>).

Section umalloc.
(** The address of the static variable [base], and whether the kernel has the
    memory to extend a process from one size to another. *)
Context (base : Z) (avail : Z → Z → bool).

(** [sbrk] as a program sees it: [sys_sbrk] and [growproc]. The count is an [int];
    a negative one shrinks the process unless the sum wraps around. *)
Definition grow (sz n : Z) : option Z :=
  if 0 <? n then
    if KERNBASE <=? u32 (sz + n) then None
    else if u32 (sz + n) <? sz then Some sz
    else if avail sz (u32 (sz + n)) then Some (u32 (sz + n)) else None
  else if n <? 0 then
    let s' := if sz <=? u32 (sz + n) then sz else u32 (sz + n) in
    if s' =? 0 then None else Some s'
  else Some sz.

Definition sbrk (n : Z) : H Z :=
  b ← gets brk;
  match grow b (i32 n) with
  | Some b' => modify (λ s, s <| brk := b' |>);; mret b
  | None => mret (u32 (-1))
  end.

(** The loop of [free]: the block after which [bp] belongs. *)
Fixpoint free_find (fuel : nat) (bp p : Z) : H Z :=
  match fuel with
  | O => waiting
  | S f =>
      nx ← hld p;
      if (p <? bp) && (bp <? nx) then mret p
      else if (nx <=? p) && ((p <? bp) || (bp <? nx)) then mret p
      else free_find f bp nx
  end.

(** [bp] is joined to the block after it, or linked to it; then [p] to [bp]. *)
Definition free_right (bp p : Z) : H unit :=
  pn ← hld p;
  bs ← hld (bp + 4);
  if u32 (bp + 8 * bs) =? pn then
    ns ← hld (pn + 4);
    hst (bp + 4) (u32 (bs + ns));;
    nn ← hld pn;
    hst bp nn
  else hst bp pn.

Definition free_left (bp p : Z) : H unit :=
  ps ← hld (p + 4);
  if u32 (p + 8 * ps) =? bp then
    bs ← hld (bp + 4);
    hst (p + 4) (u32 (ps + bs));;
    bn ← hld bp;
    hst p bn
  else hst p bp.

(** The fuel is the size of the process, which has fewer blocks than bytes. *)
Definition free (ap : Z) : H unit :=
  let bp := u32 (ap - 8) in
  p0 ← gets freep;
  b ← gets brk;
  p ← free_find (Z.to_nat b) bp p0;
  free_right bp p;;
  free_left bp p;;
  modify (λ s, s <| freep := p |>).

Definition morecore (nu : Z) : H Z :=
  let nu := if nu <? 4096 then 4096 else nu in
  p ← sbrk (u32 (nu * 8));
  if p =? u32 (-1) then mret 0
  else
    hst (p + 4) nu;;
    free (u32 (p + 8));;
    gets freep.

(** The block [p] after [prevp] is large enough. *)
Definition malloc_take (nunits prevp p size : Z) : H Z :=
  q ← (if size =? nunits then pn ← hld p; hst prevp pn;; mret p
       else
         hst (p + 4) (u32 (size - nunits));;
         let q := u32 (p + 8 * u32 (size - nunits)) in
         hst (q + 4) nunits;; mret q);
  modify (λ s, s <| freep := prevp |>);;
  mret (u32 (q + 8)).

Fixpoint malloc_loop (fuel : nat) (nunits prevp p : Z) : H Z :=
  match fuel with
  | O => waiting
  | S f =>
      size ← hld (p + 4);
      if nunits <=? size then malloc_take nunits prevp p size
      else
        fp ← gets freep;
        if p =? fp then
          p' ← morecore nunits;
          if p' =? 0 then mret 0
          else nx ← hld p'; malloc_loop f nunits p' nx
        else nx ← hld p; malloc_loop f nunits p nx
  end.

Definition malloc_units (nbytes : Z) : Z := u32 (nbytes + 8 - 1) / 8 + 1.

Definition malloc (nbytes : Z) : H Z :=
  let nunits := malloc_units nbytes in
  fp ← gets freep;
  (if fp =? 0 then
     hst base base;; modify (λ s, s <| freep := base |>);; hst (base + 4) 0
   else skip);;
  prevp ← gets freep;
  p ← hld prevp;
  b ← gets brk;
  malloc_loop (Z.to_nat (2 * b + 32768)) nunits prevp p.

(** ** Tiles *)

(** A tile: its address, its size in headers, and whether it is free. *)
Record tile := mkTile { t_addr : Z; t_size : Z; t_free : bool }.
#[export] Instance tile_eq_dec : EqDecision tile.
Proof. solve_decision. Defined.
Definition t_end (t : tile) : Z := t_addr t + 8 * t_size t.

(** The tiles fill the addresses from [lo] to [hi]. *)
Fixpoint tiled (lo : Z) (ts : list tile) (hi : Z) : Prop :=
  match ts with
  | [] => lo = hi
  | t :: ts' => t_addr t = lo ∧ 0 < t_size t ∧ tiled (t_end t) ts' hi
  end.

(** No two free tiles are neighbours. *)
Fixpoint coalesced (ts : list tile) : Prop :=
  match ts with
  | t :: ((u :: _) as ts') => ¬ (t_free t = true ∧ t_free u = true) ∧ coalesced ts'
  | _ => True
  end.

(** The addresses of the free tiles. *)
Definition free_tiles (ts : list tile) : list Z := t_addr <$> filter (λ t, t_free t = true) ts.

#[local] Arguments free_tiles _ : simpl never.

(** From [p], the links lead over [l] to [q]. *)
Fixpoint path (m : memory) (p : Z) (l : list Z) (q : Z) : Prop :=
  match l with
  | [] => ld32 m p = q
  | a :: l' => ld32 m p = a ∧ path m a l' q
  end.

(** The last node of a path. *)
Fixpoint lastn (p : Z) (l : list Z) : Z := match l with [] => p | a :: l' => lastn a l' end.

(** The state of the allocator represents the tiles [ts] from [lo] on. *)
Definition hrep (lo : Z) (ts : list tile) (s : heap) : Prop :=
  0 < base ∧ base + 8 ≤ lo ∧ brk s < KERNBASE ∧ tiled lo ts (brk s) ∧ coalesced ts ∧
  (∀ t, t ∈ ts → ld32 (hm s) (t_addr t + 4) = t_size t) ∧
  ld32 (hm s) (base + 4) = 0 ∧ path (hm s) base (free_tiles ts) base ∧
  (freep s = base ∨ freep s ∈ free_tiles ts).

Lemma tiled_app lo t1 t2 hi : tiled lo (t1 ++ t2) hi ↔ ∃ mid, tiled lo t1 mid ∧ tiled mid t2 hi.
Proof.
  revert lo. induction t1 as [|t t1 IH]; intros lo; cbn.
  - split; [eauto|]. by intros (? & -> & ?).
  - rewrite IH. naive_solver.
Qed.

Lemma tiled_le lo ts hi : tiled lo ts hi → lo + 8 * Z.of_nat (length ts) ≤ hi.
Proof.
  revert lo. induction ts as [|t ts IH]; intros lo; cbn [tiled length]; [lia|].
  intros (<- & Hn & Ht%IH). unfold t_end in Ht. lia.
Qed.

Lemma tiled_in lo ts hi t : tiled lo ts hi → t ∈ ts → lo ≤ t_addr t ∧ 0 < t_size t ∧ t_end t ≤ hi.
Proof.
  intros H (t1 & t2 & ->)%list_elem_of_split. apply tiled_app in H as (mid & H1 & (<- & Hn & H2)).
  apply tiled_le in H1, H2. lia.
Qed.

Lemma free_tiles_app t1 t2 : free_tiles (t1 ++ t2) = free_tiles t1 ++ free_tiles t2.
Proof. unfold free_tiles. by rewrite filter_app, fmap_app. Qed.
Lemma free_tiles_cons_true a n ts : free_tiles (mkTile a n true :: ts) = a :: free_tiles ts.
Proof. done. Qed.
Lemma free_tiles_cons_false a n ts : free_tiles (mkTile a n false :: ts) = free_tiles ts.
Proof. done. Qed.
Lemma elem_of_free ts a : a ∈ free_tiles ts ↔ ∃ n, mkTile a n true ∈ ts.
Proof.
  unfold free_tiles. rewrite list_elem_of_fmap. split.
  - intros ([b n f] & -> & [Hf Hin]%list_elem_of_filter). simpl in *. subst. eauto.
  - intros [n Hn]. exists (mkTile a n true). by rewrite list_elem_of_filter.
Qed.
Lemma free_tiles_len ts : (length (free_tiles ts) ≤ length ts)%nat.
Proof. unfold free_tiles. rewrite length_fmap. apply length_filter. Qed.

(** Two tiles at one address are one tile; headers of two tiles do not overlap. *)
Lemma tiled_sep lo t1 t t2 hi u : tiled lo (t1 ++ t :: t2) hi → u ∈ t1 ++ t2 →
  t_end u ≤ t_addr t ∨ t_end t ≤ t_addr u.
Proof.
  intros (mid & H1 & (<- & Hn & H2))%tiled_app [Hu|Hu]%elem_of_app.
  - left. by apply (tiled_in _ _ _ _ H1) in Hu as (_ & _ & ?).
  - right. by apply (tiled_in _ _ _ _ H2) in Hu as (? & _).
Qed.

Lemma tiled_apart lo ts hi t u : tiled lo ts hi → t ∈ ts → u ∈ ts →
  t_addr t = t_addr u ∨ t_addr t + 8 ≤ t_addr u ∨ t_addr u + 8 ≤ t_addr t.
Proof.
  intros Ht Hin Hu. apply list_elem_of_split in Hin as (t1 & t2 & ->). rewrite elem_of_app, elem_of_cons in Hu.
  apply tiled_app in Ht as (mid & H1 & (<- & Hn & H2)). destruct Hu as [Hu|[->|Hu]]; [|by left|].
  - apply (tiled_in _ _ _ _ H1) in Hu. unfold t_end in *. lia.
  - apply (tiled_in _ _ _ _ H2) in Hu. unfold t_end in *. lia.
Qed.

Lemma tiled_disj lo ts hi t u : tiled lo ts hi → t ∈ ts → u ∈ ts → t_free t ≠ t_free u →
  t_end t ≤ t_addr u ∨ t_end u ≤ t_addr t.
Proof.
  intros Ht Hin Hu Hf. apply list_elem_of_split in Hin as (t1 & t2 & ->). rewrite elem_of_app, elem_of_cons in Hu.
  destruct (tiled_sep lo t1 t t2 hi u Ht); [|tauto|tauto]. rewrite elem_of_app. naive_solver.
Qed.

Lemma coalesced_app l t r : coalesced (l ++ t :: r) ↔ coalesced (l ++ [t]) ∧ coalesced (t :: r).
Proof.
  induction l as [|u l IH]; [cbn; tauto|]. destruct l as [|v l]; [cbn; tauto|].
  change (coalesced ((u :: v :: l) ++ ?x)) with (¬ (t_free u = true ∧ t_free v = true) ∧ coalesced ((v :: l) ++ x)).
  rewrite IH. tauto.
Qed.

Lemma coalesced_tail t l : coalesced (t :: l) → coalesced l.
Proof. destruct l; [done|]. by intros [_ ?]. Qed.

Lemma coalesced_init l t : coalesced (l ++ [t]) → coalesced l.
Proof.
  induction l as [|u l IH]; [done|]. destruct l as [|v l]; [done|].
  change (coalesced ((u :: v :: l) ++ ?x)) with (¬ (t_free u = true ∧ t_free v = true) ∧ coalesced ((v :: l) ++ x)).
  intros [? ?%IH]. by split.
Qed.

Lemma coalesced_ext l t t' : t_free t = t_free t' → coalesced (l ++ [t]) → coalesced (l ++ [t']).
Proof.
  intros E. induction l as [|u l IH]; [done|]. destruct l as [|v l]; [cbn; by rewrite E|].
  change (coalesced ((u :: v :: l) ++ ?x)) with (¬ (t_free u = true ∧ t_free v = true) ∧ coalesced ((v :: l) ++ x)).
  naive_solver.
Qed.

Lemma coalesced_snoc l t : coalesced l → (∀ l' a k, l ≠ l' ++ [mkTile a k true]) → coalesced (l ++ [t]).
Proof.
  destruct l as [|u l _] using rev_ind; [done|]. intros Hc Hn. rewrite <- app_assoc. simpl. apply coalesced_app. split; [done|].
  destruct u as [a k []]; [by destruct (Hn l a k)|]. cbn. naive_solver.
Qed.

Lemma coalesced_mid l t r : t_free t = false → coalesced l → coalesced r → coalesced (l ++ t :: r).
Proof.
  intros Ht Hl Hr. apply coalesced_app. split.
  - destruct l as [|u l _] using rev_ind; [done|]. rewrite <- app_assoc. simpl. apply coalesced_app. split; [done|].
    split; [|done]. rewrite Ht. by intros [_ ?].
  - destruct r; [done|]. split; [|done]. rewrite Ht. by intros [? _].
Qed.

(** ** Paths *)

Lemma path_app m p l1 a l2 q : path m p (l1 ++ a :: l2) q ↔ path m p l1 a ∧ path m a l2 q.
Proof. revert p. induction l1 as [|b l1 IH]; intros p; cbn; [done|]. rewrite IH. naive_solver. Qed.

Lemma path_last m p l q : path m p l q → ld32 m (lastn p l) = q.
Proof. revert p. induction l as [|a l IH]; intros p; cbn; [done|]. intros [_ H]. by apply IH. Qed.

Lemma lastn_app p l1 a l2 : lastn p (l1 ++ a :: l2) = lastn a l2.
Proof. revert p. induction l1 as [|b l1 IH]; intros p; cbn; [done|]. apply IH. Qed.

Lemma lastn_in p l : lastn p l = p ∨ lastn p l ∈ l.
Proof.
  revert p. induction l as [|a l IH]; intros p; cbn; [by left|]. right. destruct (IH a) as [->|]; set_solver.
Qed.

Lemma path_frame m m' p l q : (∀ a, a ∈ p :: l → ld32 m' a = ld32 m a) → path m p l q → path m' p l q.
Proof.
  revert p. induction l as [|a l IH]; intros p Hm; cbn.
  - intros <-. apply Hm. set_solver.
  - intros [<- H]. split; [apply Hm; set_solver|]. apply IH; [|done]. intros b Hb. apply Hm. set_solver.
Qed.

(** Setting the last link. *)
Lemma path_set m p l q q' : 0 ≤ q' < 4294967296 →
  (∀ a, a ∈ p :: l → a = lastn p l ∨ a + 4 ≤ lastn p l ∨ lastn p l + 4 ≤ a) →
  NoDup (p :: l) → path m p l q → path (st32 m (lastn p l) q') p l q'.
Proof.
  intros Hq. revert p. induction l as [|a l IH]; intros p Hs Hd; cbn -[st32].
  - intros _. rewrite ld32_st32. by apply u32_small.
  - intros [E H]. apply NoDup_cons in Hd as [Hp Hd]. cbn [lastn] in Hs. split.
    + rewrite ld32_st32_ne; [done|]. destruct (Hs p) as [E'|]; [set_solver| |lia].
      destruct Hp. rewrite E'. destruct (lastn_in a l) as [->|]; set_solver.
    + apply IH; [|done|done]. intros b Hb. apply Hs. set_solver.
Qed.

(** Ascending nodes, at least a header apart. *)
Fixpoint asc (p : Z) (l : list Z) : Prop :=
  match l with [] => True | a :: l' => p + 8 ≤ a ∧ asc a l' end.

Lemma asc_in p l a : asc p l → a ∈ l → p + 8 ≤ a.
Proof.
  revert p. induction l as [|b l IH]; intros p; cbn; [by intros _ ?%elem_of_nil|].
  intros [Hb Hl] [->|Ha]%elem_of_cons; [done|]. pose proof (IH b Hl Ha). lia.
Qed.

Lemma asc_app p l1 a l2 : asc p (l1 ++ a :: l2) ↔ asc p (l1 ++ [a]) ∧ asc a l2.
Proof. revert p. induction l1 as [|b l1 IH]; intros p; cbn; [tauto|]. rewrite IH. tauto. Qed.

Lemma asc_nodup p l : asc p l → NoDup (p :: l).
Proof.
  revert p. induction l as [|a l IH]; intros p H; [apply NoDup_singleton|].
  constructor; [|by apply IH, H]. intros Hin. pose proof (asc_in _ _ _ H Hin). lia.
Qed.

Lemma asc_lastn p l a : asc p l → a ∈ p :: l → a = lastn p l ∨ a + 8 ≤ lastn p l.
Proof.
  revert p. induction l as [|b l IH]; intros p; cbn [asc lastn].
  - intros _ ->%list_elem_of_singleton. by left.
  - intros [Hb Hl] [->|Ha]%elem_of_cons; [|by apply IH].
    right. destruct (lastn_in b l) as [->|Hin]; [lia|]. pose proof (asc_in _ _ _ Hl Hin). lia.
Qed.

Lemma asc_tiles lo ts hi p : tiled lo ts hi → p + 8 ≤ lo → asc p (free_tiles ts).
Proof.
  revert lo p. induction ts as [|[a n f] ts IH]; intros lo p; [done|]. cbn [tiled]. intros (Ha & Hn & Ht) Hp.
  unfold t_end in *. simpl in *. destruct f.
  - rewrite free_tiles_cons_true. split; [lia|]. eapply IH; [done|lia].
  - rewrite free_tiles_cons_false. eapply IH; [done|lia].
Qed.

(** ** The search of free *)

Lemma find_fwd l1 : ∀ fuel l2 bp p s, asc p (l1 ++ l2) → base ≤ p < bp → base < bp →
  Forall (λ a, a < bp) l1 → Forall (λ a, bp < a) l2 → (length l1 < fuel)%nat →
  path (hm s) p (l1 ++ l2) base → free_find fuel bp p s = Ok (lastn p l1) s.
Proof.
  induction l1 as [|a l1 IH]; intros [|fuel] l2 bp p s HA Hp Hb H1 H2 Hf HP; cbn in Hf; try lia;
    cbn [free_find]; unfold hld; rewrite bind_gets.
  - cbn [app lastn] in *. destruct l2 as [|b l2]; cbn in HP.
    + rewrite HP. replace ((p <? bp) && (bp <? base)) with false by lia.
      by replace ((base <=? p) && ((p <? bp) || (bp <? base))) with true by lia.
    + destruct HP as [-> _]. apply Forall_cons in H2 as [Hb2 _].
      by replace ((p <? bp) && (bp <? b)) with true by lia.
  - destruct HP as [-> HP]. destruct HA as [Ha HA]. apply Forall_cons in H1 as [Hab H1].
    replace ((p <? bp) && (bp <? a)) with false by lia.
    replace ((a <=? p) && ((p <? bp) || (bp <? a))) with false by lia.
    apply (IH fuel l2 bp a s); try done; lia.
Qed.

Lemma find_wrap l : ∀ fuel bp p s, bp < p → base < bp → asc p l → path (hm s) p l base →
  free_find (S (length l) + fuel) bp p s = free_find fuel bp base s.
Proof.
  induction l as [|a l IH]; intros fuel bp p s Hp Hb HA HP; cbn [length Nat.add free_find]; unfold hld; rewrite bind_gets.
  - cbn in HP. rewrite HP. replace ((p <? bp) && (bp <? base)) with false by lia.
    by replace ((base <=? p) && ((p <? bp) || (bp <? base))) with false by lia.
  - destruct HP as [-> HP]. destruct HA as [Ha HA].
    replace ((p <? bp) && (bp <? a)) with false by lia.
    replace ((a <=? p) && ((p <? bp) || (bp <? a))) with false by lia.
    apply (IH fuel bp a s); try done; lia.
Qed.

(** From any node of the ring, the search ends at the free tile before [bp]. *)
Lemma free_find_ok lo t1 bp n t2 s fuel : hrep lo (t1 ++ mkTile bp n false :: t2) s →
  (2 * length (t1 ++ t2) + 3 ≤ fuel)%nat →
  free_find fuel bp (freep s) s = Ok (lastn base (free_tiles t1)) s.
Proof.
  intros (Hb0 & Hb & Hk & Ht & _ & _ & _ & HP & HF) Hf.
  pose proof Ht as (mid & H1 & (Em & Hn & H2))%tiled_app. unfold t_end in H2. simpl in Em, Hn, H2. subst mid.
  rewrite free_tiles_app, free_tiles_cons_false in HP, HF.
  pose proof (asc_tiles _ _ _ base Ht Hb) as HA. rewrite free_tiles_app, free_tiles_cons_false in HA.
  pose proof (tiled_le _ _ _ H1). 
  assert (Forall (λ a, a < bp) (free_tiles t1)) as F1.
  { apply Forall_forall. intros a [k Hin]%elem_of_free. destruct (tiled_in _ _ _ _ H1 Hin) as (_ & ? & ?). unfold t_end in *. simpl in *. lia. }
  assert (Forall (λ a, bp < a) (free_tiles t2)) as F2.
  { apply Forall_forall. intros a [k Hin]%elem_of_free. destruct (tiled_in _ _ _ _ H2 Hin) as (? & _ & _). simpl in *. lia. }
  pose proof (free_tiles_len t1). pose proof (free_tiles_len t2). rewrite length_app in Hf.
  destruct HF as [->|[HF|HF]%elem_of_app].
  - apply find_fwd with (l2 := free_tiles t2); try done; lia.
  - apply list_elem_of_split in HF as (u1 & u2 & E). rewrite E in *. rewrite <- app_assoc in HA, HP. cbn in HA, HP.
    apply path_app in HP as [_ HP]. apply asc_app in HA as [HA1 HA]. rewrite lastn_app.
    pose proof (asc_in _ _ (freep s) HA1 ltac:(set_solver)). apply Forall_app in F1 as [_ F1]. apply Forall_cons in F1 as [? F1].
    rewrite length_app in *. cbn in *. apply find_fwd with (l2 := free_tiles t2); try done; lia.
  - apply list_elem_of_split in HF as (u1 & u2 & E). pose proof HP as HP'. pose proof HA as HA'. rewrite E in HP', HA'.
    rewrite app_assoc in HP', HA'. apply path_app in HP' as [_ HP']. apply asc_app in HA' as [_ HA'].
    rewrite Forall_forall in F2. pose proof (F2 (freep s) ltac:(rewrite E; set_solver)).
    rewrite E, length_app in *. cbn in *.
    replace fuel with (S (length u2) + (fuel - S (length u2)))%nat by lia. rewrite find_wrap by (done || lia).
    apply find_fwd with (l2 := u1 ++ freep s :: u2); try done; try lia. by apply Forall_forall.
Qed.

(** ** free *)

Lemma path_suffix m p l1 l2 q : path m p (l1 ++ l2) q → path m (lastn p l1) l2 q.
Proof. revert p. induction l1 as [|a l1 IH]; intros p; cbn; [done|]. intros [_ Hp]. by apply IH. Qed.

Lemma path_prefix m p l1 l2 q : path m p (l1 ++ l2) q → path m p l1 (hd q l2).
Proof. destruct l2 as [|a l2]; [by rewrite app_nil_r|]. by intros [? _]%path_app. Qed.

Lemma path_head m m' p p' l q : ld32 m' p' = ld32 m p → (∀ a, a ∈ l → ld32 m' a = ld32 m a) →
  path m p l q → path m' p' l q.
Proof.
  intros E Hm. destruct l as [|a l]; cbn; rewrite E; [done|]. intros [-> Hp]. split; [done|].
  by eapply path_frame.
Qed.

(** Memory outside a header is unchanged. *)
Definition off_header (a : Z) (m m' : memory) : Prop := ∀ x, x < a ∨ a + 8 ≤ x → ld8 m' x = ld8 m x.

Lemma off_header_ld32 a m m' x : off_header a m m' → x + 4 ≤ a ∨ a + 8 ≤ x → ld32 m' x = ld32 m x.
Proof. intros Ho Hx. apply ld32_same. intros y Hy. apply Ho. lia. Qed.

Lemma off_header_st32 a m x v : a ≤ x → x + 4 ≤ a + 8 → off_header a m (st32 m x v).
Proof. intros Hx Hx' y Hy. apply ld8_st32_ne. lia. Qed.

Lemma off_header_trans a m1 m2 m3 : off_header a m1 m2 → off_header a m2 m3 → off_header a m1 m3.
Proof. intros H1 H2 x Hx. by rewrite H2, H1. Qed.

Definition starts_free (ts : list tile) : bool := match ts with t :: _ => t_free t | [] => false end.
Definition used (ts : list tile) : list tile := filter (λ t, t_free t = false) ts.

Lemma hd_free ts lo hi : tiled lo ts hi → starts_free ts = false → base < lo → hd base (free_tiles ts) ≠ lo.
Proof.
  intros Ht Hs Hb. destruct ts as [|[a n f] ts]; [change (free_tiles []) with (@nil Z); simpl; lia|]. cbn in *. subst f. destruct Ht as (<- & Hn & Ht). simpl in *.
  rewrite free_tiles_cons_false. destruct (free_tiles ts) as [|b l] eqn:E; cbn; [lia|].
  assert (b ∈ free_tiles ts) as (k & Hin)%elem_of_free by (rewrite E; by left).
  destruct (tiled_in _ _ _ _ Ht Hin) as (Hle & _). unfold t_end in Hle. simpl in *. lia.
Qed.

(** What [free_right] makes of the tiles after [bp]. *)
Definition joined (n : Z) (t2 : list tile) (n' : Z) (t2' : list tile) : Prop :=
  (starts_free t2 = false ∧ n' = n ∧ t2' = t2) ∨ (∃ a k, t2 = mkTile a k true :: t2' ∧ n' = n + k).

Lemma free_right_ok bp n p t2 hi s : 0 ≤ bp → base < bp → hi < KERNBASE → 0 < n → tiled (bp + 8 * n) t2 hi →
  (∀ t, t ∈ t2 → ld32 (hm s) (t_addr t + 4) = t_size t) → ld32 (hm s) (bp + 4) = n →
  path (hm s) p (free_tiles t2) base →
  ∃ s1 n' t2', free_right bp p s = Ok tt s1 ∧ joined n t2 n' t2' ∧ freep s1 = freep s ∧ brk s1 = brk s ∧
    off_header bp (hm s) (hm s1) ∧ ld32 (hm s1) (bp + 4) = n' ∧ path (hm s1) bp (free_tiles t2') base.
Proof.
  intros Hbp Hb Hhi Hn Ht Hsz Hbs HP. pose proof (tiled_le _ _ _ Ht) as Hle. unfold KERNBASE in *.
  assert (∀ a, a ∈ free_tiles t2 → bp + 8 ≤ a) as Hge.
  { intros a (k & Hin)%elem_of_free. destruct (tiled_in _ _ _ _ Ht Hin) as (? & _). simpl in *. lia. }
  assert (ld32 (hm s) p = hd base (free_tiles t2)) as Hpn by (by destruct (free_tiles t2); cbn in HP; [|destruct HP]).
  unfold free_right, hld. rewrite !bind_gets, Hbs, Hpn. rewrite u32_small by lia.
  destruct (starts_free t2) eqn:Es.
  - destruct t2 as [|[a k f] t2]; [done|]. cbn in Es. subst f. destruct Ht as (Ha & Hk & Ht). unfold t_end in Ht. simpl in *. subst a.
    rewrite Z.eqb_refl. pose proof (tiled_le _ _ _ Ht).
    pose proof (Hsz (mkTile (bp + 8 * n) k true) ltac:(by left)) as Hak. simpl in Hak. rewrite bind_gets, Hak.
    unfold hst. rewrite bind_modify, bind_gets. eexists _, (n + k), t2. split; [reflexivity|].
    split; [right; eauto|]. split; [done|]. split; [done|]. simpl hm. rewrite (u32_small (n + k)) by lia.
    set (m1 := st32 (hm s) (bp + 4) (n + k)). assert (off_header bp (hm s) m1) as O1 by (apply off_header_st32; lia).
    rewrite (off_header_ld32 bp (hm s) m1 (bp + 8 * n)) by (done || lia). set (nn := ld32 (hm s) (bp + 8 * n)).
    assert (off_header bp (hm s) (st32 m1 bp nn)) as O2 by (eapply off_header_trans; [done|]; apply off_header_st32; lia).
    split; [done|]. rewrite ld32_st32_ne by lia. unfold m1 at 1. rewrite ld32_st32, u32_small by lia. split; [done|].
    destruct HP as [_ HP]. eapply path_head; [|..|exact HP].
    + rewrite ld32_st32. apply u32_small, ld32_range.
    + intros a Ha. eapply off_header_ld32; [exact O2|]. right. apply Hge. by right.
  - rewrite (proj2 (Z.eqb_neq _ _)) by (intros E; eapply hd_free; [exact Ht|done|lia|done]).
    eexists _, n, t2. split; [reflexivity|]. split; [by left|]. split; [done|]. split; [done|]. simpl hm.
    set (nx := hd base (free_tiles t2)).
    assert (off_header bp (hm s) (st32 (hm s) bp nx)) as O by (apply off_header_st32; lia).
    split; [done|]. rewrite ld32_st32_ne by lia. split; [done|]. eapply path_head; [|..|exact HP].
    + rewrite ld32_st32, Hpn. apply u32_small. unfold nx. rewrite <- Hpn. apply ld32_range.
    + intros a Ha. eapply off_header_ld32; [exact O|]. right. by apply Hge.
Qed.

(** What [free_left] makes of the tiles before [bp]. *)
Definition joined_left (t1 : list tile) (bp n : Z) (t2 ts : list tile) : Prop :=
  (ts = t1 ++ mkTile bp n true :: t2 ∧ ∀ t1' a k, t1 ≠ t1' ++ [mkTile a k true]) ∨
  (∃ t1' a k, t1 = t1' ++ [mkTile a k true] ∧ ts = t1' ++ mkTile a (k + n) true :: t2).

(** The words of the headers before [bp] that [free_left] reads. *)
Definition node_ok (m : memory) (t1 : list tile) : Prop :=
  ld32 m (base + 4) = 0 ∧ ∀ t, t ∈ t1 → ld32 m (t_addr t + 4) = t_size t.

Lemma ends_free (t1 : list tile) : (∃ t1' a k, t1 = t1' ++ [mkTile a k true]) ∨ ∀ t1' a k, t1 ≠ t1' ++ [mkTile a k true].
Proof.
  destruct t1 as [|[a k f] t1 _] using rev_ind; [right; by intros [|? ?]|]. destruct f; [left; eauto|].
  right. intros t1' b j E. apply app_inj_tail in E as [_ E]. by injection E.
Qed.

(** When the tile before [bp] is in use, the last free block before ends below. *)
Lemma last_free lo t1 bp m : base + 8 ≤ lo → tiled lo t1 bp → node_ok m t1 →
  (∀ t1' a k, t1 ≠ t1' ++ [mkTile a k true]) →
  let p := lastn base (free_tiles t1) in base ≤ p ∧ p + 8 ≤ bp ∧ 0 ≤ ld32 m (p + 4) ∧ p + 8 * ld32 m (p + 4) < bp.
Proof.
  intros Hb Ht [H0 Hsz] Hn p. pose proof (tiled_le _ _ _ Ht). destruct (lastn_in base (free_tiles t1)) as [E|Hin].
  { unfold p. rewrite E, H0. lia. }
  apply elem_of_free in Hin as (k & Hin). fold p in Hin. clearbody p. pose proof (Hsz _ Hin) as Hk. simpl in Hk. rewrite Hk.
  destruct (tiled_in _ _ _ _ Ht Hin) as (? & ? & ?). unfold t_end in *. simpl in *. split_and!; [lia|lia|lia|].
  apply list_elem_of_split in Hin as (u1 & u2 & ->). apply tiled_app in Ht as (mid & _ & (_ & _ & Ht)).
  destruct u2 as [|t u2]; [by destruct (Hn u1 p k)|]. apply tiled_le in Ht. unfold t_end in Ht. simpl in Ht. lia.
Qed.

Lemma free_left_link lo t1 bp n t2 hi q s : base + 8 ≤ lo → 0 < base → hi < KERNBASE →
  tiled lo t1 bp → 0 < n → tiled (bp + 8 * n) t2 hi → node_ok (hm s) t1 →
  (∀ t, t ∈ t2 → ld32 (hm s) (t_addr t + 4) = t_size t) → ld32 (hm s) (bp + 4) = n →
  path (hm s) base (free_tiles t1) q → path (hm s) bp (free_tiles t2) base →
  (∀ t1' a k, t1 ≠ t1' ++ [mkTile a k true]) →
  let p := lastn base (free_tiles t1) in let ts := t1 ++ mkTile bp n true :: t2 in
  ∃ s2, free_left bp p s = Ok tt s2 ∧ freep s2 = freep s ∧ brk s2 = brk s ∧ off_header p (hm s) (hm s2) ∧
    node_ok (hm s2) ts ∧ path (hm s2) base (free_tiles ts) base ∧ (p = base ∨ p ∈ free_tiles ts).
Proof.
  intros Hb Hb0 Hhi Ht1 Hn Ht2 HO Hsz Hbs HP1 HP2 Hne p ts.
  destruct (last_free lo t1 bp (hm s) Hb Ht1 HO Hne) as (Hp0 & Hp8 & Hps0 & Hps). fold p in Hp0, Hp8, Hps0, Hps.
  pose proof (tiled_le _ _ _ Ht2). pose proof (tiled_le _ _ _ Ht1). unfold KERNBASE in *.
  unfold free_left, hld. rewrite bind_gets, u32_small by lia. rewrite (proj2 (Z.eqb_neq _ _)) by lia.
  eexists. split; [reflexivity|]. split; [done|]. split; [done|]. simpl hm. set (m2 := st32 (hm s) p bp).
  assert (off_header p (hm s) m2) as O by (apply off_header_st32; lia). split; [done|].
  assert (ld32 m2 (p + 4) = ld32 (hm s) (p + 4)) as Ep by (apply ld32_st32_ne; lia).
  assert (p = base ∨ p ∈ free_tiles t1) as Hpin by apply lastn_in.
  destruct HO as [Hz Hsz1]. split; [split|split].
  - destruct (decide (p = base)) as [E|]; [by rewrite <- E, Ep, E|]. erewrite off_header_ld32; [exact Hz|exact O|].
    destruct Hpin as [|(k & Hin)%elem_of_free]; [done|].
    destruct (tiled_in _ _ _ _ Ht1 Hin) as (? & _). simpl in *. lia.
  - intros t. unfold ts. rewrite elem_of_app, elem_of_cons. intros [Ht|[->|Ht]].
    + rewrite <- (Hsz1 t Ht). destruct Hpin as [E|(k & Hin)%elem_of_free].
      * eapply off_header_ld32; [exact O|]. destruct (tiled_in _ _ _ _ Ht1 Ht) as (? & _). lia.
      * destruct (tiled_apart _ _ _ t _ Ht1 Ht Hin) as [->|Hs]; simpl in *; [done|]. eapply off_header_ld32; [exact O|]. lia.
    + simpl. rewrite <- Hbs. eapply off_header_ld32; [exact O|lia].
    + rewrite <- (Hsz t Ht). eapply off_header_ld32; [exact O|]. destruct (tiled_in _ _ _ _ Ht2 Ht) as (? & _). lia.
  - unfold ts. rewrite free_tiles_app, free_tiles_cons_true. pose proof (asc_tiles _ _ _ base Ht1 Hb) as HA.
    apply path_app. split.
    + eapply path_set; [lia| |by apply asc_nodup|exact HP1]. intros a Ha. destruct (asc_lastn _ _ _ HA Ha); [by left|right; lia].
    + eapply path_frame; [|exact HP2]. intros a Ha. eapply off_header_ld32; [exact O|]. right.
      apply elem_of_cons in Ha as [->|(k & Hin)%elem_of_free]; [lia|].
      destruct (tiled_in _ _ _ _ Ht2 Hin) as (? & _). simpl in *. lia.
  - destruct Hpin as [|Hin]; [by left|right]. unfold ts. rewrite free_tiles_app. set_solver.
Qed.

Lemma free_left_join lo t1 a k bp n t2 hi q s : base + 8 ≤ lo → 0 < base → hi < KERNBASE →
  tiled lo (t1 ++ [mkTile a k true]) bp → 0 < n → tiled (bp + 8 * n) t2 hi → node_ok (hm s) (t1 ++ [mkTile a k true]) →
  (∀ t, t ∈ t2 → ld32 (hm s) (t_addr t + 4) = t_size t) → ld32 (hm s) (bp + 4) = n →
  path (hm s) base (free_tiles (t1 ++ [mkTile a k true])) q → path (hm s) bp (free_tiles t2) base →
  let ts := t1 ++ mkTile a (k + n) true :: t2 in
  ∃ s2, free_left bp a s = Ok tt s2 ∧ freep s2 = freep s ∧ brk s2 = brk s ∧ off_header a (hm s) (hm s2) ∧
    node_ok (hm s2) ts ∧ path (hm s2) base (free_tiles ts) base ∧ a ∈ free_tiles ts.
Proof.
  intros Hb Hb0 Hhi Ht1 Hn Ht2 [Hz Hsz1] Hsz Hbs HP1 HP2 ts.
  pose proof Ht1 as (mid & Hm1 & Hm2)%tiled_app. destruct Hm2 as (Ea & Hk & Eb). cbn in Ea, Eb, Hk. unfold t_end in Eb. simpl in Eb. subst mid bp.
  pose proof (tiled_le _ _ _ Ht2). pose proof (tiled_le _ _ _ Hm1). unfold KERNBASE in *.
  pose proof (Hsz1 (mkTile a k true) ltac:(set_solver)) as Hak. simpl in Hak.
  unfold free_left, hld. rewrite bind_gets, Hak, u32_small by lia. rewrite Z.eqb_refl, bind_gets, Hbs.
  unfold hst. rewrite bind_modify, bind_gets. eexists. split; [reflexivity|]. split; [done|]. split; [done|]. simpl hm.
  rewrite (u32_small (k + n)) by lia. rewrite ld32_st32_ne by lia.
  set (m1 := st32 (hm s) (a + 4) (k + n)). set (nx := ld32 (hm s) (a + 8 * k)).
  assert (off_header a (hm s) (st32 m1 a nx)) as O.
  { eapply off_header_trans; apply off_header_st32; lia. }
  split; [done|]. split; [split|split].
  - rewrite <- Hz. eapply off_header_ld32; [exact O|lia].
  - intros t. unfold ts. rewrite elem_of_app, elem_of_cons. intros [Ht|[->|Ht]].
    + rewrite <- (Hsz1 t) by set_solver. eapply off_header_ld32; [exact O|]. destruct (tiled_in _ _ _ _ Hm1 Ht) as (? & ? & ?).
      unfold t_end in *. lia.
    + simpl. rewrite ld32_st32_ne by lia. unfold m1. rewrite ld32_st32. apply u32_small. lia.
    + rewrite <- (Hsz t Ht). eapply off_header_ld32; [exact O|]. destruct (tiled_in _ _ _ _ Ht2 Ht) as (? & _). lia.
  - rewrite free_tiles_app, free_tiles_cons_true in HP1. apply path_app in HP1 as [HP1 _].
    unfold ts. rewrite free_tiles_app, free_tiles_cons_true. apply path_app. split.
    + eapply path_frame; [|exact HP1]. intros b Hin. eapply off_header_ld32; [exact O|]. left.
      apply elem_of_cons in Hin as [->|(j & Hin)%elem_of_free]; [lia|]. destruct (tiled_in _ _ _ _ Hm1 Hin) as (? & ? & ?).
      unfold t_end in *. simpl in *. lia.
    + eapply path_head; [..|exact HP2].
      * rewrite ld32_st32. apply u32_small, ld32_range.
      * intros b (j & Hin)%elem_of_free. eapply off_header_ld32; [exact O|]. destruct (tiled_in _ _ _ _ Ht2 Hin) as (? & _). simpl in *. lia.
  - unfold ts. rewrite free_tiles_app. set_solver.
Qed.

Lemma joined_ok bp n t2 n' t2' hi : tiled (bp + 8 * n) t2 hi → 0 < n → coalesced t2 → joined n t2 n' t2' →
  n ≤ n' ∧ tiled (bp + 8 * n') t2' hi ∧ coalesced (mkTile bp n' true :: t2') ∧ used t2' = used t2 ∧
  (length t2' ≤ length t2)%nat ∧ ∀ t, t ∈ t2' → t ∈ t2.
Proof.
  intros Ht Hn Hc [(Hs & -> & ->)|(a & k & -> & ->)].
  - split_and!; try done. destruct t2 as [|t t2]; [done|]. split; [|done]. cbn in Hs. rewrite Hs. by intros [_ ?].
  - destruct Ht as (Ha & Hk & Ht). unfold t_end in Ht. simpl in *. subst a. split_and!; [lia| | |done|simpl; lia|by right].
    + by replace (bp + 8 * (n + k)) with (bp + 8 * n + 8 * k) by lia.
    + by destruct t2'.
Qed.

Lemma used_app t1 t2 : used (t1 ++ t2) = used t1 ++ used t2.
Proof. apply filter_app. Qed.
Lemma used_free a n ts : used (mkTile a n true :: ts) = used ts.
Proof. done. Qed.
Lemma used_in ts t : t ∈ used ts ↔ t_free t = false ∧ t ∈ ts.
Proof. unfold used. by rewrite list_elem_of_filter. Qed.

(** Bytes of blocks in use are unchanged. *)
Definition kept (ts : list tile) (m m' : memory) : Prop :=
  ∀ t x, t ∈ used ts → t_addr t ≤ x < t_end t → ld8 m' x = ld8 m x.

Lemma kept_header lo ts hi a m m' : tiled lo ts hi → base + 8 ≤ lo →
  a = base ∨ (∃ t0, t0 ∈ ts ∧ t_addr t0 = a ∧ t_free t0 = true) → off_header a m m' → kept ts m m'.
Proof.
  intros Ht Hb Ha O t x [Hf Hin]%used_in Hx. apply O. destruct (tiled_in _ _ _ _ Ht Hin) as (? & ? & ?).
  destruct Ha as [->|(t0 & Hin0 & <- & Hf0)]; [lia|]. destruct (tiled_in _ _ _ _ Ht Hin0) as (? & ? & ?).
  destruct (tiled_disj _ _ _ t t0 Ht Hin Hin0) as [|]; [congruence|lia|unfold t_end in *; lia].
Qed.

(** Between the two steps of [free]: [bp], of [n] headers, leads to the free tiles
    after it, and the tiles before it are as they were. *)
Record mid (lo : Z) (t1 : list tile) (bp n : Z) (t2 : list tile) (s : heap) : Prop := {
  mid_t1 : tiled lo t1 bp;
  mid_n : 0 < n;
  mid_t2 : tiled (bp + 8 * n) t2 (brk s);
  mid_c1 : coalesced t1;
  mid_c2 : coalesced (mkTile bp n true :: t2);
  mid_node : node_ok (hm s) t1;
  mid_size : ∀ t, t ∈ t2 → ld32 (hm s) (t_addr t + 4) = t_size t;
  mid_bp : ld32 (hm s) (bp + 4) = n;
  mid_path1 : ∃ q, path (hm s) base (free_tiles t1) q;
  mid_path2 : path (hm s) bp (free_tiles t2) base }.

Lemma free_right_mid lo t1 bp n t2 s : hrep lo (t1 ++ mkTile bp n false :: t2) s →
  ∃ s1 n' t2', free_right bp (lastn base (free_tiles t1)) s = Ok tt s1 ∧ mid lo t1 bp n' t2' s1 ∧ n ≤ n' ∧
    used t2' = used t2 ∧ (length t2' ≤ length t2)%nat ∧ brk s1 = brk s ∧ off_header bp (hm s) (hm s1).
Proof.
  intros (Hb0 & Hb & Hk & Ht & Hc & Hsz & Hz & HP & HF).
  apply tiled_app in Ht as (mid & H1 & (Em & Hn & H2)). unfold t_end in H2. simpl in Em, Hn, H2. subst mid.
  pose proof (tiled_le _ _ _ H1). pose proof (tiled_le _ _ _ H2).
  rewrite free_tiles_app, free_tiles_cons_false in HP. apply coalesced_app in Hc as [Hc1 Hc2%coalesced_tail].
  destruct (free_right_ok bp n (lastn base (free_tiles t1)) t2 (brk s) s) as (s1 & n' & t2' & E1 & HJ & F1 & B1 & O1 & S1 & P1);
    [lia|lia|done|done|done|intros t Hin; apply Hsz; set_solver|apply (Hsz (mkTile bp n false)); set_solver|by apply path_suffix|].
  destruct (joined_ok bp n t2 n' t2' (brk s) H2 Hn Hc2 HJ) as (Hn' & H2' & Hc' & EU & HL & Hin2).
  assert (∀ t, t ∈ t1 → t_addr t + 8 ≤ bp) as Hend.
  { intros t Hin. destruct (tiled_in _ _ _ _ H1 Hin) as (_ & ? & ?). unfold t_end in *. lia. }
  exists s1, n', t2'. split; [done|]. split; [|done]. split; try done; [lia|by rewrite B1|by eapply coalesced_init|split|..].
  - rewrite <- Hz. eapply off_header_ld32; [exact O1|lia].
  - intros t Hin. rewrite <- (Hsz t) by set_solver. eapply off_header_ld32; [exact O1|]. pose proof (Hend t Hin). lia.
  - intros t Hin. rewrite <- (Hsz t) by set_solver. eapply off_header_ld32; [exact O1|]. right.
    destruct (tiled_in _ _ _ _ H2' Hin) as (? & _). lia.
  - exists (hd base (free_tiles t2)). eapply path_frame; [|by apply path_prefix in HP]. intros a Ha.
    eapply off_header_ld32; [exact O1|]. left.
    apply elem_of_cons in Ha as [->|(k & Hin)%elem_of_free]; [lia|]. pose proof (Hend _ Hin). simpl in *. lia.
Qed.

Lemma free_left_hrep lo t1 bp n t2 s : 0 < base → base + 8 ≤ lo → brk s < KERNBASE → mid lo t1 bp n t2 s →
  let p := lastn base (free_tiles t1) in
  ∃ s2 ts, free_left bp p s = Ok tt s2 ∧ hrep lo ts (s2 <| freep := p |>) ∧ brk s2 = brk s ∧ off_header p (hm s) (hm s2) ∧
    used ts = used (t1 ++ t2) ∧ (length ts ≤ S (length (t1 ++ t2)))%nat ∧ ∃ t, t ∈ ts ∧ t_free t = true ∧ n ≤ t_size t.
Proof.
  intros Hb0 Hb Hk [H1 Hn H2 Hc1 Hc2 HN Hsz Hbs [q HP1] HP2] p.
  destruct (ends_free t1) as [(t1' & a & k & ->)|Hne].
  - assert (p = a) as Ep by (unfold p; by rewrite free_tiles_app, free_tiles_cons_true, lastn_app). rewrite Ep. clear p Ep.
    destruct (free_left_join lo t1' a k bp n t2 (brk s) q s) as (s2 & E & F & B & O & [Hz Hs] & HP & Hin); try done.
    exists s2, (t1' ++ mkTile a (k + n) true :: t2). apply tiled_app in H1 as (mid & H1 & (Ea & Hk0 & Eb)).
    cbn in Ea, Eb. unfold t_end in Eb. simpl in Eb, Hk0. subst mid bp.
    split; [done|]. split; [|split_and!; [done|done|by rewrite !used_app, !used_free, app_nil_r|rewrite !length_app; simpl; lia|exists (mkTile a (k + n) true); simpl; split_and!; [set_solver|done|lia]]].
    split_and!; [done|done|by rewrite <- B in Hk| | |done|done|done|by right].
    + simpl brk. rewrite B. apply tiled_app. exists a. split; [done|]. split; [done|]. split; [simpl; lia|]. unfold t_end. simpl.
      by replace (a + 8 * (k + n)) with (a + 8 * k + 8 * n) by lia.
    + apply coalesced_app. split; [exact (coalesced_ext t1' (mkTile a k true) (mkTile a (k + n) true) eq_refl Hc1)|]. by destruct t2.
  - destruct (free_left_link lo t1 bp n t2 (brk s) q s) as (s2 & E & F & B & O & [Hz Hs] & HP & Hin); try done.
    exists s2, (t1 ++ mkTile bp n true :: t2).
    split; [done|]. split; [|split_and!; [done|done|by rewrite !used_app, used_free|rewrite !length_app; simpl; lia|exists (mkTile bp n true); simpl; split_and!; [set_solver|done|lia]]].
    split_and!; [done|done|by rewrite <- B in Hk| | |done|done|done|done].
    + simpl brk. rewrite B. apply tiled_app. by exists bp.
    + apply coalesced_app. split; [by apply coalesced_snoc|done].
Qed.

(** [free] of a block in use: it returns; the tiles are the same but for that one,
    which is free and joined with its free neighbours; and no byte of another
    block in use changes. *)
Lemma free_spec lo t1 bp n t2 s : hrep lo (t1 ++ mkTile bp n false :: t2) s →
  ∃ s' ts', free (bp + 8) s = Ok tt s' ∧ hrep lo ts' s' ∧ brk s' = brk s ∧ used ts' = used (t1 ++ t2) ∧
    (length ts' ≤ S (length (t1 ++ t2)))%nat ∧ kept (t1 ++ t2) (hm s) (hm s') ∧ ∃ t, t ∈ ts' ∧ t_free t = true ∧ n ≤ t_size t.
Proof.
  intros HR. pose proof HR as (Hb0 & Hb & Hk & Ht & _ & _ & _ & _ & _).
  pose proof Ht as (mid & H1 & (Em & Hn & H2))%tiled_app. unfold t_end in H2. simpl in Em, Hn, H2. subst mid.
  pose proof (tiled_le _ _ _ H1). pose proof (tiled_le _ _ _ H2). unfold free.
  rewrite u32_small by (unfold KERNBASE in *; lia). replace (bp + 8 - 8) with bp by lia. rewrite !bind_gets.
  rewrite (bind_ok _ _ _ _ _ (free_find_ok lo t1 bp n t2 s (Z.to_nat (brk s)) HR ltac:(rewrite length_app; lia))).
  destruct (free_right_mid lo t1 bp n t2 s HR) as (s1 & n' & t2' & E1 & HM & Hn' & EU & HL2 & B1 & O1).
  rewrite (bind_ok _ _ _ _ _ E1).
  destruct (free_left_hrep lo t1 bp n' t2' s1) as (s2 & ts & E2 & HR2 & B2 & O2 & EU2 & HL & t & Hin & Hf & Hsz); try done; [by rewrite B1|].
  rewrite (bind_ok _ _ _ _ _ E2). eexists _, ts. split; [reflexivity|]. split_and!; [done|simpl; congruence|by rewrite EU2, !used_app, EU|rewrite length_app in *; lia| |].
  - intros u x Hu Hx. assert (u ∈ t1 ++ t2 ∧ t_free u = false) as [Hu1 Hu2] by (apply used_in in Hu; tauto).
    simpl hm. transitivity (ld8 (hm s1) x).
    + eapply (kept_header lo _ _ _ _ _ Ht Hb); [|exact O2| |exact Hx].
      * destruct (lastn_in base (free_tiles t1)) as [|(k & Hk1)%elem_of_free]; [by left|right].
        exists (mkTile (lastn base (free_tiles t1)) k true). split_and!; [apply elem_of_app; by left|done|done].
      * apply used_in. set_solver.
    + apply O1. destruct (tiled_sep _ _ _ _ _ u Ht Hu1) as [Hs|Hs]; unfold t_end in *; simpl in *; lia.
  - exists t. split_and!; [done|done|lia].
Qed.

(** ** malloc *)

Lemma bind_hld {A} a (f : Z → H A) s : (hld a ≫= f) s = f (ld32 (hm s) a) s.
Proof. done. Qed.

Lemma loop_take f k prevp p s : k ≤ ld32 (hm s) (p + 4) →
  malloc_loop (S f) k prevp p s = malloc_take k prevp p (ld32 (hm s) (p + 4)) s.
Proof. intros Hk. cbn [malloc_loop]. rewrite bind_hld. by rewrite (proj2 (Z.leb_le _ _)). Qed.

Lemma loop_skip f k prevp p s : ld32 (hm s) (p + 4) < k → p ≠ freep s →
  malloc_loop (S f) k prevp p s = malloc_loop f k p (ld32 (hm s) p) s.
Proof.
  intros Hk Hp. cbn [malloc_loop]. rewrite bind_hld. rewrite (proj2 (Z.leb_gt _ _)) by done.
  by rewrite bind_gets, (proj2 (Z.eqb_neq _ _)).
Qed.

(** What happens when no block is large enough. *)
Definition malloc_more (f : nat) (k : Z) : H Z :=
  p' ← morecore k;
  if p' =? 0 then mret 0 else nx ← hld p'; malloc_loop f k p' nx.

Lemma loop_more f k prevp p s : ld32 (hm s) (p + 4) < k → p = freep s →
  malloc_loop (S f) k prevp p s = malloc_more f k s.
Proof.
  intros Hk ->. cbn [malloc_loop]. rewrite bind_hld. rewrite (proj2 (Z.leb_gt _ _)) by done.
  by rewrite bind_gets, Z.eqb_refl.
Qed.

Lemma path_join m m' p l1 a l2 q : path m' p l1 (ld32 m a) → path m a l2 q → (∀ b, b ∈ l2 → ld32 m' b = ld32 m b) →
  path m' p (l1 ++ l2) q.
Proof.
  intros H1 H2 Hm. destruct l2 as [|b l2]; cbn in H2; [by rewrite app_nil_r, <- H2|]. destruct H2 as [E H2]. rewrite E in H1.
  apply path_app. split; [done|]. by eapply path_frame.
Qed.

Lemma path_hd m p l q : path m p l q → ld32 m p = hd q l.
Proof. destruct l; cbn; [done|]. by intros [? _]. Qed.

(** Blocks that are too small are passed over. *)
Lemma loop_seek l : ∀ f k prevp q s, path (hm s) prevp l q →
  (∀ a, a ∈ l → ¬ k ≤ ld32 (hm s) (a + 4) ∧ a ≠ freep s) →
  malloc_loop (length l + f) k prevp (ld32 (hm s) prevp) s = malloc_loop f k (lastn prevp l) q s.
Proof.
  induction l as [|a l IH]; intros f k prevp q s HP Hl; rewrite (path_hd _ _ _ _ HP); [done|].
  cbn [length Nat.add hd lastn]. destruct HP as [_ HP]. destruct (Hl a) as [Hk Ha]; [by left|]. rewrite loop_skip by (done || lia).
  apply IH; [done|]. intros b Hb. apply Hl. by right.
Qed.

Lemma first_big (P : Z → Prop) `{!∀ x, Decision (P x)} l :
  (∀ a, a ∈ l → ¬ P a) ∨ ∃ l1 a l2, l = l1 ++ a :: l2 ∧ P a ∧ ∀ b, b ∈ l1 → ¬ P b.
Proof.
  induction l as [|a l IH]; [left; by intros ? ?%elem_of_nil|]. destruct (decide (P a)) as [Hp|Hp].
  - right. exists [], a, l. split_and!; [done|done|by intros ? ?%elem_of_nil].
  - destruct IH as [Hl|(l1 & b & l2 & -> & Hb & Hl)]; [left|right].
    + intros c [->|Hc]%elem_of_cons; auto.
    + exists (a :: l1), b, l2. split_and!; [done|done|]. intros c [->|Hc]%elem_of_cons; auto.
Qed.

Lemma free_split ts : ∀ l1 a l2, free_tiles ts = l1 ++ a :: l2 →
  ∃ t1 n t2, ts = t1 ++ mkTile a n true :: t2 ∧ free_tiles t1 = l1 ∧ free_tiles t2 = l2.
Proof.
  induction ts as [|[b n f] ts IH]; intros l1 a l2 E; [by destruct l1|]. destruct f.
  - rewrite free_tiles_cons_true in E. destruct l1 as [|c l1]; injection E as -> E.
    + exists [], n, ts. done.
    + destruct (IH l1 a l2 E) as (t1 & m & t2 & -> & <- & <-). by exists (mkTile c n true :: t1), m, t2.
  - rewrite free_tiles_cons_false in E. destruct (IH l1 a l2 E) as (t1 & m & t2 & -> & <- & <-).
    by exists (mkTile b n false :: t1), m, t2.
Qed.

(** A block that is large enough is among the tiles. *)
Lemma round_found lo ts k s g l1 a l2 : hrep lo ts s → free_tiles ts = l1 ++ a :: l2 → k ≤ ld32 (hm s) (a + 4) →
  ∃ t1 n t2, ts = t1 ++ mkTile a n true :: t2 ∧ k ≤ n ∧
    malloc_loop (S g) k (lastn base l1) a s = malloc_take k (lastn base (free_tiles t1)) a n s.
Proof.
  intros (_ & _ & _ & _ & _ & Hsz & _) El Ha. destruct (free_split ts l1 a l2 El) as (t1 & n & t2 & Et & E1 & _).
  assert (ld32 (hm s) (a + 4) = n) as En by (apply (Hsz (mkTile a n true)); set_solver).
  exists t1, n, t2. split_and!; [done|lia|]. by rewrite loop_take, En, E1.
Qed.

Lemma round_small lo ts k s : hrep lo ts s → (∀ a, a ∈ free_tiles ts → ¬ k ≤ ld32 (hm s) (a + 4)) →
  ∀ t, t ∈ ts → t_free t = true → t_size t < k.
Proof.
  intros (_ & _ & _ & _ & _ & Hsz & _) Hs [a n b] Hin Hb. simpl in *. subst b. pose proof (Hsz _ Hin) as E. simpl in E.
  specialize (Hs a). rewrite elem_of_free, E in Hs. assert (¬ k ≤ n) by eauto. lia.
Qed.

(** One turn around the ring: it ends at a block that is large enough, or where it
    began. *)
Definition round (ts : list tile) (k : Z) (s : heap) (f : nat) : Prop :=
  (∃ t1 a n t2, ts = t1 ++ mkTile a n true :: t2 ∧ k ≤ n ∧
     malloc_loop f k (freep s) (ld32 (hm s) (freep s)) s = malloc_take k (lastn base (free_tiles t1)) a n s) ∨
  (∃ f', (f ≤ f' + length ts + 2)%nat ∧ (∀ t, t ∈ ts → t_free t = true → t_size t < k) ∧
     malloc_loop f k (freep s) (ld32 (hm s) (freep s)) s = malloc_more f' k s).

Lemma round_base lo ts k s f : hrep lo ts s → 0 < k → (length ts + 2 ≤ f)%nat → freep s = base → round ts k s f.
Proof.
  intros HR Hk Hf Efp. pose proof HR as (Hb0 & Hb & _ & Ht & _ & Hsz & Hz & HP & _).
  pose proof (free_tiles_len ts) as HL. pose proof (asc_tiles _ _ _ base Ht Hb) as HA.
  assert (∀ a, a ∈ free_tiles ts → a ≠ freep s) as Hnb by (intros a Ha ->; pose proof (asc_in _ _ _ HA Ha); lia).
  unfold round. rewrite Efp.
  destruct (first_big (λ a, k ≤ ld32 (hm s) (a + 4)) (free_tiles ts)) as [Hs|(l1 & a & l2 & El & Ha & Hs)].
  - right. exists (f - length (free_tiles ts) - 1)%nat. split_and!; [lia|by eapply round_small|].
    replace f with (length (free_tiles ts) + S (f - length (free_tiles ts) - 1))%nat at 1 by lia.
    rewrite (loop_seek _ _ _ _ _ _ HP) by auto. apply loop_more; [lia|done].
  - left. rewrite El in *. rewrite length_app in HL. simpl in HL. pose proof HP as [HP1 _]%path_app.
    destruct (round_found lo ts k s (f - length l1 - 1) l1 a l2 HR El Ha) as (t1 & n & t2 & Et & Hn & E).
    exists t1, a, n, t2. split_and!; [done|done|]. rewrite <- E.
    replace f with (length l1 + S (f - length l1 - 1))%nat at 1 by lia. rewrite (loop_seek _ _ _ _ _ _ HP1); [done|].
    intros b Hb'. split; [by apply Hs|]. apply Hnb. set_solver.
Qed.

Lemma round_node lo ts k s f : hrep lo ts s → 0 < k → (length ts + 2 ≤ f)%nat → freep s ∈ free_tiles ts → round ts k s f.
Proof.
  intros HR Hk Hf Hin. pose proof HR as (Hb0 & Hb & _ & Ht & _ & Hsz & Hz & HP & _).
  pose proof (free_tiles_len ts) as HL. pose proof (asc_tiles _ _ _ base Ht Hb) as HA. unfold round.
  apply list_elem_of_split in Hin as (l & r & El). set (p := freep s) in *. pose proof (asc_nodup _ _ HA) as HD.
  rewrite El in HD, HL, HP, HA. rewrite length_app in HL. simpl in HL. pose proof HP as [HPl HPr]%path_app.
  apply NoDup_cons in HD as [HDb HD]. apply NoDup_app in HD as (HD1 & HD2 & [HD3 HD4]%NoDup_cons).
  destruct (first_big (λ a, k ≤ ld32 (hm s) (a + 4)) r) as [Hr|(r1 & a & r2 & Er & Ha & Hs)].
  2:{ left. destruct (round_found lo ts k s (f - length r1 - 1) (l ++ p :: r1) a r2 HR) as (t1 & n & t2 & Et & Hn & E);
        [by rewrite El, Er, <- app_assoc|done|]. rewrite lastn_app in E. rewrite Er in *. pose proof HPr as [HPr1 _]%path_app.
      exists t1, a, n, t2. split_and!; [done|done|]. rewrite <- E. rewrite length_app in HL. simpl in HL.
      replace f with (length r1 + S (f - length r1 - 1))%nat at 1 by lia. rewrite (loop_seek _ _ _ _ _ _ HPr1); [done|].
      intros b Hb'. split; [by apply Hs|]. intros ->. apply HD3. set_solver. }
  assert (∀ g, malloc_loop (length r + S g) k p (ld32 (hm s) p) s = malloc_loop g k base (ld32 (hm s) base) s) as Wrap.
  { intros g. rewrite (loop_seek _ _ _ _ _ _ HPr), loop_skip; [done|lia|intros E; apply HDb; rewrite E; set_solver|].
    intros b Hb'. split; [by apply Hr|]. by intros ->. }
  destruct (first_big (λ a, k ≤ ld32 (hm s) (a + 4)) (l ++ [p])) as [Hl|(l1 & a & l2 & Ell & Ha & Hs)].
  - right. exists (f - length r - length l - 2)%nat. split_and!; [lia| |].
    { eapply round_small; [done|]. rewrite El. intros a [Ha|[->|Ha]%elem_of_cons]%elem_of_app; [apply Hl|apply Hl|by apply Hr]; set_solver. }
    replace f with (length r + S (length l + S (f - length r - length l - 2)))%nat at 1 by lia.
    rewrite Wrap, (loop_seek _ _ _ _ _ _ HPl).
    + apply loop_more; [|done]. specialize (Hl p ltac:(set_solver)). lia.
    + intros b Hb'. split; [apply Hl; set_solver|]. intros ->. by apply (HD2 p); [|left].
  - left. assert (p ∈ a :: l2) as Hp.
    { destruct l2 as [|x l2 _] using rev_ind; [apply app_inj_tail in Ell as [_ ->]; by left|].
      rewrite app_comm_cons, app_assoc in Ell. apply app_inj_tail in Ell as [_ ->]. set_solver. }
    assert (l ++ p :: r = l1 ++ a :: (l2 ++ r)) as Eall by (rewrite app_comm_cons, app_assoc, <- Ell, <- app_assoc; done).
    rewrite Eall in El, HP. pose proof HP as [HPl1 _]%path_app. assert (length l1 ≤ length l)%nat as HL1.
    { apply (f_equal length) in Ell. rewrite !length_app in Ell. simpl in Ell. lia. }
    destruct (round_found lo ts k s (f - length r - length l1 - 2) l1 a (l2 ++ r) HR El Ha) as (t1 & n & t2 & Et & Hn & E).
    exists t1, a, n, t2. split_and!; [done|done|]. rewrite <- E.
    replace f with (length r + S (length l1 + S (f - length r - length l1 - 2)))%nat at 1 by lia.
    rewrite Wrap, (loop_seek _ _ _ _ _ _ HPl1); [done|]. intros b Hb'. split; [by apply Hs|]. intros ->.
    assert (NoDup (l ++ [p])) as HD' by (apply NoDup_app; split_and!; [done| |apply NoDup_singleton]; set_solver).
    rewrite Ell in HD'. apply NoDup_app in HD' as (_ & HD' & _). by apply (HD' p).
Qed.

Lemma malloc_round lo ts k s f : hrep lo ts s → 0 < k → (length ts + 2 ≤ f)%nat → round ts k s f.
Proof.
  intros HR Hk Hf. pose proof HR as (_ & _ & _ & _ & _ & _ & _ & _ & [E|E]); [by eapply round_base|by eapply round_node].
Qed.

(** [malloc] has put the block [q] of [k] headers into use. *)
Definition taken (lo : Z) (ts : list tile) (k : Z) (s : heap) (q : Z) (s' : heap) : Prop :=
  ∃ u1 u2, hrep lo (u1 ++ mkTile q k false :: u2) s' ∧ used (u1 ++ u2) = used ts ∧ kept ts (hm s) (hm s').

(** A block of the right size is unlinked. *)
Lemma take_exact lo t1 a n t2 s : hrep lo (t1 ++ mkTile a n true :: t2) s →
  ∃ s', malloc_take n (lastn base (free_tiles t1)) a n s = Ok (a + 8) s' ∧
    taken lo (t1 ++ mkTile a n true :: t2) n s a s'.
Proof.
  intros (Hb0 & Hb & Hk & Ht & Hc & Hsz & Hz & HP & _). set (p := lastn base (free_tiles t1)).
  pose proof Ht as (mid & H1 & (Em & Hn & H2))%tiled_app. unfold t_end in H2. simpl in Em, Hn, H2. subst mid.
  pose proof (tiled_le _ _ _ H1). pose proof (tiled_le _ _ _ H2). unfold KERNBASE in *.
  unfold malloc_take, hld, hst. rewrite Z.eqb_refl. set (nx := ld32 (hm s) a).
  eexists. split; [unfold mbind, M_bind, mret, M_ret, gets, modify; cbn [obind]; rewrite u32_small by lia; reflexivity|]. exists t1, t2.
  assert (p = base ∨ p ∈ free_tiles t1) as Hpin by apply lastn_in. set (m' := st32 (hm s) p nx).
  assert (off_header p (hm s) m') as O by (apply off_header_st32; lia).
  rewrite free_tiles_app, free_tiles_cons_true in HP. pose proof (asc_tiles _ _ _ base H1 Hb) as HA.
  assert (p + 8 ≤ a) as Hp8.
  { destruct Hpin as [E|(k & Hin)%elem_of_free]; [lia|]. destruct (tiled_in _ _ _ _ H1 Hin) as (? & ? & ?). unfold t_end in *. simpl in *. lia. }
  assert (∀ t, t ∈ t1 ++ mkTile a n true :: t2 → ld32 m' (t_addr t + 4) = t_size t) as Hsz'.
  { intros t Hin. rewrite <- (Hsz t Hin). apply ld32_st32_ne. destruct Hpin as [E|(k & Hk')%elem_of_free].
    - destruct (tiled_in _ _ _ _ Ht Hin) as (? & _). lia.
    - destruct (tiled_apart _ _ _ t (mkTile p k true) Ht Hin) as [E|]; [set_solver|..]; simpl in *; lia. }
  assert (used (t1 ++ t2) = used (t1 ++ mkTile a n true :: t2)) as EU by (by rewrite !used_app, used_free).
  split; [|split; [exact EU|]].
  - split_and!; [done|done|done| | | | | |].
    + apply tiled_app. by exists a.
    + apply coalesced_app in Hc as [Hc1%coalesced_init Hc2%coalesced_tail]. by apply coalesced_mid.
    + intros t Hin. simpl. fold nx m'. apply elem_of_app in Hin as [Hin|[->|Hin]%elem_of_cons]; [apply Hsz'; set_solver| |apply Hsz'; set_solver].
      apply (Hsz' (mkTile a n true)). set_solver.
    + simpl. fold nx m'. rewrite <- Hz. apply ld32_st32_ne. destruct Hpin as [E|(k & Hin)%elem_of_free]; [lia|].
      destruct (tiled_in _ _ _ _ H1 Hin) as (? & _). simpl in *. lia.
    + simpl. fold nx m'. rewrite free_tiles_app, free_tiles_cons_false. apply path_app in HP as [HP1 HP2].
      eapply path_join; [|exact HP2|].
      * eapply path_set; [apply ld32_range| |by apply asc_nodup|exact HP1]. intros b Hin. destruct (asc_lastn _ _ _ HA Hin); [by left|right; lia].
      * intros b (k & Hin)%elem_of_free. apply ld32_st32_ne. destruct (tiled_in _ _ _ _ H2 Hin) as (? & _). simpl in *. lia.
    + simpl. destruct Hpin as [|Hin]; [by left|right]. rewrite free_tiles_app. set_solver.
  - simpl. fold nx m'. eapply (kept_header lo _ _ _ _ _ Ht Hb); [|exact O]. destruct Hpin as [|(k & Hin)%elem_of_free]; [by left|right].
    exists (mkTile p k true). split_and!; [apply elem_of_app; by left|done|done].
Qed.

(** The tail of a larger block is cut off. *)
Lemma take_split lo t1 a n t2 k s : hrep lo (t1 ++ mkTile a n true :: t2) s → 0 < k < n →
  let q := a + 8 * (n - k) in
  ∃ s', malloc_take k (lastn base (free_tiles t1)) a n s = Ok (q + 8) s' ∧
    taken lo (t1 ++ mkTile a n true :: t2) k s q s'.
Proof.
  intros (Hb0 & Hb & Hk & Ht & Hc & Hsz & Hz & HP & _) Hkn q. set (p := lastn base (free_tiles t1)).
  pose proof Ht as (mid & H1 & (Em & Hn & H2))%tiled_app. unfold t_end in H2. simpl in Em, Hn, H2. subst mid.
  pose proof (tiled_le _ _ _ H1). pose proof (tiled_le _ _ _ H2). unfold KERNBASE in *.
  unfold malloc_take, hld, hst. rewrite (proj2 (Z.eqb_neq _ _)) by lia.
  eexists. split.
  { unfold mbind, M_bind, mret, M_ret, gets, modify. cbn [obind]. rewrite (u32_small (n - k)) by lia.
    fold q. rewrite (u32_small q), u32_small by (unfold q; lia). reflexivity. }
  set (m' := st32 (st32 (hm s) (a + 4) (n - k)) (q + 4) k). exists (t1 ++ [mkTile a (n - k) true]), t2.
  assert (∀ x, x < a + 4 ∨ a + 8 * n ≤ x → ld8 m' x = ld8 (hm s) x) as O.
  { intros x Hx. unfold m'. rewrite !ld8_st32_ne by (unfold q; lia). done. }
  assert (∀ x, x + 4 ≤ a + 4 ∨ a + 8 * n ≤ x → ld32 m' x = ld32 (hm s) x) as O32.
  { intros x Hx. apply ld32_same. intros y Hy. apply O. lia. }
  rewrite <- app_assoc. simpl app. split; [|split; [by rewrite <- app_assoc, !used_app, !used_free|]].
  - split_and!; [done|done|done| | | | | |].
    + apply tiled_app. exists a. split; [done|]. split; [done|]. split; [simpl; lia|]. split; [done|]. split; [simpl; lia|].
      unfold t_end. simpl. by replace (q + 8 * k) with (a + 8 * n) by (unfold q; lia).
    + apply coalesced_app in Hc as [Hc1 Hc2%coalesced_tail]. change (mkTile a (n - k) true :: ?l) with ([mkTile a (n - k) true] ++ l).
      rewrite app_assoc. apply coalesced_mid; [done| |done]. by apply (coalesced_ext t1 (mkTile a n true)).
    + intros t Hin. simpl. fold m'. apply elem_of_app in Hin as [Hin|[->|[->|Hin]%elem_of_cons]%elem_of_cons].
      * rewrite <- (Hsz t) by set_solver. apply O32. destruct (tiled_in _ _ _ _ H1 Hin) as (? & ? & ?). unfold t_end in *. lia.
      * simpl. unfold m'. rewrite ld32_st32_ne, ld32_st32, u32_small by (unfold q; lia). done.
      * simpl. unfold m'. rewrite ld32_st32, u32_small by lia. done.
      * rewrite <- (Hsz t) by set_solver. apply O32. destruct (tiled_in _ _ _ _ H2 Hin) as (? & _). lia.
    + simpl. fold m'. rewrite O32; [done|lia].
    + simpl. fold m'. rewrite free_tiles_app, free_tiles_cons_true in HP |- *. rewrite free_tiles_cons_false.
      eapply path_frame; [|exact HP]. intros b Hin. apply O32. rewrite elem_of_cons, elem_of_app, elem_of_cons in Hin.
      destruct Hin as [->|[(j & Hin)%elem_of_free|[->|(j & Hin)%elem_of_free]]]; [lia| |lia|].
      * destruct (tiled_in _ _ _ _ H1 Hin) as (? & ? & ?). unfold t_end in *. simpl in *. lia.
      * destruct (tiled_in _ _ _ _ H2 Hin) as (? & _). simpl in *. lia.
    + simpl. destruct (lastn_in base (free_tiles t1)) as [|Hin]; [by left|right]. rewrite free_tiles_app. set_solver.
  - intros t x [Hf Hin]%used_in Hx. simpl. fold m'. apply O.
    destruct (tiled_disj _ _ _ t (mkTile a n true) Ht Hin) as [Hs|Hs]; [set_solver|by rewrite Hf| |]; unfold t_end in *; simpl in *; lia.
Qed.

Lemma take_ok lo t1 a n t2 k s : hrep lo (t1 ++ mkTile a n true :: t2) s → 0 < k ≤ n →
  ∃ q s', malloc_take k (lastn base (free_tiles t1)) a n s = Ok (q + 8) s' ∧ taken lo (t1 ++ mkTile a n true :: t2) k s q s'.
Proof.
  intros HR Hk. destruct (decide (k = n)) as [->|].
  - destruct (take_exact lo t1 a n t2 s HR) as (s' & E & T). eauto.
  - destruct (take_split lo t1 a n t2 k s HR) as (s' & E & T); [lia|]. eauto.
Qed.

Lemma sbrk_grow n s : 0 < n < 2147483648 → 0 ≤ brk s < KERNBASE →
  sbrk n s = if (KERNBASE <=? brk s + n) || negb (avail (brk s) (brk s + n)) then Ok (u32 (-1)) s
             else Ok (brk s) (s <| brk := brk s + n |>).
Proof.
  unfold KERNBASE. intros Hn Hb. unfold sbrk, grow. rewrite bind_gets, i32_small, (u32_small (brk s + n)) by lia.
  rewrite (proj2 (Z.ltb_lt 0 _)), (proj2 (Z.ltb_ge (brk s + n) _)) by lia.
  destruct (_ <=? _); [done|]. by destruct (avail _ _).
Qed.

(** The kernel refuses, or the new memory is a free block, joined with the one
    before it. *)
Lemma morecore_spec lo ts k s : hrep lo ts s → 0 < k < 268435456 →
  morecore k s = Ok 0 s ∨
  ∃ s' ts', morecore k s = Ok (freep s') s' ∧ hrep lo ts' s' ∧ used ts' = used ts ∧ (length ts' ≤ S (length ts))%nat ∧
    kept ts (hm s) (hm s') ∧ ∃ t, t ∈ ts' ∧ t_free t = true ∧ k ≤ t_size t.
Proof.
  intros HR Hk. pose proof HR as (Hb0 & Hb & Hkb & Ht & Hc & Hsz & Hz & HP & Hfp). pose proof (tiled_le _ _ _ Ht) as Hle.
  unfold morecore. set (nu := if k <? 4096 then 4096 else k). unfold KERNBASE in Hkb.
  assert (k ≤ nu < 268435456) as Hnu by (unfold nu; destruct (Z.ltb_spec k 4096); lia).
  rewrite (u32_small (nu * 8)) by lia. pose proof (sbrk_grow (nu * 8) s ltac:(lia) ltac:(unfold KERNBASE; lia)) as Es.
  destruct ((KERNBASE <=? brk s + nu * 8) || negb (avail (brk s) (brk s + nu * 8))) eqn:E.
  - left. by rewrite (bind_ok _ _ _ _ _ Es).
  - right. apply orb_false_iff in E as [E%Z.leb_gt E2]. unfold KERNBASE in E.
    set (s1 := s <| brk := brk s + nu * 8 |> <| hm ::= λ m, st32 m (brk s + 4) nu |>).
    assert (hrep lo (ts ++ [mkTile (brk s) nu false]) s1) as HR1.
    { split_and!; [done|done|done| | | | | |].
      - apply tiled_app. exists (brk s). split; [done|]. split; [done|]. split; [simpl; lia|]. unfold t_end. simpl. lia.
      - by apply coalesced_mid.
      - intros t [Hin| ->%list_elem_of_singleton]%elem_of_app; simpl; [|by rewrite ld32_st32, u32_small by lia].
        rewrite ld32_st32_ne; [by apply Hsz|]. destruct (tiled_in _ _ _ _ Ht Hin) as (? & ? & ?). unfold t_end in *. lia.
      - simpl. rewrite ld32_st32_ne; [done|lia].
      - simpl. rewrite free_tiles_app, free_tiles_cons_false, app_nil_r. eapply path_frame; [|exact HP].
        intros a [->|(j & Hin)%elem_of_free]%elem_of_cons; apply ld32_st32_ne; [lia|].
        destruct (tiled_in _ _ _ _ Ht Hin) as (? & ? & ?). unfold t_end in *. simpl in *. lia.
      - destruct Hfp; [by left|right]. rewrite free_tiles_app. set_solver. }
    destruct (free_spec lo ts (brk s) nu [] s1 HR1) as (s2 & ts' & E3 & HR2 & _ & EU & HL & HK & t & Ht' & Hf & Hn).
    rewrite app_nil_r in *. exists s2, ts'. split_and!; [|done|done|done| |exists t; split_and!; [done|done|lia]].
    + rewrite (bind_ok _ _ _ _ _ Es), (proj2 (Z.eqb_neq (brk s) _)) by (change (u32 (-1)) with 4294967295; lia).
      unfold hst. rewrite bind_modify. fold s1. rewrite (u32_small (brk s + 8)) by lia. by rewrite (bind_ok _ _ _ _ _ E3).
    + intros u x Hu Hx. rewrite (HK u x Hu Hx). simpl. apply ld8_st32_ne. apply used_in in Hu as [_ Hu].
      destruct (tiled_in _ _ _ _ Ht Hu) as (? & ? & ?). lia.
Qed.

Lemma kept_trans ts ts' m1 m2 m3 : used ts' = used ts → kept ts m1 m2 → kept ts' m2 m3 → kept ts m1 m3.
Proof. intros EU K1 K2 t x Hin Hx. rewrite (K2 t x), (K1 t x); [done|done|done|by rewrite EU|done]. Qed.

Lemma freep_pos lo ts s : hrep lo ts s → freep s ≠ 0.
Proof.
  intros (Hb0 & Hb & _ & Ht & _ & _ & _ & _ & [E|(k & Hin)%elem_of_free]); [lia|].
  destruct (tiled_in _ _ _ _ Ht Hin) as (? & _). simpl in *. lia.
Qed.

(** The loop ends: the block is found, on the first turn or on the second after
    [morecore], or there is no memory and nothing changes. *)
Lemma malloc_loop_spec lo ts k s f : hrep lo ts s → 0 < k < 268435456 → (2 * length ts + 8 ≤ f)%nat →
  let o := malloc_loop f k (freep s) (ld32 (hm s) (freep s)) s in
  o = Ok 0 s ∨ ∃ q s', o = Ok (q + 8) s' ∧ taken lo ts k s q s'.
Proof.
  intros HR Hk Hf o. unfold o.
  destruct (malloc_round lo ts k s f HR) as [(t1 & a & n & t2 & -> & Hn & ->)|(f' & Hf' & _ & ->)]; [lia|lia| |].
  { right. apply take_ok; [done|lia]. }
  unfold malloc_more. destruct (morecore_spec lo ts k s HR Hk) as [E|(s1 & ts1 & E & HR1 & EU & HL & HK & t & Hin & Hfr & Hsz)].
  { left. by rewrite (bind_ok _ _ _ _ _ E). }
  right. rewrite (bind_ok _ _ _ _ _ E), (proj2 (Z.eqb_neq _ _)) by (by eapply freep_pos). rewrite bind_hld.
  destruct (malloc_round lo ts1 k s1 f' HR1) as [(t1 & a & n & t2 & -> & Hn & ->)|(g & _ & Hs & _)]; [lia|lia| |].
  - destruct (take_ok lo t1 a n t2 k s1 HR1) as (q & s2 & E2 & u1 & u2 & HR2 & EU2 & HK2); [lia|].
    exists q, s2. split; [done|]. exists u1, u2. split_and!; [done|congruence|by eapply kept_trans].
  - specialize (Hs t Hin Hfr). lia.
Qed.

(** Before the first call [freep] is 0 and the heap is empty. *)
Definition heap_ok (lo : Z) (ts : list tile) (s : heap) : Prop :=
  hrep lo ts s ∨ (freep s = 0 ∧ ts = [] ∧ 0 < base ∧ base + 8 ≤ lo ∧ brk s = lo ∧ brk s < KERNBASE).

Lemma malloc_units_ok n : 0 ≤ n < 2147483632 → 0 < malloc_units n < 268435456 ∧ n ≤ 8 * malloc_units n - 8.
Proof. intros Hn. unfold malloc_units. rewrite u32_small by lia. Z.div_mod_to_equations. lia. Qed.

Lemma malloc_spec lo ts n s : heap_ok lo ts s → 0 ≤ n < 2147483632 →
  ∃ p s', malloc n s = Ok p s' ∧
    ((p = 0 ∧ heap_ok lo ts s' ∧ kept ts (hm s) (hm s')) ∨ (p ≠ 0 ∧ taken lo ts (malloc_units n) s (p - 8) s')).
Proof.
  intros HO Hn. destruct (malloc_units_ok n Hn) as [Hk _].
  set (s1 := if freep s =? 0 then s <| hm ::= λ m, st32 (st32 m base base) (base + 4) 0 |> <| freep := base |> else s).
  assert (hrep lo ts s1 ∧ kept ts (hm s) (hm s1)) as [HR HK].
  { unfold s1. destruct HO as [HR|(-> & -> & Hb0 & Hb & <- & HK)].
    - rewrite (proj2 (Z.eqb_neq _ _)) by (by eapply freep_pos). done.
    - unfold KERNBASE in *. split; [|by intros ? ? [_ ?%elem_of_nil]%used_in].
      split_and!; simpl; try done; [by intros ? ?%elem_of_nil|by rewrite ld32_st32| |by left].
      rewrite ld32_st32_ne, ld32_st32, u32_small by lia. done. }
  pose proof HR as (Hb0 & Hb & Hkb & Ht & _). pose proof (tiled_le _ _ _ Ht) as Hle.
  assert (malloc n s = malloc_loop (Z.to_nat (2 * brk s1 + 32768)) (malloc_units n) (freep s1) (ld32 (hm s1) (freep s1)) s1) as ->.
  { unfold malloc, s1. rewrite bind_gets. by destruct (freep s =? 0). }
  destruct (malloc_loop_spec lo ts (malloc_units n) s1 (Z.to_nat (2 * brk s1 + 32768)) HR Hk) as [->|(q & s2 & -> & T)]; [lia| |].
  - exists 0, s1. split; [done|]. left. split_and!; [done|by left|done].
  - exists (q + 8), s2. split; [done|]. right. replace (q + 8 - 8) with q by lia. destruct T as (u1 & u2 & HR2 & EU & HK2).
    split; [|exists u1, u2; split_and!; [done|done|exact (kept_trans ts ts _ _ _ eq_refl HK HK2)]].
    destruct HR2 as (_ & Hb2 & _ & Ht2 & _). destruct (tiled_in _ _ _ (mkTile q (malloc_units n) false) Ht2) as (? & _); [set_solver|].
    simpl in *. lia.
Qed.

(** ** Programs that allocate *)

(** What a program does with the heap: allocate, free one of its blocks, store a
    byte into one. The program remembers each block with what it last held. *)
Inductive uop := UMalloc (n : Z) | UFree (i : nat) | UStore (i : nat) (off : nat) (v : Z).
Record block := mkBlock { b_ptr : Z; b_data : list Z }.

Definition ustep (op : uop) (bs : list block) : H (list block) :=
  match op with
  | UMalloc n =>
      p ← malloc n;
      if p =? 0 then mret bs
      else m ← gets hm; mret (bs ++ [mkBlock p ((λ i, ld8 m (p + i)) <$> seqZ 0 n)])
  | UFree i =>
      match bs !! i with
      | Some b => free (b_ptr b);; mret (delete i bs)
      | None => mret bs
      end
  | UStore i off v =>
      match bs !! i with
      | Some b =>
          if decide (off < length (b_data b))%nat then
            modify (λ s, s <| hm ::= λ m, st8 m (b_ptr b + Z.of_nat off) v |>);;
            mret (<[i := mkBlock (b_ptr b) (<[off := u8 v]> (b_data b))]> bs)
          else mret bs
      | None => mret bs
      end
  end.

Fixpoint urun (ops : list uop) (bs : list block) : H (list block) :=
  match ops with
  | [] => mret bs
  | op :: ops' => bs' ← ustep op bs; urun ops' bs'
  end.

(** Sizes below 2 GB. *)
Definition uop_ok (op : uop) : Prop := match op with UMalloc n => 0 ≤ n < 2147483632 | _ => True end.

(** The block [b] is the tile [t] and holds what was stored. *)
Definition block_holds (lo : Z) (m : memory) (b : block) (t : tile) : Prop :=
  t_addr t + 8 = b_ptr b ∧ b_ptr b + Z.of_nat (length (b_data b)) ≤ t_end t ∧ (8 | b_ptr b - lo) ∧
  ∀ i v, b_data b !! i = Some v → ld8 m (b_ptr b + Z.of_nat i) = v.

Definition uinv (lo : Z) (bs : list block) (s : heap) : Prop :=
  ∃ ts us, heap_ok lo ts s ∧ us ≡ₚ used ts ∧ Forall2 (block_holds lo (hm s)) bs us.

Lemma block_kept lo ts m m' bs us : (∀ t, t ∈ us → t ∈ used ts) → kept ts m m' →
  Forall2 (block_holds lo m) bs us → Forall2 (block_holds lo m') bs us.
Proof.
  intros Hin HK HF. apply Forall2_same_length_lookup in HF as [HL HF]. apply Forall2_same_length_lookup. split; [done|].
  intros j b t Hb Ht. destruct (HF j b t Hb Ht) as (Ha & He & Hd & Hv). split_and!; [done|done|done|].
  intros i v Hi. rewrite <- (Hv i v Hi). apply (HK t); [by eapply Hin, list_elem_of_lookup_2|].
  apply lookup_lt_Some in Hi. lia.
Qed.

Lemma tiled_mod lo ts hi t : tiled lo ts hi → t ∈ ts → (8 | t_addr t - lo).
Proof.
  revert lo. induction ts as [|u ts IH]; intros lo; cbn; [by intros _ ?%elem_of_nil|].
  intros (<- & _ & H) [->|Hin]%elem_of_cons; [exists 0; lia|]. destruct (IH _ H Hin) as [z Hz].
  unfold t_end in Hz. exists (z + t_size u). lia.
Qed.

Lemma tiled_nodup lo ts hi : tiled lo ts hi → NoDup ts.
Proof.
  revert lo. induction ts as [|u ts IH]; intros lo; [constructor|]. intros (<- & Hu & H). constructor; [|by eapply IH].
  intros Hin. destruct (tiled_in _ _ _ _ H Hin) as (? & _). unfold t_end in *. lia.
Qed.

Lemma tiled_neq lo ts hi t u : tiled lo ts hi → t ∈ ts → u ∈ ts → t ≠ u → t_end t ≤ t_addr u ∨ t_end u ≤ t_addr t.
Proof.
  intros Ht Hin Hu Hn. apply list_elem_of_split in Hin as (t1 & t2 & ->).
  destruct (tiled_sep lo t1 t t2 hi u Ht); [|by right|by left]. set_solver.
Qed.

Lemma heap_ok_tiled lo ts s : heap_ok lo ts s → base + 8 ≤ lo ∧ tiled lo ts (brk s).
Proof. intros [(_ & Hb & _ & Ht & _)|(_ & -> & _ & Hb & E & _)]; by split. Qed.

Lemma ustep_malloc lo n bs s : uinv lo bs s → 0 ≤ n < 2147483632 →
  ∃ bs' s', ustep (UMalloc n) bs s = Ok bs' s' ∧ uinv lo bs' s'.
Proof.
  intros (ts & us & HO & HU & HF) Hn. destruct (malloc_spec lo ts n s HO Hn) as (p & s' & E & HC).
  assert (∀ t, t ∈ us → t ∈ used ts) as Hus by (intros t; by rewrite HU).
  cbn [ustep]. rewrite (bind_ok _ _ _ _ _ E). destruct HC as [(-> & HO' & HK)|(Hp & u1 & u2 & HR & EU & HK)].
  - exists bs, s'. split; [done|]. exists ts, us. split_and!; [done|done|by eapply block_kept].
  - rewrite (proj2 (Z.eqb_neq _ _)), bind_gets by done. eexists _, s'. split; [reflexivity|].
    set (t := mkTile (p - 8) (malloc_units n) false) in *. exists (u1 ++ t :: u2), (us ++ [t]). split_and!; [by left| |].
    + rewrite used_app. change (used (t :: u2)) with (t :: used u2). rewrite HU, <- EU, used_app. solve_Permutation.
    + apply Forall2_app; [by eapply block_kept|]. constructor; [|constructor]. destruct (malloc_units_ok n Hn) as [_ Hk].
      pose proof HR as (_ & _ & _ & Ht & _). pose proof (tiled_mod _ _ _ t Ht ltac:(set_solver)) as [z Hz]. simpl in Hz.
      unfold block_holds, t_end. simpl. rewrite length_fmap, length_seqZ. split_and!; [lia|lia|exists (z + 1); lia|].
      intros i v Hi. rewrite list_lookup_fmap in Hi. apply fmap_Some in Hi as (x & Hx & ->).
      apply lookup_seqZ in Hx as [-> _]. done.
Qed.

Lemma ustep_free lo i bs s : uinv lo bs s → ∃ bs' s', ustep (UFree i) bs s = Ok bs' s' ∧ uinv lo bs' s'.
Proof.
  intros HI. cbn [ustep]. destruct (bs !! i) as [b|] eqn:Eb; [|by exists bs, s].
  destruct HI as (ts & us & HO & HU & HF). destruct (Forall2_lookup_l _ _ _ _ _ HF Eb) as (t & Et & Ha & _).
  assert (t ∈ used ts) as Hin by (rewrite <- HU; by eapply list_elem_of_lookup_2). apply used_in in Hin as [Hf Hin].
  apply list_elem_of_split in Hin as (t1 & t2 & ->). destruct t as [bp n f]. simpl in Hf, Ha. subst f.
  destruct HO as [HR|(_ & E & _)]; [|by destruct t1]. rewrite <- Ha.
  destruct (free_spec lo t1 bp n t2 s HR) as (s' & ts' & E & HR' & _ & EU & _ & HK & _).
  rewrite (bind_ok _ _ _ _ _ E). eexists _, s'. split; [reflexivity|]. exists ts', (delete i us).
  assert (delete i us ≡ₚ used (t1 ++ t2)) as HP.
  { apply (Permutation_cons_inv (a := mkTile bp n false)). rewrite <- (delete_Permutation us i) by done. rewrite HU, !used_app.
    change (used (mkTile bp n false :: t2)) with (mkTile bp n false :: used t2). solve_Permutation. }
  split_and!; [by left|by rewrite EU|]. eapply (block_kept lo (t1 ++ t2)); [intros t; by rewrite HP|done|].
  by apply Forall2_delete.
Qed.

(** Storing into a block in use disturbs neither the ring nor the headers. *)
Lemma hrep_store lo ts s t x v : hrep lo ts s → t ∈ used ts → t_addr t + 8 ≤ x < t_end t →
  hrep lo ts (s <| hm ::= λ m, st8 m x v |>).
Proof.
  intros (Hb0 & Hb & Hk & Ht & Hc & Hsz & Hz & HP & Hfp) [Hf Hin]%used_in Hx.
  assert (∀ y, y + 4 ≤ x ∨ x < y → ld32 (st8 (hm s) x v) y = ld32 (hm s) y) as O.
  { intros y Hy. apply ld32_same. intros z Hz'. apply ld8_st8_ne. lia. }
  destruct (tiled_in _ _ _ _ Ht Hin) as (Hlo & _ & _).
  assert (∀ u, u ∈ ts → (t_addr u + 8 ≤ x ∨ x < t_addr u)) as Hu.
  { intros u Hu. destruct (decide (t = u)) as [->|Hne]; [lia|]. destruct (tiled_neq _ _ _ t u Ht Hin Hu Hne); [lia|].
    destruct (tiled_in _ _ _ _ Ht Hu) as (? & ? & ?). unfold t_end in *. lia. }
  split_and!; try done; simpl.
  - intros u Hu'. rewrite O; [by apply Hsz|]. specialize (Hu u Hu'). lia.
  - rewrite O; [done|lia].
  - eapply path_frame; [|exact HP]. intros a [->|(j & Hj)%elem_of_free]%elem_of_cons; apply O; [lia|].
    specialize (Hu _ Hj). simpl in Hu. lia.
Qed.

Lemma ustep_store lo i off v bs s : uinv lo bs s →
  ∃ bs' s', ustep (UStore i off v) bs s = Ok bs' s' ∧ uinv lo bs' s'.
Proof.
  intros HI. cbn [ustep]. destruct (bs !! i) as [b|] eqn:Eb; [|by exists bs, s]. case_decide as Hoff; [|by exists bs, s].
  destruct HI as (ts & us & HO & HU & HF). destruct (Forall2_lookup_l _ _ _ _ _ HF Eb) as (t & Et & Ha & He & Hd & Hv).
  assert (t ∈ used ts) as Hin by (rewrite <- HU; by eapply list_elem_of_lookup_2).
  destruct (heap_ok_tiled _ _ _ HO) as [_ Ht]. set (x := b_ptr b + Z.of_nat off). rewrite bind_modify.
  eexists _, _. split; [reflexivity|]. exists ts, us. split_and!; [|done|].
  - destruct HO as [HR|HR]; [left|by right]. apply (hrep_store _ _ _ t); [done|done|unfold x; lia].
  - simpl. apply Forall2_same_length_lookup in HF as [HL HF]. apply Forall2_same_length_lookup. split; [by rewrite length_insert|].
    intros j c u Hc Hu. destruct (decide (i = j)) as [<-|Hij].
    + rewrite list_lookup_insert_eq in Hc by (by eapply lookup_lt_Some). injection Hc as <-. simplify_eq.
      unfold block_holds. simpl. rewrite length_insert. split_and!; [done|done|done|]. intros k w. rewrite list_lookup_insert_Some.
      rewrite ld8_st8. unfold x. intros [(-> & <- & _)|(Hk & Hw)]; [by rewrite decide_True|].
      rewrite decide_False by lia. by apply Hv.
    + rewrite list_lookup_insert_ne in Hc by done. destruct (HF j c u Hc Hu) as (Ha' & He' & Hd' & Hv'). split_and!; [done|done|done|].
      intros k w Hk. rewrite ld8_st8_ne; [by apply Hv'|]. pose proof (lookup_lt_Some _ _ _ Hk).
      assert (NoDup us) as HN by (rewrite HU; apply NoDup_filter; by eapply tiled_nodup).
      assert (u ∈ used ts) as Hin' by (rewrite <- HU; by eapply list_elem_of_lookup_2). apply used_in in Hin as [_ Hin], Hin' as [_ Hin'].
      destruct (tiled_neq _ _ _ t u Ht Hin Hin'); [intros ->; apply Hij; by eapply NoDup_lookup|unfold x; lia|unfold x; lia].
Qed.

Lemma urun_ok lo ops : Forall uop_ok ops → ∀ bs s, uinv lo bs s → ∃ bs' s', urun ops bs s = Ok bs' s' ∧ uinv lo bs' s'.
Proof.
  induction 1 as [|op ops Hop _ IH]; intros bs s HI; [by exists bs, s|]. cbn [urun].
  assert (∃ bs' s', ustep op bs s = Ok bs' s' ∧ uinv lo bs' s') as (bs1 & s1 & E & HI1)
    by (destruct op; [by apply ustep_malloc|by apply ustep_free|by apply ustep_store]).
  rewrite (bind_ok _ _ _ _ _ E). by apply IH.
Qed.

Lemma uinv_blocks lo bs s : uinv lo bs s →
  (∀ i b, bs !! i = Some b → base + 8 ≤ b_ptr b - 8 ∧ b_ptr b + Z.of_nat (length (b_data b)) ≤ brk s ∧ (8 | b_ptr b - lo) ∧
     ∀ k v, b_data b !! k = Some v → ld8 (hm s) (b_ptr b + Z.of_nat k) = v) ∧
  ∀ i j b c, i ≠ j → bs !! i = Some b → bs !! j = Some c →
    b_ptr b + Z.of_nat (length (b_data b)) + 8 ≤ b_ptr c ∨ b_ptr c + Z.of_nat (length (b_data c)) + 8 ≤ b_ptr b.
Proof.
  intros (ts & us & HO & HU & HF). destruct (heap_ok_tiled _ _ _ HO) as [Hb Ht].
  assert (∀ i t, us !! i = Some t → t ∈ ts) as Hin.
  { intros i t Hi%list_elem_of_lookup_2. rewrite HU in Hi. by apply used_in in Hi as [_ ?]. }
  split.
  - intros i b Hi. destruct (Forall2_lookup_l _ _ _ _ _ HF Hi) as (t & Et & Ha & He & Hd & Hv).
    destruct (tiled_in _ _ _ _ Ht (Hin _ _ Et)) as (? & ? & ?). split_and!; [lia|lia|done|done].
  - intros i j b c Hij Hi Hj. destruct (Forall2_lookup_l _ _ _ _ _ HF Hi) as (t & Et & Ha & He & _).
    destruct (Forall2_lookup_l _ _ _ _ _ HF Hj) as (u & Eu & Ha' & He' & _).
    assert (NoDup us) as HN by (rewrite HU; apply NoDup_filter; by eapply tiled_nodup).
    destruct (tiled_neq _ _ _ t u Ht (Hin _ _ Et) (Hin _ _ Eu)); [intros ->; apply Hij; by eapply NoDup_lookup|left; lia|right; lia].
Qed.

(** C20: the allocator is correct for every program that stays within its blocks.
    From the state in which a program starts, any sequence of allocations (below
    2 GB), frees and stores returns, whatever memory the kernel grants; the
    blocks then held lie in the heap, aligned to 8 bytes from its start, apart from
    each other by at least a header, and each byte of each block is the one last
    stored there: no allocation and no free disturbs the contents of another
    block. *)
Theorem malloc_isolates (ops : list uop) (s0 : heap) : 0 < base → base + 8 ≤ brk s0 < KERNBASE → freep s0 = 0 →
  Forall uop_ok ops →
  ∃ bs s, urun ops [] s0 = Ok bs s ∧
    (∀ i b, bs !! i = Some b → base + 8 ≤ b_ptr b - 8 ∧ b_ptr b + Z.of_nat (length (b_data b)) ≤ brk s ∧ (8 | b_ptr b - brk s0) ∧
       ∀ k v, b_data b !! k = Some v → ld8 (hm s) (b_ptr b + Z.of_nat k) = v) ∧
    ∀ i j b c, i ≠ j → bs !! i = Some b → bs !! j = Some c →
      b_ptr b + Z.of_nat (length (b_data b)) + 8 ≤ b_ptr c ∨ b_ptr c + Z.of_nat (length (b_data c)) + 8 ≤ b_ptr b.
Proof.
  intros Hb0 Hb Hfp Hops. destruct (urun_ok (brk s0) ops Hops [] s0) as (bs & s & E & HI).
  - exists [], []. split_and!; [right; split_and!; lia || done|done|done].
  - exists bs, s. split; [done|]. by apply uinv_blocks.
Qed.

(** the arithmetic of [malloc] wraps around. A request of the last 7 sizes
    below 4 GB is served as a request for no bytes at all; and for one of 2 GB or
    more the count that [morecore] passes to [sbrk] is a negative [int], for which
    the kernel reports success and adds no memory. *)
Theorem malloc_wraps (n : Z) (s : heap) :
  (4294967289 ≤ n < 4294967296 → malloc n s = malloc 0 s) ∧
  (2147483648 ≤ n → 0 < brk s → brk s + n < 4294967296 → sbrk n s = Ok (brk s) s).
Proof.
  split.
  - intros Hn. unfold malloc, malloc_units. replace (u32 (n + 8 - 1) / 8) with (u32 (0 + 8 - 1) / 8); [done|].
    unfold u32. rewrite <- (Z_mod_plus_full (n + 8 - 1) (-1)), !Z.mod_small by lia. Z.div_mod_to_equations. lia.
  - intros Hn Hb Hs. unfold sbrk, grow. rewrite bind_gets.
    assert (i32 n = n - 4294967296) as ->.
    { unfold i32, u32. rewrite <- (Z_mod_plus_full _ (-1)). rewrite !Z.mod_small by lia. lia. }
    rewrite (proj2 (Z.ltb_ge 0 _)), (proj2 (Z.ltb_lt _ 0)) by lia.
    assert (u32 (brk s + (n - 4294967296)) = brk s + n) as ->.
    { unfold u32. rewrite <- (Z_mod_plus_full _ 1), Z.mod_small by lia. lia. }
    rewrite (proj2 (Z.leb_le _ _)), (proj2 (Z.eqb_neq _ _)) by lia. by destruct s.
Qed.
End umalloc.

(** Two blocks are allocated, written, and one is freed and its space used again. *)
Definition heap0 : heap := mkHeap ∅ 0 4096.
Definition uops0 : list uop := [UMalloc 10; UMalloc 20; UStore 1 3 65; UFree 0; UMalloc 5; UMalloc 300; UStore 2 299 66].

Lemma malloc_isolates_witness : ∃ bs s, urun 1000 (λ _ _, true) uops0 [] heap0 = Ok bs s ∧ length bs = 3%nat.
Proof.
  destruct (malloc_isolates 1000 (λ _ _, true) uops0 heap0) as (bs & s & E & _ & _);
    [reflexivity|vm_compute; split; [discriminate|reflexivity]|reflexivity|repeat constructor; cbn; lia|].
  exists bs, s. split; [exact E|].
  assert (match urun 1000 (λ _ _, true) uops0 [] heap0 with Ok b _ => length b = 3%nat | _ => False end) as L by (vm_compute; reflexivity).
  rewrite E in L. exact L.
Defined.

Lemma malloc_wraps_witness : malloc 1000 (λ _ _, true) 4294967295 heap0 = malloc 1000 (λ _ _, true) 0 heap0 ∧
  sbrk (λ _ _, true) 3000000000 heap0 = Ok 4096 heap0.
Proof.
  split; [apply (malloc_wraps 1000 (λ _ _, true) 4294967295 heap0); lia|].
  apply (malloc_wraps 1000 (λ _ _, true) 3000000000 heap0); vm_compute; (discriminate || reflexivity).
Defined.
