(* ===== verification/Grep.v ===== *)
(** * grep

    [grep.c]: the matcher, compared with what a pattern means, and the loop over
    the lines of the input. *)
From stdpp Require Import base strings numbers gmap list.
From S2P Require Import Prelude Machine KString Ulib.

(** ** The matcher *)

(** The loop of [matchstar]; [here] matches the rest of the pattern. *)
Fixpoint star_loop (here : list Z → bool) (c : Z) (text : list Z) : bool :=
  here text ||
  match text with
  | x :: t => if (x =? c) || (c =? 46) then star_loop here c t else false
  | [] => false
  end.

Fixpoint matchhere (re : list Z) (text : list Z) : bool :=
  match re with
  | [] => true
  | c :: re' =>
      let next := match text with
                  | x :: t => if (c =? 46) || (c =? x) then matchhere re' t else false
                  | [] => false
                  end in
      match re' with
      | s :: re'' => if s =? 42 then star_loop (matchhere re'') c text else next
      | [] => if c =? 36 then bool_decide (text = []) else next
      end
  end.
Definition matchstar (c : Z) (re text : list Z) : bool := star_loop (matchhere re) c text.

(** The loop of [match]: the pattern is tried at the start of every suffix. *)
Fixpoint match_loop (re text : list Z) : bool :=
  matchhere re text || match text with _ :: t => match_loop re t | [] => false end.
Definition re_match (re text : list Z) : bool :=
  match re with
  | c :: re' => if c =? 94 then matchhere re' text else match_loop re text
  | [] => match_loop re text
  end.

(** ** The input *)

(** [q = strchr(p, '\n')] in the buffer: the line before [q] and what follows it. A
    NUL ends the search. *)
Fixpoint find_nl (p : list Z) : option (list Z * list Z) :=
  match p with
  | [] => None
  | c :: p' =>
      if c =? 10 then Some ([], p')
      else if c =? 0 then None
      else match find_nl p' with Some (l, r) => Some (c :: l, r) | None => None end
  end.

(** The inner loop: what is written, and the final [p]. *)
Fixpoint grep_lines (fuel : nat) (pattern p : list Z) : list Z * list Z :=
  match fuel with
  | O => ([], p)
  | S f =>
      match find_nl p with
      | None => ([], p)
      | Some (line, rest) =>
          let '(out, p') := grep_lines f pattern rest in
          ((if re_match pattern line then line ++ [10] else []) ++ out, p')
      end
  end.

(** [grep] with [carry] in the buffer; [reads] are the answers of [read] up to the
    one that is not positive. The line is kept for the next turn unless the whole
    buffer held no newline. *)
Fixpoint grep_loop (pattern carry : list Z) (reads : list (list Z)) : list Z :=
  match reads with
  | [] => []
  | chunk :: reads' =>
      let buf := carry ++ chunk in
      let '(out, p) := grep_lines (length buf) pattern buf in
      let m := if decide (length p = length buf) then [] else p in
      out ++ grep_loop pattern m reads'
  end.
Definition grep (pattern : list Z) (reads : list (list Z)) : list Z := grep_loop pattern [] reads.

(** ** What a pattern means *)
Inductive item := Lit (c : Z) | Star (c : Z) | End.
Fixpoint items (re : list Z) : list item :=
  match re with
  | [] => []
  | c :: re' =>
      match re' with
      | s :: re'' => if s =? 42 then Star c :: items re'' else Lit c :: items re'
      | [] => if c =? 36 then [End] else [Lit c]
      end
  end.

(** The character [c] of a pattern stands for [x]. *)
Definition stands_for (c x : Z) : Prop := c = 46 ∨ c = x.

(** The items match at the start of a text. *)
Fixpoint matches (its : list item) (text : list Z) : Prop :=
  match its with
  | [] => True
  | Lit c :: its' => ∃ x t, text = x :: t ∧ stands_for c x ∧ matches its' t
  | Star c :: its' => ∃ t1 t2, text = t1 ++ t2 ∧ Forall (stands_for c) t1 ∧ matches its' t2
  | End :: its' => text = [] ∧ matches its' []
  end.

Lemma stands_for_bool c x : (c =? 46) || (c =? x) = true ↔ stands_for c x.
Proof. unfold stands_for. rewrite orb_true_iff, !Z.eqb_eq. done. Qed.

Lemma star_loop_spec here c text : star_loop here c text = true ↔
  ∃ t1 t2, text = t1 ++ t2 ∧ Forall (stands_for c) t1 ∧ here t2 = true.
Proof.
  induction text as [|x t IH]; cbn [star_loop]; rewrite orb_true_iff.
  - split.
    + intros [H|H]; [|done]. by exists [], [].
    + intros (t1 & t2 & E & _ & H). symmetry in E. apply app_nil in E as [-> ->]. by left.
  - replace ((x =? c) || (c =? 46)) with ((c =? 46) || (c =? x)) by lia. split.
    + intros [H|H]; [by exists [], (x :: t)|]. destruct ((c =? 46) || (c =? x)) eqn:E; [|done].
      apply IH in H as (t1 & t2 & -> & HF & H). apply stands_for_bool in E. exists (x :: t1), t2. by split_and!; [|constructor|].
    + intros (t1 & t2 & E & HF & H). destruct t1 as [|y t1]; cbn in E; [left; by subst|]. injection E as <- ->.
      apply Forall_cons in HF as [Hx HF]. right. apply stands_for_bool in Hx. rewrite Hx. apply IH. eauto.
Qed.

Lemma next_spec re c text :
  (∀ t, matchhere re t = true ↔ matches (items re) t) →
  match text with x :: t => if (c =? 46) || (c =? x) then matchhere re t else false | [] => false end = true ↔
  ∃ x t, text = x :: t ∧ stands_for c x ∧ matches (items re) t.
Proof.
  intros IH. destruct text as [|x t]; [split; [done|by intros (? & ? & ? & _)]|].
  destruct ((c =? 46) || (c =? x)) eqn:E.
  - rewrite IH. apply stands_for_bool in E. split; [eauto 6|]. by intros (? & ? & [= <- <-] & _ & ?).
  - split; [done|]. intros (? & ? & [= <- <-] & H & _). apply stands_for_bool in H. congruence.
Qed.

Lemma matchhere_spec re : ∀ text, matchhere re text = true ↔ matches (items re) text.
Proof.
  induction re as [re IH] using (induction_ltof1 _ (@length Z)). unfold ltof in IH. intros text.
  destruct re as [|c [|s re]]; [done|..]; cbn [matchhere items].
  - destruct (c =? 36); [rewrite bool_decide_eq_true; cbn; naive_solver|].
    cbn [matches]. apply (next_spec [] c text). done.
  - destruct (s =? 42); cbn [matches].
    + rewrite star_loop_spec. setoid_rewrite (IH re); [done|cbn; lia].
    + apply (next_spec (s :: re) c text). intros t. apply (IH (s :: re)). cbn. lia.
Qed.

(** C27: the matcher of grep decides what its patterns mean: it accepts a text
    exactly when the pattern, an item "c*" standing for any number of characters
    that [c] stands for and a "$" at the end for the end of the text, matches at
    some place in it, or at its start if the pattern begins with "^". *)
Theorem re_match_spec re text : re_match re text = true ↔
  if decide (hd 0 re = 94) then matches (items (tl re)) text
  else ∃ pre suf, text = pre ++ suf ∧ matches (items re) suf.
Proof.
  assert (Hl : match_loop re text = true ↔ ∃ pre suf, text = pre ++ suf ∧ matches (items re) suf).
  { induction text as [|x t IH]; cbn [match_loop]; rewrite orb_true_iff, matchhere_spec.
    - split; [intros [H|H]; [|done]; by exists [], []|]. intros (pre & suf & E & H).
      symmetry in E. apply app_nil in E as [-> ->]. by left.
    - rewrite IH. split.
      + intros [H|(pre & suf & -> & H)]; [by exists [], (x :: t)|by exists (x :: pre), suf].
      + intros (pre & suf & E & H). destruct pre as [|y pre]; cbn in E; [left; by subst|].
        injection E as <- ->. right. eauto. }
  destruct re as [|c re]; [by rewrite decide_False|]. cbn [re_match hd tl].
  destruct (Z.eqb_spec c 94); [rewrite decide_True by done; apply matchhere_spec|by rewrite decide_False].
Qed.

Lemma re_match_spec_witness : re_match (lit "^a.*d$") (lit "abcd") = true.
Proof.
  apply (re_match_spec (lit "^a.*d$") (lit "abcd")). rewrite decide_True by done.
  exists 97, (lit "bcd"). split; [done|]. split; [by right|]. exists (lit "bc"), (lit "d").
  split; [done|]. split; [by repeat constructor|]. exists 100, []. split; [done|]. split; [by right|done].
Defined.

(** ** The lines of a text *)

(** The complete lines of a text, without their newlines, and what follows the
    last one. *)
Fixpoint split_lines (inp : list Z) : list (list Z) * list Z :=
  match inp with
  | [] => ([], [])
  | c :: r =>
      let '(ls, t) := split_lines r in
      if c =? 10 then ([] :: ls, t)
      else match ls with l :: ls' => ((c :: l) :: ls', t) | [] => ([], c :: t) end
  end.

Lemma find_nl_lines p : 0 ∉ p →
  match find_nl p with
  | Some (l, r) => split_lines p = (l :: (split_lines r).1, (split_lines r).2) ∧ (length r < length p)%nat ∧ 0 ∉ r
  | None => split_lines p = ([], p)
  end.
Proof.
  induction p as [|c p IH]; intros H0; [done|]. apply not_elem_of_cons in H0 as [Hc H0]. cbn [find_nl split_lines].
  specialize (IH H0). destruct (Z.eqb_spec c 10) as [->|].
  - destruct (split_lines p). split; [done|]. split; [cbn; lia|done].
  - rewrite (proj2 (Z.eqb_neq c 0)) by done. destruct (find_nl p) as [[l r]|].
    + destruct IH as (-> & ? & ?). split; [done|]. split; [cbn; lia|done].
    + by rewrite IH.
Qed.

Lemma no_newline p : 10 ∉ p → split_lines p = ([], p).
Proof.
  induction p as [|c p IH]; [done|]. intros [Hc Hp]%not_elem_of_cons. cbn [split_lines].
  rewrite (IH Hp), (proj2 (Z.eqb_neq c 10)) by done. done.
Qed.

(** The lines that match, as they are written. *)
Definition wanted (pattern : list Z) (ls : list (list Z)) : list Z :=
  concat ((λ l, if re_match pattern l then l ++ [10] else []) <$> ls).

Lemma grep_lines_spec pattern n : ∀ p, (length p ≤ n)%nat → 0 ∉ p →
  grep_lines n pattern p = (wanted pattern (split_lines p).1, (split_lines p).2).
Proof.
  induction n as [|n IH]; intros p Hn H0.
  - assert (p = []) as -> by (destruct p; [done|cbn in Hn; lia]). done.
  - cbn [grep_lines]. pose proof (find_nl_lines p H0) as H. destruct (find_nl p) as [[l r]|].
    + destruct H as (-> & Hlt & Hr). rewrite IH by (lia || done). done.
    + by rewrite H.
Qed.

Lemma split_lines_app a b : split_lines (a ++ b) =
  ((split_lines a).1 ++ (split_lines ((split_lines a).2 ++ b)).1, (split_lines ((split_lines a).2 ++ b)).2).
Proof.
  induction a as [|c a IH]; [cbn; by destruct (split_lines b)|]. cbn [app split_lines]. rewrite IH.
  destruct (split_lines a) as [ls t]. cbn [fst snd]. destruct (c =? 10) eqn:E; [done|].
  destruct ls as [|l ls]; [|done]. cbn [app fst snd split_lines]. rewrite E.
  by destruct (split_lines (t ++ b)) as [[] ?].
Qed.
Lemma split_lines_rest a : 10 ∉ (split_lines a).2 ∧ (length (split_lines a).2 ≤ length a)%nat ∧
  (∀ c, c ∈ (split_lines a).2 → c ∈ a).
Proof.
  induction a as [|c a (H1 & H2 & H3)]; [cbn; split_and!; [apply not_elem_of_nil|lia|done]|]. cbn [split_lines].
  destruct (split_lines a) as [ls t]. cbn in *. destruct (Z.eqb_spec c 10); [|destruct ls].
  - cbn. split_and!; [done|lia|]. intros. apply elem_of_cons. auto.
  - cbn. split_and!; [apply not_elem_of_cons; auto|lia|]. intros ? [->|?]%elem_of_cons; apply elem_of_cons; auto.
  - cbn. split_and!; [done|lia|]. intros. apply elem_of_cons. auto.
Qed.
Lemma split_lines_short a : 10 ∈ a → (length (split_lines a).2 < length a)%nat.
Proof.
  intros H. pose proof (split_lines_rest a) as (H1 & H2 & H3).
  destruct (decide (length (split_lines a).2 = length a)) as [E|]; [|lia]. exfalso. clear H2 H3.
  induction a as [|c a IH]; [by apply not_elem_of_nil in H|]. cbn [split_lines] in *.
  pose proof (split_lines_rest a) as (G1 & G2 & _).
  destruct (split_lines a) as [ls t]. cbn in *. destruct (Z.eqb_spec c 10); [|destruct ls]; cbn in *; [lia| |lia].
  apply not_elem_of_cons in H1 as [? ?]. apply elem_of_cons in H as [H|H]; [congruence|].
  apply IH; [done|done|lia].
Qed.

Lemma grep_loop_spec pattern reads : ∀ carry, 0 ∉ carry → 10 ∉ carry →
  Forall (λ ch, 10 ∈ ch ∧ 0 ∉ ch) reads →
  grep_loop pattern carry reads = wanted pattern (split_lines (carry ++ concat reads)).1.
Proof.
  induction reads as [|ch reads IH]; intros carry H0 H1 HF; cbn [grep_loop concat].
  - by rewrite app_nil_r, no_newline.
  - apply Forall_cons in HF as [[Hn Hz] HF]. assert (Hb : 0 ∉ carry ++ ch) by (rewrite elem_of_app; tauto).
    rewrite grep_lines_spec by done. pose proof (split_lines_short (carry ++ ch)) as Hs.
    rewrite decide_False; [|specialize (Hs ltac:(rewrite elem_of_app; auto)); lia].
    destruct (split_lines_rest (carry ++ ch)) as (G1 & _ & G3).
    rewrite IH; [|intros Hc; by apply Hb, G3|done|done].
    rewrite app_assoc, (split_lines_app (carry ++ ch)). unfold wanted. cbn [fst]. by rewrite fmap_app, concat_app.
Qed.

(** C28: when every answer of [read] contains a newline and no NUL, grep writes exactly the
    lines of its input that match, in order and complete, however the input is cut
    into reads. *)
Theorem grep_prints pattern reads : Forall (λ ch, 10 ∈ ch ∧ 0 ∉ ch) reads →
  grep pattern reads = wanted pattern (split_lines (concat reads)).1.
Proof. intros. unfold grep. rewrite grep_loop_spec; [done|apply not_elem_of_nil..|done]. Qed.
Lemma grep_prints_witness :
  grep (lit "b$") [lit "ab" ++ [10] ++ lit "c"; lit "b" ++ [10; 97; 10]] = lit "ab" ++ [10] ++ lit "cb" ++ [10].
Proof.
  rewrite (grep_prints (lit "b$") [lit "ab" ++ [10] ++ lit "c"; lit "b" ++ [10; 97; 10]]); [done|].
  repeat constructor; cbn; (set_solver || (intros H; repeat (apply elem_of_cons in H as [H|H]; [done|]); by apply elem_of_nil in H)).
Defined.

(** an answer of [read] without a newline is lost, together with the part of a
    line kept from before: grep goes on as if neither had been in the input. *)
Theorem grep_drops_partial pattern carry ch reads : 10 ∉ carry ++ ch → 0 ∉ carry ++ ch →
  grep_loop pattern carry (ch :: reads) = grep_loop pattern [] reads.
Proof.
  intros H1 H0. cbn [grep_loop]. rewrite grep_lines_spec by done.
  rewrite no_newline by done. by rewrite decide_True.
Qed.
Lemma grep_drops_partial_witness : grep (lit "hello") [lit "hel"; lit "lo" ++ [10]] = [].
Proof.
  unfold grep. rewrite (grep_drops_partial (lit "hello") [] (lit "hel") [lit "lo" ++ [10]]); [done|..];
    intros H; repeat (apply elem_of_cons in H as [H|H]; [done|]); by apply elem_of_nil in H.
Defined.
