(* ===== verification/Text.v ===== *)
(** * wc and uniq

    [wc.c] counts the lines, words and characters of its input; [uniq.c] collapses
    runs of equal lines. *)
From stdpp Require Import base strings numbers gmap list.
From S2P Require Import Prelude Machine KString Ulib Grep.

(** ** wc.c *)
Record wc_state := mkWc { wc_l : Z; wc_w : Z; wc_c : Z; wc_inword : bool }.

Definition wc_spaces : list Z := [32; 13; 9; 10; 11].
Definition wc_char (s : wc_state) (ch : Z) : wc_state :=
  let c := i32 (wc_c s + 1) in
  let l := if ch =? 10 then i32 (wc_l s + 1) else wc_l s in
  match strchr wc_spaces ch with
  | Some _ => mkWc l (wc_w s) c false
  | None => if wc_inword s then mkWc l (wc_w s) c true else mkWc l (i32 (wc_w s + 1)) c true
  end.

(** [reads] are the answers of [read] up to the end of the file. *)
Definition wc_count (reads : list (list Z)) : wc_state :=
  foldl (foldl wc_char) (mkWc 0 0 0 false) reads.
Definition wc (reads : list (list Z)) (name : list Z) : list Z :=
  let s := wc_count reads in
  printf (lit "%d %d %d %s" ++ [10]) [PInt (wc_l s); PInt (wc_w s); PInt (wc_c s); PStr (Some name)].

(** The reference: the words of a text are its maximal runs of characters other
    than white space. *)
Definition is_space (ch : Z) : bool := bool_decide (ch ∈ wc_spaces).
Fixpoint words (inword : bool) (t : list Z) : nat :=
  match t with
  | [] => 0
  | ch :: t' => if is_space ch then words false t' else (if inword then 0 else 1) + words true t'
  end%nat.
Definition count_nl (t : list Z) : nat := length (filter (λ ch, ch = 10) t).

Lemma strchr_spaces ch : (∃ s, strchr wc_spaces ch = Some s) ↔ is_space ch = true.
Proof.
  unfold is_space. rewrite bool_decide_eq_true. unfold wc_spaces. cbn [strchr]. rewrite !elem_of_cons, elem_of_nil.
  destruct (Z.eqb_spec 32 ch), (Z.eqb_spec 13 ch), (Z.eqb_spec 9 ch), (Z.eqb_spec 10 ch), (Z.eqb_spec 11 ch);
    naive_solver.
Qed.

Lemma wc_char_space s ch : wc_char s ch =
  let c := i32 (wc_c s + 1) in
  let l := if ch =? 10 then i32 (wc_l s + 1) else wc_l s in
  if is_space ch then mkWc l (wc_w s) c false
  else mkWc l (if wc_inword s then wc_w s else i32 (wc_w s + 1)) c true.
Proof.
  unfold wc_char. cbv zeta. pose proof (strchr_spaces ch). destruct (strchr wc_spaces ch), (is_space ch).
  - done.
  - naive_solver.
  - naive_solver.
  - by destruct (wc_inword s).
Qed.

Lemma count_nl_cons ch t : count_nl (ch :: t) = ((if (ch =? 10)%Z then 1 else 0) + count_nl t)%nat.
Proof.
  unfold count_nl. destruct (Z.eqb_spec ch 10); [by rewrite filter_cons_True|by rewrite filter_cons_False].
Qed.

Lemma wc_fold t : ∀ l w c b, 0 ≤ l → 0 ≤ w → 0 ≤ c → l + Z.of_nat (length t) < 2147483648 →
  w + Z.of_nat (length t) < 2147483648 → c + Z.of_nat (length t) < 2147483648 →
  ∃ b', foldl wc_char (mkWc l w c b) t =
    mkWc (l + Z.of_nat (count_nl t)) (w + Z.of_nat (words b t)) (c + Z.of_nat (length t)) b'.
Proof.
  induction t as [|ch t IH]; intros l w c b Hl Hw Hc Hl' Hw' Hc'; [exists b; cbn; f_equal; lia|].
  cbn [foldl length] in *. rewrite wc_char_space, count_nl_cons. cbn [wc_l wc_w wc_c wc_inword words].
  cbv zeta. rewrite !i32_small by lia. destruct (is_space ch).
  - edestruct (IH (if ch =? 10 then l + 1 else l) w (c + 1) false) as [b' ->]; [destruct (ch =? 10); lia..|].
    exists b'. destruct (ch =? 10); cbv iota; f_equal; lia.
  - edestruct (IH (if ch =? 10 then l + 1 else l) (if b then w else w + 1) (c + 1) true) as [b' ->];
      [destruct (ch =? 10), b; lia..|].
    exists b'. destruct (ch =? 10), b; cbv iota; f_equal; lia.
Qed.

(** [wc] counts the newlines, the words and the characters of its input, as
    long as it has fewer than 2^31 characters, whatever pieces it is read in. *)
Theorem wc_counts reads : Z.of_nat (length (concat reads)) < 2147483648 →
  let t := concat reads in
  wc_l (wc_count reads) = Z.of_nat (count_nl t) ∧ wc_w (wc_count reads) = Z.of_nat (words false t) ∧
  wc_c (wc_count reads) = Z.of_nat (length t).
Proof.
  intros H t. change (concat reads) with t in H. assert (E : wc_count reads = foldl wc_char (mkWc 0 0 0 false) t).
  { unfold wc_count, t. clear H t. generalize (mkWc 0 0 0 false). induction reads as [|r reads IH]; intros s; [done|].
    cbn [foldl concat]. by rewrite foldl_app, IH. }
  rewrite E. destruct (wc_fold t 0 0 0 false) as [b' ->]; [lia..|]. done.
Qed.
Lemma wc_counts_witness : wc_w (wc_count [lit "one tw"; lit "o" ++ [10]]) = 2.
Proof. apply (wc_counts [lit "one tw"; lit "o" ++ [10]]). done. Defined.

(** ** uniq.c *)
Definition MAX_LINE : nat := 1024.

(** [read_line] with room for [n] characters: the line and the input left. *)
Fixpoint read_line (n : nat) (inp : list Z) : list Z * list Z :=
  match n, inp with
  | S n', c :: inp' =>
      if c =? 10 then ([], inp')
      else let '(l, rest) := read_line n' inp' in (c :: l, rest)
  | _, _ => ([], inp)
  end.

Definition lower (c : Z) : Z := if (65 <=? c) && (c <=? 90) then c + 32 else c.
Fixpoint strcasecmp (p q : list Z) : Z :=
  match p, q with
  | a :: p', b :: q' => if lower a =? lower b then strcasecmp p' q' else lower a - lower b
  | _, _ => char_at p - char_at q
  end.

(** The part of a line buffer before its first NUL. *)
Fixpoint to_nul (l : list Z) : list Z :=
  match l with c :: l' => if c =? 0 then [] else c :: to_nul l' | [] => [] end.

Record uniq_opts := mkUniq { count_flag : bool; ignore_case : bool; duplicates : bool }.
Definition line_cmp (o : uniq_opts) (p q : list Z) : Z := if ignore_case o then strcasecmp p q else strcmp p q.

(** What is written for a line that came [count] times. *)
Definition uniq_print (o : uniq_opts) (line : list Z) (count : Z) : list Z :=
  if negb (duplicates o) || (1 <? count) then
    (if count_flag o then printf (lit "%d ") [PInt count] else []) ++
    printf (lit "%s" ++ [10]) [PStr (Some line)]
  else [].

(** The loop of [process_uniq]; [prev] is [prev_line] with its [count], or [None]
    while [first_line] is set. Every turn but the last takes at least a character. *)
Fixpoint uniq_loop (fuel : nat) (o : uniq_opts) (inp : list Z) (prev : option (list Z * Z)) : list Z :=
  let finish := match prev with Some (l, n) => uniq_print o l n | None => [] end in
  match fuel with
  | O => finish
  | S f =>
      let '(buf, rest) := read_line (MAX_LINE - 1) inp in
      if decide (buf = []) then finish
      else
        let cur := to_nul buf in
        match prev with
        | Some (l, n) =>
            if line_cmp o cur l =? 0 then uniq_loop f o rest (Some (l, i32 (n + 1)))
            else uniq_print o l n ++ uniq_loop f o rest (Some (cur, 1))
        | None => uniq_loop f o rest (Some (cur, 1))
        end
  end.
Definition process_uniq (o : uniq_opts) (inp : list Z) : list Z := uniq_loop (S (length inp)) o inp None.

(** *** The reference *)

(** A list of lines cut into its runs: the first line of each, and how many lines
    it has; the lines of a run are the same as its first, the next run's is not. *)
Inductive runs (same : list Z → list Z → bool) : list (list Z) → list (list Z * Z) → Prop :=
  | runs_nil : runs same [] []
  | runs_cons l block ls gs :
      Forall (λ x, same x l = true) block →
      match ls with x :: _ => same x l = false | [] => True end →
      runs same ls gs →
      runs same (l :: block ++ ls) ((l, 1 + Z.of_nat (length block)) :: gs).

(** The lines of a text: the complete ones, and the rest if it is not empty. *)
Definition lines (inp : list Z) : list (list Z) :=
  let '(ls, t) := split_lines inp in ls ++ (if decide (t = []) then [] else [t]).

(** A text [uniq] reads whole: its lines fit the buffer, none is empty, and there is
    no NUL. *)
Definition plain (inp : list Z) : Prop :=
  0 ∉ inp ∧ Forall (λ l, l ≠ [] ∧ (length l < MAX_LINE - 1)%nat) (lines inp).

Lemma to_nul_id l : 0 ∉ l → to_nul l = l.
Proof.
  induction l as [|c l IH]; [done|]. intros [Hc Hl]%not_elem_of_cons. cbn [to_nul].
  rewrite (proj2 (Z.eqb_neq c 0)) by done. by rewrite IH.
Qed.

Lemma read_line_nl l r n : 10 ∉ l → (length l < n)%nat → read_line n (l ++ 10 :: r) = (l, r).
Proof.
  revert n. induction l as [|c l IH]; intros [|n] Hl Hn; cbn in Hn; [lia|done|lia|].
  apply not_elem_of_cons in Hl as [Hc Hl]. cbn [read_line app].
  by rewrite (proj2 (Z.eqb_neq c 10)), IH by (done || lia).
Qed.
Lemma read_line_eof l n : 10 ∉ l → (length l < n)%nat → read_line n l = (l, []).
Proof.
  revert n. induction l as [|c l IH]; intros [|n] Hl Hn; cbn in Hn; [lia|done|lia|].
  apply not_elem_of_cons in Hl as [Hc Hl]. cbn [read_line].
  by rewrite (proj2 (Z.eqb_neq c 10)), IH by (done || lia).
Qed.

Lemma lines_first l r : 10 ∉ l → lines (l ++ 10 :: r) = l :: lines r.
Proof.
  intros Hl. unfold lines. rewrite split_lines_app, (no_newline l) by done. cbn [fst snd app].
  assert (E : split_lines (l ++ 10 :: r) = (l :: (split_lines r).1, (split_lines r).2)).
  { induction l as [|c l IH]; cbn [app split_lines]; [by destruct (split_lines r)|].
    apply not_elem_of_cons in Hl as [Hc Hl]. rewrite (IH Hl), (proj2 (Z.eqb_neq c 10)) by done. done. }
  rewrite E. by destruct (split_lines r).
Qed.
Lemma lines_last l : 10 ∉ l → lines l = if decide (l = []) then [] else [l].
Proof. intros Hl. unfold lines. by rewrite no_newline. Qed.

Lemma read_line_plain inp : plain inp →
  let '(l, r) := read_line (MAX_LINE - 1) inp in
  match lines inp with
  | [] => l = []
  | x :: ls => l = x ∧ x ≠ [] ∧ 0 ∉ x ∧ lines r = ls ∧ plain r ∧ (length r < length inp)%nat
  end.
Proof.
  intros [H0 HF]. destruct (decide (10 ∈ inp)) as [(l & r & -> & Hl)%list_elem_of_split_l|Hl].
  - rewrite lines_first in * by done. apply Forall_cons in HF as [[? ?] HF]. rewrite read_line_nl by done.
    rewrite elem_of_app, elem_of_cons in H0.
    split_and!; [done|done|tauto|done|split; [tauto|done]|]. rewrite length_app. cbn. lia.
  - rewrite lines_last in * by done. destruct (decide (inp = [])) as [->|Hne]; [done|].
    apply Forall_cons in HF as [[_ ?] _]. rewrite read_line_eof by done. split_and!; [done..| |].
    + split; [apply not_elem_of_nil|constructor].
    + destruct inp; cbn; [done|lia].
Qed.

(** Two lines are the same for [uniq]. *)
Definition same_line (o : uniq_opts) (x l : list Z) : bool := line_cmp o x l =? 0.

Lemma uniq_loop_runs o n : ∀ inp l m, (length inp < n)%nat → plain inp →
  1 ≤ m → m + Z.of_nat (length inp) < 2147483648 →
  ∃ block ls gs, lines inp = block ++ ls ∧ Forall (λ x, same_line o x l = true) block ∧
    match ls with x :: _ => same_line o x l = false | [] => True end ∧ runs (same_line o) ls gs ∧
    uniq_loop n o inp (Some (l, m)) =
      uniq_print o l (m + Z.of_nat (length block)) ++ concat ((λ '(l, n), uniq_print o l n) <$> gs).
Proof.
  induction n as [|n IH]; intros inp l m Hn Hp Hm Hb; [lia|]. cbn [uniq_loop].
  pose proof (read_line_plain inp Hp) as HL. destruct (read_line (MAX_LINE - 1) inp) as [buf rest].
  destruct (lines inp) as [|x ls] eqn:El.
  - subst. rewrite decide_True by done. exists [], [], []. split_and!; [done|by constructor|done|constructor|].
    cbn. by rewrite Z.add_0_r, app_nil_r.
  - destruct HL as (-> & Hne & H0 & Hr & Hpr & Hlen). rewrite decide_False by done. rewrite to_nul_id by done.
    destruct (line_cmp o x l =? 0) eqn:Es.
    + destruct (IH rest l (m + 1)) as (block & ls' & gs & E1 & E2 & E3 & E4 & E5); [lia|done|lia|lia|].
      exists (x :: block), ls', gs. split_and!; [by rewrite <- Hr, E1|by constructor|done|done|].
      rewrite i32_small by lia. rewrite E5. cbn [length]. do 2 f_equal. lia.
    + destruct (IH rest x 1) as (block & ls' & gs & E1 & E2 & E3 & E4 & E5); [lia|done|lia|lia|].
      exists [], (x :: ls), ((x, 1 + Z.of_nat (length block)) :: gs).
      split_and!; [done|by constructor|done|rewrite <- Hr, E1; by constructor|].
      rewrite E5. cbn [length]. rewrite Z.add_0_r. done.
Qed.

(** on a text whose lines fit its buffer and none of which is empty, [uniq]
    writes one line for every run of lines that are the same to it (up to case
    with -i): the first line of the run, with the length of the run before it
    under -c, and only runs of two or more under -d. *)
Theorem uniq_runs o inp : plain inp → Z.of_nat (length inp) < 2147483647 →
  ∃ gs, runs (same_line o) (lines inp) gs ∧
    process_uniq o inp = concat ((λ '(l, n), uniq_print o l n) <$> gs).
Proof.
  intros Hp Hlen. unfold process_uniq. cbn [uniq_loop]. pose proof (read_line_plain inp Hp) as HL.
  destruct (read_line (MAX_LINE - 1) inp) as [buf rest]. destruct (lines inp) as [|x ls].
  - subst. rewrite decide_True by done. exists []. split; [constructor|done].
  - destruct HL as (-> & Hne & H0 & Hr & Hpr & Hl). rewrite decide_False, to_nul_id by done.
    destruct (uniq_loop_runs o (length inp) rest x 1) as (block & ls' & gs & E1 & E2 & E3 & E4 & E5); [lia|done|lia|lia|].
    exists ((x, 1 + Z.of_nat (length block)) :: gs). rewrite <- Hr, E1, E5. split; [by constructor|done].
Qed.

Definition uniq_demo : list Z := lit "a" ++ [10] ++ lit "a" ++ [10] ++ lit "b" ++ [10].
Lemma uniq_runs_witness :
  ∃ gs, runs (same_line (mkUniq true false false)) [lit "a"; lit "a"; lit "b"] gs ∧
    concat ((λ '(l, n), uniq_print (mkUniq true false false) l n) <$> gs) = lit "2 a" ++ [10] ++ lit "1 b" ++ [10].
Proof.
  destruct (uniq_runs (mkUniq true false false) uniq_demo) as (gs & H1 & H2); [|done|].
  - split; [|by repeat constructor]. intros H. repeat (apply elem_of_cons in H as [H|H]; [done|]).
    by apply elem_of_nil in H.
  - exists gs. split; [exact H1|]. rewrite <- H2. by vm_compute.
Defined.

(** A text of whole lines that are not empty. *)
Inductive whole_lines : list Z → Prop :=
  | whole_nil : whole_lines []
  | whole_cons l r : l ≠ [] → 10 ∉ l → (length l < MAX_LINE - 1)%nat → whole_lines r → whole_lines (l ++ 10 :: r).

Lemma uniq_loop_stops o n n' inp rest prev : whole_lines inp → (length inp < n)%nat → (length inp < n')%nat →
  uniq_loop n o (inp ++ 10 :: rest) prev = uniq_loop n' o inp prev.
Proof.
  intros Hw. revert n n' prev. induction Hw as [|l r Hne Hl Hlen Hw IH]; intros [|n] [|n'] prev Hn Hn'; try lia; cbn [uniq_loop].
  - done.
  - rewrite <- app_assoc. cbn [app]. rewrite !read_line_nl by done. rewrite !decide_False by done.
    rewrite length_app in Hn, Hn'. cbn in Hn, Hn'.
    destruct prev as [[l' m]|]; [|by rewrite (IH n n') by lia]. destruct (line_cmp o (to_nul l) l' =? 0); by rewrite (IH n n') by lia.
Qed.

(** an empty line ends the work of [uniq]: what follows it is not read. *)
Theorem uniq_stops o inp rest : whole_lines inp → process_uniq o (inp ++ 10 :: rest) = process_uniq o inp.
Proof.
  intros Hw. apply uniq_loop_stops; [done| |lia]. rewrite length_app. lia.
Qed.
Lemma uniq_stops_witness :
  process_uniq (mkUniq false false false) (lit "a" ++ [10; 10] ++ lit "b" ++ [10]) = lit "a" ++ [10].
Proof.
  change (lit "a" ++ [10; 10] ++ lit "b" ++ [10]) with (([97] ++ 10 :: []) ++ 10 :: (lit "b" ++ [10])).
  rewrite (uniq_stops (mkUniq false false false) ([97] ++ 10 :: []) (lit "b" ++ [10])); [by vm_compute|].
  apply whole_cons; [done| | |constructor].
  - intros H. apply elem_of_cons in H as [H|H]; [done|]. by apply elem_of_nil in H.
  - cbn. lia.
Defined.
