(* ===== verification/Sh.v ===== *)
(** * The shell's parser

    The lexer and the parser of [sh.c]. A position in the command line is its
    offset; a token is the pair of offsets ([q], [eq]) the lexer answers, and the
    parser's result holds such pairs until [nulterminate] puts a NUL at the end of
    each. [panic] is a failure with its message. *)
From stdpp Require Import base strings numbers gmap list.
From S2P Require Import Prelude Machine KString Ulib.

Definition MAXARGS : nat := 10.
Definition whitespace : list Z := [32; 9; 13; 10; 11].
Definition symbols : list Z := lit "<|>&;()".
Definition is_ws (c : Z) : bool := match strchr whitespace c with Some _ => true | None => false end.
Definition is_sym (c : Z) : bool := match strchr symbols c with Some _ => true | None => false end.
Definition is_word (c : Z) : bool := negb (is_ws c) && negb (is_sym c).

(** Parsed command representation. *)
Definition token : Type := nat * nat.
Inductive cmd (W : Type) :=
  | Exec (argv : list W)
  | Redir (c : cmd W) (file : W) (mode fd : Z)
  | Pipe (left right : cmd W)
  | List (left right : cmd W)
  | Back (c : cmd W).
Arguments Exec {W} argv.
Arguments Redir {W} c file mode fd.
Arguments Pipe {W} left right.
Arguments List {W} left right.
Arguments Back {W} c.

(** The outcome of a part of the parser: a value and the position after it, a
    [panic], or no fuel left. *)
Inductive pres (A : Type) := PDone (a : A) (ps : nat) | PFail (msg : string) | PFuel.
Arguments PDone {A} a ps.
Arguments PFail {A} msg.
Arguments PFuel {A}.
Definition pbind {A B} (r : pres A) (f : A → nat → pres B) : pres B :=
  match r with PDone a p => f a p | PFail m => PFail m | PFuel => PFuel end.

(** The number of characters at the start of [l] that satisfy [P]. *)
Fixpoint span (P : Z → bool) (l : list Z) : nat :=
  match l with
  | c :: l' => if P c then S (span P l') else 0
  | [] => 0
  end%nat.

(** [redircmd] around a command, several times. *)
Definition wrap {W} (rs : list (W * (Z * Z))) (c : cmd W) : cmd W :=
  foldl (λ c r, Redir c r.1 r.2.1 r.2.2) c rs.

Section parser.
Context (buf : list Z).

(** The character at a position; the NUL is at the end. *)
Definition cat (p : nat) : Z := default 0 (buf !! p).
Definition skip_ws (p : nat) : nat := p + span is_ws (drop p buf).

(** The answer, the token and the new [*ps]. *)
Definition gettoken (p : nat) : Z * token * nat :=
  let s := skip_ws p in
  let c := cat s in
  let '(ret, e) :=
    if c =? 0 then (0, s)
    else if (c =? 124) || (c =? 40) || (c =? 41) || (c =? 59) || (c =? 38) || (c =? 60) then (c, S s)
    else if c =? 62 then (if cat (S s) =? 62 then (43, S (S s)) else (62, S s))
    else (97, (s + span is_word (drop s buf))%nat) in
  (ret, (s, e), skip_ws e).

Definition peek (p : nat) (toks : list Z) : bool * nat :=
  let s := skip_ws p in
  (negb (cat s =? 0) && match strchr toks (cat s) with Some _ => true | None => false end, s).

Definition redir_mode (tok : Z) : Z * Z := if tok =? 60 then (0, 0) else (0x201, 1).
Definition redir : Type := token * (Z * Z).

(** The loop of [parseredirs]: the redirections it wraps around the command, from
    the inside out. *)
Fixpoint parseredirs (n : nat) (rs : list redir) (p : nat) : pres (list redir) :=
  match n with
  | O => PFuel
  | S n' =>
      let '(b, p) := peek p (lit "<>") in
      if b : bool then
        let '(tok, _, p) := gettoken p in
        let '(t2, w, p) := gettoken p in
        if t2 =? 97 then parseredirs n' (rs ++ [(w, redir_mode tok)]) p
        else PFail "missing file for redirection"
      else PDone rs p
  end.

(** The loop of [parseexec] over the arguments; redirections in between are wrapped
    around the command that is still being filled. *)
Fixpoint parseargs (n : nat) (args : list token) (rs : list redir) (p : nat) :
    pres (list token * list redir) :=
  match n with
  | O => PFuel
  | S n' =>
      let '(b, p) := peek p (lit "|)&;") in
      if b : bool then PDone (args, rs) p
      else
        let '(tok, w, p) := gettoken p in
        if tok =? 0 then PDone (args, rs) p
        else if negb (tok =? 97) then PFail "syntax"
        else if decide (MAXARGS ≤ length (args ++ [w]))%nat then PFail "too many args"
        else pbind (parseredirs (S (length buf)) rs p) (λ rs p, parseargs n' (args ++ [w]) rs p)
  end.

(** The loop of [parseline] over '&'. *)
Fixpoint parsebacks (n : nat) (c : cmd token) (p : nat) : pres (cmd token) :=
  match n with
  | O => PFuel
  | S n' =>
      let '(b, p) := peek p (lit "&") in
      if b : bool then let '(_, _, p) := gettoken p in parsebacks n' (Back c) p
      else PDone c p
  end.

Fixpoint parseline (n : nat) (p : nat) : pres (cmd token) :=
  match n with
  | O => PFuel
  | S n' =>
      pbind (parsepipe n' p) (λ c p,
      pbind (parsebacks (S (length buf)) c p) (λ c p,
        let '(b, p) := peek p (lit ";") in
        if b : bool then
          let '(_, _, p) := gettoken p in
          pbind (parseline n' p) (λ r p, PDone (List c r) p)
        else PDone c p))
  end
with parsepipe (n : nat) (p : nat) : pres (cmd token) :=
  match n with
  | O => PFuel
  | S n' =>
      pbind (parseexec n' p) (λ c p,
        let '(b, p) := peek p (lit "|") in
        if b : bool then
          let '(_, _, p) := gettoken p in
          pbind (parsepipe n' p) (λ r p, PDone (Pipe c r) p)
        else PDone c p)
  end
with parseexec (n : nat) (p : nat) : pres (cmd token) :=
  match n with
  | O => PFuel
  | S n' =>
      let '(b, p) := peek p (lit "(") in
      if b : bool then parseblock n' p
      else
        pbind (parseredirs (S (length buf)) [] p) (λ rs p,
        pbind (parseargs (S (length buf)) [] rs p) (λ '(args, rs) p,
        PDone (wrap rs (Exec args)) p))
  end
with parseblock (n : nat) (p : nat) : pres (cmd token) :=
  match n with
  | O => PFuel
  | S n' =>
      let '(b, p) := peek p (lit "(") in
      if negb b then PFail "parseblock"
      else
        let '(_, _, p) := gettoken p in
        pbind (parseline n' p) (λ c p,
          let '(b, p) := peek p (lit ")") in
          if negb b then PFail "syntax - missing )"
          else
            let '(_, _, p) := gettoken p in
            pbind (parseredirs (S (length buf)) [] p) (λ rs p, PDone (wrap rs c) p))
  end.

(** [parsecmd] up to [nulterminate]. *)
Definition parse : pres (cmd token) :=
  pbind (parseline (4 * length buf + 4) 0) (λ c p,
    let '(_, p) := peek p [] in
    if decide (p = length buf) then PDone c p else PFail "syntax").
End parser.

(** [nulterminate]: the buffer with a NUL behind every string of [c]. *)
Fixpoint nulterminate (c : cmd token) (buf : list Z) : list Z :=
  match c with
  | Exec argv => foldl (λ b w, <[w.2 := 0]> b) buf argv
  | Redir c w _ _ => <[w.2 := 0]> (nulterminate c buf)
  | Pipe l r => nulterminate r (nulterminate l buf)
  | List l r => nulterminate r (nulterminate l buf)
  | Back c => nulterminate c buf
  end.

(** The command with its strings, as [runcmd] reads them from the buffer. *)
Fixpoint cstr_at (l : list Z) : list Z :=
  match l with c :: l' => if c =? 0 then [] else c :: cstr_at l' | [] => [] end.
Fixpoint cmd_map {V W} (f : V → W) (c : cmd V) : cmd W :=
  match c with
  | Exec argv => Exec (f <$> argv)
  | Redir c w m fd => Redir (cmd_map f c) (f w) m fd
  | Pipe l r => Pipe (cmd_map f l) (cmd_map f r)
  | List l r => List (cmd_map f l) (cmd_map f r)
  | Back c => Back (cmd_map f c)
  end.
Definition cmd_strings (buf : list Z) : cmd token → cmd (list Z) :=
  cmd_map (λ w, cstr_at (drop w.1 buf)).

(** [parsecmd]: the line is followed by a NUL in its buffer. *)
Definition parsecmd (line : list Z) : string + cmd (list Z) :=
  match parse line with
  | PDone c _ => inr (cmd_strings (nulterminate c (line ++ [0])) c)
  | PFail m => inl m
  | PFuel => inl "out of fuel"
  end.

(** ** The lexer *)
Lemma span_le P l : (span P l ≤ length l)%nat.
Proof. induction l as [|c l IH]; simpl; [|destruct (P c)]; lia. Qed.
Lemma span_take P l : Forall (λ c, P c = true) (take (span P l) l).
Proof.
  induction l as [|c l IH]; simpl; [constructor|].
  destruct (P c) eqn:E; simpl; auto.
Qed.
Lemma span_stop P l c : l !! span P l = Some c → P c = false.
Proof.
  induction l as [|a l IH]; simpl; [done|].
  destruct (P a) eqn:E; simpl; [done|]. by intros [= ->].
Qed.
Lemma span_app P l1 l2 :
  Forall (λ c, P c = true) l1 → span P (l1 ++ l2) = (length l1 + span P l2)%nat.
Proof. induction 1 as [|c l1 E _ IH]; simpl; [done|]. by rewrite E, IH. Qed.
Lemma span_0 P l : (∀ c, l !! 0%nat = Some c → P c = false) → span P l = 0%nat.
Proof. destruct l as [|c l]; simpl; [done|]. intros E. by rewrite (E c). Qed.

(** A token that is a maximal run of word characters. *)
Definition tok_ok (buf : list Z) (w : token) : Prop :=
  (w.1 < w.2 ≤ length buf)%nat ∧
  (∀ i, (w.1 ≤ i < w.2)%nat → ∃ c, buf !! i = Some c ∧ is_word c = true) ∧
  (∀ c, buf !! w.2 = Some c → is_word c = false).

Lemma is_word_sym c :
  is_ws c = false → is_word c = false →
  c = 60 ∨ c = 124 ∨ c = 62 ∨ c = 38 ∨ c = 59 ∨ c = 40 ∨ c = 41.
Proof.
  intros E. unfold is_word. rewrite E. simpl. rewrite negb_false_iff.
  unfold is_sym. intros S. destruct (strchr symbols c) eqn:F; [|done].
  change symbols with [60; 124; 62; 38; 59; 40; 41] in F. cbn [strchr] in F.
  repeat (match type of F with context [?a =? c] => destruct (Z.eqb_spec a c) end; [lia|]). done.
Qed.

Section lexer.
Context (buf : list Z).
Notation len := (length buf).
Notation cat := (cat buf).
Notation skip_ws := (skip_ws buf).

Lemma cat_lt p : cat p ≠ 0 → (p < len)%nat.
Proof.
  unfold Sh.cat. destruct (buf !! p) eqn:E; [|done]. intros _. by eapply lookup_lt_Some.
Qed.
Lemma cat_lookup p : cat p ≠ 0 → buf !! p = Some (cat p).
Proof. unfold Sh.cat. by destruct (buf !! p). Qed.
Lemma skip_ws_le p : (p ≤ len → p ≤ skip_ws p ≤ len)%nat.
Proof.
  intros ?. unfold Sh.skip_ws. pose proof (span_le is_ws (drop p buf)) as L.
  rewrite length_drop in L. lia.
Qed.
Lemma skip_ws_stop p c : buf !! skip_ws p = Some c → is_ws c = false.
Proof. unfold Sh.skip_ws. rewrite <- lookup_drop. apply span_stop. Qed.
Lemma skip_ws_id p : skip_ws (skip_ws p) = skip_ws p.
Proof.
  unfold Sh.skip_ws at 1. rewrite span_0; [lia|]. intros c.
  rewrite lookup_drop, Nat.add_0_r. apply skip_ws_stop.
Qed.

Lemma word_tok_ok s :
  cat s ≠ 0 → is_word (cat s) = true → tok_ok buf (s, s + span is_word (drop s buf))%nat.
Proof.
  intros E W. pose proof (cat_lt _ E) as L. pose proof (cat_lookup _ E) as K.
  pose proof (span_le is_word (drop s buf)) as U. rewrite length_drop in U.
  assert (1 ≤ span is_word (drop s buf))%nat.
  { rewrite (drop_S _ _ _ K). simpl. rewrite W. lia. }
  split; [simpl; lia|]. split; simpl.
  - intros i Hi. destruct (buf !! i) as [c|] eqn:C; [|apply lookup_ge_None in C; lia].
    exists c. split; [done|]. pose proof (span_take is_word (drop s buf)) as F.
    rewrite Forall_lookup in F. apply (F (i - s)%nat).
    rewrite lookup_take, lookup_drop. rewrite decide_True by lia.
    by replace (s + (i - s))%nat with i by lia.
  - intros c C. rewrite <- lookup_drop in C. by apply span_stop in C.
Qed.

Lemma gettoken_spec p ret s e p' :
  (p ≤ len)%nat → gettoken buf p = (ret, (s, e), p') →
  (p ≤ s ≤ e ∧ e ≤ p' ≤ len)%nat ∧ (cat s ≠ 0 → (s < e)%nat) ∧ (ret = 97 → tok_ok buf (s, e)).
Proof.
  intros Hp. unfold gettoken. pose proof (skip_ws_le p Hp) as S1.
  assert (R : ∀ r e0 b, (skip_ws p ≤ e0 ≤ len)%nat → (cat (skip_ws p) ≠ 0 → (skip_ws p < e0)%nat) →
    (b = true → tok_ok buf (skip_ws p, e0)) → (r = 97 → b = true) →
    (r, (skip_ws p, e0), skip_ws e0) = (ret, (s, e), p') →
    (p ≤ s ≤ e ∧ e ≤ p' ≤ len)%nat ∧ (cat s ≠ 0 → (s < e)%nat) ∧ (ret = 97 → tok_ok buf (s, e))).
  { intros r e0 b B1 B2 B3 B4 [= <- <- <- <-]. pose proof (skip_ws_le e0 (proj2 B1)). split; [lia|].
    split; [done|]. auto. }
  destruct (Z.eqb_spec (cat (skip_ws p)) 0) as [E0|E0]; [apply (R _ _ false); done || lia|].
  pose proof (cat_lt _ E0) as L.
  destruct (_ || _) eqn:E1.
  { apply (R _ _ false); done || lia. }
  destruct (Z.eqb_spec (cat (skip_ws p)) 62) as [E2|E2].
  { destruct (Z.eqb_spec (cat (S (skip_ws p))) 62) as [E3|E3].
    - assert (S (skip_ws p) < len)%nat by (apply cat_lt; lia).
      apply (R _ _ false); try (done || lia).
    - apply (R _ _ false); try (done || lia). }
  assert (W : is_word (cat (skip_ws p)) = true).
  { destruct (is_word _) eqn:W; [done|]. pose proof (skip_ws_stop p _ (cat_lookup _ E0)) as F.
    destruct (is_word_sym _ F W) as [|[|[|[|[|[|]]]]]]; lia. }
  pose proof (word_tok_ok _ E0 W) as T. destruct T as [T1 T2]. simpl in T1.
  apply (R _ _ true); try (done || lia).
Qed.

Lemma peek_spec p toks b p' :
  (p ≤ len)%nat → peek buf p toks = (b, p') →
  p' = skip_ws p ∧ (p ≤ p' ≤ len)%nat ∧ (b = true → cat p' ≠ 0 ∧ is_Some (strchr toks (cat p'))).
Proof.
  intros Hp. unfold peek. intros [= <- <-]. split; [done|]. split; [by apply skip_ws_le|].
  rewrite andb_true_iff, negb_true_iff, Z.eqb_neq. intros [A B]. split; [done|].
  by destruct (strchr _ _).
Qed.

(** A token read where [peek] has seen a character. *)
Lemma gettoken_peeked p toks p' ret w p'' :
  (p ≤ len)%nat → peek buf p toks = (true, p') → gettoken buf p' = (ret, w, p'') →
  (p < p'' ≤ len)%nat.
Proof.
  intros Hp P G. destruct (peek_spec _ _ _ _ Hp P) as (E & L & C). destruct (C eq_refl) as [C1 _].
  destruct w as [s e].
  assert (s = p') as ->. { unfold gettoken in G. rewrite E, skip_ws_id in G. repeat case_match; simplify_eq; done. }
  destruct (gettoken_spec _ _ _ _ _ (proj2 L) G) as (B & D & _). specialize (D C1). lia.
Qed.
End lexer.

(** ** The parser always ends, and its tokens are words of the line *)
Fixpoint cmd_all {W} (P : W → Prop) (c : cmd W) : Prop :=
  match c with
  | Exec argv => Forall P argv
  | Redir c w _ _ => cmd_all P c ∧ P w
  | Pipe l r | List l r => cmd_all P l ∧ cmd_all P r
  | Back c => cmd_all P c
  end.

Definition ends {A} (r : pres A) (Q : A → nat → Prop) : Prop :=
  match r with PDone a p => Q a p | PFail _ => True | PFuel => False end.
Lemma ends_bind {A B} (r : pres A) (f : A → nat → pres B) Q1 Q2 :
  ends r Q1 → (∀ a p, Q1 a p → ends (f a p) Q2) → ends (pbind r f) Q2.
Proof. destruct r; simpl; auto. Qed.

Section totality.
Context (buf : list Z).
Notation len := (length buf).
Notation redirs_ok := (Forall (λ r : redir, tok_ok buf r.1)).
Notation cmd_ok := (cmd_all (tok_ok buf)).
Definition moved (p p' : nat) : Prop := (p ≤ p' ≤ len)%nat.

Lemma wrap_ok rs c : redirs_ok rs → cmd_ok c → cmd_ok (wrap rs c).
Proof.
  intros F. revert c. induction F as [|r rs W _ IH]; intros c C; simpl; [done|]. by apply IH.
Qed.

(** Case analysis on the next [peek] or [gettoken], with what is known of it. *)
Ltac lex :=
  match goal with
  | |- context [peek buf ?p ?t] =>
      let b := fresh "b" in let q := fresh "q" in let E := fresh "EP" in
      destruct (peek buf p t) as [b q] eqn:E;
      pose proof (peek_spec buf p t b q ltac:(lia) E)
  | |- context [gettoken buf ?p] =>
      let t := fresh "t" in let s := fresh "s" in let e := fresh "e" in
      let q := fresh "q" in let E := fresh "EG" in
      destruct (gettoken buf p) as [[t [s e]] q] eqn:E;
      pose proof (gettoken_spec buf p t s e q ltac:(lia) E);
      try match goal with
      | EP : peek buf ?o ?k = (true, p) |- _ =>
          pose proof (gettoken_peeked buf o k p t (s, e) q ltac:(lia) EP E)
      end
  end.

Lemma parseredirs_ends n rs p :
  (p ≤ len)%nat → (len - p < n)%nat → redirs_ok rs →
  ends (parseredirs buf n rs p) (λ rs' p', redirs_ok rs' ∧ moved p p').
Proof.
  revert rs p. induction n as [|n IH]; intros rs p Hp Hn F; [lia|]. cbn [parseredirs].
  lex. destruct b; [|simpl; split; [done|red; lia]]. lex. lex.
  destruct (Z.eqb_spec t0 97) as [->|]; [|done].
  assert (T : tok_ok buf (s0, e0)) by naive_solver.
  pose proof (IH (rs ++ [((s0, e0), redir_mode t)]) q1) as K.
  destruct (parseredirs _ _ _ _); simpl in *; [|done|apply K; [lia..|]].
  - destruct K as [K1 K2]; [lia..| |split; [done|red in K2 |- *; lia]].
    apply Forall_app. split; [done|]. by constructor.
  - apply Forall_app. split; [done|]. by constructor.
Qed.

Lemma parseargs_ends n args rs p :
  (p ≤ len)%nat → (len - p < n)%nat → Forall (tok_ok buf) args → redirs_ok rs →
  ends (parseargs buf n args rs p) (λ r p', Forall (tok_ok buf) r.1 ∧ redirs_ok r.2 ∧ moved p p').
Proof.
  revert args rs p. induction n as [|n IH]; intros args rs p Hp Hn A F; [lia|]. cbn [parseargs].
  lex. destruct b; [simpl; split_and!; [done..|red; lia]|]. lex.
  destruct (Z.eqb_spec t 0) as [->|N0]; [simpl; split_and!; [done..|red; lia]|].
  destruct (Z.eqb_spec t 97) as [->|N1]; [|done]. simpl negb. cbv iota.
  destruct (decide _); [done|].
  assert (T : tok_ok buf (s, e)) by naive_solver. assert (s < e)%nat by apply T.
  eapply ends_bind; [apply parseredirs_ends; [lia..|done]|]. intros rs' p' [F' M]. red in M.
  pose proof (IH (args ++ [(s, e)]) rs' p') as K.
  destruct (parseargs _ _ _ _ _); simpl in *; [|done|apply K; [lia..| |done]].
  - destruct K as (K1 & K2 & K3); [lia..| |done|split_and!; [done..|red in K3 |- *; lia]].
    apply Forall_app. by split; [|constructor].
  - apply Forall_app. by split; [|constructor].
Qed.

Lemma parsebacks_ends n c p :
  (p ≤ len)%nat → (len - p < n)%nat → cmd_ok c →
  ends (parsebacks buf n c p) (λ c' p', cmd_ok c' ∧ moved p p').
Proof.
  revert c p. induction n as [|n IH]; intros c p Hp Hn F; [lia|]. cbn [parsebacks].
  lex. destruct b; [|simpl; split; [done|red; lia]]. lex.
  pose proof (IH (Back c) q0 ltac:(lia) ltac:(lia) F) as K.
  destruct (parsebacks _ _ _ _); simpl in *; [|done..]. destruct K as [K1 K2]. split; [done|].
  red in K2 |- *; lia.
Qed.

Lemma parser_ends n :
  let good f k := ∀ p, (p ≤ len)%nat → (4 * (len - p) + k ≤ n)%nat →
    ends (f n p) (λ c p', cmd_ok c ∧ moved p p') in
  good (parseline buf) 4%nat ∧ good (parsepipe buf) 3%nat ∧ good (parseexec buf) 2%nat ∧
  good (parseblock buf) 1%nat.
Proof.
  induction n as [|n (IL & IP & IE & IB)]; cbv zeta; [split_and!; intros; lia|].
  split_and!; intros p Hp Hn; cbn [parseline parsepipe parseexec parseblock].
  - eapply ends_bind; [apply IP; lia|]. intros c p1 [C1 M1]. red in M1.
    eapply ends_bind; [apply parsebacks_ends; [lia..|done]|]. intros c2 p2 [C2 M2]. red in M2.
    lex. destruct b; [|simpl; split; [done|red; lia]]. lex.
    eapply ends_bind; [apply IL; lia|]. intros c3 p3 [C3 M3]. red in M3.
    simpl. split; [done|red; lia].
  - eapply ends_bind; [apply IE; lia|]. intros c p1 [C1 M1]. red in M1.
    lex. destruct b; [|simpl; split; [done|red; lia]]. lex.
    eapply ends_bind; [apply IP; lia|]. intros c3 p3 [C3 M3]. red in M3.
    simpl. split; [done|red; lia].
  - lex. destruct b.
    { pose proof (IB q ltac:(lia) ltac:(lia)) as K. destruct (parseblock _ _ _); simpl in *; [|done..].
      destruct K as [K1 K2]. split; [done|red in K2 |- *; lia]. }
    eapply ends_bind; [apply parseredirs_ends; [lia..|constructor]|]. intros rs p1 [F1 M1]. red in M1.
    eapply ends_bind; [apply parseargs_ends; [lia..|constructor|done]|].
    intros [args rs'] p2 (F2 & F3 & M2). red in M2. simpl. split; [by apply wrap_ok|red; lia].
  - lex. destruct b; [|done]. lex. simpl negb. cbv iota.
    eapply ends_bind; [apply IL; lia|]. intros c p1 [C1 M1]. red in M1.
    lex. destruct b; [|done]. lex. simpl negb. cbv iota.
    eapply ends_bind; [apply parseredirs_ends; [lia..|constructor]|]. intros rs p2 [F2 M2]. red in M2.
    simpl. split; [by apply wrap_ok|red; lia].
Qed.

Lemma parse_ends : ends (parse buf) (λ c _, cmd_ok c).
Proof.
  unfold parse. eapply ends_bind; [apply (parser_ends (4 * len + 4)); lia|].
  intros c p [C M]. red in M. lex. by destruct (decide _).
Qed.
End totality.

(** ** [nulterminate] ends every string where its token ends *)
Fixpoint cmd_words {W} (c : cmd W) : list W :=
  match c with
  | Exec argv => argv
  | Redir c w _ _ => cmd_words c ++ [w]
  | Pipe l r | List l r => cmd_words l ++ cmd_words r
  | Back c => cmd_words c
  end.
Definition slice (buf : list Z) (w : token) : list Z := take (w.2 - w.1) (drop w.1 buf).

Lemma cmd_all_words {W} (P : W → Prop) c : cmd_all P c ↔ Forall P (cmd_words c).
Proof.
  induction c; simpl; rewrite ?Forall_app, ?Forall_singleton; naive_solver.
Qed.
Lemma cmd_map_ext {V W} (f g : V → W) c : Forall (λ w, f w = g w) (cmd_words c) → cmd_map f c = cmd_map g c.
Proof.
  induction c; simpl; rewrite ?Forall_app, ?Forall_singleton; intros E.
  - f_equal. apply list_fmap_ext. intros i w K. rewrite Forall_lookup in E. eauto.
  - f_equal; [apply IHc|]; apply E.
  - f_equal; [apply IHc1|apply IHc2]; apply E.
  - f_equal; [apply IHc1|apply IHc2]; apply E.
  - f_equal. by apply IHc.
Qed.
Lemma cmd_words_map {V W} (f : V → W) c : cmd_words (cmd_map f c) = f <$> cmd_words c.
Proof. induction c; simpl; rewrite ?fmap_app; simpl; congruence. Qed.

Definition put_nuls (ws : list token) (b : list Z) : list Z := foldl (λ b w, <[w.2 := 0]> b) b ws.
Lemma nulterminate_puts c b : nulterminate c b = put_nuls (cmd_words c) b.
Proof.
  unfold put_nuls. revert b.
  induction c; intros b; simpl; rewrite ?foldl_app; simpl; congruence.
Qed.
Lemma put_nuls_keep ws b i : Forall (λ w : token, w.2 ≠ i) ws → put_nuls ws b !! i = b !! i.
Proof.
  intros F. revert b. induction F as [|w ws N _ IH]; intros b; [done|].
  unfold put_nuls in *. simpl. rewrite IH. by apply list_lookup_insert_ne.
Qed.
Lemma put_nuls_zero ws b i : b !! i = Some 0 → put_nuls ws b !! i = Some 0.
Proof.
  revert b. induction ws as [|w ws IH]; intros b E; [done|]. apply IH.
  destruct (decide (w.2 = i)) as [<-|N]; [|by rewrite list_lookup_insert_ne].
  apply list_lookup_insert_eq. by eapply lookup_lt_Some.
Qed.
Lemma put_nuls_nul ws b w :
  w ∈ ws → (w.2 < length b)%nat → put_nuls ws b !! w.2 = Some 0.
Proof.
  revert b. induction ws as [|v ws IH]; intros b; [by intros ?%elem_of_nil|].
  intros [->|E]%elem_of_cons L; [|apply IH; [done|by rewrite length_insert]].
  change (put_nuls ws (<[v.2 := 0]> b) !! v.2 = Some 0).
  apply put_nuls_zero. by apply list_lookup_insert_eq.
Qed.

Lemma cstr_at_take l n :
  (∀ i, (i < n)%nat → ∃ c, l !! i = Some c ∧ c ≠ 0) → l !! n = Some 0 → cstr_at l = take n l.
Proof.
  revert n. induction l as [|a l IH]; intros [|n] F E; simpl in *; try done.
  - injection E as ->. done.
  - destruct (F 0%nat) as (c & [= ->] & N); [lia|]. rewrite (proj2 (Z.eqb_neq _ _) N). f_equal.
    apply IH; [|done]. intros i I. apply (F (S i)). lia.
Qed.

Lemma nulterminate_strings line c :
  Forall (λ a, a ≠ 0) line → cmd_all (tok_ok line) c →
  cmd_strings (nulterminate c (line ++ [0])) c = cmd_map (slice line) c.
Proof.
  intros NZ F%cmd_all_words. unfold cmd_strings. rewrite nulterminate_puts. apply cmd_map_ext.
  rewrite Forall_forall in F |- *. intros w I. destruct (F _ I) as ([L1 L2] & W & _).
  assert (K : ∀ i, (w.1 ≤ i < w.2)%nat → put_nuls (cmd_words c) (line ++ [0]) !! i = line !! i).
  { intros i Hi. destruct (W i Hi) as (a & A & Wa). rewrite put_nuls_keep.
    - by rewrite lookup_app_l by (eapply lookup_lt_Some; exact A).
    - apply Forall_forall. intros v V <-. destruct (F _ V) as (_ & _ & S).
      rewrite (S _ A) in Wa. done. }
  rewrite (cstr_at_take _ (w.2 - w.1)).
  - unfold slice. apply list_eq. intros i. rewrite !lookup_take. case_decide; [|done].
    rewrite !lookup_drop. apply K. lia.
  - intros i Hi. rewrite lookup_drop, K by lia. destruct (W (w.1 + i)%nat) as (a & A & _); [lia|].
    exists a. split; [done|]. rewrite Forall_lookup in NZ. eauto.
  - rewrite lookup_drop. replace (w.1 + (w.2 - w.1))%nat with w.2 by lia.
    apply put_nuls_nul; [done|]. rewrite length_app. simpl. lia.
Qed.

Lemma slice_word line w :
  tok_ok line w → slice line w ≠ [] ∧ Forall (λ a, is_word a = true) (slice line w).
Proof.
  intros ([L1 L2] & W & _). unfold slice. split.
  - intros E. apply (f_equal length) in E. rewrite length_take, length_drop in E. simpl in E. lia.
  - apply Forall_lookup. intros i a. rewrite lookup_take. case_decide; [|done].
    rewrite lookup_drop. intros A. destruct (W (w.1 + i)%nat) as (b & B & Wb); [lia|]. congruence.
Qed.

(** ** Printing a command *)
Definition is_block (c : cmd (list Z)) (lvl : nat) : bool :=
  match c with
  | Pipe _ _ => bool_decide (2 < lvl)%nat
  | Back _ => bool_decide (1 < lvl)%nat
  | List _ _ => bool_decide (0 < lvl)%nat
  | _ => false
  end.
Definition paren (b : bool) (ts : list (list Z)) : list (list Z) :=
  if b then [lit "("] ++ ts ++ [lit ")"] else ts.
Definition redir_tok (fd : Z) : list Z := if fd =? 0 then lit "<" else lit ">".

(** The tokens of a command where the grammar expects a line (level 0), a pipe with
    its '&'s (1), a pipe (2) or a simple command (3). *)
Fixpoint print (c : cmd (list Z)) (lvl : nat) : list (list Z) :=
  paren (is_block c lvl)
    match c with
    | Exec argv => argv
    | Redir c w _ fd => print c 3 ++ [redir_tok fd; w]
    | Pipe l r => print l 3 ++ [lit "|"] ++ print r 2
    | List l r => print l 1 ++ [lit ";"] ++ print r 0
    | Back c => print c 1 ++ [lit "&"]
    end.
Definition text (ts : list (list Z)) : list Z := concat (cons 32 <$> ts).

(** A word of the shell, and the commands it can express. *)
Definition word (w : list Z) : Prop := w ≠ [] ∧ Forall (λ a, a ≠ 0 ∧ is_word a = true) w.
Fixpoint wf (c : cmd (list Z)) : Prop :=
  match c with
  | Exec argv => Forall word argv ∧ (length argv < MAXARGS)%nat
  | Redir c w m fd => wf c ∧ word w ∧ (m = 0 ∧ fd = 0 ∨ m = 0x201 ∧ fd = 1)
  | Pipe l r | List l r => wf l ∧ wf r
  | Back c => wf c
  end.
#[export] Instance word_dec w : Decision (word w).
Proof. unfold word. apply _. Defined.
#[export] Instance wf_dec c : Decision (wf c).
Proof. induction c; simpl; apply _. Defined.

Definition symtok (t : list Z) : Prop := t ∈ [[60]; [62]; [124]; [40]; [41]; [38]; [59]].
Definition tokens : list (list Z) → Prop := Forall (λ t, word t ∨ symtok t).

Lemma tokens_head t : word t ∨ symtok t → ∃ a t', t = a :: t' ∧ a ≠ 0 ∧ is_ws a = false.
Proof.
  intros [[N F]|S].
  - destruct t as [|a t]; [done|]. apply Forall_cons in F as [[F1 F2] _]. exists a, t.
    split_and!; [done..|]. unfold is_word in F2. by destruct (is_ws a).
  - unfold symtok in S. rewrite !elem_of_cons, elem_of_nil in S.
    destruct S as [->|[->|[->|[->|[->|[->|[->|[]]]]]]]]; by eexists _, _.
Qed.
Lemma text_cons t ts : text (t :: ts) = 32 :: t ++ text ts.
Proof. done. Qed.
Lemma text_app ts us : text (ts ++ us) = text ts ++ text us.
Proof. unfold text. by rewrite fmap_app, concat_app. Qed.

(** The rest of the line at a position is the text of some tokens, and blanks
    after it. *)
Definition blank (w : list Z) : Prop := Forall (λ a, is_ws a = true) w.
Definition rest_of (ts : list (list Z)) (w : list Z) : list Z :=
  match ts with [] => [] | t :: ts' => t ++ text ts' ++ w end.
Lemma text_tail ts w : tokens ts → blank w →
  drop (span is_ws (text ts ++ w)) (text ts ++ w) = rest_of ts w.
Proof.
  intros T B. destruct T as [|t ts T _]; cbn [text rest_of].
  - change (text [] ++ w) with w. rewrite <- (app_nil_r w) at 1. rewrite span_app by done. cbn. by rewrite Nat.add_0_r, drop_all.
  - destruct (tokens_head _ T) as (a & t' & -> & _ & W). rewrite text_cons. simpl. rewrite W. simpl. by rewrite <- app_assoc.
Qed.
Lemma text_stop ts w : blank w → span is_word (text ts ++ w) = 0%nat.
Proof.
  intros B. apply span_0. intros c. destruct ts as [|t ts].
  - destruct B as [|x w Hx _]; [done|]. cbn. intros [= ->]. unfold is_word. by rewrite Hx.
  - by intros [= <-].
Qed.
Lemma text_not_gt ts w c : blank w → (text ts ++ w) !! 0%nat = Some c → c ≠ 62.
Proof.
  intros B. destruct ts as [|t ts]; [|by intros [= <-]].
  destruct B as [|x w Hx _]; [done|]. cbn. intros [= ->] ->. by vm_compute in Hx.
Qed.

Section seeing.
Context (buf : list Z).
Notation len := (length buf).
Notation cat := (cat buf).
Notation skip_ws := (skip_ws buf).

Definition sees (p : nat) (ts : list (list Z)) : Prop :=
  (p ≤ len)%nat ∧ tokens ts ∧ ∃ w, blank w ∧ drop (skip_ws p) buf = rest_of ts w.

Lemma sees_after e ts w : (e ≤ len)%nat → tokens ts → blank w → drop e buf = text ts ++ w → sees (skip_ws e) ts.
Proof.
  intros L T B E. pose proof (skip_ws_le _ e L). split; [lia|]. split; [done|]. exists w. split; [done|].
  rewrite skip_ws_id. unfold Sh.skip_ws. rewrite <- drop_drop, E. by apply text_tail.
Qed.
Lemma sees_cat p t ts :
  sees p (t :: ts) → ∃ a t' w, t = a :: t' ∧ cat (skip_ws p) = a ∧ a ≠ 0 ∧ is_ws a = false ∧ blank w ∧
    (skip_ws p + length t ≤ len)%nat ∧ drop (skip_ws p) buf = t ++ text ts ++ w ∧
    drop (skip_ws p + length t) buf = text ts ++ w.
Proof.
  intros (L & T & w & B & E). apply Forall_cons in T as [T1 T2]. cbn [rest_of] in E.
  destruct (tokens_head _ T1) as (a & t' & -> & N & W). exists a, t', w. split; [done|]. split_and!; try done.
  - unfold Sh.cat. rewrite <- (Nat.add_0_r (skip_ws p)), <- lookup_drop, E. done.
  - pose proof (skip_ws_le buf _ L). apply (f_equal length) in E.
    rewrite length_drop, length_app in E. lia.
  - rewrite <- drop_drop, E. by rewrite drop_app_length.
Qed.
Lemma sees_end p : sees p [] → cat (skip_ws p) = 0 ∧ skip_ws p = len.
Proof.
  intros (L & _ & w & _ & E). pose proof (skip_ws_le buf _ L) as B.
  apply (f_equal length) in E. rewrite length_drop in E. simpl in E.
  assert (skip_ws p = len) as K by lia. rewrite K. split; [|done]. unfold Sh.cat.
  by rewrite lookup_ge_None_2 by lia.
Qed.

(** Whether the first token starts with one of [toks]. *)
Definition next_in (ts : list (list Z)) (toks : list Z) : bool :=
  match ts with
  | (a :: _) :: _ => match strchr toks a with Some _ => true | None => false end
  | _ => false
  end.
Lemma sees_peek p ts toks : sees p ts → ∃ q, peek buf p toks = (next_in ts toks, q) ∧ sees q ts.
Proof.
  intros S. exists (skip_ws p). split.
  - unfold peek. f_equal. destruct ts as [|t ts].
    + by destruct (sees_end _ S) as [-> _].
    + destruct (sees_cat _ _ _ S) as (a & t' & w & -> & -> & N & _). simpl.
      by rewrite (proj2 (Z.eqb_neq _ _) N).
  - destruct S as (L & T & E). pose proof (skip_ws_le buf _ L).
    split; [lia|]. split; [done|]. by rewrite skip_ws_id.
Qed.

Lemma sees_gettoken_end p : sees p [] → ∃ w q, gettoken buf p = (0, w, q) ∧ sees q [].
Proof.
  intros S. destruct (sees_end _ S) as [C E]. unfold gettoken. rewrite C. simpl.
  eexists _, _. split; [done|]. apply (sees_after _ _ []); [lia|constructor|constructor|]. by rewrite E, drop_all.
Qed.
Lemma sees_gettoken_sym p t ts :
  sees p (t :: ts) → symtok t → ∃ w q, gettoken buf p = (default 0 (head t), w, q) ∧ sees q ts.
Proof.
  intros S Y. pose proof S as (_ & T & _). apply Forall_cons in T as [_ T].
  destruct (sees_cat _ _ _ S) as (a & t' & w & E & C & _ & _ & B & L & _ & D).
  assert (t' = []) as ->.
  { unfold symtok in Y. rewrite !elem_of_cons, elem_of_nil, E in Y. naive_solver. }
  subst t. simpl in *. unfold gettoken. rewrite C.
  assert (N : cat (skip_ws p + 1) ≠ 62).
  { unfold Sh.cat. rewrite <- (Nat.add_0_r (_ + 1)), <- lookup_drop, D.
    destruct ((text ts ++ w) !! 0%nat) eqn:Ec; [by eapply text_not_gt|done]. }
  rewrite Nat.add_1_r in N, D, L.
  pose proof (sees_after _ ts w L T B D).
  unfold symtok in Y. rewrite !elem_of_cons, elem_of_nil in Y.
  destruct Y as [Y|[Y|[Y|[Y|[Y|[Y|[Y|[]]]]]]]]; injection Y as ->; simpl;
    rewrite ?(proj2 (Z.eqb_neq _ _) N); eauto.
Qed.
Lemma sees_gettoken_word p t ts :
  sees p (t :: ts) → word t → ∃ w q, gettoken buf p = (97, w, q) ∧ slice buf w = t ∧ sees q ts.
Proof.
  intros S [N F]. pose proof S as (_ & T & _). apply Forall_cons in T as [_ T].
  destruct (sees_cat _ _ _ S) as (a & t' & ws & E & C & Z0 & W & B & L & D1 & D2).
  assert (Wa : is_word a = true). { rewrite E in F. apply Forall_cons in F. apply F. }
  assert (E1 : span is_word (drop (skip_ws p) buf) = length t).
  { rewrite D1, span_app by (eapply Forall_impl; [exact F|]; naive_solver).
    rewrite text_stop by done. lia. }
  unfold gettoken. rewrite C, E1.
  repeat match goal with |- context [a =? ?b] =>
    destruct (Z.eqb_spec a b) as [->|_]; [first [done | by (exfalso; vm_compute in Wa)]|] end.
  simpl. eexists _, _. split; [done|]. split; [|by eapply sees_after].
  unfold slice. simpl. rewrite D1. replace (_ + _ - _)%nat with (length t) by lia.
  by rewrite take_app_length.
Qed.
End seeing.

(** ** Parsing what was printed *)
Definition finds {A} (r : pres A) (Q : A → nat → Prop) : Prop :=
  match r with PDone a p => Q a p | PFail _ => False | PFuel => True end.
Lemma finds_bind {A B} (r : pres A) (f : A → nat → pres B) Q1 Q2 :
  finds r Q1 → (∀ a p, Q1 a p → finds (f a p) Q2) → finds (pbind r f) Q2.
Proof. destruct r; simpl; auto. Qed.
Lemma finds_mono {A} (r : pres A) (Q1 Q2 : A → nat → Prop) :
  finds r Q1 → (∀ a p, Q1 a p → Q2 a p) → finds r Q2.
Proof. destruct r; simpl; auto. Qed.

Definition sredir : Type := list Z * (Z * Z).
Definition rtoks (rs : list sredir) : list (list Z) := concat ((λ r, [redir_tok r.2.2; r.1]) <$> rs).
Definition wf_redir (r : sredir) : Prop := word r.1 ∧ (r.2 = (0, 0) ∨ r.2 = (0x201, 1)).

Fixpoint core (c : cmd (list Z)) : cmd (list Z) := match c with Redir c _ _ _ => core c | _ => c end.
Fixpoint rdirs (c : cmd (list Z)) : list sredir :=
  match c with Redir c w m fd => rdirs c ++ [(w, (m, fd))] | _ => [] end.
Fixpoint base (c : cmd (list Z)) : cmd (list Z) := match c with Back c => base c | _ => c end.
Fixpoint nbacks (c : cmd (list Z)) : nat := match c with Back c => S (nbacks c) | _ => 0%nat end.

Lemma core_wrap c : wrap (rdirs c) (core c) = c.
Proof.
  induction c; simpl; try done. unfold wrap in *. rewrite foldl_app. simpl. by rewrite IHc.
Qed.
Lemma print_core c : print c 3 = print (core c) 3 ++ rtoks (rdirs c).
Proof.
  unfold rtoks. induction c; simpl; rewrite ?app_nil_r; try done.
  rewrite IHc, fmap_app, concat_app, <- app_assoc. done.
Qed.
Lemma wf_core c : wf c → wf (core c) ∧ Forall wf_redir (rdirs c).
Proof.
  induction c; simpl; try (by split). intros (W & V & M). destruct (IHc W) as [A B].
  split; [done|]. apply Forall_app. split; [done|]. constructor; [|done]. split; [done|]. simpl. naive_solver.
Qed.
Lemma base_iter c : Nat.iter (nbacks c) Back (base c) = c.
Proof. induction c; simpl; congruence. Qed.
Lemma print_base c : print c 1 = print (base c) 2 ++ replicate (nbacks c) (lit "&").
Proof.
  induction c; simpl; rewrite ?app_nil_r; try done.
  rewrite IHc, <- app_assoc. f_equal. rewrite <- replicate_cons_app. done.
Qed.
Lemma wf_base c : wf c → wf (base c).
Proof. induction c; simpl; tauto. Qed.

(** What can follow. *)
Definition follows (toks : list Z) (us : list (list Z)) : Prop := us = [] ∨ next_in us toks = true.
Lemma follows_not A B us :
  forallb (λ a, match strchr B a with Some _ => false | None => true end) A = true →
  follows A us → next_in us B = false.
Proof.
  intros F [->|N]; [done|]. destruct us as [|[|a t] us]; [done..|]. simpl in *.
  induction A as [|x A IH]; simpl in *; [done|]. apply andb_true_iff in F as [F1 F2].
  destruct (Z.eqb_spec x a) as [->|]; [by destruct (strchr B a)|]. by apply IH.
Qed.
Lemma follows_incl A B us :
  forallb (λ a, match strchr B a with Some _ => true | None => false end) A = true →
  follows A us → follows B us.
Proof.
  intros F [->|N]; [by left|]. right. destruct us as [|[|a t] us]; [done..|]. simpl in *.
  induction A as [|x A IH]; simpl in *; [done|]. apply andb_true_iff in F as [F1 F2].
  destruct (Z.eqb_spec x a) as [->|]; [by destruct (strchr B a)|]. by apply IH.
Qed.
Lemma word_next t us toks :
  forallb is_sym toks = true → word t → next_in (t :: us) toks = false.
Proof.
  intros F [N W]. destruct t as [|a t]; [done|]. apply Forall_cons in W as [[_ W] _]. simpl.
  unfold is_word in W. destruct (strchr toks a) eqn:E; [|done].
  assert (is_sym a = true) as Y; [|rewrite Y in W; by destruct (is_ws a)].
  clear W. induction toks as [|x toks IH]; simpl in *; [done|]. apply andb_true_iff in F as [F1 F2].
  destruct (Z.eqb_spec x a) as [->|]; auto.
Qed.

Section roundtrip.
Context (buf : list Z).
Notation sees := (sees buf).
Notation slc := (slice buf).
Definition rslice (r : redir) : sredir := (slc r.1, r.2).

(** One step of the lexer on known tokens. *)
Ltac look S :=
  match type of S with
  | Sh.sees _ ?p ?ts =>
      match goal with
      | |- context [peek buf p ?k] =>
          let q := fresh "q" in let E := fresh "EP" in
          destruct (sees_peek buf p ts k S) as (q & E & ?S'); rewrite E; clear E S; rename S' into S
      end
  end.
Ltac take_sym S :=
  let w := fresh "w" in let q := fresh "q" in let E := fresh "EG" in
  destruct (sees_gettoken_sym buf _ _ _ S ltac:(unfold symtok; set_solver)) as (w & q & E & ?S');
  rewrite E; clear E S; rename S' into S.
Ltac take_word S W :=
  let q := fresh "q" in let E := fresh "EG" in
  destruct (sees_gettoken_word buf _ _ _ S W) as (?w & q & E & ?SL & ?S');
  rewrite E; clear E S; rename S' into S.

Lemma parseredirs_finds n acc p rs us :
  Forall wf_redir rs → next_in us (lit "<>") = false → sees p (rtoks rs ++ us) →
  finds (parseredirs buf n acc p) (λ rs' q, rslice <$> rs' = (rslice <$> acc) ++ rs ∧ sees q us).
Proof.
  intros F N. revert acc p rs F. induction n as [|n IH]; intros acc p rs F S; [done|].
  cbn [parseredirs]. look S. destruct F as [|[w [m fd]] rs [W M] F].
  { simpl in S |- *. rewrite N. simpl. by rewrite app_nil_r. }
  change (rtoks ((w, (m, fd)) :: rs)) with (redir_tok fd :: w :: rtoks rs) in *. simpl app in *.
  assert (K : ∃ a, redir_tok fd = [a] ∧ redir_mode a = (m, fd) ∧ (a = 60 ∨ a = 62)).
  { simpl in M. destruct M as [[= -> ->]|[= -> ->]]; eexists; (split; [reflexivity|]); split; auto. }
  destruct K as (a & Ka & Km & Ks). rewrite Ka in *. clear Ka.
  replace (next_in _ _) with true by (destruct Ks as [-> | ->]; done). cbv iota.
  take_sym S. simpl default. take_word S W. simpl.
  eapply finds_mono; [apply (IH _ _ rs F S)|]. intros rs' r [E S']. split; [|done].
  rewrite E, fmap_app, <- app_assoc. f_equal. simpl. unfold rslice at 1. simpl. congruence.
Qed.

Lemma parseargs_finds n args acc p ws rs us :
  (ws = [] → rs = []) → Forall word ws → Forall wf_redir rs → follows (lit "|)&;") us →
  (length args + length ws < MAXARGS)%nat → sees p (ws ++ rtoks rs ++ us) →
  finds (parseargs buf n args acc p) (λ r q,
    slc <$> r.1 = (slc <$> args) ++ ws ∧ rslice <$> r.2 = (rslice <$> acc) ++ rs ∧ sees q us).
Proof.
  intros H0 FW FR N. revert args acc p ws rs H0 FW FR.
  induction n as [|n IH]; intros args acc p ws rs H0 FW FR HL S; [done|].
  cbn [parseargs]. look S. destruct FW as [|w ws W FW].
  { rewrite (H0 eq_refl) in *. simpl in S |- *. destruct N as [->|N].
    - simpl. destruct (sees_gettoken_end buf _ S) as (w & q' & E & S'). rewrite E. simpl.
      by rewrite !app_nil_r.
    - rewrite N. simpl. by rewrite !app_nil_r. }
  simpl app in *. rewrite word_next by done. cbv iota. take_word S W.
  change (97 =? 0) with false. change (97 =? 97) with true. cbv iota. change (negb true) with false. cbv iota.
  rewrite decide_False by (rewrite length_app; simpl in *; lia).
  destruct ws as [|v ws].
  - eapply finds_bind.
    + apply (parseredirs_finds _ acc _ rs us); [done| |done]. by apply (follows_not (lit "|)&;")).
    + intros rs' r [E S']. eapply finds_mono; [apply (IH _ _ _ [] []); try done|].
      * rewrite length_app. simpl in *. lia.
      * intros r2 q2 (E1 & E2 & S2). split_and!; [|by rewrite E2, E, app_nil_r|done].
        rewrite E1, fmap_app, app_nil_r. simpl. congruence.
  - eapply finds_bind.
    + apply (parseredirs_finds _ acc _ [] ((v :: ws) ++ rtoks rs ++ us)); [done| |done].
      apply word_next; [done|]. by inversion FW.
    + intros rs' r [E S']. eapply finds_mono; [apply (IH _ _ _ (v :: ws) rs); try done|].
      * rewrite length_app. simpl in *. lia.
      * intros r2 q2 (E1 & E2 & S2). split_and!; [|by rewrite E2, E, app_nil_r|done].
        rewrite E1, fmap_app, <- app_assoc. simpl. congruence.
Qed.

Lemma parsebacks_finds n c p k us :
  follows (lit ");") us → sees p (replicate k (lit "&") ++ us) →
  finds (parsebacks buf n c p) (λ c' q, c' = Nat.iter k Back c ∧ sees q us).
Proof.
  intros N. revert c p k. induction n as [|n IH]; intros c p k S; [done|].
  cbn [parsebacks]. look S. destruct k as [|k].
  - simpl in S |- *. rewrite (follows_not (lit ");")) by done. done.
  - simpl replicate in *. simpl app in *. simpl. take_sym S.
    eapply finds_mono; [apply (IH _ _ k S)|]. intros c' r [-> S']. split; [|done].
    apply Nat.iter_swap.
Qed.

(** The four places of the grammar a command can be printed for. *)
Definition at_exec c : Prop := ∀ n p us, follows (lit "|)&;") us → sees p (print c 3 ++ us) →
  finds (parseexec buf n p) (λ c' q, cmd_map slc c' = c ∧ sees q us).
Definition at_pipe c : Prop := ∀ n p us, follows (lit ")&;") us → sees p (print c 2 ++ us) →
  finds (parsepipe buf n p) (λ c' q, cmd_map slc c' = c ∧ sees q us).
Definition at_back c : Prop := ∀ n p us, follows (lit ");") us → sees p (print c 1 ++ us) →
  finds (parsepipe buf n p) (λ c1 p1,
    finds (parsebacks buf (S (length buf)) c1 p1) (λ c' q, cmd_map slc c' = c ∧ sees q us)).
Definition at_line c : Prop := ∀ n p us, follows (lit ")") us → sees p (print c 0 ++ us) →
  finds (parseline buf n p) (λ c' q, cmd_map slc c' = c ∧ sees q us).

Lemma cmd_map_wrap rs c : cmd_map slc (wrap rs c) = wrap (rslice <$> rs) (cmd_map slc c).
Proof. revert c. induction rs as [|r rs IH]; intros c; [done|]. apply IH. Qed.
Lemma cmd_map_iter k c : cmd_map slc (Nat.iter k Back c) = Nat.iter k Back (cmd_map slc c).
Proof. induction k; simpl; congruence. Qed.

Lemma exec_of_words c argv : core c = Exec argv → wf c → at_exec c.
Proof.
  intros EC W. destruct (wf_core c W) as [WC WR]. rewrite EC in WC. destruct WC as [WA WL].
  intros [|n] p us N S; [done|]. rewrite print_core, EC in S. simpl print in S.
  rewrite <- app_assoc in S. cbn [parseexec]. look S.
  assert (next_in (argv ++ rtoks (rdirs c) ++ us) (lit "(") = false) as ->.
  { destruct WA as [|w argv Ww _]; [|by apply word_next]. destruct WR as [|[w [m fd]] rs [_ M] _].
    - by apply (follows_not (lit "|)&;")).
    - simpl in M. by destruct M as [[= -> ->]|[= -> ->]]. }
  set (rs0 := if decide (argv = []) then rdirs c else []).
  set (rs1 := if decide (argv = []) then [] else rdirs c).
  eapply finds_bind; [apply (parseredirs_finds _ [] _ rs0 (argv ++ rtoks rs1 ++ us))|].
  - subst rs0. by case_decide.
  - subst rs1. destruct WA as [|w argv Ww _]; [|by apply word_next].
    by apply (follows_not (lit "|)&;")).
  - subst rs0 rs1. by destruct argv.
  - intros rs q' [E S']. eapply finds_bind; [apply (parseargs_finds _ [] _ _ argv rs1 us); try done|].
    + intros ->. done.
    + subst rs1. by case_decide.
    + intros [args rs'] r (E1 & E2 & S2). simpl in *. split; [|done].
      rewrite cmd_map_wrap. simpl. rewrite E1, E2, E.
      trans (wrap (rdirs c) (Exec argv)); [|rewrite <- EC; apply core_wrap]. f_equal. subst rs0 rs1. simpl. case_decide; simpl; by rewrite ?app_nil_r.
Qed.

Lemma exec_of_line c :
  print (core c) 3 = paren true (print (core c) 0) → at_line (core c) → wf c → at_exec c.
Proof.
  intros EP L W. destruct (wf_core c W) as [_ WR].
  intros [|n] p us N S; [done|]. rewrite print_core, EP in S. simpl paren in S.
  simpl app in S. rewrite <- !app_assoc in S. simpl app in S.
  cbn [parseexec]. look S. change (next_in _ _) with true. cbv iota.
  destruct n as [|n]; [done|]. cbn [parseblock].
  look S. change (next_in _ _) with true. simpl negb. cbv iota. take_sym S.
  eapply finds_bind; [apply L; [|exact S]; by right|]. intros c1 p1 [E1 S1].
  look S1. change (next_in _ _) with true. simpl negb. cbv iota. take_sym S1.
  eapply finds_bind; [eapply (parseredirs_finds _ [] _ (rdirs c) us); [done| |done]|].
  - by apply (follows_not (lit "|)&;")).
  - intros rs r [E2 S2]. simpl in *. split; [|done]. rewrite cmd_map_wrap, E1, E2. apply core_wrap.
Qed.

Lemma pipe_of_exec c : print c 2 = print c 3 → at_exec c → at_pipe c.
Proof.
  intros E L [|n] p us N S; [done|]. rewrite E in S. cbn [parsepipe].
  eapply finds_bind; [apply L; [|exact S]; by apply (follows_incl (lit ")&;"))|].
  intros c1 p1 [E1 S1]. look S1. rewrite (follows_not (lit ")&;")) by done. done.
Qed.
Lemma pipe_of_pipe l r : at_exec l → at_pipe r → at_pipe (Pipe l r).
Proof.
  intros L R [|n] p us N S; [done|]. simpl print in S. rewrite <- app_assoc in S. simpl app in S.
  cbn [parsepipe]. eapply finds_bind; [apply L; [|exact S]; by right|].
  intros c1 p1 [E1 S1]. look S1. change (next_in _ _) with true. cbv iota. take_sym S1.
  eapply finds_bind; [by apply R|]. intros c2 p2 [E2 S2]. simpl. split; [congruence|done].
Qed.
Lemma back_of_pipe c : at_pipe (base c) → at_back c.
Proof.
  intros L n p us N S. rewrite print_base, <- app_assoc in S. eapply finds_mono.
  - apply L; [|exact S]. destruct (nbacks c); [|by right]. by apply (follows_incl (lit ");")).
  - intros c1 p1 [E1 S1]. eapply finds_mono; [by apply parsebacks_finds|].
    intros c2 p2 [-> S2]. split; [|done]. rewrite cmd_map_iter, E1. apply base_iter.
Qed.
Lemma line_of_back c : print c 0 = print c 1 → at_back c → at_line c.
Proof.
  intros E L [|n] p us N S; [done|]. rewrite E in S. cbn [parseline].
  eapply finds_bind; [apply (L _ _ us); [|exact S]; by apply (follows_incl (lit ")"))|].
  cbv beta. intros c1 p1 F. eapply finds_bind; [exact F|]. intros c2 p2 [E2 S2].
  look S2. rewrite (follows_not (lit ")")) by done. done.
Qed.
Lemma line_of_list l r : at_back l → at_line r → at_line (List l r).
Proof.
  intros L R [|n] p us N S; [done|]. simpl print in S. rewrite <- app_assoc in S. simpl app in S.
  cbn [parseline]. eapply finds_bind; [apply (L _ _ (lit ";" :: print r 0 ++ us)); [by right|exact S]|].
  cbv beta. intros c1 p1 F. eapply finds_bind; [exact F|]. intros c2 p2 [E2 S2].
  look S2. change (next_in _ _) with true. cbv iota. take_sym S2.
  eapply finds_bind; [by apply R|]. intros c3 p3 [E3 S3]. simpl. split; [congruence|done].
Qed.

Fixpoint cmd_size (c : cmd (list Z)) : nat :=
  match c with
  | Exec _ => 1
  | Redir c _ _ _ | Back c => S (cmd_size c)
  | Pipe l r | List l r => S (cmd_size l + cmd_size r)
  end.
Lemma core_size c : (cmd_size (core c) ≤ cmd_size c)%nat.
Proof. induction c; simpl; lia. Qed.
Lemma base_size c : (cmd_size (base c) ≤ cmd_size c)%nat.
Proof. induction c; simpl; lia. Qed.
Lemma core_not_redir c c' w m fd : core c ≠ Redir c' w m fd.
Proof. by induction c. Qed.

Lemma parses k c : (cmd_size c < k)%nat → wf c → at_exec c ∧ at_pipe c ∧ at_back c ∧ at_line c.
Proof.
  revert c. induction k as [|k IH]; intros c L W; [lia|].
  destruct c as [argv|c0 w m fd|l r|l r|c0]; simpl in L.
  - pose proof (exec_of_words (Exec argv) argv eq_refl W) as E.
    pose proof (pipe_of_exec (Exec argv) eq_refl E) as P.
    pose proof (back_of_pipe (Exec argv) P) as B. auto using line_of_back.
  - assert (E : at_exec (Redir c0 w m fd)).
    { destruct (wf_core _ W) as [WC _]. simpl core in WC. pose proof (core_size c0).
      pose proof (core_not_redir c0) as N. pose proof (IH (core c0)) as K.
      destruct (core c0) as [argv| | | |] eqn:EC; [by apply (exec_of_words _ argv)|naive_solver|..];
        (apply exec_of_line; simpl core; rewrite ?EC; [done|apply K; [lia|done]|done]). }
    pose proof (pipe_of_exec (Redir c0 w m fd) eq_refl E) as P.
    pose proof (back_of_pipe (Redir c0 w m fd) P) as B. auto using line_of_back.
  - destruct W as [Wl Wr]. destruct (IH l) as (El & _); [lia|done|]. destruct (IH r) as (_ & Pr & _); [lia|done|].
    pose proof (pipe_of_pipe l r El Pr) as P. pose proof (back_of_pipe (Pipe l r) P) as B.
    pose proof (line_of_back (Pipe l r) eq_refl B) as N.
    split_and!; try done. by apply exec_of_line.
  - destruct W as [Wl Wr]. destruct (IH l) as (_ & _ & Bl & _); [lia|done|].
    destruct (IH r) as (_ & _ & _ & Nr); [lia|done|].
    pose proof (line_of_list l r Bl Nr) as N.
    assert (at_exec (List l r)) as E by by apply exec_of_line.
    pose proof (pipe_of_exec (List l r) eq_refl E) as P. auto using back_of_pipe.
  - pose proof (base_size c0). destruct (IH (base c0)) as (_ & P0 & _); [lia|by apply wf_base|].
    pose proof (back_of_pipe (Back c0) P0) as B. pose proof (line_of_back (Back c0) eq_refl B) as N.
    assert (at_exec (Back c0)) as E by by apply exec_of_line.
    pose proof (pipe_of_exec (Back c0) eq_refl E) as P. auto.
Qed.
End roundtrip.

Lemma paren_tokens b ts : tokens ts → tokens (paren b ts).
Proof.
  intros T. destruct b; [|done]. repeat (apply Forall_app; split); [|done|];
    (apply Forall_singleton; right; unfold symtok; set_solver).
Qed.
Lemma print_tokens c lvl : wf c → tokens (print c lvl).
Proof.
  assert (Y : ∀ t ts, symtok t → tokens ts → tokens (t :: ts)) by (intros; constructor; auto).
  revert lvl. induction c; intros lvl W; cbn [print wf] in *; apply paren_tokens.
  - eapply Forall_impl; [apply W|]. auto.
  - apply Forall_app. destruct W as (W & V & _). split; [by apply IHc|].
    apply Y; [unfold symtok, redir_tok; case_match; set_solver|]. constructor; [by left|constructor].
  - apply Forall_app. destruct W. split; [by apply IHc1|]. apply Y; [unfold symtok; set_solver|]. by apply IHc2.
  - apply Forall_app. destruct W. split; [by apply IHc1|]. apply Y; [unfold symtok; set_solver|]. by apply IHc2.
  - apply Forall_app. split; [by apply IHc|]. apply Y; [unfold symtok; set_solver|constructor].
Qed.
Lemma text_nonzero ts : tokens ts → Forall (λ a, a ≠ 0) (text ts).
Proof.
  induction 1 as [|t ts T _ IH]; [constructor|]. rewrite text_cons. constructor; [done|].
  apply Forall_app. split; [|done]. destruct T as [[_ T]|T]; [eapply Forall_impl; [exact T|]; naive_solver|].
  unfold symtok in T. rewrite !elem_of_cons, elem_of_nil in T.
  destruct T as [->|[->|[->|[->|[->|[->|[->|[]]]]]]]]; by constructor.
Qed.

Lemma parse_print c ws : wf c → blank ws →
  ∃ c' p, parse (text (print c 0) ++ ws) = PDone c' p ∧ cmd_map (slice (text (print c 0) ++ ws)) c' = c.
Proof.
  intros W B. set (buf := text (print c 0) ++ ws).
  assert (F : finds (parse buf) (λ c' _, cmd_map (slice buf) c' = c)).
  { unfold parse. eapply finds_bind.
    - apply (parses buf (S (cmd_size c)) c) with (us := []); [lia|done|by left|].
      rewrite app_nil_r. pose proof (print_tokens c 0 W) as T.
      pose proof (sees_after buf 0 _ ws ltac:(lia) T B eq_refl) as S.
      destruct S as (S1 & S2 & w & S3 & S4). split; [lia|]. split; [done|]. rewrite skip_ws_id in S4. by exists w.
    - intros c' p [E S]. destruct (sees_peek buf p [] [] S) as (q & EP & S').
      pose proof (sees_end buf _ S) as [_ K].
      unfold peek. rewrite K. rewrite decide_True by done. done. }
  pose proof (parse_ends buf) as G. destruct (parse buf) as [c' p| |]; [|done..]. by exists c', p.
Qed.
Lemma blank_nonzero w : blank w → Forall (λ a, a ≠ 0) w.
Proof. intros B. eapply Forall_impl; [exact B|]. intros a Ha ->. by vm_compute in Ha. Qed.

Lemma parsecmd_text (c : cmd (list Z)) w : wf c → blank w → parsecmd (text (print c 0) ++ w) = inr c.
Proof.
  intros W B. destruct (parse_print c w W B) as (c' & p & E & M). unfold parsecmd. rewrite E.
  pose proof (parse_ends (text (print c 0) ++ w)) as F. rewrite E in F. simpl in F.
  rewrite nulterminate_strings; [by rewrite M| |done].
  apply Forall_app. split; [by apply text_nonzero, print_tokens|by apply blank_nonzero].
Qed.

(** C26: The shell's parser ends on every command line: it answers a command or one
    of its [panic] messages, however the line nests parentheses, redirections,
    pipes and lists. *)
Theorem parse_terminates (line : list Z) : parse line ≠ PFuel.
Proof. pose proof (parse_ends line) as F. by destruct (parse line). Qed.

(** After a successful parse of a NUL-free line, [nulterminate] makes every
    string [runcmd] will read exactly its token: no NUL is put inside another
    string, and every argument and file name is a non-empty word of the line. *)
Theorem parsecmd_strings (line : list Z) (c : cmd token) (p : nat) :
  Forall (λ a, a ≠ 0) line → parse line = PDone c p →
  parsecmd line = inr (cmd_map (slice line) c) ∧
  cmd_all (λ w, w ≠ [] ∧ Forall (λ a, is_word a = true) w) (cmd_map (slice line) c).
Proof.
  intros NZ E. pose proof (parse_ends line) as F. rewrite E in F. simpl in F.
  unfold parsecmd. rewrite E, nulterminate_strings by done. split; [done|].
  apply cmd_all_words. rewrite cmd_words_map, Forall_fmap. apply cmd_all_words in F.
  eapply Forall_impl; [exact F|]. apply slice_word.
Qed.
Lemma parsecmd_strings_witness :
  parsecmd (lit "(ls|wc)>x; echo hi&") =
    inr (cmd_map (slice (lit "(ls|wc)>x; echo hi&"))
      (List (Redir (Pipe (Exec [(1, 3)]) (Exec [(4, 6)])) (8, 9) 0x201 1) (Back (Exec [(11, 15); (16, 18)])))%nat) ∧
  cmd_all (λ w, w ≠ [] ∧ Forall (λ a, is_word a = true) w) (cmd_map (slice (lit "(ls|wc)>x; echo hi&"))
      (List (Redir (Pipe (Exec [(1, 3)]) (Exec [(4, 6)])) (8, 9) 0x201 1) (Back (Exec [(11, 15); (16, 18)])))%nat).
Proof.
  apply (parsecmd_strings _ _ 19); [|vm_compute; reflexivity].
  apply (bool_decide_unpack _). vm_compute. exact I.
Defined.

(** C25: Parsing is the inverse of printing: a command printed with parentheses where
    the grammar needs them, its tokens separated by blanks and followed by any
    blanks or line ends, is parsed back to the same command (fewer than
    [MAXARGS] arguments per simple command; the shell treats [>>] as [>], so a
    redirection is one of two kinds). *)
Theorem parsecmd_print (c : cmd (list Z)) w : wf c → blank w → parsecmd (text (print c 0) ++ w) = inr c.
Proof. apply parsecmd_text. Qed.
Definition sample : cmd (list Z) :=
  List (Back (Pipe (Redir (Exec [lit "cat"; lit "x"]) (lit "in") 0 0) (Back (Exec [lit "wc"]))))
       (Redir (List (Exec [lit "ls"]) (Exec [])) (lit "out") 0x201 1).
Lemma parsecmd_print_witness : wf sample ∧ parsecmd (text (print sample 0) ++ [10]) = inr sample.
Proof.
  assert (W : wf sample).
  { apply (bool_decide_unpack _). vm_compute. exact I. }
  split; [exact W|]. apply (parsecmd_print sample [10] W). by constructor.
Defined.
