(* ===== verification/ShRun.v ===== *)
(** * The shell runs commands

    [runcmd], [getcmd], [fork1], [panic] and [main] of [sh.c] as user programs,
    and what they do with processes and descriptors. A process is denoted by
    the tree of what it does: the messages it writes, the processes it forks
    and waits for, the program it becomes with the descriptors it then has. The
    tree does not depend on how the processes are interleaved. *)
From stdpp Require Import base strings numbers gmap list.
From S2P Require Import Prelude Machine Ulib Prog Sh.

(** ** sh.c *)
Definition panic {A} (s : string) : prog A := uprintf 2 ("%s" +:+ nlz) [str (lit s)];; Exit.
Definition fork1 : prog Z := pid ← sys SFork; if pid =? -1 then panic "fork" else Ret pid.

Fixpoint runcmd (c : cmd (list Z)) : prog unit :=
  match c with
  | Exec argv =>
      match argv with
      | [] => Exit
      | a :: _ => sys_ (SExec a argv);; uprintf 2 ("exec %s failed" +:+ nlz) [str a];; Exit
      end
  | Redir c file mode fd =>
      sys_ (SClose fd);;
      r ← sys (SOpen file mode);
      if r <? 0 then uprintf 2 ("open %s failed" +:+ nlz) [str file];; Exit
      else runcmd c;; Exit
  | List l r =>
      pid ← fork1;
      (if pid =? 0 then runcmd l else Ret tt);;
      sys_ SWait;;
      runcmd r;;
      Exit
  | Pipe l r =>
      '(res, (p0, p1)) ← sys SPipe;
      if res <? 0 then panic "pipe"
      else
        pid ← fork1;
        (if pid =? 0 then
           sys_ (SClose 1);; sys_ (SDup p1);; sys_ (SClose p0);; sys_ (SClose p1);; runcmd l
         else Ret tt);;
        pid ← fork1;
        (if pid =? 0 then
           sys_ (SClose 0);; sys_ (SDup p0);; sys_ (SClose p0);; sys_ (SClose p1);; runcmd r
         else Ret tt);;
        sys_ (SClose p0);;
        sys_ (SClose p1);;
        sys_ SWait;;
        sys_ SWait;;
        Exit
  | Back c =>
      pid ← fork1;
      (if pid =? 0 then runcmd c else Ret tt);;
      Exit
  end.

(** [getcmd] with a buffer of [nbuf] bytes: [None] at the end of the input. *)
Definition getcmd (nbuf : nat) : prog (option (list Z)) :=
  uprintf 2 "$ " [];;
  buf ← gets_calls (nbuf - 1);
  Ret (match cstr_at buf with [] => None | s => Some s end).

(** [parsecmd], which prints what it could not parse before it gives up. *)
Definition leftovers (line : list Z) : option (list Z) :=
  match parseline line (4 * length line + 4) 0 with
  | PDone _ p => let '(_, p) := peek line p [] in if decide (p = length line) then None else Some (drop p line)
  | _ => None
  end.
Definition parse_line (line : list Z) : prog (cmd (list Z)) :=
  match parsecmd line with
  | inr c => Ret c
  | inl msg =>
      (match leftovers line with
       | Some s => uprintf 2 ("leftovers: %s" +:+ nlz) [str s]
       | None => Ret tt
       end);;
      panic msg
  end.

(** The opening of three descriptors, and the prompt loop. *)
Fixpoint sh_open (n : nat) : prog unit :=
  match n with
  | O => Stuck
  | S n' =>
      fd ← sys (SOpen (lit "console") UO_RDWR);
      if 0 <=? fd then if 3 <=? fd then sys_ (SClose fd) else sh_open n' else Ret tt
  end.
Fixpoint sh_loop (n : nat) : prog unit :=
  match n with
  | O => Stuck
  | S n' =>
      o ← getcmd 100;
      match o with
      | None => Ret tt
      | Some buf =>
          if bool_decide (take 3 buf = lit "cd ") then
            let dir := drop 3 (take (length buf - 1) buf) in
            r ← sys (SChdir dir);
            (if r <? 0 then uprintf 2 ("cannot cd %s" +:+ nlz) [str dir] else Ret tt);;
            sh_loop n'
          else
            pid ← fork1;
            (if pid =? 0 then c ← parse_line buf; runcmd c else Ret tt);;
            sys_ SWait;;
            sh_loop n'
      end
  end.
Definition sh_main (n : nat) : prog unit := sh_open n;; sh_loop n;; Exit.

(** ** What a process does *)

(** What a descriptor can refer to: something inherited, a file opened by path,
    an end of a pipe. A pipe is named by the process that made it and the
    number of pipes and forks it had made. *)
Definition pname : Type := list nat * nat.
Inductive obj := OInit (i : nat) | OFile (path : list Z) (mode : Z) | OPipeR (p : pname) | OPipeW (p : pname).
#[export] Instance obj_eq_dec : EqDecision obj.
Proof. solve_decision. Defined.

Record pstate := mkPs { fds : list (option obj); self : list nat; cnt : nat; inp : list Z }.
#[export] Instance eta_pstate : Eta pstate := λ r, mkPs (fds r) (self r) (cnt r) (inp r).

Inductive ptree :=
| TExec (path : list Z) (argv : list (list Z)) (fds : list (option obj))
| TExit (fds : list (option obj))
| TFork (child rest : ptree)
| TWait (rest : ptree)
| TSay (o : option obj) (c : Z) (rest : ptree)
| TChdir (path : list Z) (rest : ptree)
| TStuck.

(** The lowest free descriptor gets [o]. *)
Definition fd_alloc (o : obj) (l : list (option obj)) : option (nat * list (option obj)) :=
  i ← find_idx (λ x, match x with None => true | Some _ => false end) l; Some (i, <[i := Some o]> l).
Definition fd_get (l : list (option obj)) (fd : Z) : option obj :=
  if fd <? 0 then None else mjoin (l !! Z.to_nat fd).

Section denote.
(** The programs that can be executed and the files that can be opened. *)
Context (known : list Z → bool) (opens : list Z → Z → bool).

Inductive reaction (B : Set) : Type := Reply (b : B) (s : pstate) | Became (path : list Z) (argv : list (list Z)).
Arguments Reply {_} _ _.
Arguments Became {_} _ _.

Definition no_answer {B} (c : scall B) : B :=
  match c in scall B return B with
  | SPipe => (-1, (0, 0))
  | SRead _ _ => (-1, [])
  | SFstat _ => (-1, mkUstat 0 0 0 0 0)
  | SFork | SWait | SWrite _ _ | SClose _ | SKill _ | SExec _ _ | SOpen _ _ | SMknod _ _ _ | SUnlink _ | SLink _ _
  | SMkdir _ | SChdir _ | SDup _ | SGetpid | SSleep _ | SUptime | STicksRun _ | SSetTickets _ | SGetTickets _
  | SCreationTime _ | SStartTime _ | SCompletionTime _ | STotalRunTime _ | STotalReadyTime _ => -1
  end.

Definition give (o : obj) (s : pstate) : reaction Z :=
  match fd_alloc o (fds s) with
  | Some (i, l) => Reply (Z.of_nat i) (s <| fds := l |>)
  | None => Reply (-1) s
  end.

(** The answer of the kernel to a process. *)
Definition answer {B} (c : scall B) (s : pstate) : reaction B :=
  match c in scall B return reaction B with
  | SWait => Reply 1 s
  | SPipe =>
      match fd_alloc (OPipeR (self s, cnt s)) (fds s) with
      | Some (i, l) =>
          match fd_alloc (OPipeW (self s, cnt s)) l with
          | Some (j, l) => Reply (0, (Z.of_nat i, Z.of_nat j)) (s <| fds := l |> <| cnt ::= S |>)
          | None => Reply (-1, (0, 0)) s
          end
      | None => Reply (-1, (0, 0)) s
      end
  | SWrite fd bs => Reply (Z.of_nat (length bs)) s
  | SRead fd n =>
      let k := Z.to_nat n in
      Reply (Z.of_nat (length (take k (inp s))), take k (inp s)) (s <| inp ::= drop k |>)
  | SClose fd => Reply 0 (s <| fds ::= <[Z.to_nat fd := None]> |>)
  | SExec path argv => if known path then Became path argv else Reply (-1) s
  | SOpen path mode => if opens path mode then give (OFile path mode) s else Reply (-1) s
  | SDup fd => match fd_get (fds s) fd with Some o => give o s | None => Reply (-1) s end
  | SChdir _ => Reply 0 s
  | c => Reply (no_answer c) s
  end.

Definition as_fork {B} (c : scall B) : option (Z → B) :=
  match c in scall B return option (Z → B) with SFork => Some id | _ => None end.
(** What a call adds to the tree. *)
Definition mark {B} (c : scall B) (s : pstate) (t : ptree) : ptree :=
  match c with
  | SWrite fd bs => foldr (λ b t, TSay (fd_get (fds s) fd) b t) t bs
  | SWait => TWait t
  | SChdir d => TChdir d t
  | _ => t
  end.

Fixpoint denote (p : prog unit) (s : pstate) : ptree :=
  match p with
  | Ret _ | Stuck => TStuck
  | Exit => TExit (fds s)
  | Sys c k =>
      match as_fork c with
      | Some f =>
          TFork (denote (k (f 0)) (mkPs (fds s) (self s ++ [cnt s]) 0 (inp s)))
                (denote (k (f 1)) (s <| cnt ::= S |>))
      | None =>
          match answer c s with
          | Reply b s' => mark c s (denote (k b) s')
          | Became path argv => TExec path argv (fds s)
          end
      end
  end.

(** ** Commands *)

Lemma denote_puts fd bs f s :
  denote (puts fd bs ≫= f) s = foldr (λ b t, TSay (fd_get (fds s) fd) b t) (denote (f tt) s) bs.
Proof.
  induction bs as [|b bs IH]; [done|]. cbn [foldr]. rewrite <- IH. done.
Qed.

Lemma denote_print fd fmt args f s : denote (uprintf fd fmt args ≫= f) s =
  foldr (λ b t, TSay (fd_get (fds s) fd) b t) (denote (f tt) s) (printf (lit fmt) args).
Proof. apply denote_puts. Qed.
Lemma denote_fork f s : denote (sys SFork ≫= f) s =
  TFork (denote (f 0) (mkPs (fds s) (self s ++ [cnt s]) 0 (inp s))) (denote (f 1) (s <| cnt ::= S |>)).
Proof. done. Qed.

(** A program that does not return. *)
Fixpoint noret {A} (p : prog A) : Prop :=
  match p with Ret _ => False | Sys c k => ∀ b, noret (k b) | _ => True end.
Lemma noret_bind {A B} (f : A → prog B) p : (∀ a, noret (f a)) → noret (pbindp f p).
Proof. intros H. induction p; cbn; auto. Qed.
Lemma runcmd_noret c : noret (runcmd c).
Proof.
  destruct c as [[|a argv]|c f m fd|l r|l r|c]; cbn [runcmd]; try done; unfold mbind, prog_bind.
  all: repeat (apply noret_bind; intros); repeat case_match; try done.
  all: repeat (apply noret_bind; intros); done.
Qed.
Lemma denote_noret (p : prog unit) f s : noret p → denote (p ≫= f) s = denote p s.
Proof.
  revert s. induction p as [a|B c k IH| |]; intros s H; try done. cbn [mbind prog_bind pbindp denote noret] in *.
  destruct (as_fork c); [by rewrite !IH|]. destruct (answer c s); [by rewrite IH|done].
Qed.

(** The descriptors of a process with the three standard ones open. *)
Definition std (i o e : obj) : list (option obj) := [Some i; Some o; Some e] ++ replicate (NOFILE - 3) None.
Definition say (o : obj) (bs : list Z) (t : ptree) : ptree := foldr (TSay (Some o)) t bs.

(** What a command means: which programs run, with which three descriptors, who
    forks whom and who waits. [me] and [n] name the process and its next pipe. *)
Fixpoint meaning (c : cmd (list Z)) (me : list nat) (n : nat) (i o e : obj) : ptree :=
  match c with
  | Exec [] => TExit (std i o e)
  | Exec (a :: l) =>
      if known a then TExec a (a :: l) (std i o e)
      else say e (lit "exec " ++ a ++ lit " failed" ++ [10]) (TExit (std i o e))
  | Redir c file mode fd =>
      if opens file mode then
        if fd =? 0 then meaning c me n (OFile file mode) o e else meaning c me n i (OFile file mode) e
      else say e (lit "open " ++ file ++ lit " failed" ++ [10]) (TExit (<[Z.to_nat fd := None]> (std i o e)))
  | List l r => TFork (meaning l (me ++ [n]) 0 i o e) (TWait (meaning r me (S n) i o e))
  | Pipe l r =>
      TFork (meaning l (me ++ [S n]) 0 i (OPipeW (me, n)) e)
        (TFork (meaning r (me ++ [S (S n)]) 0 (OPipeR (me, n)) o e)
          (TWait (TWait (TExit (std i o e)))))
  | Back c => TFork (meaning c (me ++ [n]) 0 i o e) (TExit (std i o e))
  end.

Lemma denote_say e fmt args f s : fd_get (fds s) 2 = Some e →
  denote (uprintf 2 fmt args ≫= f) s = say e (printf (lit fmt) args) (denote (f tt) s).
Proof. intros H. unfold uprintf, say. rewrite <- H. apply denote_puts. Qed.

Lemma denote_ask {B} (c : scall B) f s : as_fork c = None →
  denote (sys c ≫= f) s =
  match answer c s with Reply b s' => mark c s (denote (f b) s') | Became path argv => TExec path argv (fds s) end.
Proof. intros H. cbn. by rewrite H. Qed.
Lemma denote_call {B} (c : scall B) f s : as_fork c = None →
  denote (sys_ c ≫= f) s =
  match answer c s with Reply _ s' => mark c s (denote (f tt) s') | Became path argv => TExec path argv (fds s) end.
Proof. intros H. cbn. by rewrite H. Qed.

(** The lowest free descriptor. *)
Lemma redir_fds fd i o e ob : fd = 0 ∨ fd = 1 →
  fd_alloc ob (<[Z.to_nat fd := None]> (std i o e)) =
  Some (Z.to_nat fd, if fd =? 0 then std ob o e else std i ob e).
Proof. by intros [->| ->]. Qed.

(** The descriptors while a pipe is being set up. *)
Definition piped (q : pname) (i o e : obj) : list (option obj) :=
  [Some i; Some o; Some e; Some (OPipeR q); Some (OPipeW q)] ++ replicate 11 None.
Lemma denote_fork1 f s : denote (fork1 ≫= f) s =
  TFork (denote (f 0) (mkPs (fds s) (self s ++ [cnt s]) 0 (inp s))) (denote (f 1) (s <| cnt ::= S |>)).
Proof. done. Qed.
Lemma denote_pipe f i o e me n x : denote (sys SPipe ≫= f) (mkPs (std i o e) me n x) =
  denote (f (0, (3, 4)))
    (mkPs (piped (me, n) i o e) me (S n) x).
Proof. done. Qed.
Lemma denote_left (p : prog unit) f q i o e me n x :
  denote ((sys_ (SClose 1);; sys_ (SDup 4);; sys_ (SClose 3);; sys_ (SClose 4);; p) ≫= f) (mkPs (piped q i o e) me n x) =
  denote (p ≫= f) (mkPs (std i (OPipeW q) e) me n x).
Proof. done. Qed.
Lemma denote_right (p : prog unit) f q i o e me n x :
  denote ((sys_ (SClose 0);; sys_ (SDup 3);; sys_ (SClose 3);; sys_ (SClose 4);; p) ≫= f) (mkPs (piped q i o e) me n x) =
  denote (p ≫= f) (mkPs (std (OPipeR q) o e) me n x).
Proof. done. Qed.

Lemma runcmd_meaning c me n i o e inp : wf c →
  denote (runcmd c) (mkPs (std i o e) me n inp) = meaning c me n i o e.
Proof.
  revert me n i o e inp.
  induction c as [argv|c IH f m fd|l IHl r IHr|l IHl r IHr|c IH]; intros me n i o e inp W; cbn [runcmd meaning].
  - destruct argv as [|a argv]; [done|]. rewrite denote_call by done. cbn [answer]. destruct (known a); [done|].
    cbn [mark]. rewrite (denote_say e), (printf_one _ (lit "exec ") (lit " failed" ++ [10])); [done|by vm_compute..|done].
  - destruct W as (W & _ & Hfd). assert (fd = 0 ∨ fd = 1) as Hf by lia.
    rewrite denote_call by done. cbn [answer mark]. rewrite denote_ask by done. cbn [answer].
    destruct (opens f m); cbn [mark].
    + unfold give. change (fds ((mkPs (std i o e) me n inp) <| fds ::= <[Z.to_nat fd := None]> |>))
        with (<[Z.to_nat fd := None]> (std i o e)). rewrite redir_fds by done.
      rewrite (proj2 (Z.ltb_ge _ 0)) by lia. rewrite denote_noret by apply runcmd_noret.
      destruct (fd =? 0); by apply IH.
    + change (-1 <? 0) with true. cbv iota. rewrite (denote_say e) by by destruct Hf as [->| ->].
      rewrite (printf_one _ (lit "open ") (lit " failed" ++ [10])); [done|by vm_compute..].
  - destruct W as [Wl Wr]. rewrite denote_pipe. cbn [Z.ltb Z.compare]. cbv beta iota.
    rewrite denote_fork1. cbn [Z.eqb]. f_equal.
    { etrans; [apply (denote_left (runcmd l))|]. rewrite denote_noret by apply runcmd_noret. exact (IHl _ _ _ _ _ _ Wl). }
    change (Ret () ≫= ?f) with (f ()). cbv beta. rewrite denote_fork1. cbn [Z.eqb]. f_equal.
    etrans; [apply (denote_right (runcmd r))|]. rewrite denote_noret by apply runcmd_noret. exact (IHr _ _ _ _ _ _ Wr).
  - destruct W as [Wl Wr]. rewrite denote_fork1. cbn [Z.eqb]. rewrite denote_noret by apply runcmd_noret.
    f_equal; [exact (IHl _ _ _ _ _ _ Wl)|]. change (Ret () ≫= ?f) with (f ()). cbv beta.
    rewrite denote_call by done. cbn [answer mark]. f_equal.
    rewrite denote_noret by apply runcmd_noret. exact (IHr _ _ _ _ _ _ Wr).
  - rewrite denote_fork1. cbn [Z.eqb]. rewrite denote_noret by apply runcmd_noret.
    f_equal. exact (IH _ _ _ _ _ _ W).
Qed.

(** ** A session *)

(** A line of the input. *)
Definition line_of (c : cmd (list Z)) : list Z := text (print c 0) ++ [10].

Lemma word_no_nl a : is_word a = true → a ≠ 10 ∧ a ≠ 13.
Proof. intros H. split; intros ->; by vm_compute in H. Qed.
Lemma text_no_nl ts : tokens ts → Forall (λ a, a ≠ 10 ∧ a ≠ 13) (text ts).
Proof.
  induction 1 as [|t ts T _ IH]; [constructor|]. rewrite text_cons. constructor; [done|].
  apply Forall_app. split; [|done]. destruct T as [[_ T]|T].
  - eapply Forall_impl; [exact T|]. intros a [_ H]. by apply word_no_nl.
  - unfold symtok in T. rewrite !elem_of_cons, elem_of_nil in T.
    destruct T as [->|[->|[->|[->|[->|[->|[->|[]]]]]]]]; by repeat constructor.
Qed.

(** [gets] takes a line. *)
Lemma denote_assoc {A B} (p : prog A) (g : A → prog B) f s : denote ((p ≫= g) ≫= f) s = denote (p ≫= λ a, g a ≫= f) s.
Proof.
  revert s. induction p as [a|C c k IH| |]; intros s; try done. cbn in *.
  destruct (as_fork c); [by rewrite !IH|]. destruct (answer c s); [by rewrite IH|done].
Qed.
Lemma denote_gets_step n (f : list Z → prog unit) fd me k a rest :
  denote (gets_calls (S n) ≫= f) (mkPs fd me k (a :: rest)) =
  if (a =? 10) || (a =? 13) then denote (f [a]) (mkPs fd me k rest)
  else denote (gets_calls n ≫= λ r, f (a :: r)) (mkPs fd me k rest).
Proof.
  cbn [gets_calls]. rewrite denote_assoc, denote_ask by done. cbn [answer mark inp]. cbv zeta.
  change (Z.to_nat 1) with 1%nat. change (take 1 (a :: rest)) with [a]. change (Z.of_nat (length [a]) <? 1) with false.
  change (hd 0 [a]) with a. cbv iota.
  destruct ((a =? 10) || (a =? 13)); [done|].
  exact (denote_assoc (gets_calls n) (λ r, Ret (a :: r)) f _).
Qed.
Lemma denote_gets l : ∀ n (f : list Z → prog unit) fd me k rest, (length l < n)%nat → Forall (λ a, a ≠ 10 ∧ a ≠ 13) l →
  denote (gets_calls n ≫= f) (mkPs fd me k (l ++ 10 :: rest)) = denote (f (l ++ [10])) (mkPs fd me k rest).
Proof.
  induction l as [|a l IH]; intros [|n] f fd me k rest Hn Hl; cbn [length] in Hn; try lia; cbn [app].
  - by rewrite denote_gets_step.
  - apply Forall_cons in Hl as [[H1 H2] Hl]. rewrite denote_gets_step.
    rewrite (proj2 (Z.eqb_neq a 10) H1), (proj2 (Z.eqb_neq a 13) H2). cbn [orb].
    by rewrite (IH n (λ r, f (a :: r))) by (done || lia).
Qed.
Lemma denote_gets_eof n (f : list Z → prog unit) fd me k : (0 < n)%nat →
  denote (gets_calls n ≫= f) (mkPs fd me k []) = denote (f []) (mkPs fd me k []).
Proof. by destruct n; [lia|]. Qed.

Lemma cstr_nonzero l : Forall (λ a, a ≠ 0) l → cstr_at l = l.
Proof. induction 1 as [|a l Ha _ IH]; [done|]. cbn. by rewrite (proj2 (Z.eqb_neq a 0) Ha), IH. Qed.
Lemma line_nonzero c : wf c → Forall (λ a, a ≠ 0) (line_of c).
Proof. intros W. apply Forall_app. split; [by apply text_nonzero, print_tokens|by repeat constructor]. Qed.
Lemma line_not_cd c : take 3 (line_of c) ≠ lit "cd ".
Proof. unfold line_of. by destruct (print c 0). Qed.

(** What the shell does with the lines [cs], then the end of the input: it
    prompts, forks a process for each command and waits for it. *)
Fixpoint session (cs : list (cmd (list Z))) (me : list nat) (n : nat) (i o e : obj) : ptree :=
  say e (lit "$ ")
    match cs with
    | [] => TExit (std i o e)
    | c :: cs => TFork (meaning c (me ++ [n]) 0 i o e) (TWait (session cs me (S n) i o e))
    end.

Definition short_lines (cs : list (cmd (list Z))) : Prop :=
  Forall (λ c, wf c ∧ (length (line_of c) < 100)%nat) cs.

Lemma denote_getcmd f fd me n x e : fd_get fd 2 = Some e →
  denote (getcmd 100 ≫= f) (mkPs fd me n x) =
  say e (lit "$ ") (denote (gets_calls 99 ≫= λ buf, f (match cstr_at buf with [] => None | s => Some s end)) (mkPs fd me n x)).
Proof.
  intros H. unfold getcmd. rewrite denote_assoc, (denote_say e) by done.
  replace (printf (lit "$ ") []) with (lit "$ ") by by vm_compute. by rewrite denote_assoc.
Qed.

Lemma sh_loop_session cs : ∀ n me k i o e, short_lines cs → (length cs < n)%nat →
  denote (sh_loop n;; Exit) (mkPs (std i o e) me k (concat (map line_of cs))) = session cs me k i o e.
Proof.
  induction cs as [|c cs IH]; intros [|n] me k i o e Hs Hn; cbn [length] in Hn; try lia; cbn [sh_loop session map concat].
  - rewrite denote_assoc, (denote_getcmd _ _ _ _ _ e) by done. by rewrite denote_gets_eof by lia.
  - apply Forall_cons in Hs as [[W L] Hs]. rewrite denote_assoc, (denote_getcmd _ _ _ _ _ e) by done. f_equal.
    unfold line_of at 1. rewrite <- app_assoc. cbn [app].
    rewrite denote_gets; [|unfold line_of in L; rewrite length_app in L; cbn in L; lia|by apply text_no_nl, print_tokens].
    fold (line_of c). rewrite cstr_nonzero by by apply line_nonzero.
    destruct (line_of c) as [|a l] eqn:E; [by apply app_nil in E as [_ ?]|]. rewrite <- E.
    rewrite bool_decide_eq_false_2 by apply line_not_cd. rewrite denote_assoc, denote_fork1. cbn [Z.eqb]. f_equal.
    + unfold parse_line, line_of. rewrite parsecmd_text by (done || by repeat constructor).
      rewrite !denote_assoc. change (Ret c ≫= ?f) with (f c). cbv beta.
      rewrite denote_noret by apply runcmd_noret. by apply runcmd_meaning.
    + change ((Ret () ≫= ?f) ≫= ?g) with (f () ≫= g). cbv beta. rewrite denote_assoc, denote_call by done. cbn [answer mark]. f_equal.
      apply IH; [done|lia].
Qed.

Lemma sh_open_std n f i o e me k x : (0 < n)%nat →
  denote (sh_open n ≫= f) (mkPs (std i o e) me k x) = denote (f tt) (mkPs (std i o e) me k x).
Proof.
  intros Hn. destruct n as [|n]; [lia|]. cbn [sh_open]. rewrite denote_assoc, denote_ask by done. cbn [answer].
  by destruct (opens _ _).
Qed.

(** [init] opens the console three times over and its first child becomes the
    shell with exactly these descriptors. *)
Theorem init_starts_sh n m me x : opens (lit "console") UO_RDWR = true → known (lit "sh") = true →
  let c := OFile (lit "console") UO_RDWR in
  ∃ rest, denote (init_main (S n) m) (mkPs (replicate NOFILE None) me 0 x) =
    say c (lit "init: starting sh" ++ [10]) (TFork (TExec (lit "sh") [lit "sh"] (std c c c)) rest).
Proof.
  intros Ho Hk c. eexists. unfold init_main. rewrite denote_ask by done. cbn [answer]. rewrite Ho. cbn [mark].
  change (give _ _) with (Reply 0 (mkPs (Some c :: replicate 15 None) me 0 x)). cbv beta iota. cbn [Z.ltb Z.compare].
  change (Ret () ≫= ?f) with (f ()). cbv beta.
  rewrite denote_call by done. change (answer (SDup 0) _) with (Reply 1 (mkPs (Some c :: Some c :: replicate 14 None) me 0 x)).
  cbv beta iota. cbn [mark].
  rewrite denote_call by done. change (answer (SDup 0) _) with (Reply 2 (mkPs (std c c c) me 0 x)). cbv beta iota. cbn [mark].
  cbn [init_loop]. rewrite denote_print. change (fd_get _ 1) with (Some c).
  replace (printf _ []) with (lit "init: starting sh" ++ [10]) by by vm_compute. unfold say. f_equal.
  rewrite denote_fork. f_equal. cbn [Z.ltb Z.compare Z.eqb]. rewrite denote_call by done. cbn [answer]. by rewrite Hk.
Qed.

(** C7: the shell runs what it reads. On lines that print commands of its
    grammar, each shorter than its buffer, on a system on which [fork] and [pipe]
    succeed, the shell prompts, forks a process
    for every line and waits for it; that process parses the line back and
    starts every simple command with exactly the three descriptors the command
    prescribes: redirections open the file in place of the standard descriptor,
    the sides of a pipe get its two ends and no process keeps another end open;
    a pipeline waits for both sides, a background command for none, and files
    or programs that are missing are reported on the standard error. *)
Theorem shell_session cs n me k i o e : short_lines cs → (length cs < n)%nat →
  denote (sh_main n) (mkPs (std i o e) me k (concat (map line_of cs))) = session cs me k i o e.
Proof. intros Hs Hn. unfold sh_main. rewrite sh_open_std by lia. by apply sh_loop_session. Qed.
End denote.

(** Two lines: a pipeline into a file, and a command in the background. *)
Definition demo_cmds : list (cmd (list Z)) :=
  [Pipe (Exec [lit "cat"; lit "README"]) (Redir (Exec [lit "wc"]) (lit "out") 0x201 1); Back (Exec [lit "nope"])].
Definition demo_known (p : list Z) : bool := bool_decide (p ∈ [lit "cat"; lit "wc"]).
Lemma shell_session_witness :
  let c := OInit 0 in
  denote demo_known (λ _ _, true) (sh_main 3) (mkPs (std c c c) [] 0 (lit "cat README | wc > out" ++ [10] ++ lit "nope &" ++ [10])) =
  say c (lit "$ ") (TFork
    (TFork (TExec (lit "cat") [lit "cat"; lit "README"] (std c (OPipeW ([0%nat], 0%nat)) c))
      (TFork (TExec (lit "wc") [lit "wc"] (std (OPipeR ([0%nat], 0%nat)) (OFile (lit "out") 0x201) c))
        (TWait (TWait (TExit (std c c c))))))
    (TWait (say c (lit "$ ") (TFork
      (TFork (say c (lit "exec nope failed" ++ [10]) (TExit (std c c c))) (TExit (std c c c)))
      (TWait (say c (lit "$ ") (TExit (std c c c)))))))) ∧
  denote demo_known (λ _ _, true) (sh_main 3) (mkPs (std c c c) [] 0 (concat (map line_of demo_cmds))) =
  session demo_known (λ _ _, true) demo_cmds [] 0 c c c.
Proof.
  split; [by vm_compute|]. apply (shell_session demo_known (λ _ _, true) demo_cmds 3); [|cbn; lia].
  repeat (apply Forall_cons; split; [split; [apply (bool_decide_unpack _); by vm_compute|by apply Nat.ltb_lt]|]). apply Forall_nil. exact I.
Defined.
