(* ===== verification/Mkfs.v ===== *)
(** * The image builder

    [mkfs.c]: the program of the build machine that writes the disk image the
    kernel boots from. The image file is the list of its blocks, since every
    access to it moves to a block and transfers one. The input files are given
    with the pieces in which [read] delivers them; [None] is a file that cannot
    be opened. Errors of the host on the image itself are not modelled. *)
From stdpp Require Import base strings numbers gmap list.
From S2P Require Import Prelude Machine KString Kernel Locks Kalloc Proc Console Sleeplock Bio Log Fs.

(** ** State and effects *)
Record mkst := mkMkst {
  img : list (list Z);
  freeinode : Z;
  freeblock : Z }.
#[export] Instance eta_mkst : Eta mkst := λ s, mkMkst (img s) (freeinode s) (freeblock s).

(** A run ends normally, by [exit(1)], or by a failed [assert]. *)
Inductive mkout (A : Type) : Type :=
  | Done (a : A) (s : mkst)
  | Exit1
  | Aborted.
Arguments Done {A} a s.
Arguments Exit1 {A}.
Arguments Aborted {A}.

Definition MK (A : Type) : Type := mkst → mkout A.
#[export] Instance mk_ret : MRet MK := λ A a s, Done a s.
#[export] Instance mk_bind : MBind MK := λ A B f m s,
  match m s with Done a s' => f a s' | Exit1 => Exit1 | Aborted => Aborted end.

Definition mk_exit {A} : MK A := λ _, Exit1.
Definition mk_assert (b : bool) : MK () := λ s, if b then Done tt s else Aborted.

(** ** Layout *)
Definition NINODES : Z := 200.
Definition nbitmap : Z := FSSIZE / (BSIZE * 8) + 1.
Definition ninodeblocks : Z := NINODES / IPB + 1.
Definition nlog : Z := LOGSIZE.
Definition nmeta : Z := 2 + nlog + ninodeblocks + nbitmap.
Definition nblocks : Z := FSSIZE - nmeta.

(** Intel byte order, on a machine that has it. *)
Definition xshort (x : Z) : Z := dec16 [u8 x; u8 (Z.shiftr x 8)].
Definition xint (x : Z) : Z := dec32 [u8 x; u8 (Z.shiftr x 8); u8 (Z.shiftr x 16); u8 (Z.shiftr x 24)].

Definition mksb : superblock :=
  mkSb (xint FSSIZE) (xint nblocks) (xint NINODES) (xint nlog) (xint 2) (xint (2 + nlog)) (xint (2 + nlog + ninodeblocks)).
Definition enc_sb (s : superblock) : list Z :=
  concat (enc32 <$> [sb_size s; sb_nblocks s; sb_ninodes s; sb_nlog s; sb_logstart s; sb_inodestart s; sb_bmapstart s]).

(** ** Sectors *)
Definition zeroes : list Z := replicate (Z.to_nat BSIZE) 0.

(** A write past the end of the file leaves a hole, which reads as zeros. *)
Definition wsect (sec : Z) (buf : list Z) : MK () := λ s,
  let n := Z.to_nat sec in
  Done tt (s <| img ::= λ d, <[n := buf]> (d ++ replicate (S n - length d) zeroes) |>).
Definition rsect (sec : Z) : MK (list Z) := λ s,
  match img s !! Z.to_nat sec with Some b => Done b s | None => Exit1 end.

(** ** Inodes *)

(** [struct dinode] in memory. *)
Record dinode := mkDinode {
  dtype : Z;
  dmajor : Z;
  dminor : Z;
  dnlink : Z;
  dsize : Z;
  daddrs : list Z }.
#[export] Instance eta_dinode : Eta dinode := λ d,
  mkDinode (dtype d) (dmajor d) (dminor d) (dnlink d) (dsize d) (daddrs d).
Definition dinode_enc (d : dinode) : list Z :=
  enc_dinode (dtype d) (dmajor d) (dminor d) (dnlink d) (dsize d) (daddrs d).
Definition dinode_dec (b : list Z) (o : nat) : dinode :=
  mkDinode (i16 (arr16 b o)) (i16 (arr16 b (o + 2))) (i16 (arr16 b (o + 4))) (i16 (arr16 b (o + 6)))
    (arr32 b (o + 8)) (dinode_addrs b o).

Definition winode (inum : Z) (ip : dinode) : MK () :=
  let bn := IBLOCK inum mksb in
  buf ← rsect bn;
  wsect bn (splice buf (dinode_off inum) (dinode_enc ip)).
Definition rinode (inum : Z) : MK dinode :=
  let bn := IBLOCK inum mksb in
  buf ← rsect bn;
  mret (dinode_dec buf (dinode_off inum)).

Definition ialloc (type : Z) : MK Z := λ s,
  let inum := freeinode s in
  (winode inum (mkDinode (xshort type) 0 0 (xshort 1) (xint 0) (replicate (S NDIRECT) 0));; mret inum)
    (s <| freeinode := u32 (inum + 1) |>).

(** [freeblock++] *)
Definition next_block : MK Z := λ s, Done (freeblock s) (s <| freeblock := u32 (freeblock s + 1) |>).

(** ** Data *)

(** The branches of [iappend] that find block [fbn] of the file, or take a new
    one: the inode and the number of the sector. *)
Definition iappend_direct (din : dinode) (fbn : nat) : MK (dinode * Z) :=
  din ← (if xint (daddrs din !!! fbn) =? 0 then
           a ← next_block; mret (din <| daddrs ::= <[fbn := xint a]> |>)
         else mret din);
  mret (din, xint (daddrs din !!! fbn)).
Definition iappend_indirect (din : dinode) (fbn : nat) : MK (dinode * Z) :=
  let off := (4 * (fbn - NDIRECT))%nat in
  din ← (if xint (daddrs din !!! NDIRECT) =? 0 then
           a ← next_block; mret (din <| daddrs ::= <[NDIRECT := xint a]> |>)
         else mret din);
  indirect ← rsect (xint (daddrs din !!! NDIRECT));
  indirect ← (if arr32 indirect off =? 0 then
                a ← next_block;
                let indirect := splice indirect off (enc32 (xint a)) in
                wsect (xint (daddrs din !!! NDIRECT)) indirect;;
                mret indirect
              else mret indirect);
  mret (din, xint (arr32 indirect off)).

(** The loop of [iappend] with the bytes [p] left; a turn takes at least one. *)
Fixpoint iappend_loop (fuel : nat) (din : dinode) (off : Z) (p : list Z) : MK (dinode * Z) :=
  match fuel with
  | O => mret (din, off)
  | S f =>
      if 0 <? Z.of_nat (length p) then
        let fbn := off / BSIZE in
        mk_assert (fbn <? MAXFILE);;
        '(din, x) ← (if fbn <? Z.of_nat NDIRECT then iappend_direct din (Z.to_nat fbn)
                     else iappend_indirect din (Z.to_nat fbn));
        let n1 := Z.min (Z.of_nat (length p)) ((fbn + 1) * BSIZE - off) in
        buf ← rsect x;
        wsect x (splice buf (Z.to_nat (off - fbn * BSIZE)) (take (Z.to_nat n1) p));;
        iappend_loop f din (off + n1) (drop (Z.to_nat n1) p)
      else mret (din, off)
  end.
Definition iappend (inum : Z) (p : list Z) : MK () :=
  din ← rinode inum;
  let off := xint (dsize din) in
  '(din, off) ← iappend_loop (S (length p)) din off p;
  winode inum (din <| dsize := xint off |>).

(** The bitmap with the first [n] bits set. *)
Fixpoint bitmap (n : nat) : list Z :=
  match n with
  | O => zeroes
  | S i => alter (λ y, u8 (Z.lor y (Z.shiftl 1 (Z.of_nat i mod 8)))) (Z.to_nat (Z.of_nat i / 8)) (bitmap i)
  end.
Definition balloc (used : Z) : MK () :=
  mk_assert (used <? BSIZE * 8);;
  wsect (sb_bmapstart mksb) (bitmap (Z.to_nat used)).

(** ** main *)
Fixpoint mk_iter {A} (f : A → MK ()) (l : list A) : MK () :=
  match l with
  | [] => mret tt
  | a :: l => f a;; mk_iter f l
  end.

Definition dirent (inum : Z) (name : list Z) : list Z := enc16 (xshort inum) ++ strncpy_arr DIRSIZ name.

(** A file of the command line: its name, and its contents as [read] delivers them. *)
Record input := mkInput { in_name : list Z; in_reads : option (list (list Z)) }.

(** The binaries are named [_rm], [_cat] and so on. *)
Definition strip (name : list Z) : list Z :=
  match name with c :: name' => if c =? 95 then name' else name | [] => name end.

Definition mk_file (rootino : Z) (f : input) : MK () :=
  mk_assert (bool_decide (slash ∉ in_name f));;
  match in_reads f with
  | None => mk_exit
  | Some chunks =>
      inum ← ialloc T_FILE;
      iappend rootino (dirent inum (strip (in_name f)));;
      mk_iter (iappend inum) chunks
  end.

Definition fix_root (rootino : Z) : MK () :=
  din ← rinode rootino;
  let off := xint (dsize din) in
  let off := u32 ((off / BSIZE + 1) * BSIZE) in
  winode rootino (din <| dsize := xint off |>).

Definition main (files : list input) : MK () :=
  (λ s, Done tt (s <| freeblock := nmeta |>));;
  mk_iter (λ i, wsect i zeroes) (seqZ 0 FSSIZE);;
  wsect 1 (splice zeroes 0 (enc_sb mksb));;
  rootino ← ialloc T_DIR;
  mk_assert (rootino =? ROOTINO);;
  iappend rootino (dirent rootino [46]);;
  iappend rootino (dirent rootino [46; 46]);;
  mk_iter (mk_file rootino) files;;
  fix_root rootino;;
  s ← (λ s, Done s s);
  balloc (freeblock s).

(** The run of the program on a new image file. *)
Definition mkfs (files : list input) : mkout () := main files (mkMkst [] 1 0).
