(* ===== verification/MkfsSpec.v ===== *)
(** * The image the builder writes

    Whatever files it is given, [mkfs] either fails or writes a file system with the
    layout the kernel assumes: every file's contents are where its inode says, on
    blocks of its own that the bitmap marks, and the root directory lists the files. *)
From stdpp Require Import base strings numbers gmap list.
From S2P Require Import Prelude Machine KString Kernel Locks Kalloc Proc ProcSpec Sleeplock Bio BioSpec Log LogSpec TxnSpec Fs FsSpec.
From S2P Require Import FileSpec Mkfs.

(** ** Weakest preconditions

    [E] must follow when the program gives up. *)
Definition mwp {A} (m : MK A) (Q : A → mkst → Prop) (E : Prop) (s : mkst) : Prop :=
  match m s with Done a s' => Q a s' | Exit1 | Aborted => E end.

Lemma mwp_ret {A} (a : A) Q E s : Q a s → mwp (mret a) Q E s.
Proof. done. Qed.
Lemma mwp_bind {A B} (m : MK A) (f : A → MK B) Q E s : mwp m (λ a, mwp (f a) Q E) E s → mwp (m ≫= f) Q E s.
Proof. unfold mwp, mbind, mk_bind. by destruct (m s). Qed.
Lemma mwp_assert b Q E s : (b = true → Q tt s) → (b = false → E) → mwp (mk_assert b) Q E s.
Proof. unfold mwp, mk_assert. destruct b; auto. Qed.
Lemma mwp_mono {A} (m : MK A) (Q Q' : A → mkst → Prop) E s : mwp m Q E s → (∀ a s', Q a s' → Q' a s') → mwp m Q' E s.
Proof. unfold mwp. destruct (m s); auto. Qed.

(** ** The bitmap *)
Lemma bitmap_length n : length (bitmap n) = 512%nat.
Proof. induction n; [done|]. cbn [bitmap]. by rewrite length_alter. Qed.
Lemma bitmap_S n : bitmap (S n) = setbit (Z.of_nat n) (bitmap n).
Proof. done. Qed.
Lemma bitmap_used n c : (n ≤ 4096)%nat → 0 ≤ c < 4096 → bit_used (bitmap n) c = (c <? Z.of_nat n).
Proof.
  intros Hn Hc. induction n as [|n IH].
  - rewrite (proj2 (Z.ltb_ge _ _)) by lia. rewrite bit_used_bit by lia. change (bitmap 0) with (replicate 512 0).
    rewrite lookup_total_replicate_2 by (Z.div_mod_to_equations; lia). apply Z.testbit_0_l.
  - rewrite bitmap_S, setbit_used by (apply bitmap_length || lia). rewrite IH by lia.
    destruct (Z.ltb_spec c (Z.of_nat n)), (Z.ltb_spec c (Z.of_nat (S n))); rewrite ?orb_true_r, ?orb_false_r; try done; try lia.
    + apply bool_decide_true. lia.
    + apply bool_decide_false. lia.
Qed.

(** ** The layout *)
Definition SB0 : superblock := mkSb 1000 941 200 30 2 32 58.
Lemma mksb_eq : mksb = SB0.
Proof. vm_compute. reflexivity. Qed.
Definition D0 : list (list Z) := replicate 1000 zeroes.
Definition R0 : kernel := (boot_state (mkLinker 0 0 0 0 []) []) <| sb := SB0 |>.
Lemma IBLOCK_eq i : 0 ≤ i < 208 → IBLOCK i SB0 = i / 8 + 32.
Proof. intros Hi. unfold IBLOCK, IPB. simpl. apply u32_small. Z.div_mod_to_equations. lia. Qed.
Lemma GE0 : geom 2 30 D0 SB0 59 R0.
Proof.
  assert (length D0 = 1000%nat) as EL by apply length_replicate.
  split; rewrite ?EL; [done|done|done|done|done|done|by right| | |exact eq_refl].
  all: intros i Hi; simpl in Hi; rewrite IBLOCK_eq by lia.
  - change (BBLOCK 0 SB0) with 58. Z.div_mod_to_equations. lia.
  - Z.div_mod_to_equations. lia.
Qed.
Lemma xint_id x : 0 ≤ x < 4294967296 → xint x = x.
Proof.
  intros Hx. unfold xint, dec32. cbn. rewrite !u8_idem, !Z.shiftr_div_pow2 by done. unfold u8.
  change (2 ^ 8) with 256. change (2 ^ 16) with 65536. change (2 ^ 24) with 16777216. Z.div_mod_to_equations. lia.
Qed.

(** ** The image as a view

    [V] is the image with the bitmap as it will be written at the end. *)
Record vw (V : Z → list Z) (s : mkst) : Prop := {
  vw_len : length (img s) = 1000%nat;
  vw_fb : 59 ≤ freeblock s ≤ 1000;
  vw_img : ∀ c, 0 ≤ c < 1000 → c ≠ 58 → img s !!! Z.to_nat c = V c;
  vw_bm : V 58 = bitmap (Z.to_nat (freeblock s));
  vw_zero : ∀ c, freeblock s ≤ c < 1000 → V c = zeros;
  vw_blk : ∀ c, 0 ≤ c < 1000 → length (V c) = 512%nat }.

Abbreviation sane0 := (sane 2 30 D0 SB0 59).
Abbreviation used0 := (used SB0).
Abbreviation fok := (file_ok SB0 59).
Abbreviation frep0 := (frep SB0 59).
Abbreviation bv0 := (balloc_view SB0).
Abbreviation grown0 := (grown 2 30 D0 SB0 59).

Lemma vw_used V s c : vw V s → 0 ≤ c < 1000 → used0 V c = (c <? freeblock s).
Proof.
  intros [HL HF _ HB _ _] Hc. unfold used. change (BBLOCK 0 SB0) with 58. rewrite HB, bitmap_used by lia. f_equal. lia.
Qed.
Lemma vw_sane V s : vw V s → sane0 V.
Proof.
  intros H. pose proof (vw_fb _ _ H). split.
  - intros c Hc _. apply (vw_blk _ _ H). unfold D0 in Hc. rewrite length_replicate in Hc. lia.
  - intros a Ha. rewrite (vw_used V s) by (done || lia). lia.
Qed.
Lemma vw_free V s : vw V s → freeblock s < 1000 → used0 V (freeblock s) = false.
Proof. intros H Hf. pose proof (vw_fb _ _ H). rewrite (vw_used V s) by (done || lia). lia. Qed.

Definition bump (s : mkst) : mkst := s <| freeblock := freeblock s + 1 |>.
Lemma vw_bump V s : vw V s → freeblock s < 1000 → vw (bv0 V (freeblock s)) (bump s).
Proof.
  intros H Hf. pose proof H as [HL HF HI HB HZ HK]. split; simpl.
  - done.
  - lia.
  - intros c Hc Hn. rewrite HI by done. destruct (decide (c = freeblock s)) as [->|]; [rewrite bv_zero; apply HZ; lia|].
    by rewrite bv_same.
  - unfold balloc_view. change (BBLOCK 0 SB0) with 58. rewrite vset_ne, vset_eq, HB by lia.
    replace (Z.to_nat (freeblock s + 1)) with (S (Z.to_nat (freeblock s))) by lia. rewrite bitmap_S. f_equal. lia.
  - intros c Hc. rewrite bv_same; [apply HZ; lia|lia|change (BBLOCK 0 SB0) with 58; lia].
  - intros c Hc. unfold balloc_view, vset. change (BBLOCK 0 SB0) with 58. repeat case_decide; [done| |by apply HK].
    unfold setbit. rewrite length_alter. apply HK. lia.
Qed.

Definition put (c : Z) (d : list Z) (s : mkst) : mkst := s <| img ::= <[Z.to_nat c := d]> |>.
Lemma vw_put V s c d : vw V s → 0 ≤ c < freeblock s → c ≠ 58 → length d = 512%nat → vw (vset V c d) (put c d s).
Proof.
  intros [HL HF HI HB HZ HK] Hc Hn Hd. split; simpl.
  - by rewrite length_insert.
  - done.
  - intros c' Hc' Hn'. unfold vset. case_decide as E.
    + subst c'. rewrite list_lookup_total_insert_eq by lia. done.
    + rewrite list_lookup_total_insert_ne by lia. by apply HI.
  - by rewrite vset_ne.
  - intros c' Hc'. rewrite vset_ne by lia. by apply HZ.
  - intros c' Hc'. unfold vset. case_decide; [done|by apply HK].
Qed.

Lemma upd_daddrs (d : dinode) : d = d <| daddrs := daddrs d |>.
Proof. by destruct d. Qed.

(** ** Inodes on the disk *)

(** A field of a structure at [o] of a block. *)
Lemma arr32_at b o n l k v l2 : slice b o n = l ++ enc32 v ++ l2 → length l = k → (k + 4 ≤ n)%nat → arr32 b (o + k) = u32 v.
Proof.
  intros Hs Hl Hn. rewrite <- (dec32_enc32 v l2). unfold arr32, dec32.
  assert (∀ i, (i < 4)%nat → drop (o + k) b !!! i = (enc32 v ++ l2) !!! i) as Hx.
  { intros i Hi. rewrite lookup_total_drop, !list_lookup_total_alt. f_equal.
    apply (f_equal (.!! (k + i)%nat)) in Hs. rewrite lookup_slice, decide_True in Hs by lia.
    rewrite lookup_app_r in Hs by lia. rewrite <- Nat.add_assoc, Hs. f_equal. lia. }
  by rewrite !Hx by lia.
Qed.
Lemma arr16_at b o n l k v l2 : slice b o n = l ++ enc16 v ++ l2 → length l = k → (k + 2 ≤ n)%nat → arr16 b (o + k) = u16 v.
Proof.
  intros Hs Hl Hn. rewrite <- (dec16_enc16 v l2). unfold arr16, dec16.
  assert (∀ i, (i < 2)%nat → drop (o + k) b !!! i = (enc16 v ++ l2) !!! i) as Hx.
  { intros i Hi. rewrite lookup_total_drop, !list_lookup_total_alt. f_equal.
    apply (f_equal (.!! (k + i)%nat)) in Hs. rewrite lookup_slice, decide_True in Hs by lia.
    rewrite lookup_app_r in Hs by lia. rewrite <- Nat.add_assoc, Hs. f_equal. lia. }
  by rewrite !Hx by lia.
Qed.

(** The fields of an inode of the image are within their widths. *)
Record fits (d : dinode) : Prop := {
  ft_type : 0 ≤ dtype d < 32768;
  ft_major : 0 ≤ dmajor d < 32768;
  ft_minor : 0 ≤ dminor d < 32768;
  ft_nlink : 0 ≤ dnlink d < 32768;
  ft_size : 0 ≤ dsize d < 4294967296;
  ft_len : length (daddrs d) = S NDIRECT;
  ft_addrs : Forall (λ a, 0 ≤ a < 4294967296) (daddrs d) }.

Lemma short_id v : 0 ≤ v < 32768 → i16 (u16 v) = v.
Proof. intros Hv. unfold i16, u16. Z.div_mod_to_equations. lia. Qed.

Lemma concat_enc32 l i v : l !! i = Some v → ∃ l1 l2, concat (enc32 <$> l) = l1 ++ enc32 v ++ l2 ∧ length l1 = (4 * i)%nat.
Proof.
  revert i. induction l as [|a l IH]; intros [|i] Hi; [done..| |]; simpl in Hi.
  - injection Hi as <-. by exists [], (concat (enc32 <$> l)).
  - destruct (IH i Hi) as (l1 & l2 & E1 & E2). exists (enc32 a ++ l1), l2. rewrite fmap_cons. cbn [concat]. rewrite E1, <- app_assoc.
    split; [done|]. rewrite length_app. unfold enc32. simpl. lia.
Qed.

Lemma dinode_dec_enc b o d : slice b o 64 = dinode_enc d → fits d → dinode_dec b o = d.
Proof.
  intros Hs [F1 F2 F3 F4 F5 F6 F7]. unfold dinode_enc, enc_dinode in Hs. unfold dinode_dec. destruct d as [ty mj mn nl sz A]. simpl in *.
  rewrite <- (Nat.add_0_r o) at 1. rewrite (arr16_at b o 64 [] 0 ty _ Hs), short_id by (done || lia).
  rewrite (arr16_at b o 64 (enc16 ty) 2 mj _ Hs), short_id by (done || lia).
  rewrite (arr16_at b o 64 (enc16 ty ++ enc16 mj) 4 mn _ ltac:(rewrite <- !app_assoc; exact Hs)), short_id by (done || lia).
  rewrite (arr16_at b o 64 (enc16 ty ++ enc16 mj ++ enc16 mn) 6 nl _ ltac:(rewrite <- !app_assoc; exact Hs)), short_id by (done || lia).
  rewrite (arr32_at b o 64 (enc16 ty ++ enc16 mj ++ enc16 mn ++ enc16 nl) 8 sz _ ltac:(rewrite <- !app_assoc; exact Hs)), u32_small by (done || lia).
  f_equal. apply list_eq. intros i. unfold dinode_addrs. rewrite list_lookup_fmap.
  destruct (decide (i < S NDIRECT)%nat) as [Hi|Hi].
  2:{ rewrite !lookup_ge_None_2 by (rewrite ?length_seq; lia). done. }
  rewrite lookup_seq_lt by done. change (Some (arr32 b (o + 12 + 4 * i)) = A !! i). destruct (lookup_lt_is_Some_2 A i ltac:(lia)) as [a Ha]. rewrite Ha. f_equal.
  destruct (concat_enc32 A i a Ha) as (l1 & l2 & E1 & E2). rewrite E1 in Hs.
  rewrite <- Nat.add_assoc. rewrite (arr32_at b o 64 (enc16 ty ++ enc16 mj ++ enc16 mn ++ enc16 nl ++ enc32 sz ++ l1) (12 + 4 * i) a l2).
  - apply u32_small. by apply (Forall_lookup_1 (λ a, 0 ≤ a < 4294967296) A i).
  - rewrite Hs. by rewrite <- !app_assoc.
  - rewrite !length_app, E2. unfold enc16, enc32. simpl. lia.
  - unfold NDIRECT in Hi. lia.
Qed.

(** ** Contents up to the end of the last block *)
Definition blocks (n : nat) : nat := ((n + 511) `div` 512)%nat.
Definition pad (F : list Z) : list Z := F ++ replicate (512 * blocks (length F) - length F) 0.

Lemma blocks_bound n : (n ≤ 512 * blocks n < n + 512)%nat.
Proof. unfold blocks. pose proof (Nat.div_mod_eq (n + 511) 512). pose proof (Nat.mod_upper_bound (n + 511) 512 ltac:(lia)). lia. Qed.
Lemma pad_length F : length (pad F) = (512 * blocks (length F))%nat.
Proof. unfold pad. rewrite length_app, length_replicate. pose proof (blocks_bound (length F)). lia. Qed.
Lemma blocks_at q m : (0 < m)%nat → (q `mod` 512 + m ≤ 512)%nat →
  blocks (q + m) = S (q `div` 512) ∧ (q `mod` 512 = 0 → blocks q = q `div` 512)%nat ∧ (q `mod` 512 ≠ 0 → blocks q = S (q `div` 512))%nat.
Proof.
  intros Hm Hq. pose proof (blocks_bound q). pose proof (blocks_bound (q + m)). pose proof (Nat.div_mod_eq q 512). lia.
Qed.

(** A block that is there takes more bytes; a new one starts with zeros. *)
Lemma pad_old F c : (length F `mod` 512 ≠ 0)%nat → (length F `mod` 512 + length c ≤ 512)%nat → c ≠ [] → pad (F ++ c) = splice (pad F) (length F) c.
Proof.
  intros Hm Hc Hn. assert (0 < length c)%nat by (destruct c; simpl; [done|lia]). destruct (blocks_at (length F) (length c)) as (E1 & _ & E2); [done..|].
  specialize (E2 Hm). unfold pad, splice. rewrite length_app, take_app_length, drop_app_ge, drop_replicate by lia. rewrite <- app_assoc. do 3 f_equal. lia.
Qed.
Lemma pad_new F c : (length F `mod` 512 = 0)%nat → (length c ≤ 512)%nat → c ≠ [] →
  pad (F ++ c) = splice (pad F) (length F) (c ++ replicate (512 - length c) 0).
Proof.
  intros Hm Hc Hn. assert (0 < length c)%nat by (destruct c; simpl; [done|lia]). destruct (blocks_at (length F) (length c)) as (E1 & E2 & _); [lia..|].
  specialize (E2 Hm). pose proof (Nat.div_mod_eq (length F) 512). unfold pad, splice. rewrite !length_app, length_replicate, take_app_length.
  rewrite (drop_ge (F ++ _)) by (rewrite length_app, length_replicate; lia). rewrite app_nil_r, <- app_assoc. do 3 f_equal. lia.
Qed.
Lemma splice_zeros c : (length c ≤ 512)%nat → splice zeros 0 c = splice zeros 0 (c ++ replicate (512 - length c) 0).
Proof.
  intros Hc. unfold splice, zeros. cbn [take]. rewrite !app_nil_l, length_app, length_replicate, !drop_replicate, <- app_assoc. f_equal.
  by replace (512 - (0 + (length c + (512 - length c))))%nat with 0%nat by lia; rewrite app_nil_r.
Qed.

(** The file has no block behind its end. *)
Definition tight (V : Z → list Z) (A : list Z) (n : nat) : Prop :=
  ∀ bn, (blocks n ≤ bn < NDIRECT + NINDIRECT)%nat → blk_of V A bn = 0.

Section spec.
Context (E : Prop).

Lemma mwp_wsect c d (Q : () → mkst → Prop) s : (Z.to_nat c < length (img s))%nat → Q tt (put c d s) → mwp (wsect c d) Q E s.
Proof.
  intros Hc HQ. unfold mwp, wsect, put, upd in *. simpl in *.
  replace (S (Z.to_nat c) - length (img s))%nat with 0%nat by lia. by rewrite app_nil_r.
Qed.
Lemma mwp_rsect V c (Q : list Z → mkst → Prop) s : vw V s → 0 ≤ c < 1000 → c ≠ 58 → Q (V c) s → mwp (rsect c) Q E s.
Proof.
  intros H Hc Hn HQ. unfold mwp, rsect. pose proof (vw_len _ _ H). rewrite <- (vw_img _ _ H) in HQ by done.
  rewrite (list_lookup_lookup_total_lt (img s)) by lia. done.
Qed.
Lemma mwp_rsect_out c (Q : list Z → mkst → Prop) s : length (img s) = 1000%nat → 1000 ≤ c → E → mwp (rsect c) Q E s.
Proof. intros HL Hc HE. unfold mwp, rsect. by rewrite lookup_ge_None_2 by lia. Qed.
Lemma mwp_next (Q : Z → mkst → Prop) V s : vw V s → Q (freeblock s) (bump s) → mwp next_block Q E s.
Proof. intros H HQ. pose proof (vw_fb _ _ H). unfold mwp, next_block. rewrite u32_small by lia. done. Qed.

Lemma addr_direct V A bn : fok V A → (bn < NDIRECT)%nat → A !!! bn = blk_of V A bn ∧ 0 ≤ A !!! bn < 1000.
Proof.
  intros HF Hb. assert (A !!! bn = blk_of V A bn) as Ea by (unfold blk_of; by rewrite decide_True).
  split; [done|]. rewrite Ea. destruct (fo_blk _ _ _ _ HF bn) as [->|[Hr _]]; [unfold NDIRECT, NINDIRECT in *; lia|lia|]. simpl in Hr. lia.
Qed.
Lemma addr_ind V A : fok V A → 0 ≤ ind A < 1000.
Proof. intros HF. destruct (fo_ind _ _ _ _ HF) as [->|[Hr _]]; [lia|]. simpl in Hr. lia. Qed.

Ltac mstep := cbv beta; lazymatch goal with
  | |- mwp (mret _) _ _ _ => apply mwp_ret
  | |- mwp (_ ≫= _) _ _ _ => apply mwp_bind
  end.

(** Block [fbn] of the file has been found or taken, or there was no block left. *)
Definition located (fbn : nat) (din : dinode) (V : Z → list Z) (s : mkst) (P : dinode * Z → mkst → Prop) : Prop :=
  (∀ V1 A1 a s1, vw V1 s1 → grown0 V (daddrs din) V1 A1 fbn a → freeinode s1 = freeinode s →
    freeblock s1 + Z.of_nat (nind A1) ≤ freeblock s + Z.of_nat (nind (daddrs din)) + (if decide (blk_of V (daddrs din) fbn = 0) then 1 else 0) →
    P (din <| daddrs := A1 |>, a) s1) ∧
  (∀ din' s1, length (img s1) = 1000%nat → E → P (din', 1000) s1).

(** The blocks left are enough, or giving up is right. *)
Definition room (need : Z) (s : mkst) (A : list Z) : Prop := freeblock s + Z.of_nat (nind A) + need ≤ 1000 ∨ E.

Lemma mwp_direct fbn din V s P : vw V s → fok V (daddrs din) → (fbn < NDIRECT)%nat →
  (blk_of V (daddrs din) fbn = 0 → room 1 s (daddrs din)) → located fbn din V s P → mwp (iappend_direct din fbn) P E s.
Proof.
  intros H HF Hb HR [HP HO]. set (A := daddrs din) in *. destruct (addr_direct V A fbn HF Hb) as [Ea Ha]. pose proof (vw_fb _ _ H).
  pose proof (fo_len _ _ _ _ HF) as HL. unfold iappend_direct. fold A. rewrite xint_id by lia. mstep.
  destruct (Z.eqb_spec (A !!! fbn) 0) as [E0|E0].
  - mstep. apply (mwp_next _ V); [done|]. mstep. mstep. cbn [daddrs upd]. unfold upd. cbn [daddrs]. fold A.
    rewrite !xint_id, list_lookup_total_insert_eq, xint_id by lia.
    assert (freeblock s < 1000 ∨ freeblock s = 1000) as [Hf|Hf] by lia.
    + apply (HP (bv0 V (freeblock s)) (<[fbn := freeblock s]> A)); [by apply vw_bump| |done|].
      * apply (grown_direct 2 30 D0 SB0 59 R0 GE0); [done|by eapply vw_sane|done|done|simpl; lia|by apply vw_free].
      * rewrite decide_True by congruence. unfold nind, ind. rewrite list_lookup_total_insert_ne by (unfold NDIRECT in *; lia). simpl. lia.
    + rewrite Hf. apply HO; [by apply H|]. destruct (HR ltac:(congruence)); [lia|done].
  - mstep. mstep. fold A. rewrite xint_id, Ea by lia. rewrite (upd_daddrs din).
    apply (HP V A); [done| |done|rewrite decide_False by congruence; lia]. apply (grown_refl 2 30 D0 SB0 59); [done|by eapply vw_sane|unfold NDIRECT, NINDIRECT in *; lia|congruence].
Qed.

Lemma vw_below V s A : vw V s → fok V A → ind A ≠ 0 → 59 ≤ ind A < freeblock s.
Proof.
  intros H HF Hi. destruct (used_ind SB0 59 V A HF Hi) as [Hr Hu]. simpl in Hr. rewrite (vw_used V s) in Hu by (done || lia). lia.
Qed.

Definition iappend_entry (din : dinode) (fbn : nat) : MK (dinode * Z) :=
  let off := (4 * (fbn - NDIRECT))%nat in
  indirect ← rsect (xint (daddrs din !!! NDIRECT));
  indirect ← (if arr32 indirect off =? 0 then
                a ← next_block;
                let indirect := splice indirect off (enc32 (xint a)) in
                wsect (xint (daddrs din !!! NDIRECT)) indirect;;
                mret indirect
              else mret indirect);
  mret (din, xint (arr32 indirect off)).

Lemma mwp_entry fbn din V s P : vw V s → fok V (daddrs din) → ind (daddrs din) ≠ 0 → (NDIRECT ≤ fbn < NDIRECT + NINDIRECT)%nat →
  (blk_of V (daddrs din) fbn = 0 → freeblock s + 1 ≤ 1000 ∨ E) →
  (∀ V1 a s1, vw V1 s1 → grown0 V (daddrs din) V1 (daddrs din) fbn a → freeinode s1 = freeinode s →
    freeblock s1 ≤ freeblock s + (if decide (blk_of V (daddrs din) fbn = 0) then 1 else 0) → P (din, a) s1) →
  (∀ din' s1, length (img s1) = 1000%nat → E → P (din', 1000) s1) → mwp (iappend_entry din fbn) P E s.
Proof.
  intros H HF Hi Hb HR HP HO. pose proof (vw_below V s _ H HF Hi) as Hr. pose proof (vw_fb _ _ H). pose proof (vw_len _ _ H).
  set (A := daddrs din) in *. unfold iappend_entry. fold A. change (A !!! NDIRECT) with (ind A). rewrite xint_id by lia.
  assert (blk_of V A fbn = arr32 (V (ind A)) (4 * (fbn - NDIRECT))) as EB by (unfold blk_of; by rewrite !decide_False by (done || lia)).
  assert (length (V (ind A)) = 512%nat) as LV by (apply (vw_blk _ _ H); lia). unfold NDIRECT, NINDIRECT in Hb.
  mstep. apply (mwp_rsect V); [done|lia|lia|]. mstep. rewrite <- EB. destruct (Z.eqb_spec (blk_of V A fbn) 0) as [E0|E0].
  - mstep. apply (mwp_next _ V); [done|]. rewrite xint_id by lia. mstep. apply mwp_wsect; [simpl; lia|]. mstep. mstep.
    rewrite arr32_splice_eq, u32_small, xint_id by (unfold NDIRECT; lia).
    assert (freeblock s < 1000 ∨ freeblock s = 1000) as [Hf|Hf] by lia.
    + apply (HP (entry_view SB0 V A fbn (freeblock s))).
      * unfold entry_view. rewrite bv_same by (change (BBLOCK 0 SB0) with 58; lia). apply vw_put; [by apply vw_bump|simpl; lia|lia|].
        rewrite length_splice; [done|]. unfold NDIRECT. simpl. lia.
      * apply (grown_entry 2 30 D0 SB0 59 R0 GE0); [done|by eapply vw_sane|done|unfold NDIRECT, NINDIRECT; lia|done|simpl; lia|by apply vw_free].
      * done.
      * rewrite decide_True by done. simpl. lia.
    + rewrite Hf. apply HO; [simpl; by rewrite length_insert|]. destruct (HR E0); [lia|done].
  - mstep. mstep. rewrite <- EB, xint_id.
    2:{ destruct (fo_blk _ _ _ _ HF fbn) as [?|[Hx _]]; [unfold NDIRECT, NINDIRECT; lia|done|simpl in Hx; lia]. }
    apply (HP V); [done| |done|rewrite decide_False by done; lia].
    apply (grown_refl 2 30 D0 SB0 59); [done|by eapply vw_sane|unfold NDIRECT, NINDIRECT in *; lia|done].
Qed.

Lemma mwp_indirect fbn din V s P : vw V s → fok V (daddrs din) → (NDIRECT ≤ fbn < NDIRECT + NINDIRECT)%nat →
  (blk_of V (daddrs din) fbn = 0 → room 1 s (daddrs din)) → located fbn din V s P → mwp (iappend_indirect din fbn) P E s.
Proof.
  intros H HF Hb HR HPO. pose proof HPO as [HP HO]. pose proof (vw_fb _ _ H). pose proof (vw_len _ _ H).
  pose proof (addr_ind V _ HF) as Hi. set (A := daddrs din) in *. pose proof (fo_len _ _ _ _ HF) as HL.
  unfold iappend_indirect. fold A. change (A !!! NDIRECT) with (ind A). rewrite xint_id by lia. mstep.
  destruct (Z.eqb_spec (ind A) 0) as [E0|E0].
  - assert (blk_of V A fbn = 0) as EB by (unfold blk_of; by rewrite decide_False, decide_True by (done || lia)).
    mstep. apply (mwp_next _ V); [done|]. apply mwp_ret. rewrite (xint_id (freeblock s)) by lia. set (A1 := <[NDIRECT := freeblock s]> A).
    change (mwp (iappend_entry (din <| daddrs := A1 |>) fbn) P E (bump s)).
    assert (ind A1 = freeblock s) as EI by (unfold ind, A1; apply list_lookup_total_insert_eq; lia).
    assert (freeblock s < 1000 ∨ freeblock s = 1000) as [Hf|Hf] by lia.
    2:{ unfold iappend_entry. change (daddrs (din <| daddrs := A1 |>) !!! NDIRECT) with (ind A1). rewrite EI, xint_id by lia.
        mstep. apply mwp_rsect_out; [done|lia|]. destruct (HR EB); [lia|done]. }
    assert (0 ≤ freeblock s < 1000) by lia. assert (sane0 V) as HS by by eapply vw_sane.
    destruct (indirect_new 2 30 D0 SB0 59 R0 GE0 V A (freeblock s) HF HS E0 ltac:(simpl; lia) (vw_free _ _ H Hf)) as (HF1 & _ & EB1). fold A1 in HF1, EB1.
    assert (nind A = 1%nat ∧ nind A1 = 0%nat) as [N0 N1] by (unfold nind; rewrite EI, E0; split; [done|by rewrite decide_False by lia]).
    apply (mwp_entry fbn _ (bv0 V (freeblock s))); [by apply vw_bump|done|by simpl; rewrite EI; lia|done| | |done].
    { intros _. destruct (HR EB) as [Hx|]; [left; rewrite N0 in Hx; simpl; lia|by right]. }
    intros V2 a s2 W2 HG EF Hfb. cbn [daddrs upd] in HG, Hfb. unfold upd in HG, Hfb. cbn [daddrs] in HG, Hfb.
    rewrite EB1 in Hfb by lia. apply (HP V2 A1); [done| |done|rewrite N0, N1; simpl in Hfb; lia].
    apply (grown_indirect 2 30 D0 SB0 59 R0 GE0 V A (freeblock s)); [done|done|done|done|simpl; lia|by apply vw_free|done].
  - mstep. change (mwp (iappend_entry din fbn) P E s). apply (mwp_entry fbn din V); [done|done|done|done| | |done].
    + intros Eb. destruct (HR Eb); [left; lia|by right].
    + intros V1 a s1 W1 HG EF Hfb. fold A in Hfb. rewrite (upd_daddrs din). apply (HP V1 A); [done|done|done|fold A; lia].
Qed.

(** The bytes [c], put into the block that was located. *)
Lemma filled V A F c V1 A1 a : let q := length F in frep0 V A (pad F) → tight V A q → c ≠ [] → (q `mod` 512 + length c ≤ 512)%nat →
  (q `div` 512 < NDIRECT + NINDIRECT)%nat → sane0 V → grown0 V A V1 A1 (q `div` 512) a →
  let V2 := vset V1 a (splice (V1 a) (q `mod` 512) c) in
  frep0 V2 A1 (pad (F ++ c)) ∧ tight V2 A1 (q + length c) ∧ keeps SB0 V A V2 A1.
Proof.
  intros q HF HT Hc Hm Hb HS HG. assert (0 < length c)%nat as Hl by (destruct c; simpl; [done|lia]).
  destruct (blocks_at q (length c) Hl Hm) as (E1 & E2 & E3). pose proof (Nat.div_mod_eq q 512). pose proof (pad_length F) as HP. fold q in HP.
  destruct (mine_blk _ _ V1 A1 _ (gw_ok _ _ _ _ _ _ _ _ _ _ _ HG) Hb) as [_ [Ha _]]; [rewrite (gw_blk _ _ _ _ _ _ _ _ _ _ _ HG); apply HG|].
  rewrite (gw_blk _ _ _ _ _ _ _ _ _ _ _ HG) in Ha. simpl in Ha.
  assert (length (V1 a) = 512%nat) as L1.
  { apply (gw_sane _ _ _ _ _ _ _ _ _ _ _ HG); [unfold D0; rewrite length_replicate; lia|]. unfold home. lia. }
  set (d := splice (V1 a) (q `mod` 512) c). assert (length d = 512%nat) as Ld by (unfold d; rewrite splice_length; lia). intros V2.
  destruct (fill_view 2 30 D0 SB0 59 R0 GE0 V A V1 A1 _ a d HG Hb Ld) as (EB & _). split_and!.
  - destruct (decide (q `mod` 512 = 0)%nat) as [E0|E0].
    + rewrite pad_new by (done || lia). fold q. assert (V1 a = zeros) as Ez.
      { apply (gw_new _ _ _ _ _ _ _ _ _ _ _ HG). apply HT. rewrite E2 by done. lia. }
      assert (d = splice (V1 a) (q `mod` 512) (c ++ replicate (512 - length c) 0)) as Ed by (unfold d; rewrite E0, Ez; apply splice_zeros; lia).
      unfold V2. rewrite Ed. apply (frep_fill 2 30 D0 SB0 59 R0 GE0 V A); rewrite ?length_app, ?length_replicate; try done; [lia|lia|by destruct c|lia].
    + rewrite pad_old by (done || lia). fold q. apply (frep_fill 2 30 D0 SB0 59 R0 GE0 V A); try done; [lia|]. lia.
  - intros bn Hbn. unfold V2. rewrite EB by lia. rewrite (gw_other _ _ _ _ _ _ _ _ _ _ _ HG) by lia. apply HT.
    destruct (decide (q `mod` 512 = 0)%nat); [rewrite E2 by done; lia|rewrite E3 by done; lia].
  - apply (fill_keeps 2 30 D0 SB0 59 R0 GE0 V A V1 A1 _ a d (fr_ok _ _ _ _ _ HF) HG Hb Ld).
Qed.

Lemma mwp_locate fbn din V s P : vw V s → fok V (daddrs din) → (fbn < NDIRECT + NINDIRECT)%nat →
  (blk_of V (daddrs din) fbn = 0 → room 1 s (daddrs din)) → located fbn din V s P →
  mwp (if Z.of_nat fbn <? Z.of_nat NDIRECT then iappend_direct din fbn else iappend_indirect din fbn) P E s.
Proof.
  intros H HF Hb HR HP. destruct (Z.ltb_spec (Z.of_nat fbn) (Z.of_nat NDIRECT)); [apply (mwp_direct fbn din V); [done|done|lia|done|done]|].
  apply (mwp_indirect fbn din V); [done|done|lia|done|done].
Qed.

(** A turn of the loop, at the end of the contents [F]. *)
Lemma turn_pos q (p : list Z) : let m := Nat.min (length p) (512 - q `mod` 512) in
  Z.of_nat q / BSIZE = Z.of_nat (q `div` 512) ∧ Z.to_nat (Z.of_nat q - Z.of_nat (q `div` 512) * BSIZE) = (q `mod` 512)%nat ∧
  Z.min (Z.of_nat (length p)) ((Z.of_nat (q `div` 512) + 1) * BSIZE - Z.of_nat q) = Z.of_nat m.
Proof.
  unfold BSIZE. change 512 with (Z.of_nat 512). rewrite <- Nat2Z.inj_div. pose proof (Nat.div_mod_eq q 512).
  pose proof (Nat.mod_upper_bound q 512 ltac:(lia)). split_and!; [done|lia|lia].
Qed.

Lemma mwp_iappend_loop fuel : ∀ p F V din s Q, let q := length F in let A := daddrs din in
  vw V s → frep0 V A (pad F) → tight V A q → (length p ≤ fuel)%nat → Z.of_nat (q + length p) ≤ 71680 ∨ E →
  room (Z.of_nat (blocks (q + length p)) - Z.of_nat (blocks q)) s A →
  (∀ V' A' s', vw V' s' → frep0 V' A' (pad (F ++ p)) → tight V' A' (q + length p) → keeps SB0 V A V' A' → freeinode s' = freeinode s →
    freeblock s' + Z.of_nat (nind A') + Z.of_nat (blocks q) ≤ freeblock s + Z.of_nat (nind A) + Z.of_nat (blocks (q + length p)) →
    Q (din <| daddrs := A' |>, Z.of_nat (q + length p)) s') →
  mwp (iappend_loop fuel din (Z.of_nat q) p) Q E s.
Proof.
  induction fuel as [|fuel IH]; intros p F V din s Q q A H HF HT Hf Hmax HR HQ.
  all: destruct (decide (p = [])) as [->|Hp].
  1,3: cbn [iappend_loop length]; rewrite ?(proj2 (Z.ltb_ge _ _)) by done; mstep; rewrite (upd_daddrs din), <- (Nat.add_0_r q);
    apply (HQ V A); rewrite ?app_nil_r; try done; [by simpl; rewrite Nat.add_0_r|apply keeps_refl|simpl; rewrite Nat.add_0_r; lia].
  1: destruct p; simpl in Hf; [done|lia].
  assert (0 < length p)%nat as Hl by (destruct p; simpl; [done|lia]). destruct (turn_pos q p) as (E1 & E2 & E3).
  set (m := Nat.min (length p) (512 - q `mod` 512)) in *. pose proof (Nat.mod_upper_bound q 512 ltac:(lia)). pose proof (Nat.div_mod_eq q 512).
  cbn [iappend_loop]. rewrite (proj2 (Z.ltb_lt _ _)) by lia. cbv zeta. rewrite E1, E2, E3, !Nat2Z.id. mstep.
  assert (m < length p ∨ m = length p)%nat as Hml by lia.
  apply mwp_assert; [intros Hb%Z.ltb_lt|intros Hb%Z.ltb_ge; unfold MAXFILE, NDIRECT, NINDIRECT in Hb; destruct Hmax; [lia|done]].
  assert (q `div` 512 < NDIRECT + NINDIRECT)%nat as Hbn by (unfold MAXFILE in Hb; lia). clear Hb.
  destruct (blocks_at q m ltac:(lia) ltac:(lia)) as (B1 & B2 & B3).
  assert (blocks (q + m) ≤ blocks (q + length p))%nat as Bm by (unfold blocks; apply Nat.Div0.div_le_mono; lia).
  assert (blk_of V A (q `div` 512) = 0 → (q `mod` 512 = 0)%nat) as Hnew.
  { intros E0. destruct (decide (q `mod` 512 = 0)%nat) as [|Hn]; [done|exfalso].
    destruct (frep_blk _ _ V A (pad F) q HF) as (_ & Hx & _); [rewrite pad_length; fold q; rewrite (B3 Hn); lia|done]. }
  assert (length (take m p) = m) as Lc by (rewrite length_take; lia).
  mstep. apply (mwp_locate (q `div` 512) din V); [done|apply HF|done| |].
  { intros E0. specialize (B2 (Hnew E0)). destruct HR as [HR|]; [left|by right]. fold A. lia. }
  split; [|intros din' s1 L1 HE; mstep; apply mwp_rsect_out; done || lia].
  fold A. intros V1 A1 a s1 W1 HG EF1 Hfb. pose proof (vw_sane _ _ H) as HS.
  destruct (filled V A F (take m p) V1 A1 a HF HT) as (F2 & T2 & K2); [by intros Ex; rewrite Ex in Lc; simpl in Lc; lia|fold q; lia|done|done|done|].
  destruct (mine_blk _ _ V1 A1 _ (gw_ok _ _ _ _ _ _ _ _ _ _ _ HG) Hbn) as [_ Ha]; [rewrite (gw_blk _ _ _ _ _ _ _ _ _ _ _ HG); apply HG|].
  rewrite (gw_blk _ _ _ _ _ _ _ _ _ _ _ HG) in Ha. destruct Ha as [Ha Hu]. simpl in Ha. rewrite (vw_used V1 s1) in Hu by (done || lia).
  pose proof (vw_blk _ _ W1 a ltac:(lia)) as La. fold q in F2, T2, K2. rewrite Lc in T2.
  mstep. apply (mwp_rsect V1); [done|lia|lia|]. mstep. apply mwp_wsect; [rewrite (vw_len _ _ W1); lia|].
  replace (Z.of_nat q + Z.of_nat m) with (Z.of_nat (length (F ++ take m p))) by (rewrite length_app, Lc; lia).
  pose proof (vw_put V1 s1 a (splice (V1 a) (q `mod` 512) (take m p)) W1 ltac:(lia) ltac:(lia) ltac:(rewrite splice_length; lia)) as W2.
  assert (length (F ++ take m p) = (q + m)%nat) as EL by (rewrite length_app; lia).
  assert (q + m + length (drop m p) = q + length p)%nat as EL2 by (rewrite length_drop; lia).
  assert (freeblock s1 + Z.of_nat (nind A1) + Z.of_nat (blocks q) ≤ freeblock s + Z.of_nat (nind A) + Z.of_nat (blocks (q + m))) as Hpay.
  { destruct (decide (blk_of V A (q `div` 512) = 0)) as [E0|E0]; [rewrite (B2 (Hnew E0)); lia|]. destruct (decide (q `mod` 512 = 0)%nat) as [Em|Em]; [rewrite (B2 Em); lia|rewrite (B3 Em); lia]. }
  apply (IH _ _ (vset V1 a (splice (V1 a) (q `mod` 512) (take m p)))); rewrite ?EL, ?EL2.
  - exact W2.
  - exact F2.
  - exact T2.
  - rewrite length_drop. lia.
  - done.
  - destruct HR as [HR|]; [left|by right]. cbn [daddrs upd]. unfold upd. cbn [daddrs freeblock put]. simpl. lia.
  - intros V' A' s' W' F' T' K' EF' Hp'. rewrite <- app_assoc, take_drop in F'. cbn [daddrs upd] in K', Hp'. unfold upd in K', Hp'. cbn [daddrs] in K', Hp'.
    apply (HQ V' A'); [done|done|done|by eapply keeps_trans|by rewrite EF'|simpl in Hp'; lia].
Qed.
End spec.
