(* ===== verification/MkfsImage.v ===== *)
(** * The files of the image

    The inodes and the root directory [mkfs] writes, and the theorem on the whole
    program: the image is a file system that holds the files it was given. *)
From stdpp Require Import base strings numbers gmap list.
From S2P Require Import Prelude Machine KString Kernel Locks Kalloc Proc ProcSpec Sleeplock Bio BioSpec Log LogSpec TxnSpec Fs FsSpec.
From S2P Require Import FileSpec Mkfs MkfsSpec.

(** The inode [n] of the image as the kernel would cache it. *)
Definition ino (n : Z) (d : dinode) : inode :=
  mkInode 1 n 0 (mkSlk 0 0) 1 (dtype d) (dmajor d) (dminor d) (dnlink d) (dsize d) (daddrs d).

Abbreviation slot V n := (slice (V (IBLOCK n SB0)) (dinode_off n) 64).

(** Inode [n] is [d], and its file has the contents [F]. *)
Record file_in (V : Z → list Z) (n : Z) (d : dinode) (F : list Z) : Prop := {
  fi_slot : slot V n = dinode_enc d;
  fi_rep : frep0 V (daddrs d) (pad F);
  fi_tight : tight V (daddrs d) (length F);
  fi_size : dsize d = Z.of_nat (length F);
  fi_fits : fits d }.

(** The image under construction: inodes 1 to [length fs] hold the files [fs], the
    others are free. *)
Record mkok (V : Z → list Z) (s : mkst) (fs : list (dinode * list Z)) : Prop := {
  mo_vw : vw V s;
  mo_n : freeinode s = Z.of_nat (S (length fs));
  mo_file : ∀ j d F, fs !! j = Some (d, F) → file_in V (Z.of_nat (S j)) d F;
  mo_disj : ∀ i j d F d' F' c, i ≠ j → fs !! i = Some (d, F) → fs !! j = Some (d', F') → mine V (daddrs d) c → ¬ mine V (daddrs d') c;
  mo_rest : ∀ n, Z.of_nat (S (length fs)) ≤ n < 200 → slot V n = replicate 64 0;
  mo_log : ∀ c, 2 ≤ c < 32 → V c = zeros;
  mo_sb : V 1 = splice zeroes 0 (enc_sb mksb) }.

(** ** Inodes and their blocks *)
Lemma iblock_range n : 0 ≤ n < 200 → 32 ≤ IBLOCK n SB0 < 57.
Proof. intros Hn. rewrite IBLOCK_eq by lia. Z.div_mod_to_equations. lia. Qed.

(** Two inodes of one block do not overlap. *)
Lemma dinode_apart n m : 0 ≤ n < 200 → 0 ≤ m < 200 → n ≠ m → IBLOCK n SB0 = IBLOCK m SB0 →
  (dinode_off n + 64 ≤ dinode_off m ∨ dinode_off m + 64 ≤ dinode_off n)%nat.
Proof.
  intros Hn Hm Hne E. rewrite !IBLOCK_eq in E by lia. unfold dinode_off, IPB. Z.div_mod_to_equations. lia.
Qed.

(** The view after inode [n] has been written. *)
Definition iview (V : Z → list Z) (n : Z) (d : dinode) : Z → list Z := inode_view SB0 V (ino n d).
Lemma dinode_enc_length d : length (daddrs d) = S NDIRECT → length (dinode_enc d) = 64%nat.
Proof. apply (dinode_length (ino 0 d)). Qed.
Lemma iview_other V n d m : vw V m → length (daddrs d) = S NDIRECT → ∀ n', 0 ≤ n < 200 → 0 ≤ n' < 200 → n ≠ n' → slot (iview V n d) n' = slot V n'.
Proof.
  intros W HL n' Hn Hn' Hne. unfold iview, inode_view, vset. simpl. case_decide as E; [|done]. symmetry in E.
  pose proof (dinode_apart n n' Hn Hn' Hne E). pose proof (iblock_range n Hn).
  pose proof (vw_blk _ _ W (IBLOCK n SB0) ltac:(lia)) as Lb. pose proof (dinode_off_le n). pose proof (dinode_enc_length d HL) as Le.
  apply list_eq. intros j. rewrite !lookup_slice. case_decide; [|done]. rewrite <- E. apply lookup_splice_ne; change (dinode_of (ino n d)) with (dinode_enc d); lia.
Qed.
Lemma iview_same V n d m : vw V m → length (daddrs d) = S NDIRECT → 0 ≤ n < 200 → slot (iview V n d) n = dinode_enc d.
Proof.
  intros W HL Hn. pose proof (iblock_range n Hn). pose proof (vw_blk _ _ W (IBLOCK n SB0) ltac:(lia)) as Lb. pose proof (dinode_off_le n).
  unfold iview, inode_view. simpl. rewrite vset_eq. unfold slice. rewrite drop_splice_eq by lia.
  change (dinode_of (ino n d)) with (dinode_enc d). rewrite <- (dinode_enc_length d HL). apply take_app_length.
Qed.

(** ** Writing one file leaves the others alone *)
Section update.
Context (V : Z → list Z) (s : mkst) (fs : list (dinode * list Z)) (H : mkok V s fs) (HN : (length fs < 200)%nat).
Context (j : nat) (d : dinode) (F : list Z) (Hj : fs !! j = Some (d, F)).
Context (V1 : Z → list Z) (s1 : mkst) (d' : dinode) (F' : list Z) (W1 : vw V1 s1).
Context (HK : keeps SB0 V (daddrs d) V1 (daddrs d')) (HF1 : frep0 V1 (daddrs d') (pad F')).
Abbreviation n := (Z.of_nat (S j)).
Abbreviation V2 := (iview V1 n d').

Lemma inum_range i x : fs !! i = Some x → 0 ≤ Z.of_nat (S i) < 200.
Proof. intros Hi%lookup_lt_Some. lia. Qed.
Lemma mine_data i x c : fs !! i = Some x → mine V (daddrs x.1) c → 59 ≤ c < 1000.
Proof. destruct x as [di Fi]. intros Hi Hc. by apply (mine_range SB0 59 V (daddrs di) c (fr_ok _ _ _ _ _ (fi_rep _ _ _ _ (mo_file _ _ _ H i di Fi Hi)))). Qed.

(** Blocks that do not belong to the file. *)
Lemma update_frame c : 0 ≤ c < 1000 → c ≠ 58 → c ≠ IBLOCK n SB0 → used0 V c = true → ¬ mine V (daddrs d) c → V2 c = V c.
Proof.
  intros Hc Hb Hi Hu Hm. unfold iview, inode_view. rewrite vset_ne by done. by apply (kp_frame _ _ _ _ _ HK).
Qed.
Lemma update_meta c : 0 ≤ c < 59 → c ≠ 58 → V1 c = V c.
Proof.
  intros Hc Hb. apply (kp_frame _ _ _ _ _ HK); [done| |].
  - intros _. apply (sn_used _ _ _ _ _ _ (vw_sane _ _ (mo_vw _ _ _ H))). lia.
  - intros Hm%(mine_data j (d, F)); [lia|done].
Qed.
Lemma update_slot m : 0 ≤ m < 200 → m ≠ n → slot V2 m = slot V m.
Proof.
  intros Hm Hn. rewrite (iview_other V1 n d' s1 W1); [|apply HF1|by eapply inum_range|done|done].
  pose proof (iblock_range m Hm). by rewrite update_meta by lia.
Qed.
Lemma update_updated : updated 2 30 D0 SB0 V (ino n d) V2 (ino n d').
Proof.
  pose proof (mo_file _ _ _ H j d F Hj) as [_ HF _ _ _]. eapply (updated_inode 2 30 D0 SB0 59 R0 GE0); [exact HK|apply HF|by eapply vw_sane, H|by eapply vw_sane|exact HF1| |done].
  by eapply inum_range.
Qed.
Lemma update_isolated : isolated SB0 59 V (daddrs d) V2 (daddrs d').
Proof.
  pose proof (mo_file _ _ _ H j d F Hj) as [_ HF _ _ _].
  apply (updated_isolated 2 30 SB0 59 D0 R0 V (ino n d) V2 (ino n d') GE0); [apply HF|by eapply inum_range|apply update_updated].
Qed.
(** The other files, and their blocks. *)
Lemma update_other i di Fi : i ≠ j → fs !! i = Some (di, Fi) → (∀ c, mine V (daddrs di) c → ¬ mine V (daddrs d) c) ∧
  (∀ bn, blk_of V2 (daddrs di) bn = blk_of V (daddrs di) bn) ∧ (∀ c, mine V2 (daddrs di) c ↔ mine V (daddrs di) c).
Proof.
  intros Hn Hi. assert (∀ c, mine V (daddrs di) c → ¬ mine V (daddrs d) c) as HD by (intros c; by eapply (mo_disj _ _ _ H)).
  pose proof (fr_ok _ _ _ _ _ (fi_rep _ _ _ _ (mo_file _ _ _ H i di Fi Hi))) as HO.
  assert (∀ bn, blk_of V2 (daddrs di) bn = blk_of V (daddrs di) bn) as EB.
  { intros bn. unfold blk_of. repeat case_decide; [done|done|]. rewrite update_frame; [done|..].
    all: assert (mine V (daddrs di) (ind (daddrs di))) as Hm by (split; [done|by left]).
    all: pose proof (mine_data i (di, Fi) _ Hi Hm); pose proof (iblock_range n (inum_range _ _ Hj)); try lia.
    - by apply (used_ind SB0 59 V _ HO).
    - by apply HD. }
  split_and!; [done|done|]. intros c. unfold mine. by setoid_rewrite EB.
Qed.

Lemma mkok_update s2 : vw V2 s2 → freeinode s2 = freeinode s → tight V1 (daddrs d') (length F') → dsize d' = Z.of_nat (length F') → fits d' →
  mkok V2 s2 (<[j := (d', F')]> fs).
Proof.
  intros W2 EF HT HZ HFt. pose proof update_isolated as HI. pose proof (inum_range _ _ Hj) as Hnr.
  destruct (inode_view_ok 2 30 D0 SB0 59 R0 GE0 V1 (ino n d') (daddrs d') (pad F') (vw_sane _ _ W1) HF1 Hnr (fo_len _ _ _ _ (fr_ok _ _ _ _ _ HF1))) as (_ & HF2 & _ & EB2 & _).
  split.
  - done.
  - rewrite EF, length_insert. apply H.
  - intros i di Fi Hi. apply list_lookup_insert_Some in Hi as [(<- & [= <- <-] & _)|(Hn & Hi)].
    + split; [|done| |done|done]; [apply (iview_same V1 n d' s1 W1); [apply HF1|done]|]. intros bn Hb. unfold iview. rewrite EB2 by lia. by apply HT.
    + destruct (update_other i di Fi (not_eq_sym Hn) Hi) as (HD & EB & _). pose proof (mo_file _ _ _ H i di Fi Hi) as [S1 S2 S3 S4 S5].
      pose proof (inum_range _ _ Hi). split; [rewrite update_slot by lia; done|by apply (HI _ _ S2 HD)| |done|done].
      intros bn Hb. rewrite EB. by apply S3.
  - intros i k di Fi dk Fk c Hik Hi Hk. apply list_lookup_insert_Some in Hi as [(<- & [= <- <-] & _)|(Hn & Hi)];
      apply list_lookup_insert_Some in Hk as [(<- & [= <- <-] & _)|(Hn' & Hk)].
    + done.
    + destruct (update_other k dk Fk (not_eq_sym Hn') Hk) as (HD & _ & EM). pose proof (mo_file _ _ _ H k dk Fk Hk) as [_ S2 _ _ _].
      destruct (HI _ _ S2 HD) as [_ HD2]. intros Hc Hc2. by apply (HD2 c).
    + destruct (update_other i di Fi (not_eq_sym Hn) Hi) as (HD & _ & EM). pose proof (mo_file _ _ _ H i di Fi Hi) as [_ S2 _ _ _].
      destruct (HI _ _ S2 HD) as [_ HD2]. apply HD2.
    + destruct (update_other i di Fi (not_eq_sym Hn) Hi) as (_ & _ & ->). destruct (update_other k dk Fk (not_eq_sym Hn') Hk) as (_ & _ & ->).
      exact (mo_disj _ _ _ H i k _ _ _ _ c Hik Hi Hk).
  - intros m Hm. rewrite length_insert in Hm. pose proof (lookup_lt_Some _ _ _ Hj). rewrite update_slot by lia. apply H. lia.
  - intros c Hc. unfold iview, inode_view. pose proof (iblock_range n Hnr). rewrite vset_ne by (simpl; lia). rewrite update_meta by lia. by apply (mo_log _ _ _ H).
  - unfold iview, inode_view. pose proof (iblock_range n Hnr). rewrite vset_ne by (simpl; lia). rewrite update_meta by lia. apply (mo_sb _ _ _ H).
Qed.
End update.

(** ** A new inode *)
Definition fresh (ty : Z) : dinode := mkDinode ty 0 0 1 0 (replicate (S NDIRECT) 0).
Lemma fresh_blk V bn : (bn < NDIRECT + NINDIRECT)%nat → blk_of V (replicate (S NDIRECT) 0) bn = 0.
Proof. exact (empty_blk V bn). Qed.
Lemma empty_mine V c : ¬ mine V (replicate (S NDIRECT) 0) c.
Proof. intros (Hc & [Hi|(bn & Hb & Hi)]); [done|]. by rewrite (fresh_blk V bn Hb) in Hi. Qed.
Lemma empty_frep V : frep0 V (replicate (S NDIRECT) 0) [].
Proof.
  split; [split|apply Nat.le_0_l|intros j v Hj; by rewrite lookup_nil in Hj].
  - done.
  - by left.
  - intros bn Hb. left. by apply fresh_blk.
  - intros b1 b2 Hb1 Hb2 _ Hn. by rewrite (fresh_blk V b1 Hb1) in Hn.
  - intros bn Hb Hn. by rewrite (fresh_blk V bn Hb) in Hn.
Qed.

Lemma mkok_fresh V s fs ty s' : let n := Z.of_nat (S (length fs)) in mkok V s fs → (length fs < 199)%nat → 0 ≤ ty < 32768 →
  vw (iview V n (fresh ty)) s' → freeinode s' = n + 1 → mkok (iview V n (fresh ty)) s' (fs ++ [(fresh ty, [])]).
Proof.
  intros n H HN Hty W' EF. pose proof (mo_vw _ _ _ H) as W. pose proof (iblock_range n ltac:(lia)) as Hib. set (V' := iview V n (fresh ty)) in *.
  assert (∀ c, c ≠ IBLOCK n SB0 → V' c = V c) as EV by (intros c Hc; by apply vset_ne).
  assert (∀ i d F, fs !! i = Some (d, F) → frep0 V' (daddrs d) (pad F) ∧ (∀ bn, blk_of V' (daddrs d) bn = blk_of V (daddrs d) bn)) as HO.
  { intros i d F Hi. pose proof (mo_file _ _ _ H i d F Hi) as [_ S2 _ _ _].
    destruct (inode_view_ok 2 30 D0 SB0 59 R0 GE0 V (ino n (fresh ty)) (daddrs d) (pad F) (vw_sane _ _ W) S2 ltac:(simpl; lia) ltac:(done)) as (_ & F2 & _).
    split; [done|]. intros bn. unfold blk_of. repeat case_decide; [done|done|]. rewrite EV; [done|].
    destruct (used_ind SB0 59 V (daddrs d) (fr_ok _ _ _ _ _ S2)); [done|]. lia. }
  assert (∀ m, 0 ≤ m < 200 → m ≠ n → slot V' m = slot V m) as ES by (intros m Hm Hmn; apply (iview_other V n (fresh ty) s); done || lia).
  assert (∀ i x, (fs ++ [(fresh ty, [])]) !! i = Some x → fs !! i = Some x ∨ (i = length fs ∧ x = (fresh ty, []))) as HL.
  { intros i x Hi. apply lookup_app_Some in Hi as [Hi|[Hi Hx]]; [by left|]. apply list_lookup_singleton_Some in Hx as [? ->]. right. split; [lia|done]. }
  split.
  - done.
  - rewrite EF, length_app. simpl. lia.
  - intros i d F [Hi|[-> [= -> ->]]]%HL.
    + pose proof (mo_file _ _ _ H i d F Hi) as [S1 S2 S3 S4 S5]. destruct (HO i d F Hi) as [F2 EB]. pose proof (lookup_lt_Some _ _ _ Hi).
      split; [rewrite ES by lia; done|done| |done|done]. intros bn Hb. rewrite EB. by apply S3.
    + split; [apply (iview_same V n (fresh ty) s); done || lia|apply empty_frep| |done|by split; try done; apply Forall_replicate].
      intros bn Hb. apply fresh_blk. lia.
  - intros i k di Fi dk Fk c Hik [Hi|[-> [= -> ->]]]%HL [Hk|[-> [= -> ->]]]%HL Hc Hc2; [|by apply empty_mine in Hc2|by apply empty_mine in Hc|done].
    apply (mo_disj _ _ _ H i k di Fi dk Fk c); [done|done|done| |].
    + unfold mine in *. by setoid_rewrite <- (proj2 (HO i di Fi Hi)).
    + unfold mine in *. by setoid_rewrite <- (proj2 (HO k dk Fk Hk)).
  - intros m Hm. rewrite length_app in Hm. simpl in Hm. rewrite ES by lia. apply (mo_rest _ _ _ H). lia.
  - intros c Hc. rewrite EV by lia. by apply (mo_log _ _ _ H).
  - rewrite EV by lia. apply (mo_sb _ _ _ H).
Qed.

(** ** Accounting

    Each file pays for its blocks and for an indirect block, which it holds back
    until it takes it. *)
Definition due (fs : list (dinode * list Z)) : nat := sum_list_with (λ x, S (blocks (length x.2))) fs.
Definition held_back (fs : list (dinode * list Z)) : nat := sum_list_with (λ x, nind (daddrs x.1)) fs.
Definition paid (s : mkst) (fs : list (dinode * list Z)) : Prop :=
  freeblock s + Z.of_nat (held_back fs) ≤ 59 + Z.of_nat (due fs).

Lemma sum_insert {A} (f : A → nat) l j x y : l !! j = Some y → (sum_list_with f (<[j := x]> l) + f y = sum_list_with f l + f x)%nat.
Proof. revert j. induction l as [|a l IH]; intros [|j] Hj; [done..| |]; simpl in *; [injection Hj as ->; lia|]. specialize (IH j Hj). lia. Qed.
Lemma sum_lookup {A} (f : A → nat) l j y : l !! j = Some y → (f y ≤ sum_list_with f l)%nat.
Proof. revert j. induction l as [|a l IH]; intros [|j] Hj; [done..| |]; simpl in *; [injection Hj as ->; lia|]. specialize (IH j Hj). lia. Qed.

Lemma addrs_fit V d : fok V (daddrs d) → length (daddrs d) = S NDIRECT ∧ Forall (λ a, 0 ≤ a < 4294967296) (daddrs d).
Proof.
  intros HF. pose proof (fo_len _ _ _ _ HF) as HL. split; [done|]. apply Forall_lookup. intros i a Ha. pose proof (lookup_lt_Some _ _ _ Ha).
  apply list_lookup_total_correct in Ha. destruct (decide (i < NDIRECT)%nat) as [Hi|Hi].
  - destruct (addr_direct V _ i HF Hi) as [_ Hr]. lia.
  - assert (i = NDIRECT) as -> by lia. pose proof (addr_ind V _ HF) as Hr. unfold ind in Hr. lia.
Qed.

(** The same in terms of the contents alone. *)
Definition cost (C : list (list Z)) : nat := sum_list_with (λ F, S (blocks (length F))) C.
Lemma due_cost fs : due fs = cost fs.*2.
Proof. unfold due, cost. induction fs; [done|]. simpl. by rewrite IHfs. Qed.
Lemma blocks_mono n m : (n ≤ m)%nat → (blocks n ≤ blocks m)%nat.
Proof. intros Hn. unfold blocks. apply Nat.Div0.div_le_mono. lia. Qed.
Lemma cost_app C C' : cost (C ++ C') = (cost C + cost C')%nat.
Proof. apply sum_list_with_app. Qed.

(** An inode of type [ty] with one link. *)
Definition is_ty (ty : Z) (d : dinode) : Prop := dtype d = ty ∧ dmajor d = 0 ∧ dminor d = 0 ∧ dnlink d = 1.

Abbreviation all_files fs := (Forall (λ x, is_ty T_FILE x.1) fs).

(** What the program relies on for a file of the command line. *)
Definition data (f : input) : list Z := concat (default [] (in_reads f)).
Definition usable (f : input) : Prop := slash ∉ in_name f ∧ is_Some (in_reads f) ∧ Z.of_nat (length (data f)) ≤ 71680.

(** The entries of the root directory for the files from inode [n] on. *)
Fixpoint entries (n : Z) (files : list input) : list Z :=
  match files with
  | [] => []
  | f :: files => dirent n (strip (in_name f)) ++ entries (n + 1) files
  end.

Lemma strncpy_length n l : length (strncpy_arr n l) = n.
Proof. revert l. induction n as [|n IH]; intros l; [done|]. cbn [strncpy_arr]. destruct (_ =? _); [apply length_replicate|]. simpl. by rewrite IH. Qed.
Lemma dirent_length n nm : length (dirent n nm) = 16%nat.
Proof. unfold dirent. rewrite length_app, strncpy_length. done. Qed.
Lemma dir_entries_length n files : length (entries n files) = (16 * length files)%nat.
Proof. revert n. induction files as [|f files IH]; intros n; [done|]. cbn [entries length]. rewrite length_app, dirent_length, IH. lia. Qed.

Section spec.
Context (E : Prop).
Ltac mstep := cbv beta; lazymatch goal with
  | |- mwp (mret _) _ _ _ => apply mwp_ret
  | |- mwp (_ ≫= _) _ _ _ => apply mwp_bind
  end.

Lemma mwp_rinode V s n d (Q : dinode → mkst → Prop) : vw V s → 0 ≤ n < 200 → slot V n = dinode_enc d → fits d → Q d s → mwp (rinode n) Q E s.
Proof.
  intros W Hn Hs Hf HQ. pose proof (iblock_range n Hn). unfold rinode. rewrite mksb_eq. mstep.
  apply (mwp_rsect E V); [done|lia|lia|]. mstep. by rewrite (dinode_dec_enc _ _ d).
Qed.
Lemma mwp_winode V s n d (Q : () → mkst → Prop) : vw V s → 0 ≤ n < 200 → length (daddrs d) = S NDIRECT →
  (∀ s', vw (iview V n d) s' → freeinode s' = freeinode s → freeblock s' = freeblock s → Q tt s') → mwp (winode n d) Q E s.
Proof.
  intros W Hn HL HQ. pose proof (iblock_range n Hn). pose proof (vw_fb _ _ W). pose proof (vw_blk _ _ W (IBLOCK n SB0) ltac:(lia)) as Lb.
  unfold winode. rewrite mksb_eq. mstep. apply (mwp_rsect E V); [done|lia|lia|]. apply mwp_wsect; [rewrite (vw_len _ _ W); lia|].
  apply HQ; [|done..]. apply vw_put; [done|lia|lia|]. pose proof (dinode_off_le n). rewrite length_splice; [done|]. rewrite (dinode_enc_length d HL). lia.
Qed.

Definition appended (d : dinode) (A' F' : list Z) : dinode := d <| daddrs := A' |> <| dsize := Z.of_nat (length F') |>.

Lemma mwp_iappend j p V s fs d F (Q : () → mkst → Prop) : let F' := F ++ p in
  mkok V s fs → paid s fs → (length fs < 200)%nat → fs !! j = Some (d, F) → Z.of_nat (length F') ≤ 71680 ∨ E →
  Z.of_nat (due (<[j := (d, F')]> fs)) ≤ 941 ∨ E →
  (∀ V' s' A', let fs' := <[j := (appended d A' F', F')]> fs in mkok V' s' fs' → paid s' fs' → Q tt s') →
  mwp (iappend (Z.of_nat (S j)) p) Q E s.
Proof.
  intros F' H HP HN Hj Hmax HD HQ. pose proof (mo_vw _ _ _ H) as W. pose proof (mo_file _ _ _ H j d F Hj) as [S1 S2 S3 S4 S5].
  assert (0 ≤ Z.of_nat (S j) < 200) as Hn by (apply lookup_lt_Some in Hj; lia).
  unfold iappend. mstep. apply (mwp_rinode V s _ d); [done|done|done|done|]. rewrite S4, xint_id by (pose proof (ft_size _ S5); lia).
  pose proof (sum_insert (λ x, S (blocks (length x.2))) fs j (d, F') (d, F) Hj) as EDue. simpl in EDue. fold (due fs) (due (<[j := (d, F')]> fs)) in EDue.
  pose proof (sum_lookup (λ x, nind (daddrs x.1)) fs j (d, F) Hj) as EHl. simpl in EHl. fold (held_back fs) in EHl. unfold paid in HP.
  assert (length F' = (length F + length p)%nat) as EL by apply length_app. rewrite EL in *.
  mstep. apply (mwp_iappend_loop E _ p F V d s); [done|done|done|lia|done| |].
  { destruct HD as [HD|]; [left|by right]. lia. }
  intros V1 A1 s1 W1 F1 T1 K1 EF1 Hpay. set (d' := appended d A1 F').
  pose proof (fr_max _ _ _ _ _ F1) as Hm1. rewrite pad_length in Hm1. pose proof (blocks_bound (length (F ++ p))) as Hbb. unfold NDIRECT, NINDIRECT in Hm1.
  fold F' in F1, Hm1, Hbb. rewrite EL in Hm1, Hbb. rewrite xint_id by lia.
  replace ((d <| daddrs := A1 |>) <| dsize := Z.of_nat (length F + length p) |>) with d' by (unfold d', appended; by rewrite EL).
  destruct (addrs_fit V1 d' (fr_ok _ _ _ _ _ F1)) as [L1 R1].
  apply (mwp_winode V1); [done|done|done|]. intros s2 W2 EF2 EB2. apply (HQ (iview V1 (Z.of_nat (S j)) d') s2 A1).
  - apply (mkok_update V s fs H HN j d F Hj V1 s1 d' F' W1); [exact K1|exact F1|exact W2|congruence|rewrite EL; exact T1|done|].
    destruct S5. split; try done. unfold d', appended. simpl. lia.
  - unfold paid. rewrite EB2. fold d'.
    pose proof (sum_insert (λ x, S (blocks (length x.2))) fs j (d', F') (d, F) Hj) as E2. simpl in E2. fold (due fs) (due (<[j := (d', F')]> fs)) in E2.
    pose proof (sum_insert (λ x, nind (daddrs x.1)) fs j (d', F') (d, F) Hj) as E3. simpl in E3. fold (held_back fs) (held_back (<[j := (d', F')]> fs)) in E3.
    rewrite EL in E2. change (daddrs d') with A1 in E3. lia.
Qed.

Lemma xshort_id v : 0 ≤ v < 65536 → xshort v = v.
Proof. intros Hv. unfold xshort, dec16. cbn. rewrite !u8_idem, Z.shiftr_div_pow2 by done. unfold u8. change (2 ^ 8) with 256. Z.div_mod_to_equations. lia. Qed.

Lemma mwp_ialloc ty V s fs (Q : Z → mkst → Prop) : mkok V s fs → paid s fs → (length fs < 199)%nat → 0 ≤ ty < 32768 →
  (∀ V' s', let fs' := fs ++ [(fresh ty, [])] in mkok V' s' fs' → paid s' fs' → Q (Z.of_nat (S (length fs))) s') → mwp (Mkfs.ialloc ty) Q E s.
Proof.
  intros H HP HN Hty HQ. pose proof (mo_n _ _ _ H) as En. pose proof (mo_vw _ _ _ H) as W. unfold Mkfs.ialloc.
  change (mwp (winode (freeinode s) (mkDinode (xshort ty) 0 0 (xshort 1) (xint 0) (replicate (S NDIRECT) 0)) ≫= λ _, mret (freeinode s)) Q E
    (s <| freeinode := u32 (freeinode s + 1) |>)).
  rewrite !xshort_id, xint_id, u32_small, En by lia. mstep. eapply (mwp_winode V); [|lia|done|].
  { destruct W as [W1 W2 W3 W4 W5 W6]. split; [exact W1|exact W2|exact W3|exact W4|exact W5|exact W6]. }
  intros s' W' EF EB. mstep. apply (HQ (iview V (Z.of_nat (S (length fs))) (fresh ty))).
  - apply (mkok_fresh V s); [done|done|done|exact W'|]. rewrite EF. simpl. lia.
  - unfold paid, held_back, due in *. rewrite !sum_list_with_app, EB. cbn [sum_list_with fst snd length fresh daddrs].
    change (nind (replicate (S NDIRECT) 0)) with 1%nat. change (blocks 0) with 0%nat. change (freeblock (s <| freeinode := _ |>)) with (freeblock s). lia.
Qed.

Lemma mwp_chunks j chunks : ∀ V s fs d F (Q : () → mkst → Prop), mkok V s fs → paid s fs → (length fs < 200)%nat → fs !! j = Some (d, F) →
  Z.of_nat (length (F ++ concat chunks)) ≤ 71680 ∨ E → Z.of_nat (due (<[j := (d, F ++ concat chunks)]> fs)) ≤ 941 ∨ E →
  (∀ V' s' d', let fs' := <[j := (d', F ++ concat chunks)]> fs in mkok V' s' fs' → paid s' fs' → (∀ ty, is_ty ty d → is_ty ty d') → Q tt s') →
  mwp (mk_iter (iappend (Z.of_nat (S j))) chunks) Q E s.
Proof.
  induction chunks as [|p chunks IH]; intros V s fs d F Q H HP HN Hj Hm HD HQ; cbn [mk_iter concat] in *.
  - mstep. apply (HQ V s d); rewrite ?app_nil_r, ?list_insert_id by done; done.
  - assert (∀ d', due (<[j := (d', F ++ p ++ concat chunks)]> fs) = due (<[j := (d, F ++ p ++ concat chunks)]> fs)) as ED.
    { intros d'. rewrite !due_cost, !list_fmap_insert. done. }
    assert (due (<[j := (d, F ++ p)]> fs) ≤ due (<[j := (d, F ++ p ++ concat chunks)]> fs))%nat as HM.
    { pose proof (sum_insert (λ x, S (blocks (length x.2))) fs j (d, F ++ p) (d, F) Hj). simpl in *. pose proof (blocks_mono (length (F ++ p)) (length (F ++ p ++ concat chunks)) ltac:(rewrite !length_app; lia)).
      pose proof (sum_insert (λ x, S (blocks (length x.2))) fs j (d, F ++ p ++ concat chunks) (d, F) Hj). simpl in *. unfold due. lia. }
    mstep. apply (mwp_iappend j p V s fs d F); [done|done|done|done| | |].
    { destruct Hm as [Hm|]; [left|by right]. rewrite !length_app in *. lia. } { destruct HD as [HD|]; [left; lia|by right]. }
    intros V1 s1 A1 fs1 H1 HP1. pose proof (lookup_lt_Some _ _ _ Hj). set (d1 := appended d A1 (F ++ p)) in *.
    apply (IH V1 s1 fs1 d1 (F ++ p)); [done|done|unfold fs1; by rewrite length_insert|by apply list_lookup_insert_eq| | |];
      unfold fs1; rewrite <- ?app_assoc, ?list_insert_insert_eq; [done|by rewrite ED|].
    intros V2 s2 d2 H2 HP2 HT. rewrite list_insert_insert_eq in H2, HP2. apply (HQ V2 s2 d2); [done|done|].
    intros ty Hty. apply HT. exact Hty.
Qed.

Lemma mwp_mk_file f V s dR R fs (Q : () → mkst → Prop) : let n := Z.of_nat (S (S (length fs))) in let R' := R ++ dirent n (strip (in_name f)) in
  mkok V s ((dR, R) :: fs) → paid s ((dR, R) :: fs) → (length fs < 198)%nat → is_ty T_DIR dR → usable f ∨ E →
  Z.of_nat (length R') ≤ 71680 → Z.of_nat (cost (R' :: fs.*2 ++ [data f])) ≤ 941 ∨ E →
  (∀ V' s' dR' dF, let fs' := (dR', R') :: fs ++ [(dF, data f)] in mkok V' s' fs' → paid s' fs' → is_ty T_DIR dR' → is_ty T_FILE dF → Q tt s') →
  mwp (mk_file 1 f) Q E s.
Proof.
  intros n R' H HP HN HT HU HR HC HQ. unfold mk_file. mstep. apply mwp_assert.
  2:{ intros Hb%bool_decide_eq_false. destruct HU as [(? & _)|]; done. }
  intros _. destruct (in_reads f) as [chunks|] eqn:Ef; [|destruct HU as [(_ & [? ?] & _)|]; [congruence|done]].
  assert (data f = concat chunks) as Ed by (unfold data; by rewrite Ef).
  mstep. apply (mwp_ialloc T_FILE V s ((dR, R) :: fs)); [done|done|simpl; lia|done|]. intros V1 s1 fs1 H1 HP1.
  change (S (length ((dR, R) :: fs))) with (S (S (length fs))). fold n. mstep. change 1 with (Z.of_nat 1).
  assert (∀ d F d' F', due ((d, F) :: fs ++ [(d', F')]) = cost (F :: fs.*2 ++ [F'])) as EC by (intros; rewrite due_cost; simpl; by rewrite fmap_app).
  assert (∀ F1 F2 : list Z, (length F1 ≤ length F2)%nat → cost (R' :: fs.*2 ++ [F1]) ≤ cost (R' :: fs.*2 ++ [F2]))%nat as CM.
  { intros F1 F2 HF. pose proof (blocks_mono _ _ HF). unfold cost. cbn [sum_list_with]. rewrite !sum_list_with_app. simpl. lia. }
  apply (mwp_iappend 0 (dirent n (strip (in_name f))) V1 s1 fs1 dR R); [done|done|unfold fs1; rewrite length_app; simpl; lia|done|by left| |].
  { unfold fs1. cbn [app insert list_insert]. rewrite EC. fold R'. destruct HC as [HC|]; [left|by right]. pose proof (CM [] (data f) ltac:(simpl; lia)). lia. }
  intros V2 s2 A2 fs2 H2 HP2. unfold fs2, fs1 in *. cbn [app insert list_insert] in H2, HP2. fold R' in H2, HP2. set (dR2 := appended dR A2 R') in *.
  assert (((dR2, R') :: fs ++ [(fresh T_FILE, [])]) !! S (length fs) = Some (fresh T_FILE, [])) as Hl by (simpl; apply list_lookup_middle; done).
  assert (∀ x, <[S (length fs) := x]> ((dR2, R') :: fs ++ [(fresh T_FILE, [])]) = (dR2, R') :: fs ++ [x]) as EI.
  { intros x. change ((dR2, R') :: <[length fs := x]> (fs ++ [(fresh T_FILE, [])]) = (dR2, R') :: fs ++ [x]).
    by rewrite <- (Nat.add_0_r (length fs)), insert_app_r. }
  apply (mwp_chunks (S (length fs)) chunks V2 s2 ((dR2, R') :: fs ++ [(fresh T_FILE, [])]) (fresh T_FILE) []); [exact H2|exact HP2|simpl; rewrite length_app; simpl; lia|exact Hl| | |];
    rewrite ?app_nil_l, <- ?Ed, ?EI; [destruct HU as [(_ & _ & ?)|]; [by left|by right]|by rewrite EC|].
  intros V3 s3 d3 fs3 H3 HP3 HT3. unfold fs3 in *. rewrite EI in H3, HP3. apply (HQ V3 s3 dR2 d3); [done|done|exact HT|by apply HT3].
Qed.

Lemma mwp_files files : ∀ V s dR R fs (Q : () → mkst → Prop), let n := Z.of_nat (S (S (length fs))) in let R' := R ++ entries n files in
  mkok V s ((dR, R) :: fs) → paid s ((dR, R) :: fs) → (length fs + length files ≤ 198)%nat → is_ty T_DIR dR → all_files fs →
  Forall usable files ∨ E → Z.of_nat (length R') ≤ 71680 → Z.of_nat (cost (R' :: fs.*2 ++ (data <$> files))) ≤ 941 ∨ E →
  (∀ V' s' dR' fs', mkok V' s' ((dR', R') :: fs') → is_ty T_DIR dR' → fs'.*2 = fs.*2 ++ (data <$> files) → all_files fs' → Q tt s') →
  mwp (mk_iter (mk_file 1) files) Q E s.
Proof.
  induction files as [|f files IH]; intros V s dR R fs Q n R' H HP HN HT HA HU HR HC HQ; cbn [mk_iter entries] in *.
  - mstep. apply (HQ V s dR fs); [unfold R'; by rewrite app_nil_r|done|by rewrite app_nil_r|done].
  - set (R1 := R ++ dirent n (strip (in_name f))). assert (R1 ++ entries (n + 1) files = R') as ER by (unfold R1, R'; by rewrite <- app_assoc).
    assert (length R1 ≤ length R')%nat as HL by (rewrite <- ER, length_app; lia). simpl in HN.
    mstep. apply (mwp_mk_file f V s dR R fs); [done|done|lia|done|destruct HU as [HU|]; [left; by apply Forall_cons in HU as [? _]|by right]|fold n R1; lia| |].
    { destruct HC as [HC|]; [left|by right]. fold n R1. pose proof (blocks_mono _ _ HL). rewrite fmap_cons in HC. unfold cost in *. cbn [sum_list_with] in *.
      rewrite !sum_list_with_app in *. cbn [sum_list_with] in *. lia. }
    fold n R1. intros V1 s1 dR1 dF fs1 H1 HP1 HT1 HF1.
    assert (Z.of_nat (S (S (length (fs ++ [(dF, data f)])))) = n + 1) as En by (rewrite length_app; simpl; lia).
    apply (IH V1 s1 dR1 R1 (fs ++ [(dF, data f)])); rewrite ?En, ?ER, ?fmap_app, <- ?app_assoc; [done|done|rewrite length_app; simpl; lia|done| | |done|done|].
    + apply Forall_app. split; [done|]. by apply Forall_singleton.
    + destruct HU as [HU|]; [left; by apply Forall_cons in HU as [_ ?]|by right].
    + intros V2 s2 dR2 fs2 H2 HT2 EF2 HA2. by apply (HQ V2 s2 dR2 fs2).
Qed.

Lemma pad_pad F : pad (pad F) = pad F.
Proof.
  unfold pad at 1. rewrite pad_length. pose proof (blocks_bound (512 * blocks (length F))).
  assert (512 * blocks (512 * blocks (length F)) - 512 * blocks (length F) = 0)%nat as -> by lia. apply app_nil_r.
Qed.

(** The size of the root directory, rounded up. *)
Lemma mwp_fix_root V s dR R fs (Q : () → mkst → Prop) : mkok V s ((dR, R) :: fs) → (length fs < 199)%nat → (length R `mod` 512 ≠ 0)%nat → is_ty T_DIR dR →
  (∀ V' s' dR', mkok V' s' ((dR', pad R) :: fs) → is_ty T_DIR dR' → Q tt s') → mwp (fix_root 1) Q E s.
Proof.
  intros H HN Hm HT HQ. pose proof (mo_vw _ _ _ H) as W. pose proof (mo_file _ _ _ H 0 dR R eq_refl) as [S1 S2 S3 S4 S5].
  change (Z.of_nat 1) with 1 in S1. unfold fix_root. mstep. apply (mwp_rinode V s _ dR); [done|done|done|done|].
  pose proof (ft_size _ S5). rewrite S4, (xint_id (Z.of_nat (length R))) by lia. pose proof (fr_max _ _ _ _ _ S2) as Hmax. rewrite pad_length in Hmax. unfold NDIRECT, NINDIRECT in Hmax.
  pose proof (blocks_bound (length R)). pose proof (pad_length R) as EP. pose proof (Nat.div_mod_eq (length R) 512). pose proof (Nat.mod_upper_bound (length R) 512 ltac:(lia)).
  assert (u32 ((Z.of_nat (length R) / BSIZE + 1) * BSIZE) = Z.of_nat (length (pad R))) as EZ.
  { unfold BSIZE. change 512 with (Z.of_nat 512). rewrite <- Nat2Z.inj_div, u32_small by lia. lia. }
  rewrite EZ, xint_id by lia. apply (mwp_winode V); [done|done|apply S5|]. intros s' W' EF EB. set (d' := dR <| dsize := _ |>) in *.
  apply (HQ (iview V 1 d') s' d'); [|exact HT].
  apply (mkok_update V s ((dR, R) :: fs) H ltac:(simpl; lia) 0 dR R eq_refl V s d' (pad R) W); [apply keeps_refl|by rewrite pad_pad|exact W'|done| |done|].
  - intros bn Hb. apply S3. rewrite EP in Hb. pose proof (blocks_bound (512 * blocks (length R))). lia.
  - destruct S5. split; try done. unfold d'. simpl. lia.
Qed.
End spec.

(** ** The whole program *)
Lemma mwp_zero E k m (Q : () → mkst → Prop) s : img s = replicate k zeroes → (∀ s', img s' = replicate (k + m) zeroes → freeinode s' = freeinode s →
  freeblock s' = freeblock s → Q tt s') → mwp (mk_iter (λ i, wsect i zeroes) (seqZ (Z.of_nat k) (Z.of_nat m))) Q E s.
Proof.
  revert k s. induction m as [|m IH]; intros k s Hs HQ.
  - apply HQ; [by rewrite Nat.add_0_r|done|done].
  - rewrite seqZ_cons by lia. cbn [mk_iter]. apply mwp_bind. unfold mwp at 1, wsect. cbv zeta. rewrite Nat2Z.id.
    replace (Z.succ (Z.of_nat k)) with (Z.of_nat (S k)) by lia. replace (Z.pred (Z.of_nat (S m))) with (Z.of_nat m) by lia. apply IH.
    + simpl. rewrite Hs, length_replicate. replace (S k - k)%nat with 1%nat by lia. rewrite <- replicate_add, Nat.add_1_r, insert_replicate. done.
    + intros s' E1 E2 E3. apply HQ; [rewrite E1; f_equal; lia|by rewrite E2|by rewrite E3].
Qed.

(** The empty image. *)
Definition V0 : Z → list Z := vset (vset (λ _, zeros) 58 (bitmap 59)) 1 (splice zeroes 0 (enc_sb mksb)).
Lemma mkok_empty s : img s = <[1%nat := splice zeroes 0 (enc_sb mksb)]> (replicate 1000 zeroes) → freeinode s = 1 → freeblock s = 59 → mkok V0 s [].
Proof.
  intros Hs Hi Hb. assert (∀ c, c ≠ 1 → c ≠ 58 → V0 c = zeros) as EV by (intros c H1 H2; unfold V0; by rewrite !vset_ne).
  assert (length (splice zeroes 0 (enc_sb mksb)) = 512%nat) as EL by (vm_compute; reflexivity). split; [split| |done|done| | |done].
  - by rewrite Hs, length_insert, length_replicate.
  - rewrite Hb. lia.
  - intros c Hc Hn. rewrite Hs. destruct (decide (c = 1)) as [->|H1].
    + rewrite list_lookup_total_insert_eq by (rewrite length_replicate; lia). unfold V0. by rewrite vset_eq.
    + rewrite list_lookup_total_insert_ne by lia. rewrite lookup_total_replicate_2, EV by lia. done.
  - rewrite Hb. unfold V0. rewrite vset_ne, vset_eq by done. done.
  - intros c Hc. apply EV; lia.
  - intros c Hc. unfold V0, vset. repeat case_decide; [done|apply bitmap_length|done].
  - done.
  - intros n Hn. simpl in Hn. pose proof (iblock_range n ltac:(lia)). rewrite EV by lia. unfold slice, zeros. rewrite drop_replicate, take_replicate.
    pose proof (dinode_off_le n). f_equal. lia.
  - intros c Hc. apply EV; lia.
Qed.

(** The image [D] is a file system, and its inodes from 1 on are [fs]: each file has
    the contents its inode says, on its own blocks. *)
Record image_ok (D : list (list Z)) (fs : list (dinode * list Z)) : Prop := {
  im_len : length D = 1000%nat;
  im_sb : sb_of (D !!! 1%nat) = SB0;
  im_log : D !!! 2%nat = zeros;
  im_sane : sane 2 30 D SB0 59 (V_of D);
  im_slot : ∀ j d F, fs !! j = Some (d, F) → slot (V_of D) (Z.of_nat (S j)) = dinode_enc d ∧ fits d ∧ dsize d = Z.of_nat (length F);
  im_file : ∀ j d F, fs !! j = Some (d, F) → frep0 (V_of D) (daddrs d) F;
  im_disj : ∀ i j d F d' F' c, i ≠ j → fs !! i = Some (d, F) → fs !! j = Some (d', F') →
    mine (V_of D) (daddrs d) c → ¬ mine (V_of D) (daddrs d') c;
  im_rest : ∀ n, Z.of_nat (S (length fs)) ≤ n < 200 → slot (V_of D) n = replicate 64 0 }.

Lemma frep_pad V A F : frep0 V A (pad F) → frep0 V A F.
Proof.
  intros [HO HM HD]. rewrite pad_length in HM. pose proof (blocks_bound (length F)). split; [done|lia|].
  intros j v Hj. apply HD. unfold pad. by apply lookup_app_l_Some.
Qed.
(** The image once the bitmap has been written. *)
Lemma vw_image V s D : vw V s → D = <[58%nat := bitmap (Z.to_nat (freeblock s))]> (img s) →
  length D = 1000%nat ∧ (∀ c, 0 ≤ c < 1000 → V_of D c = V c) ∧ (∀ c, 0 ≤ c < Z.of_nat (length D0) → home 2 30 c → V_of D c = V c) ∧
  sane 2 30 D SB0 59 (V_of D).
Proof.
  intros W ED. pose proof (vw_len _ _ W) as HL. assert (length D = 1000%nat) as LD by (by rewrite ED, length_insert).
  assert (∀ c, 0 ≤ c < 1000 → V_of D c = V c) as EV.
  { intros c Hc. unfold V_of. rewrite ED. destruct (decide (c = 58)) as [->|Hn].
    - rewrite list_lookup_total_insert_eq by (rewrite HL; lia). by rewrite (vw_bm _ _ W).
    - rewrite list_lookup_total_insert_ne by lia. by apply (vw_img _ _ W). }
  assert (Z.of_nat (length D0) = 1000) as L0 by (unfold D0; rewrite length_replicate; lia).
  assert (∀ c, 0 ≤ c < Z.of_nat (length D0) → home 2 30 c → V_of D c = V c) as EH by (intros c Hc _; apply EV; lia).
  split_and!; [done|done|done|]. apply (sane_length 2 30 SB0 59 D0); [by rewrite LD; unfold D0; rewrite length_replicate|].
  apply (view_sane 2 30 SB0 59 D0 R0 GE0 V (V_of D) EH). by eapply vw_sane.
Qed.
Lemma mkok_image V s fs D : mkok V s fs → (length fs < 200)%nat → D = <[58%nat := bitmap (Z.to_nat (freeblock s))]> (img s) → image_ok D fs.
Proof.
  intros H HN ED. destruct (vw_image V s D (mo_vw _ _ _ H) ED) as (LD & EV & EH & HS). split.
  - done.
  - change (D !!! 1%nat) with (V_of D 1). rewrite EV, (mo_sb _ _ _ H) by lia. vm_compute. reflexivity.
  - change (D !!! 2%nat) with (V_of D 2). rewrite EV by lia. by apply (mo_log _ _ _ H).
  - done.
  - intros j d F Hj. pose proof (mo_file _ _ _ H j d F Hj) as [S1 _ _ S4 S5]. pose proof (lookup_lt_Some _ _ _ Hj).
    pose proof (iblock_range (Z.of_nat (S j)) ltac:(lia)). by rewrite EV by lia.
  - intros j d F Hj. pose proof (mo_file _ _ _ H j d F Hj) as [_ S2 _ _ _]. apply (view_frep 2 30 SB0 59 D0 R0 GE0 V (V_of D) EH). by apply frep_pad.
  - intros i j d F d' F' c Hn Hi Hj. pose proof (mo_file _ _ _ H i d F Hi) as [_ S2 _ _ _]. pose proof (mo_file _ _ _ H j d' F' Hj) as [_ S2' _ _ _].
    rewrite (view_mine 2 30 SB0 59 D0 R0 GE0 V (V_of D) EH _ c (fr_ok _ _ _ _ _ S2)), (view_mine 2 30 SB0 59 D0 R0 GE0 V (V_of D) EH _ c (fr_ok _ _ _ _ _ S2')).
    exact (mo_disj _ _ _ H i j d F d' F' c Hn Hi Hj).
  - intros n Hn. pose proof (iblock_range n ltac:(lia)). rewrite EV by lia. by apply (mo_rest _ _ _ H).
Qed.

(** The root directory for the files of the command line. *)
Definition root_dir (files : list input) : list Z := dirent 1 [46] ++ dirent 1 [46; 46] ++ entries 2 files.

(** The files can be read, are not too long, and fit on the disk, with an indirect
    block for each. *)
Definition fitting (files : list input) : Prop :=
  Forall usable files ∧ Z.of_nat (cost (root_dir files :: (data <$> files))) ≤ 941.
#[export] Instance fitting_dec files : Decision (fitting files).
Proof. unfold fitting, usable. apply _. Defined.

Lemma mwp_elim {A} (m : MK A) Q E s : mwp m Q E s → match m s with Done a s' => Q a s' | Exit1 | Aborted => E end.
Proof. exact (λ H, H). Qed.
#[local] Strategy expand [mkfs].
Lemma mkfs_eq files : mkfs files = main files (mkMkst [] 1 0).
Proof. reflexivity. Qed.
Lemma root_dir_length files : length (root_dir files) = (16 * (length files + 2))%nat.
Proof. unfold root_dir. rewrite !length_app, !dirent_length, dir_entries_length. lia. Qed.
(** The program up to the files; what is left is the size of the root directory and
    the bitmap. *)
Lemma mwp_main_files files E (Q : () → mkst → Prop) s : img s = [] → freeinode s = 1 → (length files ≤ 198)%nat → fitting files ∨ E →
  (∀ V s' dR fs, mkok V s' ((dR, root_dir files) :: fs) → (length fs = length files)%nat → is_ty T_DIR dR → all_files fs → fs.*2 = data <$> files →
    mwp (fix_root 1;; s ← (λ s, Done s s); balloc (freeblock s)) Q E s') →
  mwp (main files) Q E s.
Proof.
  intros Hs Hi HN HF HQ. unfold main. apply mwp_bind. unfold mwp at 1.
  apply mwp_bind, (mwp_zero E 0 1000); [done|]. intros s1 I1 N1 B1. apply mwp_bind, mwp_wsect; [rewrite I1, length_replicate; simpl; lia|].
  assert (mkok V0 (put 1 (splice zeroes 0 (enc_sb mksb)) s1) []) as H2 by (apply mkok_empty; [simpl; by rewrite I1|simpl; by rewrite N1|simpl; by rewrite B1]).
  assert (∀ R F, root_dir files = R ++ F → Z.of_nat (cost [R]) ≤ 941 ∨ E) as HC.
  { intros R F ER. destruct HF as [[_ HF]|]; [left|by right]. unfold cost in *. cbn [sum_list_with] in *.
    pose proof (blocks_mono (length R) (length (root_dir files)) ltac:(rewrite ER, length_app; lia)). lia. }
  apply mwp_bind, (mwp_ialloc E T_DIR V0 _ []); [done|unfold paid; simpl; rewrite B1; done|simpl; lia|done|]. intros V3 s3 fs3 H3 P3.
  apply mwp_bind, mwp_assert; [|done]. intros _. change (Z.of_nat (S (length []))) with (Z.of_nat 1).
  assert (∀ d R, due [(d, R)] = cost [R]) as ED by done.
  apply mwp_bind, (mwp_iappend E 0 (dirent 1 [46]) V3 s3 fs3 (fresh T_DIR) []); [done|done|simpl; lia|done|left; rewrite app_nil_l, dirent_length; lia| |].
  { change (due _) with (cost [dirent 1 [46]]). by eapply HC. }
  intros V4 s4 A4 fs4 H4 P4. unfold fs4, fs3 in *. cbn [app insert list_insert] in H4, P4.
  apply mwp_bind. eapply (mwp_iappend E 0 (dirent 1 [46; 46]) V4 s4); [exact H4|exact P4|simpl; lia|done|left; rewrite length_app, !dirent_length; lia| |].
  { change (due _) with (cost [dirent 1 [46] ++ dirent 1 [46; 46]]). eapply HC. unfold root_dir. by rewrite app_assoc. }
  intros V5 s5 A5 fs5 H5 P5. unfold fs5 in *. cbn [app insert list_insert] in H5, P5.
  assert ((dirent 1 [46] ++ dirent 1 [46; 46]) ++ entries 2 files = root_dir files) as ER by (unfold root_dir; by rewrite <- app_assoc).
  pose proof (root_dir_length files) as LR.
  change (Z.of_nat 1) with 1. apply mwp_bind. eapply (mwp_files E files V5 s5); [exact H5|exact P5|simpl; lia|done|constructor| | | |].
  { destruct HF as [[HF _]|]; [by left|by right]. } { change (Z.of_nat (S (S (length [])))) with 2. rewrite ER, LR. lia. }
  { change (Z.of_nat (S (S (length [])))) with 2. rewrite ER. destruct HF as [[_ HF]|]; [by left|by right]. }
  change (Z.of_nat (S (S (length [])))) with 2. rewrite ER. intros V6 s6 d6 fs6 H6 T6 F6 A6. simpl in F6.
  assert (length fs6 = length files) as L6 by (rewrite <- (length_fmap snd fs6), F6, length_fmap; done).
  by apply (HQ V6 s6 d6 fs6).
Qed.
(** The last step writes the bitmap. *)
Lemma mwp_main_bitmap E V s (Q : () → mkst → Prop) : vw V s → Q tt (put 58 (bitmap (Z.to_nat (freeblock s))) s) →
  mwp (s ← (λ s, Done s s); balloc (freeblock s)) Q E s.
Proof.
  intros W HQ. apply mwp_bind. unfold mwp at 1. pose proof (vw_fb _ _ W). pose proof (vw_len _ _ W).
  unfold balloc. apply mwp_bind, mwp_assert; [|intros Hb%Z.ltb_ge; unfold BSIZE in Hb; lia]. intros _. rewrite mksb_eq. apply mwp_wsect; [simpl; lia|]. exact HQ.
Qed.
Lemma mwp_main files E (Q : () → mkst → Prop) s : img s = [] → freeinode s = 1 → (length files ≤ 198)%nat → ((length files + 2) `mod` 32 ≠ 0)%nat →
  fitting files ∨ E →
  (∀ s' dR fs, image_ok (img s') ((dR, pad (root_dir files)) :: fs) → is_ty T_DIR dR → all_files fs → fs.*2 = data <$> files → Q tt s') →
  mwp (main files) Q E s.
Proof.
  intros Hs Hi HN Hm HF HQ. apply mwp_main_files; [done|done|done|done|]. intros V6 s6 d6 fs6 H6 L6 T6 A6 F6.
  apply mwp_bind. eapply (mwp_fix_root E V6 s6); [exact H6|lia| |exact T6|].
  { rewrite root_dir_length. pose proof (Nat.div_mod_eq (16 * (length files + 2)) 512). pose proof (Nat.div_mod_eq (length files + 2) 32).
    pose proof (Nat.mod_upper_bound (length files + 2) 32 ltac:(lia)). lia. }
  intros V7 s7 d7 H7 T7. apply (mwp_main_bitmap E V7); [apply H7|].
  eapply HQ; [|exact T7|exact A6|exact F6]. eapply (mkok_image V7 s7); [exact H7|simpl; lia|done].
Qed.

Lemma mkfs_spec files : (length files ≤ 198)%nat → ((length files + 2) `mod` 32 ≠ 0)%nat →
  match mkfs files with
  | Done _ s => ∃ dR fs, image_ok (img s) ((dR, pad (root_dir files)) :: fs) ∧ is_ty T_DIR dR ∧ all_files fs ∧ fs.*2 = data <$> files
  | Exit1 | Aborted => ¬ fitting files
  end.
Proof.
  intros HN Hm. assert (mwp (main files) (λ _ s, ∃ dR fs, image_ok (img s) ((dR, pad (root_dir files)) :: fs) ∧ is_ty T_DIR dR ∧
    all_files fs ∧ fs.*2 = data <$> files) (¬ fitting files) (mkMkst [] 1 0)) as H.
  2:{ rewrite mkfs_eq. exact (mwp_elim _ _ _ _ H). }
  apply mwp_main; [done|done|done|done| |].
  - destruct (decide (fitting files)); [by left|by right].
  - intros s' dR fs H1 H2 H3 H4. by exists dR, fs.
Qed.
Lemma mkfs_image_ok files : (length files ≤ 198)%nat → ((length files + 2) `mod` 32 ≠ 0)%nat → ∀ s, mkfs files = Done tt s →
  ∃ dR fs, image_ok (img s) ((dR, pad (root_dir files)) :: fs) ∧ is_ty T_DIR dR ∧ all_files fs ∧ fs.*2 = data <$> files.
Proof. intros HN Hm s Hs. pose proof (mkfs_spec files HN Hm) as H. by rewrite Hs in H. Qed.

(** C4: The image builder establishes what the kernel relies on. For up to 198 files
    whose number does not fill the last block of the root directory, [mkfs] gives up
    only if a file cannot be read, is too long, or the files do not fit; otherwise
    the image it writes is a file system of the kernel's layout with an empty log and
    the super block the kernel expects: inode 1 is the root directory with an entry
    for each file, the following inodes are the files with their bytes, each on
    blocks of its own that the bitmap marks, and all other inodes are free. *)
Theorem mkfs_image files : (length files ≤ 198)%nat → ((length files + 2) `mod` 32 ≠ 0)%nat →
  match mkfs files with
  | Done _ s => ∃ dR fs, image_ok (img s) ((dR, pad (root_dir files)) :: fs) ∧ is_ty T_DIR dR ∧ all_files fs ∧ fs.*2 = data <$> files
  | Exit1 | Aborted => ¬ fitting files
  end.
Proof. exact (mkfs_spec files). Qed.

Definition demo_inputs : list input := [mkInput [95; 108; 115] (Some [[127; 69]; [76; 70]]); mkInput [82] (Some [])].
Lemma mkfs_image_witness : ∃ s dR d1 d2, mkfs demo_inputs = Done tt s ∧
  image_ok (img s) [(dR, pad (root_dir demo_inputs)); (d1, [127; 69; 76; 70]); (d2, [])].
Proof.
  pose proof (mkfs_image demo_inputs ltac:(simpl; lia) ltac:(by vm_compute)) as H.
  destruct (mkfs demo_inputs) as [[] s| |]; [|exfalso; apply H, (bool_decide_unpack _); by vm_compute..].
  destruct H as (dR & fs & H1 & _ & _ & H2). destruct fs as [|[d1 F1] [|[d2 F2] [|]]]; simpl in H2; try discriminate.
  injection H2 as -> ->. by exists s, dR, d1, d2.
Defined.
