(* ===== verification/NameSpec.v ===== *)
(** * Path names

    The inode cache, directories and path names: [iget] and [ilock] give the inode
    that is on the disk, [dirlookup] finds the first entry of the name, and [namei]
    walks a path element by element. *)
From stdpp Require Import base strings numbers gmap list.
From S2P Require Import Prelude Machine KString Kernel Locks Kalloc Proc ProcSpec Sleeplock Bio BioSpec Log LogSpec TxnSpec Fs FsSpec.
From S2P Require Import FileSpec Mkfs MkfsSpec.

(** ** Inodes on the disk and in the cache *)

(** An inode in memory with the fields of the one on the disk. *)
Definition fill (d : dinode) (ip : inode) : inode :=
  ip <| itype := dtype d |> <| imajor := dmajor d |> <| iminor := dminor d |> <| inlink := dnlink d |> <| isize := dsize d |> <| iaddrs := daddrs d |>.

Section names.
Context {PAT : Patience} {DEV : DevSw} (p : nat) (x : Z) (Y : protocol kernel) `{!Mono Y}.
Context (ls nlog : Z) (SB : superblock) (ds : Z) (o : Z) (D : list (list Z)) (tr : list (nat * list Z)) (R : kernel).
Context (GE : geom ls nlog D SB ds R) (V : Z → list Z) (HS : sane ls nlog D SB ds V).
Abbreviation st I := (fsst p x ls nlog o D tr R V [] ∅ I).

(** Inode [n] of the disk is [d], in use and linked. *)
Record on_disk (n : Z) (d : dinode) : Prop := {
  od_num : 0 ≤ n < sb_ninodes SB;
  od_slot : slice (V (IBLOCK n SB)) (dinode_off n) 64 = dinode_enc d;
  od_fits : fits d;
  od_type : dtype d ≠ 0;
  od_link : dnlink d ≠ 0 }.

Lemma on_disk_fun n d d' : on_disk n d → on_disk n d' → d = d'.
Proof. intros [_ S1 F1 _ _] [_ S2 F2 _ _]. rewrite <- (dinode_dec_enc _ _ d S1 F1). by apply dinode_dec_enc. Qed.

(** A slot of the cache agrees with the disk. *)
Record slot_ok (ip : inode) : Prop := {
  sl_ref : 0 ≤ iref ip;
  sl_valid : 0 < iref ip → idev ip = 1 → ivalid ip = 0 ∨ (ivalid ip = 1 ∧ ∀ d, on_disk (inum ip) d → fill d ip = ip) }.
Definition icoh (I : list inode) : Prop := Forall slot_ok I.

(** ** iget *)
Lemma iget_find_spec I n : (∃ i, (i < length I)%nat ∧ iref (I !!! i) = 0) →
  match iget_find I 1 n with
  | Some (inl i) => (i < length I)%nat ∧ 0 < iref (I !!! i) ∧ idev (I !!! i) = 1 ∧ inum (I !!! i) = n
  | Some (inr i) => (i < length I)%nat ∧ iref (I !!! i) = 0
  | None => False
  end.
Proof.
  intros (i0 & Hi0 & E0). unfold iget_find. destruct (find_idx _ I) as [i|] eqn:E1.
  - apply find_idx_Some in E1 as (r & Hr & Hp & _). apply andb_prop in Hp as [[Hp1%Z.ltb_lt Hp2%Z.eqb_eq]%andb_prop Hp3%Z.eqb_eq].
    pose proof (lookup_lt_Some _ _ _ Hr). apply list_lookup_total_correct in Hr. by rewrite Hr.
  - destruct (find_idx (λ r, iref r =? 0) I) as [i|] eqn:E2; simpl.
    + apply find_idx_Some in E2 as (r & Hr & Hp%Z.eqb_eq & _). pose proof (lookup_lt_Some _ _ _ Hr). apply list_lookup_total_correct in Hr. by rewrite Hr.
    + pose proof (proj1 (find_idx_None _ _) E2 i0 (I !!! i0)) as Hx. rewrite list_lookup_lookup_total_lt in Hx by done. specialize (Hx eq_refl).
      simpl in Hx. by rewrite E0 in Hx.
Qed.

Definition take_slot (n : Z) (ip : inode) : inode := ip <| idev := 1 |> <| inum := n |> <| iref := 1 |> <| ivalid := 0 |>.
Definition ref_up (ip : inode) : inode := ip <| iref := iref ip + 1 |>.

(** The slot that [iget] returns. *)
Record got (n : Z) (i : nat) (I I' : list inode) : Prop := {
  gt_lt : (i < length I)%nat;
  gt_coh : icoh I';
  gt_len : length I' = length I;
  gt_dev : idev (I' !!! i) = 1;
  gt_num : inum (I' !!! i) = n;
  gt_ref : iref (I' !!! i) = iref (I !!! i) + 1;
  gt_lock : islp (I' !!! i) = islp (I !!! i);
  gt_found : 0 < iref (I !!! i) → I' !!! i = ref_up (I !!! i);
  gt_other : ∀ j, j ≠ i → I' !!! j = I !!! j }.

Lemma alter_other {A} `{!Inhabited A} (f : A → A) i j (l : list A) : j ≠ i → alter f i l !!! j = l !!! j.
Proof. intros Hn. rewrite !list_lookup_total_alt. by rewrite list_lookup_alter_ne. Qed.
Lemma icoh_at I i : icoh I → (i < length I)%nat → slot_ok (I !!! i).
Proof. intros H Hi. apply (Forall_lookup_1 slot_ok I i); [done|]. by apply list_lookup_lookup_total_lt. Qed.
Lemma icoh_alter I i f : icoh I → ((i < length I)%nat → slot_ok (f (I !!! i))) → icoh (alter f i I).
Proof.
  intros H Hf. apply Forall_lookup. intros j ip Hj. destruct (decide (j = i)) as [->|Hn].
  - rewrite list_lookup_alter_eq in Hj. destruct (I !! i) as [r|] eqn:E; [|done]. injection Hj as <-. pose proof (lookup_lt_Some _ _ _ E) as Hl.
    apply list_lookup_total_correct in E. rewrite <- E. auto.
  - rewrite list_lookup_alter_ne in Hj by done. by apply (Forall_lookup_1 slot_ok I j).
Qed.

Lemma got_found I i n : icoh I → (i < length I)%nat → 0 < iref (I !!! i) → idev (I !!! i) = 1 → inum (I !!! i) = n → got n i I (alter ref_up i I).
Proof.
  intros H Hi Hr Hd Hn. pose proof (icoh_at I i H Hi) as [S2 S3].
  assert (alter ref_up i I !!! i = ref_up (I !!! i)) as EI by (by rewrite list_alter_total, decide_True).
  split; rewrite ?EI; [done| |by rewrite length_alter|done|done|done|done|done|intros; by apply alter_other].
  apply icoh_alter; [done|]. intros _. split; [simpl; lia|]. intros _ _. destruct (S3 Hr Hd) as [|[Hv Hx]]; [by left|right].
  split; [done|]. intros d Ho. specialize (Hx d Ho). unfold ref_up. rewrite <- Hx at 2. by destruct (I !!! i).
Qed.
Lemma got_new I i n : icoh I → (i < length I)%nat → iref (I !!! i) = 0 → got n i I (alter (take_slot n) i I).
Proof.
  intros H Hi Hr. pose proof (icoh_at I i H Hi) as [S2 S3].
  assert (alter (take_slot n) i I !!! i = take_slot n (I !!! i)) as EI by (by rewrite list_alter_total, decide_True).
  split; rewrite ?EI; [done| |by rewrite length_alter|done|done|rewrite Hr; done|done|lia|intros; by apply alter_other].
  apply icoh_alter; [done|]. intros _. split; [done|by left].
Qed.

Lemma take_slot_alter n i (I : list inode) :
  alter (λ r, r <| ivalid := 0 |>) i (alter (λ r, r <| iref := 1 |>) i (alter (λ r, r <| inum := n |>) i (alter (λ r, r <| idev := 1 |>) i I))) = alter (take_slot n) i I.
Proof. rewrite !alter_alter. by apply list_alter_ext. Qed.
Lemma kwp_iget n I (Q : nat → kernel → Prop) k : st I k → icoh I → (∃ i, (i < length I)%nat ∧ iref (I !!! i) = 0) →
  (∀ i I' k', st I' k' → got n i I I' → Q i k') → kwp (iget 1 n) Q Y k.
Proof.
  intros HK HC HF HQ. pose proof (fsst_icache _ _ _ _ _ _ _ _ _ _ _ _ _ HK) as EI. pose proof (fsst_bctx _ _ _ _ _ _ _ _ _ _ _ _ _ HK) as HB.
  pose proof (bctx_wf _ _ _ HB) as Hwf. pose proof (bctx_no_lock p x k) as HNL. pose proof (iget_find_spec I n HF) as Hf.
  unfold iget. kstep. kstep. kstep. kstep. simpl icache. rewrite EI. destruct (iget_find I 1 n) as [[i|i]|]; [| |done].
  - destruct Hf as (Hi & Hr & Hd & Hn). unfold iset. kstep. kstep. kstep. kstep. kstep.
    eapply HQ; [|by apply got_found]. by apply (fsst_iup _ _ _ _ _ _ _ _ _ _ _ _ _ i ref_up HK).
  - destruct Hf as (Hi & Hr). unfold iset. do 11 kstep. eapply HQ; [|by apply got_new].
    rewrite <- take_slot_alter. do 4 apply fsst_iup. exact HK.
Qed.

(** ** ilock *)
Definition loaded (d : dinode) (ip : inode) : inode := (fill d ip) <| ivalid := 1 |> <| islp := mkSlk 1 x |>.

Lemma kwp_iload n d I i (Q : unit → kernel → Prop) k : st I k → (i < length I)%nat → 1 ≤ iref (I !!! i) → idev (I !!! i) = 1 → inum (I !!! i) = n →
  slocked (islp (I !!! i)) = 0 → slot_ok (I !!! i) → on_disk n d → (∀ k', st (alter (loaded d) i I) k' → Q tt k') → kwp (ilock (Some i)) Q Y k.
Proof.
  intros HK Hi Hr Hd Hn S1 [S2 S3] HO HQ. destruct (S3 ltac:(lia) Hd) as [Hv|[Hv Hx]].
  2:{ eapply kwp_ilock; [apply _|exact HK|done|done|done|done|]. intros k' K'. apply HQ. rewrite (list_alter_ext _ (lock_inode x)); [done|].
      rewrite Hn in Hx. unfold loaded, lock_inode. rewrite (Hx d HO). destruct (I !!! i). simpl in *. by subst. }
  pose proof HO as [O1 O2 O3 O4 O5]. pose proof (fsst_icache _ _ _ _ _ _ _ _ _ _ _ _ _ HK) as EI. destruct (ge_ib _ _ _ _ _ _ GE _ O1) as [Hib _].
  pose proof (ge_size _ _ _ _ _ _ GE). pose proof (dinode_dec_enc _ _ d O2 O3) as Ed.
  unfold ilock. kstep. kstep. kstep. eapply kwp_islot; [exact HK|]. rewrite (proj2 (Z.ltb_ge _ _)) by lia. kstep. kstep.
  kstep. apply (kwp_acquiresleep p x Y); [by eapply fsst_bctx|unfold get_slp; by rewrite EI|].
  pose proof (fsst_iup _ _ _ _ _ _ _ _ _ _ _ _ _ i (lock_inode x) HK) as K1. change (slp_up _ (SInode i) k) with (k <| icache ::= alter (lock_inode x) i |>).
  assert (alter (lock_inode x) i I !!! i = lock_inode x (I !!! i)) as E1 by (by rewrite list_alter_total, decide_True).
  kstep. eapply kwp_islot; [exact K1|]. rewrite E1. simpl ivalid. rewrite Hv. cbv iota. change (0 =? 0) with true. cbv iota.
  kstep. eapply kwp_sb; [exact GE|exact K1|]. simpl idev. simpl inum. rewrite Hd, Hn.
  kstep. eapply kwp_rd; [apply _|exact K1|lia|apply has_empty|rewrite map_size_empty; simpl; unfold NBUF; lia|]. intros b k2 _ K2.
  kstep. eapply kwp_slot; [exact K2|apply lookup_insert_eq|]. intros r Er. rewrite Er. cbv zeta.
  pose proof (f_equal dtype Ed) as F1. pose proof (f_equal dmajor Ed) as F2. pose proof (f_equal dminor Ed) as F3. pose proof (f_equal dnlink Ed) as F4.
  pose proof (f_equal dsize Ed) as F5. pose proof (f_equal daddrs Ed) as F6. cbn [dinode_dec dtype dmajor dminor dnlink dsize daddrs] in *.
  rewrite F1, F2, F3, F4, F5, F6.
  kstep. eapply kwp_iset; [exact K2|]. intros k3 K3. kstep. eapply kwp_iset; [exact K3|]. intros k4 K4.
  kstep. eapply kwp_rel; [apply _|exact K4|apply lookup_insert_eq|]. intros k5 K5. rewrite delete_insert_id in K5 by done.
  kstep. eapply kwp_iset; [exact K5|]. intros k6 K6. rewrite !alter_alter, (list_alter_ext _ (loaded d)) in K6 by done.
  kstep. eapply kwp_islot; [exact K6|]. rewrite list_alter_total, decide_True by done. simpl itype. rewrite (proj2 (Z.eqb_neq _ _)) by done.
  kstep. by apply HQ.
Qed.

(** ** iput *)
Definition ref_down (ip : inode) : inode := ip <| islp := mkSlk 0 0 |> <| iref := iref ip - 1 |>.

Lemma kwp_iput I i (Q : unit → kernel → Prop) k : st I k → (i < length I)%nat → slocked (islp (I !!! i)) = 0 → inlink (I !!! i) ≠ 0 →
  (∀ k', st (alter ref_down i I) k' → Q tt k') → kwp (iput i) Q Y k.
Proof.
  intros HK Hi Hl Hn HQ. pose proof (fsst_icache _ _ _ _ _ _ _ _ _ _ _ _ _ HK) as EI.
  unfold iput. kstep. apply (kwp_acquiresleep p x Y); [by eapply fsst_bctx|unfold get_slp; by rewrite EI|].
  pose proof (fsst_iup _ _ _ _ _ _ _ _ _ _ _ _ _ i (lock_inode x) HK) as K1. change (slp_up _ (SInode i) k) with (k <| icache ::= alter (lock_inode x) i |>).
  kstep. eapply kwp_islot; [exact K1|]. rewrite list_alter_total, decide_True by done. simpl ivalid. simpl inlink.
  rewrite (proj2 (Z.eqb_neq _ _)), andb_false_r by done. kstep. kstep.
  kstep. apply (kwp_releasesleep p x Y); [by eapply fsst_bctx|]. set (k1 := k <| icache ::= _ |>) in *.
  match goal with |- kwp _ _ _ ?k2 => assert (st (alter unlock_inode i (alter (lock_inode x) i I)) k2) as K2 by (apply fsst_wake; by apply (fsst_iup _ _ _ _ _ _ _ _ _ _ _ _ _ i unlock_inode)) end.
  match goal with |- kwp _ _ _ ?k2 => set (k3 := k2) in * end. clearbody k3.
  pose proof (fsst_bctx _ _ _ _ _ _ _ _ _ _ _ _ _ K2) as HB. pose proof (bctx_wf _ _ _ HB) as Hwf. pose proof (bctx_no_lock p x k3) as HNL.
  unfold iset. kstep. kstep. kstep. kstep. kstep. apply HQ.
  assert (alter ref_down i I = alter (λ ip, ip <| iref := iref ip - 1 |>) i (alter unlock_inode i (alter (lock_inode x) i I))) as -> by (rewrite !alter_alter; by apply list_alter_ext).
  by apply fsst_iup.
Qed.

Lemma kwp_iunlockput I i (Q : unit → kernel → Prop) k : st I k → (i < length I)%nat → 1 ≤ iref (I !!! i) → islp (I !!! i) = mkSlk 1 x → inlink (I !!! i) ≠ 0 →
  (∀ k', st (alter ref_down i I) k' → Q tt k') → kwp (iunlockput i) Q Y k.
Proof.
  intros HK Hi Hr Hl Hn HQ. unfold iunlockput. kstep. eapply kwp_iunlock; [apply _|exact HK|done|done|done|]. intros k1 K1.
  assert (alter unlock_inode i I !!! i = unlock_inode (I !!! i)) as E1 by (by rewrite list_alter_total, decide_True).
  eapply (kwp_iput (alter unlock_inode i I)); [exact K1|by rewrite length_alter|by rewrite E1|by rewrite E1|]. intros k2 K2. apply HQ.
  rewrite alter_alter, (list_alter_ext _ ref_down) in K2 by done. exact K2.
Qed.

(** ** Directories *)

(** Entry [i] of a directory, and the first one from [i] on with the name [nm]. *)
Definition dent (F : list Z) (i : nat) : list Z := slice F (16 * i) 16.
Definition matches (nm de : list Z) : bool := negb (de_inum de =? 0) && (namecmp nm (de_name de) =? 0).
Fixpoint dfind (cnt i : nat) (F nm : list Z) : option (nat * Z) :=
  match cnt with
  | O => None
  | S c => if matches nm (dent F i) then Some (i, de_inum (dent F i)) else dfind c (S i) F nm
  end.

Section dir.
Context (I : list inode) (dp : nat) (F : list Z) (N : nat).
Context (Hdp : (dp < length I)%nat) (Hdev : idev (I !!! dp) = 1) (Hty : itype (I !!! dp) = T_DIR) (Hsz : isize (I !!! dp) = Z.of_nat (length F)).
Context (HF : frep SB ds V (iaddrs (I !!! dp)) F) (HN : length F = (16 * N)%nat).
Context (HC : icoh I) (Hfree : ∃ i, (i < length I)%nat ∧ iref (I !!! i) = 0).

Lemma dir_max : (length F ≤ 512 * (NDIRECT + NINDIRECT))%nat.
Proof. apply HF. Qed.

Lemma kwp_dirlookup_loop nm fuel : ∀ cnt i (Q : option (nat * Z) → kernel → Prop) k, (i + cnt = N)%nat → (cnt < fuel)%nat → st I k →
  match dfind cnt i F nm with
  | Some (j, n) => ∀ s I' k', st I' k' → got n s I I' → Q (Some (s, 16 * Z.of_nat j)) k'
  | None => ∀ k', st I k' → Q None k'
  end → kwp (dirlookup_loop fuel dp nm (16 * Z.of_nat i)) Q Y k.
Proof.
  pose proof dir_max as Hm. unfold NDIRECT, NINDIRECT in Hm.
  induction fuel as [|fuel IH]; intros cnt i Q k Hi Hf HK HQ; [lia|]. cbn [dirlookup_loop].
  kstep. eapply kwp_islot; [exact HK|]. rewrite Hsz. destruct cnt as [|cnt].
  - rewrite (proj2 (Z.ltb_ge _ _)) by lia. kstep. by apply HQ.
  - rewrite (proj2 (Z.ltb_lt _ _)) by lia. kstep. replace (16 * Z.of_nat i) with (Z.of_nat (16 * i)) by lia. change DIRENT with (Z.of_nat 16).
    eapply (kwp_readi p x Y ls nlog o D tr SB ds R GE dp V [] I F); [done|done|done|exact HF|unfold nind; case_decide; simpl; lia|by rewrite Hty|done|exact HK|lia|lia|].
    intros m k1 K1. assert (m = 16%nat) as -> by lia. change (slice F (16 * i) 16) with (dent F i). rewrite Z.eqb_refl. kstep. kstep.
    cbn [dfind] in HQ. unfold matches in HQ. replace (Z.of_nat (16 * i) + Z.of_nat 16) with (16 * Z.of_nat (S i)) by lia.
    destruct (Z.eqb_spec (de_inum (dent F i)) 0) as [E0|E0]; cbn [negb andb] in HQ; [apply (IH cnt); done || lia|].
    destruct (namecmp nm (de_name (dent F i)) =? 0); [|apply (IH cnt); done || lia].
    rewrite Hdev. kstep. eapply kwp_iget; [exact K1|done|done|]. intros s I' k' K' HG. kstep. replace (Z.of_nat (16 * i)) with (16 * Z.of_nat i) by lia. by eapply HQ.
Qed.

Lemma kwp_dirlookup nm (Q : option (nat * Z) → kernel → Prop) k : st I k →
  match dfind N 0 F nm with
  | Some (j, n) => ∀ s I' k', st I' k' → got n s I I' → Q (Some (s, 16 * Z.of_nat j)) k'
  | None => ∀ k', st I k' → Q None k'
  end → kwp (dirlookup dp nm) Q Y k.
Proof.
  intros HK HQ. unfold dirlookup. kstep. eapply kwp_islot; [exact HK|]. rewrite Hty, Hsz. change (T_DIR =? T_DIR) with true. kstep. kstep.
  change 0 with (16 * Z.of_nat 0). apply (kwp_dirlookup_loop nm _ N 0); [done| |done|done].
  rewrite HN. change DIRENT with 16. rewrite Nat2Z.inj_mul, Z.mul_comm, Z.div_mul by done. lia.
Qed.
End dir.

(** ** Paths *)

(** A name buffer compares like the name that was copied into it. *)
Lemma strncmp_nul n e q t : strncmp_arr n (e ++ 0 :: q) t = strncmp_arr n e t.
Proof.
  revert e t. induction n as [|n IH]; intros e t; [done|]. destruct e as [|c e]; cbn [app strncmp_arr hd tl]; [done|]. by rewrite IH.
Qed.
Lemma strncmp_take n e q t : (n ≤ length e)%nat → strncmp_arr n (take n e ++ q) t = strncmp_arr n e t.
Proof.
  revert e t. induction n as [|n IH]; intros e t Hl; [done|]. destruct e as [|c e]; [simpl in Hl; lia|]. cbn [take app strncmp_arr hd tl].
  rewrite IH; [done|]. simpl in Hl. lia.
Qed.
Lemma skipelem_spec path nm : skip_slashes path ≠ [] → let '(e, rest) := take_elem (skip_slashes path) in
  ∃ nm', skipelem path nm = Some (skip_slashes rest, nm') ∧ ∀ de, matches nm' de = matches e de.
Proof.
  intros Hp. destruct (take_elem (skip_slashes path)) as [e rest] eqn:E. unfold skipelem.
  destruct (skip_slashes path) as [|c q] eqn:Es; [done|]. rewrite E. case_decide as Hl.
  - exists (splice nm 0 (take DIRSIZ e)). split; [done|]. intros de. unfold matches, namecmp, splice. cbn [take]. rewrite app_nil_l. by rewrite strncmp_take.
  - exists (splice nm 0 (e ++ [0])). split; [done|]. intros de. unfold matches, namecmp, splice. cbn [take]. rewrite app_nil_l, <- app_assoc. cbn [app].
    by rewrite strncmp_nul.
Qed.
Lemma dfind_ext cnt i F nm nm' : (∀ de, matches nm' de = matches nm de) → dfind cnt i F nm' = dfind cnt i F nm.
Proof. intros E. revert i. induction cnt as [|cnt IH]; intros i; [done|]. cbn [dfind]. by rewrite E, IH. Qed.
Lemma skip_slashes_le path : (length (skip_slashes path) ≤ length path)%nat.
Proof. induction path as [|c q IH]; [done|]. simpl. case_match; simpl; lia. Qed.
Lemma take_elem_le path : path ≠ [] → hd 0 path ≠ slash → (length (take_elem path).2 < length path)%nat.
Proof.
  destruct path as [|c q]; [done|]. intros _ Hc. simpl in Hc. cbn [take_elem]. rewrite (proj2 (Z.eqb_neq _ _)) by done.
  assert (∀ q, (length (take_elem q).2 ≤ length q)%nat) as Hx.
  { clear. induction q as [|c q IH]; [done|]. cbn [take_elem]. destruct (c =? slash); [done|]. destruct (take_elem q). simpl in *. lia. }
  specialize (Hx q). destruct (take_elem q). simpl in *. lia.
Qed.
Lemma skip_slashes_hd path : skip_slashes path ≠ [] → hd 0 (skip_slashes path) ≠ slash.
Proof. induction path as [|c q IH]; [done|]. simpl. destruct (Z.eqb_spec c slash); [done|]. intros _. done. Qed.
Lemma skip_slashes_idem path : skip_slashes (skip_slashes path) = skip_slashes path.
Proof. induction path as [|c q IH]; [done|]. simpl. destruct (c =? slash) eqn:E; [done|]. simpl. by rewrite E. Qed.

(** Inode [n] is a directory with the contents [F]. *)
Record dir_at (n : Z) (F : list Z) (N : nat) (d : dinode) : Prop := {
  da_disk : on_disk n d;
  da_type : dtype d = T_DIR;
  da_file : frep SB ds V (daddrs d) F;
  da_size : dsize d = Z.of_nat (length F);
  da_len : length F = (16 * N)%nat }.

(** The path leads from inode [n] to inode [m]. *)
Inductive walks : Z → list Z → Z → Prop :=
  | walk_end n path : skip_slashes path = [] → walks n path n
  | walk_step n d F N path e rest j n' m : dir_at n F N d → skip_slashes path ≠ [] → take_elem (skip_slashes path) = (e, rest) →
      dfind N 0 F e = Some (j, n') → walks n' (skip_slashes rest) m → walks n path m.

(** No inode is locked, and the references are those of [I0] and one to slot [i]. *)
Definition no_locks (I : list inode) : Prop := ∀ j, (j < length I)%nat → slocked (islp (I !!! j)) = 0.
Definition holds_ref (I0 I : list inode) (i : nat) : Prop := length I = length I0 ∧
  ∀ j, (j < length I0)%nat → iref (I !!! j) = iref (I0 !!! j) + (if decide (j = i) then 1 else 0).
Definition two_free (I0 : list inode) : Prop :=
  ∃ a b, a ≠ b ∧ (a < length I0)%nat ∧ (b < length I0)%nat ∧ iref (I0 !!! a) = 0 ∧ iref (I0 !!! b) = 0.
Lemma holds_ref_free I0 I i : two_free I0 → holds_ref I0 I i → ∃ j, (j < length I)%nat ∧ iref (I !!! j) = 0.
Proof.
  intros (a & b & Hab & Ha & Hb & Ea & Eb) [HL HR]. destruct (decide (a = i)) as [->|Hn].
  - exists b. rewrite HL, HR, decide_False by done. split; [done|lia].
  - exists a. rewrite HL, HR, decide_False by done. split; [done|lia].
Qed.

(** The reference has moved to slot [i] of the inode [n]. *)
Record at_inode (I0 I : list inode) (i : nat) (n : Z) : Prop := {
  ai_coh : icoh I;
  ai_unl : no_locks I;
  ai_holds : holds_ref I0 I i;
  ai_lt : (i < length I0)%nat;
  ai_ref : 0 ≤ iref (I0 !!! i);
  ai_dev : idev (I !!! i) = 1;
  ai_num : inum (I !!! i) = n }.

Lemma icoh_loaded I i d : icoh I → on_disk (inum (I !!! i)) d → icoh (alter (loaded d) i I).
Proof.
  intros HC HO. apply icoh_alter; [done|]. intros Hi. pose proof (icoh_at I i HC Hi) as [S2 S3]. split; [done|]. intros _ _. right.
  split; [done|]. intros d' HO'. by rewrite (on_disk_fun _ d' d HO' HO).
Qed.
Lemma icoh_down I i : icoh I → 1 ≤ iref (I !!! i) → icoh (alter ref_down i I).
Proof.
  intros HC Hr. apply icoh_alter; [done|]. intros Hi. pose proof (icoh_at I i HC Hi) as [S2 S3]. split; [simpl; lia|]. intros Hp Hd.
  simpl in Hp, Hd. destruct (S3 ltac:(lia) Hd) as [|[Hv Hx]]; [by left|right]. split; [done|]. intros d HO. specialize (Hx d HO).
  unfold ref_down. rewrite <- Hx at 2. by destruct (I !!! i).
Qed.

Section step.
Context (I0 I : list inode) (i : nat) (n : Z) (d : dinode) (HA : at_inode I0 I i n) (HO : on_disk n d).
Abbreviation I1 := (alter (loaded d) i I).

Lemma step_lt : (i < length I)%nat.
Proof. destruct HA as [_ _ [HL _] Hi _ _ _]. lia. Qed.
Lemma step_ref : 1 ≤ iref (I !!! i).
Proof. destruct HA as [_ _ [HL HR] Hi Hr _ _]. rewrite HR, decide_True by done. lia. Qed.
Lemma step_at : I1 !!! i = loaded d (I !!! i).
Proof. rewrite list_alter_total by apply step_lt. by rewrite decide_True. Qed.
Lemma step_refs j : iref (I1 !!! j) = iref (I !!! j).
Proof. destruct (decide (j = i)) as [->|]; [by rewrite step_at|by rewrite alter_other]. Qed.
Lemma step_coh : icoh I1.
Proof. apply icoh_loaded; [apply HA|]. by rewrite (ai_num _ _ _ _ HA). Qed.

Context (n' : Z) (s : nat) (I2 : list inode) (HG : got n' s I1 I2).

(** The slot of the directory after the lookup. *)
Lemma step_dir : islp (I2 !!! i) = mkSlk 1 x ∧ inlink (I2 !!! i) ≠ 0 ∧ iref (I2 !!! i) = iref (I !!! i) + (if decide (i = s) then 1 else 0).
Proof.
  pose proof step_ref. destruct (decide (i = s)) as [E|E].
  - rewrite E, (gt_found _ _ _ _ HG); [|rewrite step_refs, <- E; lia]. rewrite <- E, step_at. split_and!; [done|apply HO|done].
  - rewrite (gt_other _ _ _ _ HG i E), step_at. split_and!; [done|apply HO|simpl; lia].
Qed.

Lemma step_moved : at_inode I0 (alter ref_down i I2) s n'.
Proof.
  pose proof HA as [HC HU [HL HR] Hi Hr Hd Hn]. pose proof step_lt as Hlt. pose proof step_ref as Hrf. pose proof step_dir as (Dl & Dn & Dr).
  pose proof (gt_len _ _ _ _ HG) as L2. rewrite length_alter in L2. pose proof (gt_lt _ _ _ _ HG) as Hs. rewrite length_alter in Hs.
  assert (alter ref_down i I2 !!! i = ref_down (I2 !!! i)) as Ei by (rewrite list_alter_total by lia; by rewrite decide_True).
  assert (∀ j, j ≠ i → iref (I2 !!! j) = iref (I !!! j) + (if decide (j = s) then 1 else 0)) as ER2.
  { intros j Hj. destruct (decide (j = s)) as [->|Hjs]; [rewrite (gt_ref _ _ _ _ HG), step_refs; done|]. rewrite (gt_other _ _ _ _ HG j Hjs), step_refs. lia. }
  split.
  - apply icoh_down; [apply HG|]. case_decide; lia.
  - intros j Hj. rewrite length_alter in Hj. destruct (decide (j = i)) as [->|Hji]; [by rewrite Ei|]. rewrite alter_other by done.
    destruct (decide (j = s)) as [->|Hjs]; [rewrite (gt_lock _ _ _ _ HG)|rewrite (gt_other _ _ _ _ HG j Hjs)]; rewrite alter_other by done; apply HU; lia.
  - split; [rewrite length_alter; lia|]. intros j Hj. destruct (decide (j = i)) as [->|Hji].
    + rewrite Ei. simpl. rewrite Dr, HR, (decide_True (P := i = i)) by done. lia.
    + rewrite alter_other, ER2, HR by done. rewrite (decide_False (P := j = i)) by done. lia.
  - lia.
  - destruct (decide (s = i)) as [->|Hsi]; [done|]. assert (s < length I0)%nat as Hs0 by lia. pose proof (icoh_at I s HC Hs) as [Hx _]. rewrite HR, decide_False in Hx by done. lia.
  - destruct (decide (s = i)) as [E|E]; [rewrite E, Ei; simpl; rewrite <- E|rewrite alter_other by done]; apply HG.
  - destruct (decide (s = i)) as [E|E]; [rewrite E, Ei; simpl; rewrite <- E|rewrite alter_other by done]; apply HG.
Qed.
End step.

Lemma kwp_namex_loop I0 m : two_free I0 → ∀ n path, walks n path m → ∀ fuel i I nm (Q : option nat * list Z → kernel → Prop) k,
  (length path < fuel)%nat → st I k → at_inode I0 I i n →
  (∀ i' I' nm' k', st I' k' → at_inode I0 I' i' m → Q (Some i', nm') k') → kwp (namex_loop fuel i path nm false) Q Y k.
Proof.
  intros HT n path HW. induction HW as [n path Hp|n d F N path e rest j n' m HD Hp He Hf HW IH]; intros fuel i I nm Q k Hfuel HK HA HQ;
    (destruct fuel as [|fuel]; [lia|]); cbn [namex_loop].
  - unfold skipelem. rewrite Hp. cbv iota. kstep. by apply (HQ i I).
  - pose proof (skipelem_spec path nm Hp) as Hs. rewrite He in Hs. destruct Hs as (nm' & -> & Hm). cbv iota.
    destruct HD as [DO DT DF DZ DL]. pose proof HA as [HC HU HH Hi Hr Hd Hn]. pose proof (step_lt _ _ _ _ HA) as Hlt. pose proof (step_ref _ _ _ _ HA) as Hrf.
    kstep. eapply (kwp_iload n d I i); [exact HK|done|done|done|done|by apply HU|by apply icoh_at|done|]. intros k1 K1.
    pose proof (step_at _ _ _ _ d HA) as E1. kstep. eapply kwp_islot; [exact K1|]. rewrite E1. simpl itype. rewrite DT. change (T_DIR =? T_DIR) with true. cbn [negb andb]. kstep.
    apply (kwp_dirlookup (alter (loaded d) i I) i F N); rewrite ?E1; [by rewrite length_alter|done|done|done|done|done|by eapply step_coh|..].
    { destruct (holds_ref_free I0 I i HT HH) as (q & Hq & Eq). exists q. rewrite length_alter, (step_refs _ _ _ _ d HA). done. }
    { exact K1. }
    rewrite (dfind_ext _ _ _ e nm' Hm), Hf. intros s I2 k2 K2 HG. destruct (step_dir _ _ _ _ d HA DO _ _ _ HG) as (Dl & Dn & Dr).
    pose proof (gt_len _ _ _ _ HG) as L2. rewrite length_alter in L2. kstep. eapply kwp_iunlockput; [exact K2|lia|case_decide; lia|done|done|]. intros k3 K3.
    apply (IH fuel s (alter ref_down i I2) nm'); [|exact K3|by eapply step_moved|done].
    pose proof (take_elem_le _ Hp (skip_slashes_hd _ Hp)) as Hte. rewrite He in Hte. simpl in Hte. pose proof (skip_slashes_le rest). pose proof (skip_slashes_le path). lia.
Qed.

(** ** namei and what a program does with it *)

(** Nothing refers to more inodes than before, and none is locked. *)
Record rested (I0 I : list inode) : Prop := {
  rs_coh : icoh I;
  rs_unl : no_locks I;
  rs_len : length I = length I0;
  rs_refs : ∀ j, (j < length I0)%nat → iref (I !!! j) = iref (I0 !!! j) }.

Lemma kwp_namei path m I0 (Q : option nat → kernel → Prop) k : hd 0 path = slash → walks ROOTINO path m → two_free I0 → st I0 k → icoh I0 → no_locks I0 →
  (∀ i I k', st I k' → at_inode I0 I i m → Q (Some i) k') → kwp (namei path) Q Y k.
Proof.
  intros Hp HW HT HK HC HU HQ. unfold namei, namex. rewrite bool_decide_true by done. kstep. kstep. change ROOTDEV with 1.
  eapply kwp_iget; [exact HK|done| |].
  { destruct HT as (a & b & _ & Ha & _ & Ea & _). by exists a. }
  intros i I k1 K1 [G1 G2 G3 G4 G5 G6 G7 G8 G9]. apply (kwp_namex_loop I0 m HT ROOTINO path HW _ i I); [lia|exact K1| |].
  - split; [done| |split; [done|]|done|by apply (icoh_at I0 i HC G1)|done|done].
    + intros j Hj. destruct (decide (j = i)) as [->|Hn]; [rewrite G7|rewrite G9 by done]; apply HU; lia.
    + intros j Hj. case_decide as E; [subst; lia|]. rewrite G9 by done. lia.
  - intros i' I' nm' k2 K2 HA. kstep. by apply (HQ i' I').
Qed.

(** Inode [n] is a file with the contents [F]. *)
Record file_at (n : Z) (F : list Z) (d : dinode) : Prop := {
  fa_disk : on_disk n d;
  fa_dev : dtype d ≠ T_DEV;
  fa_file : frep SB ds V (daddrs d) F;
  fa_size : dsize d = Z.of_nat (length F) }.
End names.

(** The beginning of a file, found by its path. *)
Definition read_path {PAT : Patience} {DEV : DevSw} (path : list Z) (n : Z) : K (option (Z * list Z)) :=
  o ← namei path;
  match o with
  | None => mret None
  | Some i =>
      ilock (Some i);;
      r ← readi i 0 n;
      iunlockput i;;
      mret (Some r)
  end.

Section read.
Context {PAT : Patience} {DEV : DevSw} (p : nat) (x : Z) (Y : protocol kernel) `{!Mono Y}.
Context (ls nlog : Z) (SB : superblock) (ds : Z) (o : Z) (D : list (list Z)) (tr : list (nat * list Z)) (R : kernel).
Context (GE : geom ls nlog D SB ds R) (V : Z → list Z) (HS : sane ls nlog D SB ds V).
Abbreviation st I := (fsst p x ls nlog o D tr R V [] ∅ I).

Lemma kwp_read_path path m F d n I0 (Q : option (Z * list Z) → kernel → Prop) k : hd 0 path = slash → walks SB ds V ROOTINO path m → file_at SB ds V m F d →
  Z.of_nat n < 4294967296 → two_free I0 → st I0 k → icoh SB V I0 → no_locks I0 →
  (let c := Nat.min n (length F) in ∀ I k', st I k' → rested SB V I0 I → Q (Some (Z.of_nat c, take c F)) k') →
  kwp (read_path path (Z.of_nat n)) Q Y k.
Proof.
  intros Hp HW [FO FT FF FZ] Hn HT HK HC HU HQ. set (c := Nat.min n (length F)) in *. unfold read_path. kstep.
  eapply (kwp_namei p x Y ls nlog SB ds o D tr R GE V HS path m I0); [done|done|done|exact HK|done|done|]. intros i I k1 K1 HA. cbv iota.
  pose proof HA as [C1 U1 H1 Hi Hr Hd Hnm]. pose proof (step_lt _ _ _ _ _ _ HA) as Hlt. pose proof (step_ref _ _ _ _ _ _ HA) as Hrf.
  kstep. eapply (kwp_iload p x Y ls nlog SB ds o D tr R GE V m d I i); [exact K1|done|done|done|done|by apply U1|by apply icoh_at|done|]. intros k2 K2.
  assert (alter (loaded x d) i I !!! i = loaded x d (I !!! i)) as E1 by (rewrite list_alter_total by done; by rewrite decide_True). kstep. change 0 with (Z.of_nat 0).
  eapply (kwp_readi p x Y ls nlog o D tr SB ds R GE i V [] _ F); rewrite ?E1; [by rewrite length_alter|done|done|done|unfold nind; case_decide; simpl; lia|done|done|exact K2|lia|lia|].
  intros c' k3 K3. assert (c' = c) as -> by (unfold c, c'; lia).
  kstep. eapply (kwp_iunlockput p x Y ls nlog o D tr R V); [exact K3|by rewrite length_alter|by rewrite E1|by rewrite E1|rewrite E1; apply FO|]. intros k4 K4. kstep.
  apply (HQ _ k4 K4). destruct H1 as [HL HR].
  assert (alter ref_down i (alter (loaded x d) i I) !!! i = ref_down (loaded x d (I !!! i))) as E2 by (rewrite list_alter_total by (by rewrite length_alter); by rewrite decide_True, E1).
  split.
  - apply icoh_down; [|by rewrite E1]. apply icoh_loaded; [done|by rewrite Hnm].
  - intros j Hj. rewrite !length_alter in Hj. destruct (decide (j = i)) as [->|Hn']; [by rewrite E2|]. rewrite !alter_other by done. by apply U1.
  - by rewrite !length_alter.
  - intros j Hj. destruct (decide (j = i)) as [->|Hn']; [rewrite E2; simpl; rewrite HR, decide_True by done; lia|].
    rewrite !alter_other, HR, decide_False by done. lia.
Qed.
End read.
