(* ===== verification/BootFs.v ===== *)
(** * From the image builder to the kernel

    A file given to [mkfs] is found by the kernel under its name, with its bytes: the
    image the builder writes and the kernel's path lookup and read fit together. *)
From stdpp Require Import base strings numbers gmap list.
From S2P Require Import Prelude Machine KString Kernel Locks Kalloc Proc ProcSpec Sleeplock Bio BioSpec Log LogSpec TxnSpec Fs FsSpec.
From S2P Require Import Pipe File FileSpec Mkfs MkfsSpec MkfsImage NameSpec.

(** ** Names in directories *)
Abbreviation bytes := (Forall (λ c, 1 ≤ c < 256)).

Lemma strncmp_strncpy n e t : bytes e → bytes t → (strncmp_arr n e (strncpy_arr n t) = 0 ↔ take n e = take n t).
Proof.
  revert e t. induction n as [|n IH]; intros e t He Ht; [done|]. destruct e as [|a e], t as [|c t]; cbn [strncmp_arr strncpy_arr hd tl take]; try done.
  - apply Forall_cons in Ht as [Hc _]. rewrite (proj2 (Z.eqb_neq c 0)) by lia. change (istrue 0) with false. cbn [hd andb]. unfold u8. rewrite !Z.mod_small by lia. split; [lia|done].
  - apply Forall_cons in He as [Ha _]. change (0 =? 0) with true. cbn [replicate hd]. rewrite (proj2 (Z.eqb_neq a 0)), andb_false_r by lia. unfold u8.
    rewrite !Z.mod_small by lia. split; [lia|done].
  - apply Forall_cons in He as [Ha He]. apply Forall_cons in Ht as [Hc Ht]. rewrite (proj2 (Z.eqb_neq c 0)) by lia. cbn [hd tl].
    unfold istrue. rewrite (proj2 (Z.eqb_neq a 0)) by lia. destruct (Z.eqb_spec a c) as [->|Hn]; cbn [andb negb].
    + rewrite IH by done. split; [by intros ->|by intros [= ->]].
    + unfold u8. rewrite !Z.mod_small by lia. split; [lia|by intros [= ? _]].
Qed.

Lemma dirent_inum n nm : 0 ≤ n < 65536 → de_inum (dirent n nm) = n.
Proof. intros Hn. unfold de_inum, dirent, arr16. rewrite drop_0, dec16_enc16, xshort_id by done. unfold u16. by apply Z.mod_small. Qed.
Lemma dirent_name n nm : de_name (dirent n nm) = strncpy_arr DIRSIZ nm.
Proof. unfold de_name, dirent, slice. change (drop 2 (enc16 (xshort n) ++ strncpy_arr DIRSIZ nm)) with (strncpy_arr DIRSIZ nm). apply take_ge. by rewrite strncpy_length. Qed.
Lemma matches_dirent n e nm : 0 < n < 65536 → bytes e → bytes nm → matches e (dirent n nm) = bool_decide (take DIRSIZ e = take DIRSIZ nm).
Proof.
  intros Hn He Hm. unfold matches. rewrite dirent_inum by lia. rewrite (proj2 (Z.eqb_neq n 0)) by lia. rewrite dirent_name. cbn [negb andb]. unfold namecmp.
  case_bool_decide as E; [apply Z.eqb_eq|apply Z.eqb_neq]; rewrite strncmp_strncpy by done; done.
Qed.

(** The entries of the root directory. *)
Fixpoint elist (n : Z) (files : list input) : list (list Z) :=
  match files with [] => [] | f :: files => dirent n (strip (in_name f)) :: elist (n + 1) files end.
Definition ents (files : list input) : list (list Z) := dirent 1 [46] :: dirent 1 [46; 46] :: elist 2 files.
Lemma entries_elist n files : entries n files = concat (elist n files).
Proof. revert n. induction files as [|f files IH]; intros n; [done|]. cbn [entries elist concat]. by rewrite IH. Qed.
Lemma elist_lookup n files j f : files !! j = Some f → elist n files !! j = Some (dirent (n + Z.of_nat j) (strip (in_name f))).
Proof.
  revert n j. induction files as [|g files IH]; intros n [|j] Hj; [done..| |]; simpl in Hj |- *.
  - injection Hj as ->. by rewrite Z.add_0_r.
  - rewrite (IH (n + 1) j Hj). do 2 f_equal. lia.
Qed.
Lemma concat_slice (l : list (list Z)) z i e : Forall (λ e, length e = 16%nat) l → l !! i = Some e → slice (concat l ++ z) (16 * i) 16 = e.
Proof.
  revert i. induction l as [|a l IH]; intros [|i] Hl Hi; [done..| |]; apply Forall_cons in Hl as [Ha Hl]; simpl in Hi.
  - injection Hi as ->. cbn [concat]. rewrite <- app_assoc. unfold slice. change (16 * 0)%nat with 0%nat. rewrite drop_0, <- Ha. apply take_app_length.
  - rewrite <- (IH i Hl Hi). cbn [concat]. rewrite <- app_assoc. unfold slice. f_equal. rewrite drop_app_ge by lia. f_equal. lia.
Qed.
Lemma ents_length files : Forall (λ e, length e = 16%nat) (ents files).
Proof.
  repeat (constructor; [apply dirent_length|]). generalize 2. induction files as [|f files IH]; intros n; [constructor|]. constructor; [apply dirent_length|apply IH].
Qed.
Lemma root_dent files i e : ents files !! i = Some e → dent (pad (root_dir files)) i = e.
Proof.
  intros Hi. unfold dent, pad, root_dir. rewrite entries_elist. change (dirent 1 [46] ++ dirent 1 [46; 46] ++ concat (elist 2 files)) with (concat (ents files)) at 1.
  apply concat_slice; [apply ents_length|done].
Qed.

Lemma dfind_first F nm cnt i j : (i ≤ j < i + cnt)%nat → (∀ q, (i ≤ q < j)%nat → matches nm (dent F q) = false) → matches nm (dent F j) = true →
  dfind cnt i F nm = Some (j, de_inum (dent F j)).
Proof.
  revert i. induction cnt as [|cnt IH]; intros i Hj Hq Hm; [lia|]. cbn [dfind]. destruct (decide (i = j)) as [->|Hn]; [by rewrite Hm|].
  rewrite Hq by lia. apply IH; [lia| |done]. intros q ?. apply Hq. lia.
Qed.

(** ** The kernel on an image of the builder *)

(** A command line that names the file [f] first, in entry [j + 2], by [nm]. *)
Record names (files : list input) (j : nat) (f : input) (nm : list Z) : Prop := {
  nm_strings : Forall (λ g, bytes (in_name g)) files;
  nm_file : files !! j = Some f;
  nm_strip : strip (in_name f) = nm;
  nm_len : (0 < length nm ≤ DIRSIZ)%nat;
  nm_slash : slash ∉ nm;
  nm_dots : nm ≠ [46] ∧ nm ≠ [46; 46];
  nm_first : ∀ i g, (i < j)%nat → files !! i = Some g → take DIRSIZ (strip (in_name g)) ≠ nm }.

Lemma strip_bytes nm : bytes nm → bytes (strip nm).
Proof. destruct nm as [|c nm]; [done|]. intros [Hc Hn]%Forall_cons. unfold strip. case_match; [done|by constructor]. Qed.

Lemma root_finds files j f nm N : names files j f nm → (length files ≤ 198)%nat → (length files + 2 ≤ N)%nat →
  dfind N 0 (pad (root_dir files)) nm = Some ((2 + j)%nat, 2 + Z.of_nat j).
Proof.
  intros [NB NF NS NL NSl [ND1 ND2] NI] HN HNN. pose proof (lookup_lt_Some _ _ _ NF) as Hj.
  assert (bytes nm) as Bn by (rewrite <- NS; apply strip_bytes; by apply (Forall_lookup_1 _ files j f NB)).
  assert (take DIRSIZ nm = nm) as Et by (apply take_ge; lia).
  assert (∀ i g, files !! i = Some g → dent (pad (root_dir files)) (2 + i) = dirent (2 + Z.of_nat i) (strip (in_name g))) as HE.
  { intros i g Hg. apply root_dent. by apply elist_lookup. }
  assert (∀ i g, files !! i = Some g → bytes (strip (in_name g))) as BF by (intros i g Hg; apply strip_bytes; by apply (Forall_lookup_1 _ files i g NB)).
  rewrite (dfind_first _ nm N 0 (2 + j)).
  - rewrite (HE j f NF), dirent_inum by lia. done.
  - lia.
  - intros [|[|q]] Hq.
    + rewrite (root_dent files 0 (dirent 1 [46]) eq_refl), matches_dirent, Et by (done || by repeat constructor). by apply bool_decide_false.
    + rewrite (root_dent files 1 (dirent 1 [46; 46]) eq_refl), matches_dirent, Et by (done || by repeat constructor). by apply bool_decide_false.
    + destruct (lookup_lt_is_Some_2 files q ltac:(lia)) as [g Hg]. change (S (S q)) with (2 + q)%nat. rewrite (HE q g Hg), matches_dirent, Et by (done || lia || eauto).
      apply bool_decide_false. intros E. by apply (NI q g ltac:(lia) Hg).
  - rewrite (HE j f NF), NS, matches_dirent by (done || lia). by apply bool_decide_true.
Qed.

Lemma skip_name c nm : c ≠ slash → slash ∉ c :: nm → skip_slashes (slash :: c :: nm) = c :: nm ∧ take_elem (c :: nm) = (c :: nm, []).
Proof.
  intros Hc Hs. cbn [skip_slashes]. change (slash =? slash) with true. cbv iota. rewrite (proj2 (Z.eqb_neq _ _)) by done. split; [done|].
  clear Hc. revert Hs. generalize (c :: nm). intros l. induction l as [|a l IH]; [done|]. intros [Ha Hl]%not_elem_of_cons. cbn [take_elem].
  rewrite (proj2 (Z.eqb_neq _ _)) by congruence. by rewrite IH.
Qed.

Section boot.
Context {PAT : Patience} {DEV : DevSw} (p : nat) (x : Z).

Lemma image_disk D fs j d F ty : image_ok D fs → (length fs < 200)%nat → fs !! j = Some (d, F) → is_ty ty d → ty ≠ 0 → on_disk SB0 (V_of D) (Z.of_nat (S j)) d.
Proof.
  intros [_ _ _ _ IS _ _ _] HN Hj (T1 & _ & _ & T4) Hty. destruct (IS j d F Hj) as (S1 & S2 & _). apply lookup_lt_Some in Hj.
  split; [simpl; lia|done|done|congruence|lia].
Qed.
Lemma geom_of D k : length D = 1000%nat → sb k = SB0 → geom 2 30 D SB0 59 k.
Proof. intros HL Hk. pose proof GE0 as [G1 G2 G3 G4 G5 G6 G7 G8 G9 _]. split; try done. by rewrite HL. Qed.
Lemma idle_icache I n : I = replicate n inode0 → (2 ≤ n)%nat → (∀ V, icoh SB0 V I) ∧ no_locks I ∧ two_free I.
Proof.
  intros -> Hn. split_and!.
  - intros V. apply Forall_replicate. split; [done|]. simpl. lia.
  - intros j Hj. rewrite length_replicate in Hj. by rewrite lookup_total_replicate_2.
  - exists 0%nat, 1%nat. rewrite length_replicate, !lookup_total_replicate_2 by lia. split_and!; [done|lia|lia|done|done].
Qed.

(** C5: Builder and kernel fit together. On an image [mkfs] has written, a kernel that
    has read the super block and starts with an empty inode cache and no dirty buffer
    resolves the absolute path of a file of the command line through the root
    directory, and reads exactly the bytes the builder was given; the leading
    underscore of the name is gone. The disk is unchanged, nothing panics or blocks,
    and no lock is left held. *)
Theorem mkfs_boots files j f nm n s tr k : mkfs files = Done tt s → (length files ≤ 198)%nat → ((length files + 2) `mod` 32 ≠ 0)%nat →
  names files j f nm → idle p x 2 30 (img s) tr k → sb k = sb_of (img s !!! 1%nat) → icache k = replicate NINODE inode0 → Z.of_nat n < 2147483648 →
  let c := Nat.min n (length (data f)) in
  ∃ k', read_path (slash :: nm) (Z.of_nat n) k = Ok (Some (Z.of_nat c, take c (data f))) k' ∧ disk k' = img s ∧ held k' = [].
Proof.
  intros Hmk HN Hm HNm HI Hsb Hic Hn c. pose proof (mkfs_image_ok files HN Hm s Hmk) as (dR & fs & IM & TR & TF & EF).
  assert (length fs = length files) as Lfs by (rewrite <- (length_fmap snd fs), EF, length_fmap; done).
  pose proof IM as [IL IB _ IS ISl IF _ _]. rewrite IB in Hsb. pose proof (geom_of (img s) k IL Hsb) as GE.
  destruct (idle_icache (icache k) NINODE Hic ltac:(unfold NINODE; lia)) as (HC & HU & HT).
  pose proof (idle_fsst p x 2 30 (img s) tr k (icache k) k HI (frest_self k)) as K0.
  pose proof (nm_file _ _ _ _ HNm) as Hj. pose proof (lookup_lt_Some _ _ _ Hj) as Hjl.
  destruct (lookup_lt_is_Some_2 fs j ltac:(lia)) as [[d F] Hd].
  assert (F = data f) as ->. { apply (f_equal (.!! j)) in EF. rewrite !list_lookup_fmap, Hd, Hj in EF. by injection EF. }
  set (m := 2 + Z.of_nat j).
  assert (file_at SB0 59 (V_of (img s)) m (data f) d) as HFa.
  { pose proof (Forall_lookup_1 _ _ _ _ TF Hd) as TFd. simpl in TFd. replace m with (Z.of_nat (S (S j))) by (unfold m; lia). split.
    - by apply (image_disk _ _ (S j) d (data f) T_FILE IM); [simpl; lia|exact Hd|exact TFd|].
    - destruct TFd as (-> & _). done.
    - by apply (IF (S j)).
    - by apply (ISl (S j)). }
  set (F := pad (root_dir files)) in *. assert (length F = 16 * (32 * blocks (length (root_dir files))))%nat as LF by (unfold F; rewrite pad_length; lia).
  pose proof (root_dir_length files) as LR.
  assert (walks SB0 59 (V_of (img s)) ROOTINO (slash :: nm) m) as HW.
  { pose proof (nm_len _ _ _ _ HNm) as Hnl. pose proof (nm_slash _ _ _ _ HNm) as Hns. destruct nm as [|ch nm]; [simpl in Hnl; lia|].
    destruct (skip_name ch nm) as [E1 E2]; [intros ->; apply Hns; by left|done|].
    eapply (walk_step _ _ _ ROOTINO dR F (32 * blocks (length (root_dir files))) (slash :: ch :: nm) (ch :: nm) [] (2 + j)%nat m m); [|by rewrite E1|by rewrite E1| |by apply walk_end].
    - split; [|by destruct TR|by apply (IF 0%nat)|by apply (ISl 0%nat)|done]. apply (image_disk _ _ 0 dR F T_DIR IM); [simpl; lia|done|done|done].
    - apply (root_finds files j f _ _ HNm HN). pose proof (blocks_bound (length (root_dir files))). lia. }
  destruct (kwp_returns (read_path (slash :: nm) (Z.of_nat n)) (λ v d, v = Some (Z.of_nat c, take c (data f)) ∧ disk d = img s ∧ held d = []) k)
    as (v & k' & dd & E & Hdd & -> & HD & HH).
  { eapply (kwp_read_path p x no_switch 2 30 SB0 59 0 (img s) tr k GE (V_of (img s)) IS (slash :: nm) m (data f) d n (icache k));
      [done|exact HW|exact HFa|lia|exact HT|exact K0|apply HC|exact HU|]. intros c' I k1 K1 _. split; [done|].
    pose proof (fsst_bctx _ _ _ _ _ _ _ _ _ _ _ _ _ K1) as [(_ & Hh & _) _]. destruct K1 as ([(_ & Hdk & _) _ _ _ _ _] & _ & _). split; [done|done]. }
  exists k'. keqv_rd Hdd. split_and!; [exact E|by rewrite Hdisk|by rewrite Hheld].
Qed.
End boot.

(** A kernel that has just read the super block of the image, with the inodes and
    open files [I] and [T]; at first there are none. *)
Definition kernel_with (I : list inode) (T : list file) (D : list (list Z)) : kernel :=
  demo_kernel <| sb := SB0 |> <| icache := I |> <| ftable := T |>
    <| klog := mkLog 2 30 0 0 1 0 (replicate 30 0) |> <| disk := D |> <| bufs := fresh_bufs |>.
Definition boot_kernel : list (list Z) → kernel := kernel_with (replicate NINODE inode0) (replicate NFILE file0).
Lemma boot_idle I T D : length D = 1000%nat → D !!! 2%nat = zeros → idle 1 2 2 30 D [] (kernel_with I T D).
Proof.
  intros HL H2. split; try done; change (Z.to_nat 2) with 2%nat; rewrite ?H2; [|done|done|rewrite HL; lia].
  split; [apply bctx_disk, bctx_klog, bctx_files, demo_ctx|]. split; [exact eq_refl|split; [exact eq_refl|apply cache_fresh]].
Qed.

Lemma mkfs_boots_witness : ∃ s k', mkfs demo_inputs = Done tt s ∧
  read_path (PAT := 0%nat) (DEV := no_dev) [47; 108; 115] 3 (boot_kernel (img s)) = Ok (Some (3, [127; 69; 76])) k'.
Proof.
  pose proof (mkfs_spec demo_inputs ltac:(simpl; lia) ltac:(by vm_compute)) as H.
  destruct (mkfs demo_inputs) as [[] s| |] eqn:E; [|exfalso; apply H, (bool_decide_unpack _); by vm_compute..].
  destruct H as (dR & fs & [H1 H2 H3 _ _ _ _ _] & _).
  destruct (mkfs_boots (PAT := 0%nat) (DEV := no_dev) 1 2 demo_inputs 0 (mkInput [95; 108; 115] (Some [[127; 69]; [76; 70]])) [108; 115] 3 s [] (boot_kernel (img s)))
    as (k' & Hk & _); [exact E|simpl; lia|by vm_compute| |by apply boot_idle|by rewrite H2|exact eq_refl|done|exists s, k'; split; [done|exact Hk]].
  split; [by repeat constructor|done|done|vm_compute; lia|by apply (bool_decide_unpack _); vm_compute|by split|intros i g Hi; lia].
Defined.
