(* ===== verification/RootHole.v ===== *)
(** * A root directory that fills its blocks

    [mkfs] rounds the size of the root directory up to whole blocks, by a whole block
    when the entries fill the last one. The kernel that reads such a directory to the
    end comes to a block the directory does not have. *)
From stdpp Require Import base strings numbers gmap list.
From S2P Require Import Prelude Machine KString Kernel Locks Kalloc Proc ProcSpec Sleeplock Bio BioSpec Log LogSpec TxnSpec Fs FsSpec.
From S2P Require Import Pipe File FileSpec Mkfs MkfsSpec MkfsImage NameSpec BootFs.

(** ** The image *)

(** The entries of the root directory are all there, but its inode [dR] says it is a
    block longer, and has no address for that block. The blocks from [fb] on are free. *)
Record hole_image (D : list (list Z)) (files : list input) (fb : Z) (dR : dinode) : Prop := {
  hi_len : length D = 1000%nat;
  hi_sb : sb_of (D !!! 1%nat) = SB0;
  hi_log : D !!! 2%nat = zeros;
  hi_sane : sane 2 30 D SB0 59 (V_of D);
  hi_disk : on_disk SB0 (V_of D) ROOTINO dR;
  hi_type : dtype dR = T_DIR;
  hi_size : dsize dR = Z.of_nat (length (root_dir files)) + 512;
  hi_file : frep0 (V_of D) (daddrs dR) (root_dir files);
  hi_hole : daddrs dR !!! ((length files + 2) `div` 32)%nat = 0;
  hi_fb : 59 ≤ fb ≤ 1000;
  hi_bm : V_of D 58 = bitmap (Z.to_nat fb) }.

Lemma full_length files : ((length files + 2) `mod` 32 = 0)%nat → length (root_dir files) = (512 * ((length files + 2) `div` 32))%nat.
Proof. intros Hm. rewrite root_dir_length. pose proof (Nat.div_mod_eq (length files + 2) 32). lia. Qed.

Lemma mwp_fix_root_full E V s dR R fs (Q : () → mkst → Prop) : mkok V s ((dR, R) :: fs) → (length R `mod` 512 = 0)%nat → Z.of_nat (length R) ≤ 5120 →
  (∀ s', let d' := dR <| dsize := Z.of_nat (length R) + 512 |> in vw (iview V 1 d') s' → Q tt s') → mwp (fix_root 1) Q E s.
Proof.
  intros H Hm HR HQ. pose proof (mo_vw _ _ _ H) as W. pose proof (mo_file _ _ _ H 0 dR R eq_refl) as [S1 _ _ S4 S5].
  change (Z.of_nat 1) with 1 in S1. unfold fix_root. apply mwp_bind, (mwp_rinode E V s _ dR); [done|done|done|done|]. cbv zeta.
  rewrite S4, (xint_id (Z.of_nat (length R))) by lia. pose proof (Nat.div_mod_eq (length R) 512).
  assert (u32 ((Z.of_nat (length R) / BSIZE + 1) * BSIZE) = Z.of_nat (length R) + 512) as ->.
  { unfold BSIZE. change 512 with (Z.of_nat 512). rewrite <- Nat2Z.inj_div, u32_small by lia. lia. }
  rewrite xint_id by lia. apply (mwp_winode E V); [done|done|apply S5|]. auto.
Qed.

Lemma hole_ok V s files dR fs s' : let d' := dR <| dsize := Z.of_nat (length (root_dir files)) + 512 |> in
  mkok V s ((dR, root_dir files) :: fs) → (length files ≤ 198)%nat → ((length files + 2) `mod` 32 = 0)%nat → is_ty T_DIR dR →
  vw (iview V 1 d') s' → hole_image (<[58%nat := bitmap (Z.to_nat (freeblock s'))]> (img s')) files (freeblock s') d'.
Proof.
  intros d' H HN Hm (T1 & T2 & T3 & T4) W'. destruct (vw_image _ _ _ W' eq_refl) as (LD & EV & EH & HS). set (D := <[58%nat := _]> _) in *.
  pose proof (mo_vw _ _ _ H) as W. pose proof (mo_file _ _ _ H 0 dR _ eq_refl) as [_ S2 S3 _ S5]. pose proof S5 as [P1 P2 P3 P4 P5 P6 P7].
  destruct (inode_view_ok 2 30 D0 SB0 59 R0 GE0 V (ino 1 d') (daddrs d') (pad (root_dir files)) (vw_sane _ _ W) S2 ltac:(done) P6) as (_ & HF & _).
  pose proof (iblock_range 1 ltac:(lia)) as Hib. pose proof (full_length files Hm) as LF. pose proof (Nat.div_mod_eq (length files + 2) 32).
  assert (∀ c, c ≠ IBLOCK 1 SB0 → iview V 1 d' c = V c) as EI by (intros c Hc; by apply vset_ne).
  split.
  - done.
  - change (D !!! 1%nat) with (V_of D 1). rewrite EV, EI, (mo_sb _ _ _ H) by lia. vm_compute. reflexivity.
  - change (D !!! 2%nat) with (V_of D 2). rewrite EV, EI by lia. by apply (mo_log _ _ _ H).
  - done.
  - split; [done| | |simpl; by rewrite T1|simpl; by rewrite T4].
    + change ROOTINO with 1. rewrite EV by lia. by apply (iview_same V 1 d' s W).
    + split; try done. change (0 ≤ Z.of_nat (length (root_dir files)) + 512 < 4294967296). lia.
  - done.
  - done.
  - apply (view_frep 2 30 SB0 59 D0 R0 GE0 (iview V 1 d') (V_of D) EH). by apply frep_pad.
  - set (n := ((length files + 2) `div` 32)%nat) in *. pose proof (blocks_bound (length (root_dir files))).
    pose proof (S3 n ltac:(unfold NDIRECT, NINDIRECT; lia)) as Hn. unfold blk_of in Hn. rewrite decide_True in Hn by (unfold NDIRECT; lia). done.
  - apply W'.
  - rewrite EV by lia. apply W'.
Qed.

Lemma mkfs_hole files : (length files ≤ 198)%nat → ((length files + 2) `mod` 32 = 0)%nat →
  match mkfs files with
  | Done _ s => ∃ dR, hole_image (img s) files (freeblock s) dR
  | Exit1 | Aborted => ¬ fitting files
  end.
Proof.
  intros HN Hm. assert (mwp (main files) (λ _ s, ∃ dR, hole_image (img s) files (freeblock s) dR) (¬ fitting files) (mkMkst [] 1 0)) as H.
  2:{ rewrite mkfs_eq. exact (mwp_elim _ _ _ _ H). }
  pose proof (full_length files Hm) as LF. pose proof (root_dir_length files) as LR.
  apply mwp_main_files; [done|done|done|destruct (decide (fitting files)); [by left|by right]|]. intros V s1 dR fs H1 L1 T1 _ _.
  apply mwp_bind, (mwp_fix_root_full _ V s1 dR (root_dir files) fs); [done| |lia|].
  { rewrite LF, Nat.mul_comm. by apply Nat.Div0.mod_mul. }
  intros s2 d' W2. apply (mwp_main_bitmap _ _ _ _ W2). exists d'. by apply (hole_ok V s1 files dR fs s2).
Qed.
Lemma root_dents files m : (m ≤ length files + 2)%nat → dent (root_dir files) <$> seq 0 m = take m (ents files).
Proof.
  intros Hm. assert (∀ n l, length (elist n l) = length l) as Le by (intros n l; revert n; induction l as [|g l IH]; intros n; simpl; [done|by rewrite IH]).
  assert (length (ents files) = length files + 2)%nat as Ll by (unfold ents; simpl; rewrite Le; lia).
  apply list_eq. intros j. rewrite list_lookup_fmap. destruct (decide (j < m)%nat) as [Hj|Hj].
  - rewrite lookup_seq_lt, lookup_take_lt by done. simpl. destruct (lookup_lt_is_Some_2 (ents files) j ltac:(lia)) as [e He]. rewrite He. f_equal.
    unfold dent, root_dir. rewrite entries_elist. change (dirent 1 [46] ++ dirent 1 [46; 46] ++ concat (elist 2 files)) with (concat (ents files)).
    rewrite <- (app_nil_r (concat (ents files))). apply concat_slice; [apply ents_length|done].
  - rewrite lookup_seq_ge, lookup_take_ge by lia. done.
Qed.

(** ** Calls that panic *)
Definition kpan {A} (e : string) (m : K A) (k : kernel) : Prop := ∀ s, s ≃ k → ∃ s', m s = Panic e s'.
Section panics.
Context {A B : Type} (e : string).
Lemma kpan_bind (m : K A) (f : A → K B) k : kwp m (λ a, kpan e (f a)) no_switch k → kpan e (m ≫= f) k.
Proof.
  intros H s Hs. destruct (kwp_returns m _ s (kwp_conv _ _ _ _ _ Hs H)) as (a & s1 & d & E & Hd & Hf). destruct (Hf s1 Hd) as [s' Ef].
  exists s'. by rewrite (bind_ok m f s a s1 E).
Qed.
Lemma kpan_first (m : K A) (f : A → K B) k : kpan e m k → kpan e (m ≫= f) k.
Proof. intros H s Hs. destruct (H s Hs) as [s' E]. exists s'. by apply bind_panic. Qed.
Lemma kpan_here k : kpan e (panic e : K A) k.
Proof. intros s _. by exists s. Qed.
Lemma kpan_run (m : K A) k : kpan e m k → ∃ s', m k = Panic e s'.
Proof. intros H. by apply H. Qed.
End panics.
(** A command that returns, and the rest. *)
Ltac pstep := apply kpan_bind; try kstep.

Section dir.
Context {PAT : Patience} {DEV : DevSw} (p : nat) (x : Z) (D : list (list Z)) (tr : list (nat * list Z)).
Context (files : list input) (fb : Z) (dR : dinode) (HI : hole_image D files fb dR).
Abbreviation F := (root_dir files).
Abbreviation st R I := (fsst p x 2 30 0 D tr R (V_of D) [] ∅ I).

(** File [f] is open for reading on the inode in slot [i], at offset [q]. *)
Record reading (k : kernel) (f i q : nat) : Prop := {
  rd_len : (f < length (ftable k))%nat;
  rd_type : ftype (ftable k !!! f) = FD_INODE;
  rd_ip : fip (ftable k !!! f) = Some i;
  rd_read : freadable (ftable k !!! f) ≠ 0;
  rd_off : foff (ftable k !!! f) = Z.of_nat q }.
(** The slot is a reference to the root directory that nobody has locked. *)
Record root_ref (ip : inode) : Prop := {
  rr_ref : 1 ≤ iref ip;
  rr_dev : idev ip = 1;
  rr_num : inum ip = ROOTINO;
  rr_lock : slocked (islp ip) = 0;
  rr_slot : slot_ok SB0 (V_of D) ip }.
Definition dir_st (f i q : nat) (k : kernel) : Prop := ∃ R I, idle p x 2 30 D tr k ∧ frest k = (frest R) <| icache := I |> ∧
  geom 2 30 D SB0 59 R ∧ reading R f i q ∧ (i < length I)%nat ∧ root_ref (I !!! i).

(** A read of bytes the file has. *)
Lemma kwp_readi_in R I i q n (Q : Z * list Z → kernel → Prop) k : geom 2 30 D SB0 59 R → st R I k → (i < length I)%nat → idev (I !!! i) = 1 →
  itype (I !!! i) ≠ T_DEV → iaddrs (I !!! i) = daddrs dR → isize (I !!! i) = dsize dR → (q + n ≤ length F)%nat →
  (∀ k', st R I k' → Q (Z.of_nat n, slice F q n) k') → kwp (readi i (Z.of_nat q) (Z.of_nat n)) Q no_switch k.
Proof.
  intros GE HK Hi Hd Ht HA Hz Hq HQ. pose proof (hi_size _ _ _ _ HI) as HS. pose proof (fr_max _ _ _ _ _ (hi_file _ _ _ _ HI)) as HM.
  unfold NDIRECT, NINDIRECT in HM. unfold readi. kstep. eapply kwp_islot; [exact HK|].
  rewrite (proj2 (Z.eqb_neq _ _)) by done. rewrite u32_small, Hz, HS by lia.
  rewrite !(proj2 (Z.ltb_ge _ _)) by lia. cbn [orb]. cbv zeta. kstep. rewrite <- (Z.add_0_l (Z.of_nat n)) at 2.
  eapply (kwp_readi_loop p x no_switch 2 30 0 D tr SB0 59 R GE i (V_of D) [] I F); [done|done|apply HI|rewrite HA; apply HI|unfold nind; case_decide; simpl; lia|exact HK|lia| |].
  - unfold BSIZE. change 512 with (Z.of_nat 512). rewrite <- Nat2Z.inj_div. replace (Z.to_nat (Z.of_nat (n `div` 512) + 2)) with (n `div` 512 + 2)%nat by lia. apply span_fuel.
  - intros k' K'. kstep. by apply HQ.
Qed.

Lemma root_ref_back ip : root_ref ip → root_ref (unlock_inode (loaded x dR ip)).
Proof.
  intros [R1 R2 R3 R4 [R5 _]]. split; [done|done|done|done|]. split; [done|]. intros _ _. right. split; [done|]. intros d Hd.
  simpl in Hd. rewrite R3 in Hd. by rewrite (on_disk_fun _ _ _ d dR Hd (hi_disk _ _ _ _ HI)).
Qed.

(** [ilock] of the root directory, on the way into [fileread]. *)
Lemma kwp_ilock_root R I i (Q : unit → kernel → Prop) k : geom 2 30 D SB0 59 R → st R I k → (i < length I)%nat → root_ref (I !!! i) →
  (∀ k', let I' := alter (loaded x dR) i I in st R I' k' → I' !!! i = loaded x dR (I !!! i) → Q tt k') → kwp (ilock (Some i)) Q no_switch k.
Proof.
  intros GE HK Hi [R1 R2 R3 R4 R5] HQ. eapply (kwp_iload p x no_switch 2 30 SB0 59 0 D tr R GE (V_of D) ROOTINO dR I i); [exact HK|done..|apply HI|].
  intros k' K'. apply HQ; [done|]. by rewrite list_alter_total, decide_True.
Qed.

(** An entry the directory has. *)
Lemma kwp_read_entry f i q (Q : Z * list Z → kernel → Prop) k : dir_st f i q k → (q + 16 ≤ length F)%nat →
  (∀ k', dir_st f i (q + 16) k' → Q (16, slice F q 16) k') → kwp (fileread f 16) Q no_switch k.
Proof.
  intros (R & I & HJ & HR & GE & [OL OT OI OR OO] & Hi & HN) Hq HQ.
  pose proof (idle_fsst p x 2 30 D tr R I k HJ HR) as K1. pose proof (fr_max _ _ _ _ _ (hi_file _ _ _ _ HI)) as HM. unfold NDIRECT, NINDIRECT in HM.
  unfold fileread. kstep. eapply kwp_fget; [exact K1|]. rewrite (proj2 (Z.eqb_neq _ _)) by done. rewrite OT, OI, OO.
  kstep. eapply kwp_ilock_root; [exact GE|exact K1|done|done|]. intros k2 I2 K2 E2. kstep. cbn [deref]. kstep. kstep.
  change 16 with (Z.of_nat 16). eapply (kwp_readi_in R I2 i q 16); [exact GE|exact K2|by unfold I2; rewrite length_alter|rewrite E2; apply HN| |by rewrite E2|by rewrite E2|done|].
  { rewrite E2. simpl. by rewrite (hi_type _ _ _ _ HI). }
  intros k3 K3. kstep. eapply (kwp_bump p x no_switch 2 30 0 D tr R (V_of D) [] I2 f q 16); [exact K3|exact OO|lia|]. intros k4 K4.
  kstep. eapply kwp_iunlock; [apply _|exact K4|by unfold I2; rewrite length_alter|rewrite E2; apply HN|by rewrite E2|]. intros k5 K5. kstep. apply HQ.
  unfold I2 in K5. rewrite alter_alter in K5. destruct (fsst_idle _ _ _ _ _ _ _ _ _ _ HJ K5) as [HJ5 HR5].
  eexists _, _. split_and!; [exact HJ5|exact HR5|by apply geom_ftable| |by rewrite length_alter|].
  - split; simpl; rewrite ?list_alter_total, ?decide_True, ?length_alter by done; done.
  - rewrite list_alter_total, decide_True by done. by apply root_ref_back.
Qed.

(** The allocation of a block outside of a transaction. *)
Definition hole_panic : string := if fb <? 1000 then "log_write outside of trans" else "balloc: out of blocks".
Lemma log_write_panics b k : lh_n (klog k) = 0 → lsize (klog k) = 30 → outstanding (klog k) = 0 → kpan "log_write outside of trans" (log_write b) k.
Proof. intros E1 E2 E3. unfold log_write. pstep. rewrite E1, E2, E3. change ((LOGSIZE <=? 0) || (30 - 1 <=? 0)) with false. cbv iota. pstep. apply kpan_first, kpan_here. Qed.
Lemma balloc_panics R I k : geom 2 30 D SB0 59 R → st R I k → kpan hole_panic (Fs.balloc 1) k.
Proof.
  intros GE HK. pose proof (hi_fb _ _ _ _ HI). unfold Fs.balloc. apply kpan_bind. eapply kwp_sb; [exact GE|exact HK|]. change (Z.to_nat (sb_size SB0 / BPB + 1)) with 1%nat. cbn [balloc_loop].
  apply kpan_bind. eapply kwp_sb; [exact GE|exact HK|]. change (0 <? sb_size SB0) with true. cbv iota. change (BBLOCK 0 SB0) with 58.
  apply kpan_bind. eapply kwp_rd; [apply _|exact HK|rewrite (hi_len _ _ _ _ HI); lia|apply has_empty|rewrite map_size_empty; simpl; unfold NBUF; lia|]. intros b k1 _ K1.
  apply kpan_bind. eapply kwp_slot; [exact K1|apply lookup_insert_eq|]. intros r Er. rewrite Er, (hi_bm _ _ _ _ HI).
  change (Z.to_nat (Z.min BPB (sb_size SB0 - 0))) with 1000%nat. unfold hole_panic. destruct (free_bit _ _ _) as [bi|] eqn:E.
  - apply free_bit_Some in E as [Hb Hu]. rewrite bitmap_used in Hu by lia. apply Z.ltb_ge in Hu. rewrite (proj2 (Z.ltb_lt fb 1000)) by lia. unfold bset. pstep.
    destruct K1 as ([_ [] _ _ _ _] & _ & _). by apply kpan_first, log_write_panics.
  - rewrite (proj2 (Z.ltb_ge fb 1000)).
    + apply kpan_bind. eapply kwp_rel; [apply _|exact K1|apply lookup_insert_eq|]. intros k2 K2. rewrite delete_insert_id in K2 by done.
      apply kpan_bind. eapply kwp_sb; [exact GE|exact K2|]. apply kpan_here.
    + destruct (decide (fb < 1000)) as [Hf|]; [|lia]. pose proof (free_bit_None _ _ _ fb E ltac:(lia)) as Hu. rewrite bitmap_used in Hu by lia. apply Z.ltb_lt in Hu. lia.
Qed.

(** The read behind the last entry. *)
Lemma read_hole_panics f i k : (length files ≤ 198)%nat → ((length files + 2) `mod` 32 = 0)%nat → dir_st f i (length F) k → kpan hole_panic (fileread f 16) k.
Proof.
  intros HN Hm (R & I & HJ & HR & GE & [OL OT OI OR OO] & Hi & [R1 R2 R3 R4 R5]). pose proof (idle_fsst p x 2 30 D tr R I k HJ HR) as K1.
  pose proof (full_length files Hm) as LF. pose proof (Nat.div_mod_eq (length files + 2) 32). pose proof (hi_hole _ _ _ _ HI) as HH.
  set (n := ((length files + 2) `div` 32)%nat) in *. pose proof (hi_size _ _ _ _ HI) as HS. assert (Z.of_nat (length F) / BSIZE = Z.of_nat n) as En.
  { rewrite LF. unfold BSIZE. rewrite Nat2Z.inj_mul, Z.mul_comm. by apply Z.div_mul. }
  unfold fileread. apply kpan_bind. eapply kwp_fget; [exact K1|]. rewrite (proj2 (Z.eqb_neq _ _)) by done. rewrite OT, OI, OO.
  apply kpan_bind. eapply kwp_ilock_root; [exact GE|exact K1|done|by split|]. intros k2 I2 K2 E2. cbn [deref]. pstep.
  apply kpan_first. unfold readi. apply kpan_bind. eapply kwp_islot; [exact K2|]. rewrite E2. simpl itype. simpl isize.
  rewrite (hi_type _ _ _ _ HI), HS, u32_small by lia. change (T_DIR =? T_DEV) with false. cbv iota.
  rewrite !(proj2 (Z.ltb_ge _ _)) by lia. cbn [orb]. cbv zeta. apply kpan_first. cbn [readi_loop]. change (0 <? 16) with true. cbv iota.
  apply kpan_bind. eapply kwp_islot; [exact K2|]. apply kpan_first. unfold bmap. apply kpan_bind. eapply kwp_islot; [exact K2|].
  rewrite E2, En, Nat2Z.id. simpl iaddrs. simpl idev. rewrite HH, R2. rewrite (proj2 (Z.ltb_lt _ _)) by (unfold NDIRECT; lia).
  cbv zeta. rewrite Z.eqb_refl. by apply kpan_first, (balloc_panics R I2).
Qed.

(** ** Reading the directory to the end *)

(** The loop of [ls] and [find] over a directory open in [f], of at most [n] turns:
    the entries it has seen. *)
Fixpoint read_dirents (n : nat) (f : nat) : K (list (list Z)) :=
  match n with
  | O => mret []
  | S n =>
      '(c, de) ← fileread f 16;
      if c =? 16 then des ← read_dirents n f; mret (de :: des) else mret []
  end.

Lemma kwp_read_dirents f i n : ∀ j k (Q : list (list Z) → kernel → Prop), dir_st f i (16 * j) k → (j + n ≤ length files + 2)%nat →
  (∀ k', dir_st f i (16 * (j + n)) k' → Q (dent F <$> seq j n) k') → kwp (read_dirents n f) Q no_switch k.
Proof.
  induction n as [|n IH]; intros j k Q HK Hj HQ; cbn [read_dirents seq fmap list_fmap].
  - kstep. apply HQ. by rewrite Nat.add_0_r.
  - kstep. eapply kwp_read_entry; [exact HK|rewrite root_dir_length; lia|]. intros k1 K1. change (16 =? 16) with true. cbv iota.
    kstep. apply (IH (S j)); [by replace (16 * S j)%nat with (16 * j + 16)%nat by lia|lia|]. intros k2 K2. kstep. apply HQ.
    by replace (j + S n)%nat with (S j + n)%nat by lia.
Qed.
Lemma read_dirents_panics f i n : (length files ≤ 198)%nat → ((length files + 2) `mod` 32 = 0)%nat → ∀ j k, dir_st f i (16 * j) k → (j ≤ length files + 2 < j + n)%nat →
  kpan hole_panic (read_dirents n f) k.
Proof.
  intros HN Hm. induction n as [|n IH]; intros j k HK Hj; [lia|]. cbn [read_dirents]. destruct (decide (j = length files + 2)%nat) as [->|Hn].
  - apply kpan_first, (read_hole_panics f i); [done|done|by rewrite root_dir_length].
  - apply kpan_bind. eapply kwp_read_entry; [exact HK|rewrite root_dir_length; lia|]. intros k1 K1. change (16 =? 16) with true. cbv iota.
    apply kpan_first, (IH (S j)); [by replace (16 * S j)%nat with (16 * j + 16)%nat by lia|lia].
Qed.
End dir.

(** C37: [mkfs] rounds the size of the root directory up by a whole block when its
    entries fill a block exactly, that is when 32 divides the number of files and 2,
    and allocates no block for it. For up to 198 such files [mkfs] gives up only if
    they do not fit; otherwise the inode of the root directory says 512 bytes more
    than the entries have and has no address for them. On a kernel with no operation
    in progress that has the root directory open for reading at its beginning, a
    program that reads entry after entry, as [ls] does, gets each entry of the
    directory; and if it goes on to the end, [readi] allocates the missing block
    outside of a transaction, and the kernel panics. *)
Theorem root_hole_panics {PAT : Patience} {DEV : DevSw} p x files : (length files ≤ 198)%nat → ((length files + 2) `mod` 32 = 0)%nat →
  match mkfs files with
  | Done _ s =>
      (∃ dR, on_disk SB0 (V_of (img s)) ROOTINO dR ∧ dsize dR = 16 * (Z.of_nat (length files) + 2) + 512 ∧ daddrs dR !!! ((length files + 2) `div` 32)%nat = 0) ∧
      ∀ tr k f i, idle p x 2 30 (img s) tr k → sb k = sb_of (img s !!! 1%nat) → reading k f i 0 → (i < length (icache k))%nat → root_ref (img s) (icache k !!! i) →
        ∀ n, if (n <=? length files + 2)%nat then ∃ k', read_dirents n f k = Ok (take n (ents files)) k'
             else ∃ k', read_dirents n f k = Panic (if freeblock s <? 1000 then "log_write outside of trans" else "balloc: out of blocks") k'
  | Exit1 | Aborted => ¬ fitting files
  end.
Proof.
  intros HN Hm. pose proof (mkfs_hole files HN Hm) as H. destruct (mkfs files) as [? s| |]; [|done|done]. destruct H as [dR HI]. split.
  { exists dR. split; [apply HI|]. split; [rewrite (hi_size _ _ _ _ HI), root_dir_length; lia|apply HI]. }
  intros tr k f i HJ Hsb HR Hi HN' n. rewrite (hi_sb _ _ _ _ HI) in Hsb.
  assert (dir_st p x (img s) tr f i (16 * 0) k) as K0.
  { exists k, (icache k). split_and!; [done|apply frest_self|apply (geom_of _ _ (hi_len _ _ _ _ HI) Hsb)|done|done|done]. }
  destruct (Nat.leb_spec n (length files + 2)).
  - destruct (kwp_returns (read_dirents n f) (λ v _, v = take n (ents files)) k) as (v & k' & d & E & _ & ->); [|by exists k'].
    eapply (kwp_read_dirents p x (img s) tr files _ dR HI f i n 0); [exact K0|lia|]. intros k' _. by apply root_dents.
  - apply kpan_run. apply (read_dirents_panics p x (img s) tr files (freeblock s) dR HI f i n HN Hm 0); [exact K0|lia].
Qed.

(** Thirty empty files, and the root directory open in file 0. *)
Definition thirty : list input := (λ i, mkInput [65 + i] (Some [])) <$> seqZ 0 30.
Definition open_root : list (list Z) → kernel :=
  kernel_with (mkInode 1 ROOTINO 1 (mkSlk 0 0) 0 0 0 0 0 0 (replicate 13 0) :: replicate 49 inode0)
    (mkFile FD_INODE 1 1 0 0 (Some 0%nat) 0 :: replicate 99 file0).
Lemma root_hole_panics_witness : ∃ s k' k'', mkfs thirty = Done tt s ∧ read_dirents (PAT := 0%nat) (DEV := no_dev) 32 0 (open_root (img s)) = Ok (ents thirty) k' ∧
  read_dirents (PAT := 0%nat) (DEV := no_dev) 33 0 (open_root (img s)) = Panic "log_write outside of trans" k''.
Proof.
  pose proof (root_hole_panics (PAT := 0%nat) (DEV := no_dev) 1 2 thirty ltac:(vm_compute; lia) ltac:(by vm_compute)) as H.
  assert (match mkfs thirty with Done _ s => freeblock s <? 1000 | _ => false end = true) as Hd by (vm_compute; reflexivity).
  pose proof (mkfs_hole thirty ltac:(vm_compute; lia) ltac:(by vm_compute)) as HI.
  destruct (mkfs thirty) as [[] s| |]; [|done|done]. destruct H as [_ H], HI as [dR HI]. rewrite Hd in H.
  assert (∀ n, if (n <=? 32)%nat then ∃ k', read_dirents (PAT := 0%nat) (DEV := no_dev) n 0 (open_root (img s)) = Ok (take n (ents thirty)) k'
    else ∃ k', read_dirents (PAT := 0%nat) (DEV := no_dev) n 0 (open_root (img s)) = Panic "log_write outside of trans" k') as H'.
  { apply (H [] (open_root (img s)) 0%nat 0%nat).
    - apply boot_idle; apply HI.
    - by rewrite (hi_sb _ _ _ _ HI).
    - by split; [vm_compute; lia|..].
    - vm_compute; lia.
    - split; [done..|]. split; [done|]. intros _ _. by left. }
  destruct (H' 32%nat) as [k1 E1]. destruct (H' 33%nat) as [k2 E2]. exists s, k1, k2. split; [done|]. split; [exact E1|exact E2].
Defined.
